(* ===== verification/_CoqProject ===== *)
-Q . S2P
Prelude.v
Words.v
A64.v
Instr.v
EncReg.v
EncSpec.v
EncArith.v
EncMem.v
EncBranch.v
EncFloat.v
Encoders.v
Labels.v
Linker.v
Machine.v
CallFrame.v
FrameLayout.v
CallFrameProof.v
Registers.v
RegisterProof.v
Functions.v
RegisterSpec.v
FunctionSpec.v
Ast.v
SymbolTable.v
Analysis.v
Data.v
DataProof.v
State.v
Cfg.v
CfgSpec.v
CfgProof.v
CfgVisit.v
CfgExec.v
CfgSwitch.v
CfgBuild.v
CfgProgram.v
CfgTheorems.v
Accesses.v
Liveness.v
LivenessProof.v
LivenessTheorems.v
Codegen.v
CodegenExpr.v
CodegenCalls.v
CodegenStmt.v
OpsRun.v
ExprState.v
ExprProof.v
BlockProof.v
ConstFold.v
ConstFoldProof.v
ConstFoldTheorems.v
Trees.v
Lexer.v
LexerProof.v
Parser.v
ParserProof.v
ParserWhole.v
FrontEnd.v
Manifests.v
ManifestsProof.v
SymbolBuild.v
Analyzer.v
AnalyzerProof.v
AnalyzerTheorems.v
LocalOpt.v
LocalOptProof.v
Reduction.v
Runtime.v
Compile.v
CompileProof.v
