(* ===== verification/Prelude.v ===== *)
(** * A verification library for the NewBCPL compiler

    NewBCPL (src/) compiles BCPL, extended with floating-point numbers, vectors, strings and
    lists, to ARM64 code that is run in place or written as assembly.  The source text is
    read by a lexer and a parser into a syntax tree (AST.h); passes analyse and rewrite it;
    [NewCodeGenerator] walks the tree, or the basic blocks of each function, and appends
    instructions, produced by the [Encoder], to an [InstructionStream], asking a
    [RegisterManager] for registers, a [CallFrameManager] for the frame, a [DataGenerator]
    for literals and global variables and a [LabelManager] for labels; the [Linker] then
    gives every entry an address and patches branches and addresses.  This library models
    the compiler from the text to the linked instruction words, as it runs without the
    optimising passes and the peephole optimizer, and most of these passes by themselves.

    ** The files

    - Prelude: exceptions and outcomes of C++ code, std::string, std::stoul and std::stoi,
      the tactics all files share.
    - Words, A64, Machine: machine words, the ARM64 instructions (decoding of instruction
      words) and their execution on 64-bit registers, memory and the flags.
    - Instr, EncReg, EncSpec, EncArith, EncMem, EncBranch, EncFloat, Encoders: the
      [Instruction] record (Encoder.h), the register-name parsers, and one definition per
      encoder of encoders/; [encodes_*] say which instruction an encoder emits for all
      operands, and what it refuses.
    - Labels, Linker: [LabelManager], [RuntimeManager], [InstructionStream] and both passes
      of [Linker] with BitPatcher.cpp and linker_helpers/.
    - CallFrame, FrameLayout, CallFrameProof: [CallFrameManager] (CallFrameManager.cpp and
      cf_*.cpp), the layout it builds, and the prologue and epilogue, executed.
    - Registers, RegisterProof, RegisterSpec: [RegisterManager] (RegisterManager.cpp and
      rm_*.cpp), operations on explicit state, and its invariant.
    - Functions, FunctionSpec: how [generate_function_like_code] combines the two.
    - Ast: the node classes of AST.h, [clone] and the variables of statements.
    - SymbolTable: Symbol.h and SymbolTable.cpp.
    - Analysis: VarType, [infer_expression_type] and [evaluate_constant_expression]
      (analysis/az_impl/ASTAnalyzer.cpp), and [FunctionMetrics] (DataTypes.h).
    - Data, DataProof: [DataGenerator].
    - Codegen, CodegenExpr, CodegenCalls, CodegenStmt: [NewCodeGenerator] in a state monad
      [G]: variables, then one definition per visitor of generators/ and
      NewCodeGenerator.cpp, then the branches between blocks, functions and programs.
    - OpsRun: the code of the integer operators, executed.
    - ExprState, ExprProof: the register manager while an expression is generated, the
      integer expressions over local variables, and the run of the code generated for one.
    - BlockProof: sequences of assignments, and the theorems on generated code.
    - State: methods of a pass as a state monad, and total correctness [ends].
    - Cfg: [BasicBlock], [ControlFlowGraph] and [CFGBuilderPass], blocks by address in a heap
      ([builder]), one definition per visitor.  CfgSpec: the executions of statements
      ([exec], [run_from]) and the paths of graphs ([reach]), without reference to the pass.
      CfgProof (the operations on a [good] state), CfgVisit (how visits compose), CfgExec,
      CfgSwitch, CfgBuild (each visitor adds the executions of its statement), CfgProgram
      (functions and programs), CfgTheorems.
    - Accesses: what statements read and assign, on their text and as steps of an execution.
    - Liveness: [LivenessAnalysisPass] (live_*.cpp) on the graphs of Cfg.  LivenessProof,
      LivenessTheorems: live variables as paths, and the fixed point.
    - ConstFold: [Optimizer] and [ConstantFoldingPass].  ConstFoldProof, ConstFoldTheorems:
      folded expressions and assignments against the evaluation of ExprProof.
    - Trees: what the later files say of syntax trees: induction, heights, and trees without
      a function in a block.
    - Lexer, LexerProof: Lexer.h and Lexer.cpp, one definition per scanning function; positions,
      the tokens of words and of literals.
    - Parser, ParserProof, ParserWhole: Parser.h and the pz_*.cpp files over any source of
      tokens (class [TokenSource]); why the parser ends, and when its trees are whole.
      FrontEnd: the two together.
    - Manifests, ManifestsProof: [ManifestResolutionPass] and the scoped traversal it computes.
    - SymbolBuild: [SymbolTableBuilder] and the table it leaves.
    - Analyzer, AnalyzerProof, AnalyzerTheorems: [ASTAnalyzer], one definition per visitor
      (az_visit_*.cpp), what every visitor keeps, and its theorems.
    - LocalOpt, LocalOptProof: [LocalOptimizationPass] on the blocks of Cfg.
    - Reduction: [StrengthReductionPass].  Runtime: the tables of runtime functions of
      RuntimeBridge.cpp and RuntimeSymbols.cpp.
    - Compile, CompileProof: the passes in the order of main.cpp; what they promise one another,
      and programs compiled, linked and executed.

    ** How state and errors are modelled

    An object is a record with the members of the class; an operation takes the state and
    returns the next one.  An encoder returns a [result], a value or the exception it throws;
    a stateful operation returns the state and an [outcome]: a value, an exception (the
    state is that of the throw), or [Undefined] for undefined behaviour of C++.  Addresses,
    offsets and instruction words are integers with the wrap-around of their C++ type
    written out.  Unordered containers are finite maps where the order is not observable.
    Text that is only printed is left out, but not the assembly text of instructions that
    other code reads.  The recursion of the visitors through [accept] is bounded by a fuel:
    a tree of height h is generated with fuel h; with less the outcome is [Undefined].

    ** What the theorems show

    - CompileProof: every text without FUNCTION and ROUTINE is rejected or analysed, and its
      graphs are built when its functions are structured; compiled programs, executed, compute
      what they say, for all arguments or for all up to a bound; programs whose parameters are
      overwritten.
    - FrontEnd: the parser ends, trees of programs without errors are whole, literals are read
      back, the lexer knows where it is; the text on which the parser hangs, and what cannot
      be written although the lexer has it.
    - ManifestsProof: names of constants get the values that scoping gives them, and
      assignments keep theirs.
    - SymbolBuild: the table holds the names declared outside functions, and nothing else.
    - AnalyzerTheorems: the analysis ends, back at the global scope; every FOR loop has
      variables of its own for its step and its limit.
    - LocalOptProof, Reduction: blocks and expressions keep their values; where calls are taken
      for one another, and where a negative dividend is shifted, they do not.
    - CfgTheorems: every execution of a function is a path of the graph built for it, and the
      graphs are well formed, for statements other than those the pass drops, with labels
      that do not end in a digit; what happens with such labels.
    - LivenessTheorems: the analysis ends, its sets are the variables that some path reads
      before it assigns them, whatever the order of the blocks, for the variables it sees all
      accesses of (Accesses); executions of structured programs stay within them; the register
      pressure; the case in which a test hides a use.
    - ConstFoldTheorems: what folding keeps and what it changes.
    - OpsRun, BlockProof: the code of the integer operators, of integer expressions and of
      sequences of assignments, generated by the visitors with the register manager and
      executed on the machine of Machine.v, computes what the source says; where it does not
      (temporaries recycled while still needed, LOGAND and LOGOR) this is proved too.
    - Encoders: for the names of registers, and for all operand strings the parsers accept, the
      instruction each encoder emits, its ranges and its refusals; and the encoders that emit
      something else.
    - Machine, CallFrameProof: address loads and the prologue and epilogue do what they
      should when executed; where they do not (the stack pointer, large frames) this is
      proved too.
    - FrameLayout, FunctionSpec: every local and saved register has a slot of its own; what
      the entry of a function saves.
    - RegisterSpec: no register belongs to two variables; which register a variable gets.
    - Linker, Labels: the layout of the linked program, branches and address pairs land on
      their labels, duplicate labels are refused.
    - DataProof: the read-only section holds each literal at its label, defines each label
      once and is accepted by the linker; UTF-8 decoding; global variables; list literals.
    - SymbolTable, Ast: scoping; what cloning keeps.

    ** Bounds and fuel

    The parser has a fuel of calls; twice the length of the text and eight more is enough
    ([parser_fuel]).  The analyzer and the code generator go down a tree with its height as
    fuel ([height_program]; [analysis_ends]).  The loop of the liveness analysis has a number
    of rounds, and [enough] of them are shown to be enough.  The shift count of strength
    reduction looks at 64 bits.  [execute] of CompileProof has a number of instructions: the
    theorems say which result is reached within it.

    ** Parameters

    The order in which an unordered map lists graphs and blocks is an argument of the liveness
    analysis and of the local optimisation.  The theorems on the code generator alone take the
    graphs, types and metrics as arguments ([environment]); Compile passes it those of the
    earlier passes.  [updateSymbolType], which the analyzer and main.cpp call on the symbol
    table and no file defines, is an argument, with the hypothesis that it adds no name and
    leaves no scope; so is the address of each function of the runtime library.

    ** Not modelled

    The preprocessor, which includes files into the text; the peephole optimizer, whose
    patterns rewrite the assembly text of instructions; the pass of loop-invariant code
    motion, whose header is not in the repository, and the other rewriting passes that the
    driver does not run.  [performLinearScan] is never called.  The runtime library, the heap
    manager, JIT execution and signal handling run outside the compiler: they are calls of
    the operating system and of the host.  The formatter, the listings, the instruction
    decoder and the debugging output print text.  Files of encoders/ that no build includes,
    and the logical-immediate encoders, whose shifts by 64 are undefined, are left out. *)

From Stdlib Require Export Ascii ZArith Lia.
From stdpp Require Export base gmap strings list pretty numbers.

Local Open Scope Z_scope.

(** ** C++ exceptions

    Every function of the compiler that can [throw] is modelled in the
    [result] monad.  Only the dynamic type of the exception is kept: no code
    reads the message text back. *)

Inductive exn : Type :=
  | invalid_argument
  | out_of_range
  | runtime_error.

#[export] Instance exn_eq_dec : EqDecision exn.
Proof. solve_decision. Defined.

(** [std::logic_error] is the base class of [invalid_argument] and
    [out_of_range], not of [runtime_error]. *)
Definition is_logic_error (e : exn) : bool :=
  match e with
  | invalid_argument | out_of_range => true
  | runtime_error => false
  end.

Inductive result (A : Type) : Type :=
  | Ok (a : A)
  | Throw (e : exn).
Arguments Ok {A} a.
Arguments Throw {A} e.

#[export] Instance result_ret : MRet result := fun A a => Ok a.
#[export] Instance result_bind : MBind result := fun A B f m =>
  match m with Ok a => f a | Throw e => Throw e end.
#[export] Instance result_fmap : FMap result := fun A B f m =>
  match m with Ok a => Ok (f a) | Throw e => Throw e end.

Definition is_ok {A} (m : result A) : bool :=
  match m with Ok _ => true | Throw _ => false end.

(** [try { m } catch (const std::logic_error&) { throw e; }] *)
Definition catch_logic_error {A} (m : result A) (e : exn) : result A :=
  match m with
  | Ok a => Ok a
  | Throw e' => if is_logic_error e' then Throw e else Throw e'
  end.

(** [try { m } catch (...) { throw e; }] *)
Definition catch_all {A} (m : result A) (e : exn) : result A :=
  match m with Ok a => Ok a | Throw _ => Throw e end.

(** ** Characters and strings of the C++ standard library *)

Definition code (c : Ascii.ascii) : Z := Z.of_N (Ascii.N_of_ascii c).
Definition char_of (z : Z) : Ascii.ascii := Ascii.ascii_of_N (Z.to_N z).

Definition isspace (c : Ascii.ascii) : bool :=
  ((9 <=? code c) && (code c <=? 13)) || (code c =? 32).
Definition isdigit (c : Ascii.ascii) : bool := (48 <=? code c) && (code c <=? 57).
Definition isupper (c : Ascii.ascii) : bool := (65 <=? code c) && (code c <=? 90).
Definition islower (c : Ascii.ascii) : bool := (97 <=? code c) && (code c <=? 122).
Definition isalpha (c : Ascii.ascii) : bool := isupper c || islower c.
Definition isalnum (c : Ascii.ascii) : bool := isalpha c || isdigit c.
Definition tolower (c : Ascii.ascii) : Ascii.ascii :=
  if isupper c then char_of (code c + 32) else c.
Definition toupper (c : Ascii.ascii) : Ascii.ascii :=
  if islower c then char_of (code c - 32) else c.

Fixpoint string_map (f : Ascii.ascii -> Ascii.ascii) (s : string) : string :=
  match s with
  | EmptyString => EmptyString
  | String c s' => String (f c) (string_map f s')
  end.

(** [std::transform(s.begin(), s.end(), s.begin(), ::tolower)] *)
Definition lower (s : string) : string := string_map tolower s.
Definition upper (s : string) : string := string_map toupper s.

Definition string_empty (s : string) : bool :=
  match s with EmptyString => true | _ => false end.

(** [s.substr(1)] on a non-empty string. *)
Definition substr1 (s : string) : string :=
  match s with EmptyString => EmptyString | String _ s' => s' end.

(** [s[0]]; [std::string] guarantees a NUL at index [size()]. *)
Definition front (s : string) : Ascii.ascii :=
  match s with EmptyString => Ascii.zero | String c _ => c end.

(** The end of an operation on mutable state: undefined behaviour is an outcome of its own. *)
Inductive outcome (A : Type) : Type :=
  | Done (a : A)
  | Raised (e : exn)
  | Undefined.
Arguments Done {A} a.
Arguments Raised {A} e.
Arguments Undefined {A}.

(** [std::to_string] on a signed or unsigned integer. *)
Definition to_string (z : Z) : string := pretty z.

(** ** [std::stoul] and [std::stoi] (base 10) *)

Definition ULONG_MAX : Z := 2 ^ 64 - 1.

Fixpoint skip_spaces (s : string) : string :=
  match s with
  | String c s' => if isspace c then skip_spaces s' else s
  | EmptyString => EmptyString
  end.

(** Reads the longest digit prefix; [None] when there is no digit at all. *)
Fixpoint scan_digits (acc : option Z) (s : string) : option Z :=
  match s with
  | String c s' =>
      if isdigit c
      then scan_digits (Some (default 0 acc * 10 + (code c - 48))) s'
      else acc
  | EmptyString => acc
  end.

(** The optional sign: [true] when the digits are negated. *)
Definition scan_sign (s : string) : bool * string :=
  match s with
  | String c s' =>
      if code c =? 45 then (true, s') else if code c =? 43 then (false, s') else (false, s)
  | EmptyString => (false, s)
  end.

(** [strtoul] accepts leading spaces, a sign (negating modulo 2^64) and any
    trailing text; [stoul] throws [invalid_argument] when no digit was read and
    [out_of_range] when the magnitude does not fit. *)
Definition stoul (s : string) : result Z :=
  let '(neg, ds) := scan_sign (skip_spaces s) in
  match scan_digits None ds with
  | None => Throw invalid_argument
  | Some v =>
      if ULONG_MAX <? v then Throw out_of_range
      else Ok (if neg then (- v) mod 2 ^ 64 else v)
  end.

Definition stoi (s : string) : result Z :=
  let '(neg, ds) := scan_sign (skip_spaces s) in
  match scan_digits None ds with
  | None => Throw invalid_argument
  | Some v =>
      let r := if neg then - v else v in
      if (r <? - 2 ^ 31) || (2 ^ 31 - 1 <? r) then Throw out_of_range else Ok r
  end.

(** ** Generic lemmas and tactics *)

Lemma bind_Ok {A B} (m : result A) (f : A -> result B) (b : B) :
  m ≫= f = Ok b <-> exists a, m = Ok a /\ f a = Ok b.
Proof.
  destruct m as [a|e]; cbn; split.
  - intros H. exists a. split; [reflexivity | exact H].
  - intros (a' & [= <-] & H). exact H.
  - intros H. discriminate H.
  - intros (a' & H & _). discriminate H.
Qed.

Lemma bind_ret_l {A B} (a : A) (f : A -> result B) : Ok a ≫= f = f a.
Proof. reflexivity. Qed.

Lemma bind_throw {A B} (e : exn) (f : A -> result B) : Throw e ≫= f = Throw e.
Proof. reflexivity. Qed.

Lemma bind_assoc {A B C} (m : result A) (f : A -> result B) (g : B -> result C) :
  (m ≫= f) ≫= g = m ≫= (fun a => f a ≫= g).
Proof. destruct m; reflexivity. Qed.

Create Rewrite HintDb result.
#[export] Hint Rewrite @bind_ret_l @bind_throw : result.

(** Splits [_ = Ok _] hypotheses on a monadic chain into one equation per step. *)
Ltac inv_bind H :=
  let a := fresh "a" in let Ha := fresh "Ha" in
  apply bind_Ok in H; destruct H as (a & Ha & H).

Ltac case_if_in H :=
  match type of H with
  | context [if ?b then _ else _] => let E := fresh "E" in destruct b eqn:E
  end.

(** Turns boolean comparisons of the context into propositions. *)
Ltac bool_to_prop :=
  repeat match goal with
  | H : (_ && _)%bool = true |- _ => apply andb_true_iff in H; destruct H
  | H : (_ || _)%bool = false |- _ => apply orb_false_iff in H; destruct H
  | H : negb _ = true |- _ => apply negb_true_iff in H
  | H : negb _ = false |- _ => apply negb_false_iff in H
  | H : (_ <? _) = true |- _ => apply Z.ltb_lt in H
  | H : (_ <? _) = false |- _ => apply Z.ltb_ge in H
  | H : (_ <=? _) = true |- _ => apply Z.leb_le in H
  | H : (_ <=? _) = false |- _ => apply Z.leb_gt in H
  | H : (_ =? _) = true |- _ => apply Z.eqb_eq in H
  | H : (_ =? _) = false |- _ => apply Z.eqb_neq in H
  end.

(** [lia] with the division and remainder operators of both roundings. *)
Ltac elia := Z.to_euclidean_division_equations; lia.

Lemma code_range (c : Ascii.ascii) : 0 <= code c < 256.
Proof.
  unfold code. pose proof (Ascii.N_ascii_bounded c). lia.
Qed.

Lemma code_char_of (z : Z) : 0 <= z < 256 -> code (char_of z) = z.
Proof.
  intros Hz. unfold code, char_of. rewrite Ascii.N_ascii_embedding; lia.
Qed.

Lemma char_of_code (c : Ascii.ascii) : char_of (code c) = c.
Proof.
  unfold code, char_of. rewrite N2Z.id. apply Ascii.ascii_N_embedding.
Qed.

Lemma code_inj (c d : Ascii.ascii) : code c = code d -> c = d.
Proof. intros H. rewrite <-(char_of_code c), <-(char_of_code d). by rewrite H. Qed.

Lemma code_tolower (c : Ascii.ascii) :
  code (tolower c) = if isupper c then code c + 32 else code c.
Proof.
  unfold tolower, isupper.
  destruct ((65 <=? code c) && (code c <=? 90)) eqn:E; [|reflexivity].
  bool_to_prop. apply code_char_of. lia.
Qed.

(** Lower-casing does not change what the number scanners see. *)
Lemma isspace_tolower (c : Ascii.ascii) : isspace (tolower c) = isspace c.
Proof. unfold isspace. rewrite code_tolower. unfold isupper. case_match; bool_to_prop; lia. Qed.

Lemma isdigit_tolower (c : Ascii.ascii) : isdigit (tolower c) = isdigit c.
Proof. unfold isdigit. rewrite code_tolower. unfold isupper. case_match; bool_to_prop; lia. Qed.

Lemma digit_tolower (c : Ascii.ascii) : isdigit c = true -> tolower c = c.
Proof.
  unfold isdigit, tolower, isupper. intros H. bool_to_prop.
  replace ((65 <=? code c) && (code c <=? 90)) with false; [reflexivity|]. lia.
Qed.

Lemma skip_spaces_lower (s : string) : skip_spaces (lower s) = lower (skip_spaces s).
Proof.
  induction s as [|c s IH]; [reflexivity|]. cbn.
  rewrite isspace_tolower. destruct (isspace c); [exact IH | reflexivity].
Qed.

Lemma scan_digits_lower (s : string) acc : scan_digits acc (lower s) = scan_digits acc s.
Proof.
  revert acc. induction s as [|c s IH]; intros acc; [reflexivity|]. cbn.
  rewrite isdigit_tolower. destruct (isdigit c) eqn:E; [|reflexivity].
  rewrite (digit_tolower c E). apply IH.
Qed.

Lemma scan_sign_lower (s : string) :
  scan_sign (lower s) = (fst (scan_sign s), lower (snd (scan_sign s))).
Proof.
  destruct s as [|c s]; [reflexivity|]. cbn. rewrite code_tolower.
  unfold isupper. destruct (code c =? 45) eqn:E1; [|destruct (code c =? 43) eqn:E2].
  - bool_to_prop. rewrite E1. reflexivity.
  - bool_to_prop. rewrite E2. reflexivity.
  - bool_to_prop. cbn.
    destruct ((65 <=? code c) && (code c <=? 90)) eqn:E; bool_to_prop.
    + replace (code c + 32 =? 45) with false by lia.
      by replace (code c + 32 =? 43) with false by lia.
    + replace (code c =? 45) with false by lia.
      by replace (code c =? 43) with false by lia.
Qed.

Lemma stoul_lower (s : string) : stoul (lower s) = stoul s.
Proof.
  unfold stoul. rewrite skip_spaces_lower, scan_sign_lower.
  destruct (scan_sign (skip_spaces s)) as [neg ds]. cbn.
  by rewrite scan_digits_lower.
Qed.

Lemma scan_digits_nonneg (t : string) acc w :
  (forall a, acc = Some a -> 0 <= a) -> scan_digits acc t = Some w -> 0 <= w.
Proof.
  revert acc. induction t as [|c t IH]; cbn; intros acc Ha Hw; [by apply Ha|].
  destruct (isdigit c) eqn:E; [|by apply Ha].
  apply IH in Hw; [exact Hw|]. intros a [= <-].
  unfold isdigit in E. bool_to_prop.
  destruct acc as [z|]; cbn; [specialize (Ha z eq_refl); lia | lia].
Qed.

Lemma stoul_range (s : string) (v : Z) : stoul s = Ok v -> 0 <= v.
Proof.
  unfold stoul. destruct (scan_sign (skip_spaces s)) as [neg ds].
  destruct (scan_digits None ds) as [w|] eqn:E; [|discriminate].
  destruct (ULONG_MAX <? w); [discriminate|]. intros [= <-].
  destruct neg; [apply Z.mod_pos_bound; lia|].
  eapply scan_digits_nonneg; [|exact E]. discriminate.
Qed.

(** [std::stoi] and [std::stoul] read the same 32-bit register number. *)
Lemma stoi_stoul s v : stoi s = Ok v -> stoul s = Ok (v mod 2 ^ 64).
Proof.
  unfold stoi, stoul. destruct (scan_sign (skip_spaces s)) as [neg ds].
  destruct (scan_digits None ds) as [w|] eqn:Ed; [|discriminate].
  assert (0 <= w).
  { eapply scan_digits_nonneg; [|exact Ed]. discriminate. }
  unfold ULONG_MAX. destruct neg; intros H'; case_if_in H'; try discriminate;
    injection H' as <-; bool_to_prop; replace (2 ^ 64 - 1 <? w) with false by lia;
    f_equal. by rewrite Z.mod_small by lia.
Qed.

Lemma string_app_assoc (a b c : string) : ((a ++ b) ++ c = a ++ (b ++ c))%string.
Proof. induction a as [|x a IH]; [done|]. exact (f_equal (String x) IH). Qed.
