(* ===== verification/Words.v ===== *)
(** * Machine words and the bit patcher

    32- and 64-bit wrap-around, the extraction of a bit field from a word, and
    [BitPatcher] (src/BitPatcher.cpp), the one primitive with which almost every
    encoder and every relocation writes a field into an instruction word.  The
    field lemmas at the end ([bits_patch_same], [bits_patch_disj], ...) are what
    the encoder and linker proofs rewrite with. *)

From S2P Require Import Prelude.
Local Open Scope Z_scope.

Definition u16 (z : Z) : Z := z mod 2 ^ 16.
Definition u32 (z : Z) : Z := z mod 2 ^ 32.
Definition u64 (z : Z) : Z := z mod 2 ^ 64.
(** Two's complement reading of the low [n] bits. *)
Definition sext (n z : Z) : Z := (z + 2 ^ (n - 1)) mod 2 ^ n - 2 ^ (n - 1).
Definition s32 (z : Z) : Z := sext 32 z.
Definition s64 (z : Z) : Z := sext 64 z.

(** The [n]-bit field of [w] that starts at bit [lo]. *)
Definition bits (w lo n : Z) : Z := Z.land (Z.shiftr w lo) (Z.ones n).

(** ** BitPatcher *)

(** The inline assembly of [BitPatcher::patch], instruction by instruction on
    32-bit registers: the mask of [num_bits] ones ([MOV]/[LSL]/[SUB], or the
    all-ones constant when [num_bits] is 32), its shift to [start_bit], the
    clearing of the target field ([MVN]/[AND]), the shift of the value, its
    masking and the final [ORR]. *)
Definition patch_word (data value_to_patch start_bit num_bits : Z) : Z :=
  let w1 :=
    if num_bits =? 32 then 0xFFFFFFFF
    else u32 (u32 (Z.shiftl 1 num_bits) - 1) in
  let mask := u32 (Z.shiftl w1 start_bit) in
  let w2 := Z.lxor mask 0xFFFFFFFF in
  let cleared := Z.land data w2 in
  let val := u32 (Z.shiftl value_to_patch start_bit) in
  Z.lor cleared (Z.land val mask).

(** [BitPatcher::patch]: the three range checks, then the patch. *)
Definition patch (data value_to_patch start_bit num_bits : Z) : result Z :=
  if (num_bits <=? 0) || (32 <? num_bits) then Throw out_of_range
  else if (start_bit <? 0) || (31 <? start_bit) then Throw out_of_range
  else if 32 <? start_bit + num_bits then Throw out_of_range
  else Ok (patch_word data value_to_patch start_bit num_bits).

Arguments patch_word : simpl never.
Arguments bits : simpl never.
Arguments u16 : simpl never.
Arguments u32 : simpl never.
Arguments u64 : simpl never.
Arguments sext : simpl never.
Arguments s32 : simpl never.
Arguments s64 : simpl never.

(** A field that lies within a 32-bit word. *)
Definition field_ok (s n : Z) : bool := (0 <? n) && (0 <=? s) && (s + n <=? 32).

(** ** Wrap-around *)

Lemma u32_range z : 0 <= u32 z < 2 ^ 32.
Proof. apply Z.mod_pos_bound. lia. Qed.

Lemma u64_range z : 0 <= u64 z < 2 ^ 64.
Proof. apply Z.mod_pos_bound. lia. Qed.

Lemma u32_small z : 0 <= z < 2 ^ 32 -> u32 z = z.
Proof. apply Z.mod_small. Qed.

Lemma u64_small z : 0 <= z < 2 ^ 64 -> u64 z = z.
Proof. apply Z.mod_small. Qed.

Lemma sext_range n z : 0 < n -> - 2 ^ (n - 1) <= sext n z < 2 ^ (n - 1).
Proof.
  intros Hn. unfold sext.
  pose proof (Z.mod_pos_bound (z + 2 ^ (n - 1)) (2 ^ n) ltac:(lia)).
  assert (2 ^ n = 2 * 2 ^ (n - 1)) by (rewrite <-Z.pow_succ_r by lia; f_equal; lia).
  lia.
Qed.

Lemma sext_small n z : 0 < n -> - 2 ^ (n - 1) <= z < 2 ^ (n - 1) -> sext n z = z.
Proof.
  intros Hn Hz. unfold sext.
  assert (2 ^ n = 2 * 2 ^ (n - 1)) by (rewrite <-Z.pow_succ_r by lia; f_equal; lia).
  rewrite Z.mod_small; lia.
Qed.

(** A wider wrap-around does not change a narrower one. *)
Lemma mod_mod_pow a m n : 0 <= n <= m -> (a mod 2 ^ m) mod 2 ^ n = a mod 2 ^ n.
Proof.
  intros H. apply Z.bits_inj'. intros i Hi. rewrite !Z.testbit_mod_pow2 by lia.
  destruct (i <? n) eqn:E; [|reflexivity]. bool_to_prop. by replace (i <? m) with true by lia.
Qed.

(** Sign extension only depends on the value modulo [2 ^ n]. *)
Lemma sext_mod n z : 0 < n -> sext n (z mod 2 ^ n) = sext n z.
Proof.
  intros Hn. unfold sext. f_equal. rewrite Z.add_mod_idemp_l; [reflexivity|].
  apply Z.pow_nonzero; lia.
Qed.

(** ** Fields *)

Lemma bits_testbit w lo n i :
  0 <= lo -> 0 <= n -> 0 <= i ->
  Z.testbit (bits w lo n) i = (i <? n) && Z.testbit w (i + lo).
Proof.
  intros Hlo Hn Hi. unfold bits.
  rewrite Z.land_spec, Z.shiftr_spec, Z.testbit_ones by lia.
  replace (0 <=? i) with true by lia. cbn. apply andb_comm.
Qed.

Lemma bits_mod w lo n : 0 <= lo -> 0 <= n -> bits w lo n = (w / 2 ^ lo) mod 2 ^ n.
Proof.
  intros. unfold bits. rewrite Z.land_ones, Z.shiftr_div_pow2 by lia. reflexivity.
Qed.

Lemma bits_range w lo n : 0 <= lo -> 0 <= n -> 0 <= bits w lo n < 2 ^ n.
Proof. intros. rewrite bits_mod by lia. apply Z.mod_pos_bound. lia. Qed.

Lemma bits_small v n : 0 <= n -> 0 <= v < 2 ^ n -> bits v 0 n = v.
Proof. intros. rewrite bits_mod by lia. rewrite Z.div_1_r. apply Z.mod_small. lia. Qed.

Lemma bits_lor a b lo n : bits (Z.lor a b) lo n = Z.lor (bits a lo n) (bits b lo n).
Proof. unfold bits. rewrite Z.shiftr_lor. apply Z.land_lor_distr_l. Qed.

(** The mask built by the assembly is a run of [n] ones at bit [s]. *)
Lemma patch_mask_testbit s n i :
  0 < n <= 32 -> 0 <= s -> s + n <= 32 -> 0 <= i ->
  Z.testbit (u32 (Z.shiftl (if n =? 32 then 0xFFFFFFFF
                            else u32 (u32 (Z.shiftl 1 n) - 1)) s)) i
  = (s <=? i) && (i <? s + n).
Proof.
  intros Hn Hs Hsn Hi.
  replace (if n =? 32 then 0xFFFFFFFF else u32 (u32 (Z.shiftl 1 n) - 1)) with (Z.ones n).
  2:{ destruct (n =? 32) eqn:E; bool_to_prop; [subst n; reflexivity|].
      rewrite Z.ones_equiv, Z.shiftl_1_l.
      assert (2 ^ n <= 2 ^ 31) by (apply Z.pow_le_mono_r; lia).
      assert (0 < 2 ^ n) by lia.
      rewrite (u32_small (2 ^ n)) by lia. rewrite u32_small; lia. }
  unfold u32. rewrite Z.testbit_mod_pow2, Z.shiftl_spec by lia.
  destruct (s <=? i) eqn:E1; bool_to_prop.
  - rewrite Z.testbit_ones by lia. lia.
  - rewrite Z.testbit_neg_r by lia. lia.
Qed.

(** What a patch does to every bit of the word. *)
Lemma patch_word_testbit w v s n i :
  0 < n -> 0 <= s -> s + n <= 32 -> 0 <= i < 32 ->
  Z.testbit (patch_word w v s n) i =
    if (s <=? i) && (i <? s + n) then Z.testbit v (i - s) else Z.testbit w i.
Proof.
  intros Hn Hs Hsn Hi. unfold patch_word.
  rewrite Z.lor_spec, !Z.land_spec, Z.lxor_spec, patch_mask_testbit by lia.
  change 0xFFFFFFFF with (Z.ones 32). rewrite Z.testbit_ones by lia.
  unfold u32. rewrite Z.testbit_mod_pow2, Z.shiftl_spec by lia.
  replace ((0 <=? i) && (i <? 32)) with true by lia.
  replace (i <? 32) with true by lia.
  destruct ((s <=? i) && (i <? s + n)); cbn;
    rewrite ?andb_false_r, ?andb_true_r, ?orb_false_r; reflexivity.
Qed.

Lemma patch_word_range w v s n :
  0 <= w < 2 ^ 32 -> 0 < n -> 0 <= s -> s + n <= 32 -> 0 <= patch_word w v s n < 2 ^ 32.
Proof.
  intros Hw Hn Hs Hsn. unfold patch_word.
  set (m := u32 (Z.shiftl (if n =? 32 then _ else _) s)).
  assert (Hm : 0 <= m < 2 ^ 32) by apply u32_range.
  assert (Hb : forall a b, 0 <= a < 2 ^ 32 -> 0 <= Z.land a b < 2 ^ 32).
  { intros a b Ha. split; [apply Z.land_nonneg; lia|].
    rewrite <-(Z.mod_small a (2 ^ 32)) by lia. rewrite <-Z.land_ones by lia.
    rewrite <-Z.land_assoc, (Z.land_comm (Z.ones 32)), Z.land_assoc, Z.land_ones by lia.
    apply Z.mod_pos_bound. lia. }
  pose proof (Hb w (Z.lxor m 0xFFFFFFFF) Hw) as H1.
  pose proof (Hb (u32 (Z.shiftl v s)) m (u32_range _)) as H2.
  split; [apply Z.lor_nonneg; lia|].
  rewrite <-(Z.mod_small _ _ H1), <-(Z.mod_small _ _ H2), <-!Z.land_ones by lia.
  rewrite <-Z.land_lor_distr_l, Z.land_ones by lia. apply Z.mod_pos_bound. lia.
Qed.

Lemma bits_patch_same w v s n :
  0 < n -> 0 <= s -> s + n <= 32 -> bits (patch_word w v s n) s n = v mod 2 ^ n.
Proof.
  intros Hn Hs Hsn. apply Z.bits_inj'. intros i Hi.
  rewrite bits_testbit, Z.testbit_mod_pow2 by lia.
  destruct (i <? n) eqn:E; [|reflexivity]. bool_to_prop. cbn.
  rewrite patch_word_testbit by lia.
  replace ((s <=? i + s) && (i + s <? s + n)) with true by lia. f_equal. lia.
Qed.

Lemma bits_patch_disj w v s n lo k :
  0 < n -> 0 <= s -> s + n <= 32 -> 0 <= lo -> 0 <= k -> lo + k <= 32 ->
  lo + k <= s \/ s + n <= lo ->
  bits (patch_word w v s n) lo k = bits w lo k.
Proof.
  intros Hn Hs Hsn Hlo Hk Hlk Hd. apply Z.bits_inj'. intros i Hi.
  rewrite !bits_testbit by lia.
  destruct (i <? k) eqn:E; [|reflexivity]. bool_to_prop. cbn.
  rewrite patch_word_testbit by lia.
  replace ((s <=? i + lo) && (i + lo <? s + n)) with false by lia. reflexivity.
Qed.

(** Writing a value into a field that is zero is an [OR]: the encoders use both forms. *)
Lemma lor_shiftl_patch w v s n :
  field_ok s n = true -> 0 <= w < 2 ^ 32 -> bits w s n = 0 -> 0 <= v < 2 ^ n ->
  Z.lor w (Z.shiftl v s) = patch_word w v s n.
Proof.
  unfold field_ok. intros Hf Hw Hz Hv. bool_to_prop. apply Z.bits_inj'. intros i Hi.
  assert (Hh : forall x m, 0 <= x < 2 ^ m -> 0 <= m <= i -> Z.testbit x i = false).
  { intros x m Hx Hm. rewrite <-(Z.mod_small x (2 ^ m)) by lia.
    rewrite Z.testbit_mod_pow2 by lia. by replace (i <? m) with false by lia. }
  rewrite Z.lor_spec, Z.shiftl_spec by lia.
  destruct (Z_lt_dec i 32) as [Hlt|Hge].
  - rewrite patch_word_testbit by lia. destruct (s <=? i) eqn:E1; bool_to_prop.
    + destruct (i <? s + n) eqn:E2; bool_to_prop; cbn [andb].
      * apply (f_equal (fun z => Z.testbit z (i - s))) in Hz.
        rewrite bits_testbit, Z.testbit_0_l in Hz by lia.
        replace (i - s <? n) with true in Hz by lia. cbn [andb] in Hz.
        replace (i - s + s) with i in Hz by lia. by rewrite Hz.
      * rewrite <-(Z.mod_small v (2 ^ n)) by lia. rewrite Z.testbit_mod_pow2 by lia.
        replace (i - s <? n) with false by lia. apply orb_false_r.
    + rewrite (Z.testbit_neg_r v) by lia. apply orb_false_r.
  - rewrite (Hh _ 32 Hw), (Hh _ 32 (patch_word_range w v s n Hw ltac:(lia) ltac:(lia) ltac:(lia)))
      by lia.
    rewrite <-(Z.mod_small v (2 ^ n)) by lia. rewrite Z.testbit_mod_pow2 by lia.
    by replace (i - s <? n) with false by lia.
Qed.

(** Two words of 32 bits with the same bits are equal: patching twice the same
    field keeps the last value. *)
Lemma patch_word_ext w1 w2 :
  0 <= w1 < 2 ^ 32 -> 0 <= w2 < 2 ^ 32 ->
  (forall i, 0 <= i < 32 -> Z.testbit w1 i = Z.testbit w2 i) -> w1 = w2.
Proof.
  intros H1 H2 H. apply Z.bits_inj'. intros i Hi.
  destruct (Z_lt_dec i 32) as [Hlt|Hge]; [apply H; lia|].
  rewrite <-(Z.mod_small w1 (2 ^ 32)), <-(Z.mod_small w2 (2 ^ 32)) by lia.
  rewrite !Z.testbit_mod_pow2 by lia. by replace (i <? 32) with false by lia.
Qed.

(** ** Rewriting with fields of closed position

    The side conditions are boolean so that they are discharged by computation. *)

Lemma field_read_same w v s n :
  field_ok s n = true -> bits (patch_word w v s n) s n = v mod 2 ^ n.
Proof. unfold field_ok. intros H. bool_to_prop. apply bits_patch_same; lia. Qed.

Lemma field_read_disj w v s n lo k :
  field_ok s n && field_ok lo k && ((lo + k <=? s) || (s + n <=? lo)) = true ->
  bits (patch_word w v s n) lo k = bits w lo k.
Proof.
  unfold field_ok. intros H. bool_to_prop.
  apply bits_patch_disj; lia.
Qed.

Lemma lor_patch w v n :
  field_ok 0 n = true -> 0 <= w < 2 ^ 32 -> bits w 0 n = 0 -> 0 <= v < 2 ^ n ->
  Z.lor w v = patch_word w v 0 n.
Proof. intros. rewrite <-(lor_shiftl_patch w v 0 n) by done. by rewrite Z.shiftl_0_r. Qed.

Lemma u32_shiftl v s n :
  field_ok s n = true -> 0 <= v < 2 ^ n -> u32 (Z.shiftl v s) = Z.shiftl v s.
Proof.
  unfold field_ok. intros Hf Hv. bool_to_prop. apply u32_small.
  rewrite Z.shiftl_mul_pow2 by lia.
  assert (2 ^ n * 2 ^ s <= 2 ^ 32) by (rewrite <-Z.pow_add_r by lia; apply Z.pow_le_mono_r; lia).
  nia.
Qed.

Lemma bits_shiftl_same v s n :
  0 <= s -> 0 <= n -> bits (Z.shiftl v s) s n = v mod 2 ^ n.
Proof.
  intros Hs Hn. unfold bits. rewrite Z.land_ones by lia. f_equal.
  rewrite Z.shiftr_shiftl_l, Z.sub_diag by lia. apply Z.shiftl_0_r.
Qed.

Lemma bits_shiftl_low v s lo n :
  0 <= lo -> 0 <= n -> lo + n <= s -> bits (Z.shiftl v s) lo n = 0.
Proof.
  intros Hlo Hn Hs. apply Z.bits_inj'. intros i Hi.
  rewrite bits_testbit, Z.testbit_0_l by lia.
  destruct (i <? n) eqn:E; [|reflexivity]. bool_to_prop. cbn.
  rewrite Z.shiftl_spec by lia. apply Z.testbit_neg_r. lia.
Qed.

Lemma bits_high v s k lo n :
  0 <= v < 2 ^ k -> 0 <= s -> 0 <= k -> s + k <= lo -> 0 <= n ->
  bits (Z.shiftl v s) lo n = 0.
Proof.
  intros Hv Hs Hk Hlo Hn. apply Z.bits_inj'. intros i Hi.
  rewrite bits_testbit, Z.testbit_0_l by lia.
  destruct (i <? n) eqn:E; [|reflexivity]. bool_to_prop. cbn.
  rewrite Z.shiftl_spec by lia.
  rewrite <-(Z.mod_small v (2 ^ k)) by lia. rewrite Z.testbit_mod_pow2 by lia.
  replace (i + lo - s <? k) with false by lia. reflexivity.
Qed.

(** One step of field computation, on any [bits (patch_word ...)] of the goal. *)
Ltac field_step :=
  match goal with
  | |- context [bits (patch_word ?w ?v ?s ?n) ?s ?n] =>
      rewrite (field_read_same w v s n) by reflexivity
  | |- context [bits (patch_word ?w ?v ?s ?n) ?lo ?k] =>
      rewrite (field_read_disj w v s n lo k) by reflexivity
  end.

Ltac fields := repeat field_step.

(** A multiple of [2 ^ k]: scaling commutes with the sign extension. *)
Lemma sext_scale n k d :
  0 < n -> 0 <= k -> d mod 2 ^ k = 0 -> 2 ^ k * sext n (d / 2 ^ k) = sext (n + k) d.
Proof.
  intros Hn Hk Hd. unfold sext.
  assert (Hp : 0 < 2 ^ k) by lia.
  pose proof (Z.div_mod d (2 ^ k) ltac:(lia)) as E. rewrite Hd in E.
  set (q := d / 2 ^ k) in *.
  replace (n + k - 1) with (k + (n - 1)) by lia. replace (n + k) with (k + n) by lia.
  rewrite !(Z.pow_add_r 2 k) by lia. replace d with (2 ^ k * q) by lia.
  rewrite <-Z.mul_add_distr_l, Z.mul_mod_distr_l by lia. lia.
Qed.

Lemma s64_small z : 0 <= z < 2 ^ 63 -> s64 z = z.
Proof. intros H. apply sext_small; lia. Qed.

(** The range checks of [patch] pass on a field of the word. *)
Lemma patch_bind {B} w v s n (f : Z -> result B) :
  field_ok s n = true -> patch w v s n ≫= f = f (patch_word w v s n).
Proof.
  unfold field_ok, patch. intros H. bool_to_prop.
  replace ((n <=? 0) || (32 <? n)) with false by lia.
  replace ((s <? 0) || (31 <? s)) with false by lia.
  by replace (32 <? s + n) with false by lia.
Qed.

Lemma patch_ok w v s n : field_ok s n = true -> patch w v s n = Ok (patch_word w v s n).
Proof. intros H. pose proof (patch_bind w v s n Ok H) as E. by destruct (patch w v s n). Qed.
