(* ===== verification/A64.v ===== *)
(** * The A64 instruction formats

    The reference against which the encoders are proved: a disassembler of the
    32-bit A64 instruction word into the fields of the architecture manual's
    encoding classes, for the classes the compiler emits.  A word outside these
    classes, or with a reserved field combination, decodes to [None].  Nothing here
    is translated from the compiler; the aliases at the end name the instructions
    the compiler means to emit (ADD, MUL, LSL, MVN, ...). *)

From S2P Require Import Prelude Words.
Local Open Scope Z_scope.

(** One constructor per encoding class; the arguments are the fields of the class
    from the most to the least significant one. *)
Inductive insn : Type :=
  | PCRel (page : bool) (immlo immhi rd : Z)
  | AddSubImm (sf sub setf : bool) (sh imm12 rn rd : Z)
  | LogImm (sf : bool) (opc N immr imms rn rd : Z)
  | MovWide (sf : bool) (opc hw imm16 rd : Z)
  | Bitfield (sf : bool) (opc N immr imms rn rd : Z)
  | LogShifted (sf : bool) (opc shift N rm imm6 rn rd : Z)
  | AddSubShifted (sf sub setf : bool) (shift rm imm6 rn rd : Z)
  | DP2 (sf : bool) (rm opcode rn rd : Z)
  | DP3 (sf : bool) (op31 rm o0 ra rn rd : Z)
  | CondSel (sf inv : bool) (rm cond op2 rn rd : Z)
  | LdStUImm (size V opc imm12 rn rt : Z)
  | LdStReg (size V opc rm option S rn rt : Z)
  | LdStPair (opc V mode L imm7 rt2 rn rt : Z)
  | Branch (link : bool) (imm26 : Z)
  | BranchCond (imm19 cond : Z)
  | CmpBranch (sf nz : bool) (imm19 rt : Z)
  | BranchReg (opc rn : Z)
  | Svc (imm16 : Z)
  | Brk (imm16 : Z)
  | Hint (crm op2 : Z)
  | Dmb (crm : Z)
  | FPDP3 (ftype o1 rm o0 ra rn rd : Z)
  | FPDP2 (ftype rm opcode rn rd : Z)
  | FPDP1 (ftype opcode rn rd : Z)
  | FPCmp (ftype rm rn opcode2 : Z)
  | FPInt (sf : bool) (ftype rmode opcode rn rd : Z)
  | SIMD3Same (Q U size rm opcode rn rd : Z)
  | SIMDLdStMult (Q L opcode size rn rt : Z).

#[export] Instance insn_eq_dec : EqDecision insn.
Proof. solve_decision. Defined.

Definition bit (w i : Z) : bool := bits w i 1 =? 1.

(** Index of the most significant set bit of a 7-bit value, [-1] when there is none. *)
Fixpoint highest_bit (fuel : nat) (v : Z) : Z :=
  match fuel with
  | O => -1
  | S n => if Z.testbit v (Z.of_nat n) then Z.of_nat n else highest_bit n v
  end.

(** The reserved combinations of [DecodeBitMasks]: no element size, or an element
    that is all ones. *)
Definition bitmask_reserved (N imms : Z) : bool :=
  let len := highest_bit 7 (Z.lor (Z.shiftl N 6) (Z.lxor imms 63)) in
  (len <? 1) || (Z.land imms (Z.ones len) =? Z.ones len).

Definition decode_dp_imm (w : Z) : option insn :=
  if bits w 24 2 =? 0 then
    Some (PCRel (bit w 31) (bits w 29 2) (bits w 5 19) (bits w 0 5))
  else if bits w 24 2 =? 1 then
    if bits w 23 1 =? 0 then
      Some (AddSubImm (bit w 31) (bit w 30) (bit w 29) (bits w 22 1) (bits w 10 12)
              (bits w 5 5) (bits w 0 5))
    else None
  else if bits w 24 2 =? 2 then
    if bits w 23 1 =? 0 then
      if (negb (bit w 31) && (bits w 22 1 =? 1)) || bitmask_reserved (bits w 22 1) (bits w 10 6)
      then None
      else Some (LogImm (bit w 31) (bits w 29 2) (bits w 22 1) (bits w 16 6) (bits w 10 6)
                   (bits w 5 5) (bits w 0 5))
    else if (bits w 29 2 =? 1) || (negb (bit w 31) && (2 <=? bits w 21 2)) then None
    else Some (MovWide (bit w 31) (bits w 29 2) (bits w 21 2) (bits w 5 16) (bits w 0 5))
  else if bits w 23 1 =? 0 then
    if (bits w 29 2 =? 3) || negb (bits w 22 1 =? Z.b2z (bit w 31))
       || (negb (bit w 31) && ((32 <=? bits w 16 6) || (32 <=? bits w 10 6))) then None
    else Some (Bitfield (bit w 31) (bits w 29 2) (bits w 22 1) (bits w 16 6) (bits w 10 6)
                 (bits w 5 5) (bits w 0 5))
  else None.

Definition decode_system (w : Z) : option insn :=
  if bits w 24 2 =? 0 then
    if bits w 2 3 =? 0 then
      if (bits w 21 3 =? 0) && (bits w 0 2 =? 1) then Some (Svc (bits w 5 16))
      else if (bits w 21 3 =? 1) && (bits w 0 2 =? 0) then Some (Brk (bits w 5 16))
      else None
    else None
  else if bits w 24 2 =? 1 then
    if (bits w 12 12 =? 0x032) && (bits w 0 5 =? 31) then
      Some (Hint (bits w 8 4) (bits w 5 3))
    else if (bits w 12 12 =? 0x033) && (bits w 5 3 =? 5) && (bits w 0 5 =? 31) then
      Some (Dmb (bits w 8 4))
    else None
  else
    if (bits w 16 5 =? 31) && (bits w 10 6 =? 0) && (bits w 0 5 =? 0)
       && (bits w 25 1 =? 1) && (bits w 21 4 <=? 2)
    then Some (BranchReg (bits w 21 4) (bits w 5 5))
    else None.

Definition decode_branch (w : Z) : option insn :=
  if bits w 29 2 =? 0 then Some (Branch (bit w 31) (bits w 0 26))
  else if bits w 29 2 =? 1 then
    if bits w 25 1 =? 0 then
      Some (CmpBranch (bit w 31) (bit w 24) (bits w 5 19) (bits w 0 5))
    else None
  else if bits w 29 2 =? 2 then
    if bit w 31 then decode_system w
    else if (bits w 24 2 =? 0) && (bits w 4 1 =? 0) then
      Some (BranchCond (bits w 5 19) (bits w 0 4))
    else None
  else if bit w 31 then None
  else None.

Definition decode_dp_reg (w : Z) : option insn :=
  if bits w 28 1 =? 0 then
    if negb (bit w 31) && (32 <=? bits w 10 6) then None
    else if bits w 24 1 =? 0 then
      Some (LogShifted (bit w 31) (bits w 29 2) (bits w 22 2) (bits w 21 1) (bits w 16 5)
              (bits w 10 6) (bits w 5 5) (bits w 0 5))
    else if (bits w 21 1 =? 0) && negb (bits w 22 2 =? 3) then
      Some (AddSubShifted (bit w 31) (bit w 30) (bit w 29) (bits w 22 2) (bits w 16 5)
              (bits w 10 6) (bits w 5 5) (bits w 0 5))
    else None
  else if bits w 24 1 =? 1 then
    if bits w 29 2 =? 0 then
      Some (DP3 (bit w 31) (bits w 21 3) (bits w 16 5) (bits w 15 1) (bits w 10 5)
              (bits w 5 5) (bits w 0 5))
    else None
  else if bits w 21 3 =? 6 then
    if bits w 29 2 =? 0 then
      Some (DP2 (bit w 31) (bits w 16 5) (bits w 10 6) (bits w 5 5) (bits w 0 5))
    else None
  else if bits w 21 3 =? 4 then
    if (bits w 29 1 =? 0) && (bits w 11 1 =? 0) then
      Some (CondSel (bit w 31) (bit w 30) (bits w 16 5) (bits w 12 4) (bits w 10 2)
              (bits w 5 5) (bits w 0 5))
    else None
  else None.

Definition decode_ldst (w : Z) : option insn :=
  if bits w 28 2 =? 3 then
    if bits w 24 1 =? 1 then
      Some (LdStUImm (bits w 30 2) (bits w 26 1) (bits w 22 2) (bits w 10 12) (bits w 5 5)
              (bits w 0 5))
    else if (bits w 21 1 =? 1) && (bits w 10 2 =? 2) && (bits w 14 1 =? 1) then
      Some (LdStReg (bits w 30 2) (bits w 26 1) (bits w 22 2) (bits w 16 5) (bits w 13 3)
              (bits w 12 1) (bits w 5 5) (bits w 0 5))
    else None
  else if bits w 28 2 =? 2 then
    Some (LdStPair (bits w 30 2) (bits w 26 1) (bits w 23 2) (bits w 22 1) (bits w 15 7)
            (bits w 10 5) (bits w 5 5) (bits w 0 5))
  else if (bits w 28 2 =? 0) && (bits w 31 1 =? 0) && (bits w 26 1 =? 1)
          && (bits w 23 2 =? 0) && (bits w 16 6 =? 0) then
    Some (SIMDLdStMult (bits w 30 1) (bits w 22 1) (bits w 12 4) (bits w 10 2) (bits w 5 5)
            (bits w 0 5))
  else None.

Definition decode_fp (w : Z) : option insn :=
  if bits w 28 1 =? 1 then
    if bits w 24 1 =? 1 then
      if bits w 29 3 =? 0 then
        Some (FPDP3 (bits w 22 2) (bits w 21 1) (bits w 16 5) (bits w 15 1) (bits w 10 5)
                (bits w 5 5) (bits w 0 5))
      else None
    else if (bits w 21 1 =? 1) && (bits w 29 2 =? 0) then
      if bits w 10 6 =? 0 then
        Some (FPInt (bit w 31) (bits w 22 2) (bits w 19 2) (bits w 16 3) (bits w 5 5)
                (bits w 0 5))
      else if bit w 31 then None
      else if bits w 10 2 =? 2 then
        Some (FPDP2 (bits w 22 2) (bits w 16 5) (bits w 12 4) (bits w 5 5) (bits w 0 5))
      else if bits w 10 6 =? 8 then
        Some (FPCmp (bits w 22 2) (bits w 16 5) (bits w 5 5) (bits w 0 5))
      else if bits w 10 5 =? 16 then
        Some (FPDP1 (bits w 22 2) (bits w 15 6) (bits w 5 5) (bits w 0 5))
      else None
    else None
  else if (bits w 31 1 =? 0) && (bits w 24 1 =? 0) && (bits w 21 1 =? 1) && (bits w 10 1 =? 1)
  then Some (SIMD3Same (bits w 30 1) (bits w 29 1) (bits w 22 2) (bits w 16 5) (bits w 11 5)
               (bits w 5 5) (bits w 0 5))
  else None.

(** The top level, on bits 28:25 of the word. *)
Definition decode (w : Z) : option insn :=
  if bits w 26 3 =? 4 then decode_dp_imm w
  else if bits w 26 3 =? 5 then decode_branch w
  else if bits w 27 1 =? 1 then
    if bits w 25 1 =? 0 then decode_ldst w
    else if bits w 26 1 =? 0 then decode_dp_reg w
    else decode_fp w
  else None.

(** ** The instructions the compiler means to emit

    Each alias is the preferred disassembly of the architecture manual. *)

Definition ADDr sf rd rn rm := AddSubShifted sf false false 0 rm 0 rn rd.
Definition SUBr sf rd rn rm := AddSubShifted sf true false 0 rm 0 rn rd.
Definition CMPr sf rn rm := AddSubShifted sf true true 0 rm 0 rn 31.
Definition ADDi sf rd rn imm := AddSubImm sf false false 0 imm rn rd.
Definition SUBi sf rd rn imm := AddSubImm sf true false 0 imm rn rd.
Definition CMPi sf rn imm := AddSubImm sf true true 0 imm rn 31.
Definition ANDr sf rd rn rm := LogShifted sf 0 0 0 rm 0 rn rd.
Definition BICr sf rd rn rm := LogShifted sf 0 0 1 rm 0 rn rd.
Definition ORRr sf rd rn rm := LogShifted sf 1 0 0 rm 0 rn rd.
Definition MOVr sf rd rm := ORRr sf rd 31 rm.
Definition MVNr sf rd rm := LogShifted sf 1 0 1 rm 0 31 rd.
Definition MULr sf rd rn rm := DP3 sf 0 rm 0 31 rn rd.
Definition SDIVr sf rd rn rm := DP2 sf rm 3 rn rd.
Definition LSLr sf rd rn rm := DP2 sf rm 8 rn rd.
Definition LSRr sf rd rn rm := DP2 sf rm 9 rn rd.
Definition ASRr sf rd rn rm := DP2 sf rm 10 rn rd.
Definition MOVZi sf rd imm shift := MovWide sf 2 (shift / 16) imm rd.
Definition MOVKi sf rd imm shift := MovWide sf 3 (shift / 16) imm rd.
Definition datasize (sf : bool) : Z := if sf then 64 else 32.
Definition UBFM sf rd rn immr imms := Bitfield sf 2 (Z.b2z sf) immr imms rn rd.
Definition SBFM sf rd rn immr imms := Bitfield sf 0 (Z.b2z sf) immr imms rn rd.
Definition BFM sf rd rn immr imms := Bitfield sf 1 (Z.b2z sf) immr imms rn rd.
Definition LSLi sf rd rn sh :=
  UBFM sf rd rn ((datasize sf - sh) mod datasize sf) (datasize sf - 1 - sh).
Definition ASRi sf rd rn sh := SBFM sf rd rn sh (datasize sf - 1).
Definition UBFXi sf rd rn lsb width := UBFM sf rd rn lsb (lsb + width - 1).
Definition SBFXi sf rd rn lsb width := SBFM sf rd rn lsb (lsb + width - 1).
Definition BFIi sf rd rn lsb width :=
  BFM sf rd rn ((datasize sf - lsb) mod datasize sf) (width - 1).
Definition invert_cond (cond : Z) : Z := Z.lxor cond 1.
Definition CSET sf rd cond := CondSel sf false 31 (invert_cond cond) 1 31 rd.
Definition CSETM sf rd cond := CondSel sf true 31 (invert_cond cond) 0 31 rd.
Definition CSINV sf rd rn rm cond := CondSel sf true rm cond 0 rn rd.
(** [LDR]/[STR] with an unsigned byte offset: the offset is scaled by the access size. *)
Definition LDRi (sf : bool) rt rn off :=
  LdStUImm (if sf then 3 else 2) 0 1 (off / (if sf then 8 else 4)) rn rt.
Definition STRi (sf : bool) rt rn off :=
  LdStUImm (if sf then 3 else 2) 0 0 (off / (if sf then 8 else 4)) rn rt.
Definition LDRBi rt rn off := LdStUImm 0 0 1 off rn rt.
Definition LDRDi rt rn off := LdStUImm 3 1 1 (off / 8) rn rt.
Definition STRDi rt rn off := LdStUImm 3 1 0 (off / 8) rn rt.
Definition LDRx rt rn rm (scaled : bool) := LdStReg 3 0 1 rm 3 (Z.b2z scaled) rn rt.
(** Addressing modes of the pair instructions. *)
Definition mode_post : Z := 1.
Definition mode_offset : Z := 2.
Definition mode_pre : Z := 3.
Definition pair_imm7 (sf : bool) off : Z := (off / (if sf then 8 else 4)) mod 2 ^ 7.
Definition STPi (sf : bool) mode rt rt2 rn off :=
  LdStPair (if sf then 2 else 0) 0 mode 0 (pair_imm7 sf off) rt2 rn rt.
Definition LDPi (sf : bool) mode rt rt2 rn off :=
  LdStPair (if sf then 2 else 0) 0 mode 1 (pair_imm7 sf off) rt2 rn rt.
Definition BRr rn := BranchReg 0 rn.
Definition BLRr rn := BranchReg 1 rn.
Definition RETr rn := BranchReg 2 rn.
Definition NOPi := Hint 0 0.
(** Double precision is [ftype = 1]. *)
Definition FADDd rd rn rm := FPDP2 1 rm 2 rn rd.
Definition FSUBd rd rn rm := FPDP2 1 rm 3 rn rd.
Definition FMULd rd rn rm := FPDP2 1 rm 0 rn rd.
Definition FDIVd rd rn rm := FPDP2 1 rm 1 rn rd.
Definition FCMPd rn rm := FPCmp 1 rm rn 0.
Definition FMOVd rd rn := FPDP1 1 0 rn rd.
Definition FNEGd rd rn := FPDP1 1 2 rn rd.
Definition FSQRTd rd rn := FPDP1 1 3 rn rd.
Definition FMADDd rd rn rm ra := FPDP3 1 0 rm 0 ra rn rd.
Definition FMSUBd rd rn rm ra := FPDP3 1 0 rm 1 ra rn rd.
Definition SCVTFd rd rn := FPInt true 1 0 2 rn rd.
Definition FCVTZSd rd rn := FPInt true 1 3 0 rn rd.
Definition FCVTMSd rd rn := FPInt true 1 2 0 rn rd.

(** Displacements of the PC-relative formats. *)
Definition branch_offset (i : insn) : option Z :=
  match i with
  | Branch _ imm26 => Some (4 * sext 26 imm26)
  | BranchCond imm19 _ | CmpBranch _ _ imm19 _ => Some (4 * sext 19 imm19)
  | _ => None
  end.

(** ** Decoding a patched word

    [read_field w lo k] is a proof of [bits w lo k = v] for a word that is a chain of
    patches over a constant, each patch either exactly the field or disjoint from it. *)

Ltac read_field w lo k :=
  lazymatch w with
  | patch_word ?w' ?v ?s ?n =>
      let same := eval vm_compute in ((lo =? s) && (k =? n)) in
      lazymatch same with
      | true => constr:(field_read_same w' v s n eq_refl)
      | false =>
          let p := read_field w' lo k in
          constr:(eq_trans (field_read_disj w' v s n lo k eq_refl) p)
      end
  | _ =>
      let v := eval vm_compute in (bits w lo k) in
      constr:(@eq_refl Z v <: bits w lo k = v)
  end.

Ltac decode_field :=
  match goal with
  | |- context [bits ?w ?lo ?k] => let p := read_field w lo k in rewrite p
  end.

(** Evaluates the decoder on such a word, one field at a time, and the tests as soon
    as their fields are known. *)
Ltac small_mods :=
  repeat match goal with
  | |- context [?v mod 2 ^ ?n] => rewrite (Z.mod_small v (2 ^ n)) by lia
  end.

Ltac decode_word :=
  unfold decode, decode_dp_imm, decode_branch, decode_system, decode_dp_reg, decode_ldst,
    decode_fp, bit;
  repeat (decode_field; small_mods;
          cbn [Z.eqb Pos.eqb Z.leb Z.ltb Z.compare Pos.compare Pos.compare_cont Z.b2z andb orb negb]).

(** Turns a word built by shifts and ORs into the same word built by patches; [n] is the
    width of the field of the value shifted by [s]. *)
Ltac solve_word_range := repeat (apply patch_word_range; [|lia|lia|lia]); lia.

Ltac read_zero :=
  lazymatch goal with
  | |- bits ?w ?lo ?k = 0 => let p := read_field w lo k in exact p
  end.

Ltac or_to_patch n :=
  first
    [ match goal with |- context [u32 (Z.shiftl ?v ?s)] =>
        rewrite (u32_shiftl v s n) by first [reflexivity | lia] end
    | match goal with |- context [Z.lor ?w (Z.shiftl ?v ?s)] =>
        rewrite (lor_shiftl_patch w v s n);
          [|reflexivity|solve_word_range|read_zero|lia] end
    | match goal with |- context [Z.lor ?w ?v] =>
        rewrite (lor_patch w v n);
          [|reflexivity|solve_word_range|read_zero|lia] end ].

(** ** Patching an immediate field keeps the format

    What a relocation does to a word that already decodes. *)

(** Inverts [decode w = Some _] into the tests that led to it. *)
Ltac decode_cases H :=
  unfold decode, decode_dp_imm, decode_branch, decode_system, decode_dp_reg, decode_ldst,
    decode_fp in H;
  repeat match type of H with
  | (if ?c then _ else _) = _ => let C := fresh "C" in destruct c eqn:C
  end; try discriminate H; injection H as; subst.

(** Recomputes the decoder on a patched word from those tests. *)
Ltac patched_field c :=
  match c with
  | context [bits (patch_word ?w ?v ?s ?n) ?s ?n] =>
      rewrite (field_read_same w v s n) by reflexivity
  | context [bits (patch_word ?w ?v ?s ?n) ?lo ?k] =>
      rewrite (field_read_disj w v s n lo k) by reflexivity
  end.

Ltac decode_again :=
  unfold decode, decode_dp_imm, decode_branch, decode_system, decode_dp_reg, decode_ldst,
    decode_fp, bit in *;
  repeat match goal with
  | C : ?c = _ |- (if ?c then _ else _) = _ => rewrite C
  | |- (if ?c then _ else _) = _ => patched_field c
  | |- Some ?i = _ => patched_field i
  end;
  reflexivity.

Lemma decode_patch_branch w v l x :
  decode w = Some (Branch l x) ->
  decode (patch_word w v 0 26) = Some (Branch l (v mod 2 ^ 26)).
Proof. intros H. decode_cases H. decode_again. Qed.

Lemma decode_patch_branch_cond w v x c :
  decode w = Some (BranchCond x c) ->
  decode (patch_word w v 5 19) = Some (BranchCond (v mod 2 ^ 19) c).
Proof. intros H. decode_cases H. decode_again. Qed.

Lemma decode_patch_cmp_branch w v sf nz x rt :
  decode w = Some (CmpBranch sf nz x rt) ->
  decode (patch_word w v 5 19) = Some (CmpBranch sf nz (v mod 2 ^ 19) rt).
Proof. intros H. decode_cases H. decode_again. Qed.

Lemma decode_patch_pcrel w lo hi p a b rd :
  decode w = Some (PCRel p a b rd) ->
  decode (patch_word (patch_word w lo 29 2) hi 5 19)
  = Some (PCRel p (lo mod 2 ^ 2) (hi mod 2 ^ 19) rd).
Proof. intros H. decode_cases H. decode_again. Qed.

Lemma decode_patch_add_imm w v sf sub st sh imm rn rd :
  decode w = Some (AddSubImm sf sub st sh imm rn rd) ->
  decode (patch_word w v 10 12) = Some (AddSubImm sf sub st sh (v mod 2 ^ 12) rn rd).
Proof. intros H. decode_cases H. decode_again. Qed.

Lemma decode_patch_mov_wide w v sf opc hw imm rd :
  decode w = Some (MovWide sf opc hw imm rd) ->
  decode (patch_word w v 5 16) = Some (MovWide sf opc hw (v mod 2 ^ 16) rd).
Proof. intros H. decode_cases H. decode_again. Qed.

(** The same branch, up to its displacement. *)
Definition same_branch (i j : insn) : Prop :=
  match i, j with
  | Branch l _, Branch l' _ => l = l'
  | BranchCond _ c, BranchCond _ c' => c = c'
  | CmpBranch sf nz _ rt, CmpBranch sf' nz' _ rt' => sf = sf' /\ nz = nz' /\ rt = rt'
  | _, _ => False
  end.

(** The address ADR and ADRP compute. *)
Definition pcrel_target (pc : Z) (i : insn) : option Z :=
  match i with
  | PCRel true immlo immhi _ => Some (pc - pc mod 4096 + 4096 * sext 21 (4 * immhi + immlo))
  | PCRel false immlo immhi _ => Some (pc + sext 21 (4 * immhi + immlo))
  | _ => None
  end.
