(* ===== verification/Instr.v ===== *)
(** * Instructions

    The [Instruction] record of src/Encoder.h with its enumerations, default values and
    constructors.  An assignment [instr.f = v] of the C++ code is the update [set_f v].
    Register numbers are C++ [int]s, [-1] for "none". *)

From S2P Require Import Prelude Words.
Local Open Scope Z_scope.

Inductive OpType : Type :=
  | UNKNOWN
  | MOV | MOVZ | MOVK | FMOV | MOV_FP_SP | MOV_SP_FP
  | ADD | SUB | SUBS
  | MUL | MADD | FADD | FSUB | FMUL | FMSUB | FMADD
  | DIV | SDIV | FDIV
  | AND | ORR | EOR | BIC
  | CMP | FCMP
  | STR | LDR | LDUR | LDRB | STP | LDP | STR_FP | LDR_FP | STR_WORD | LDR_WORD | LDR_SCALED
  | B | BL | BR | BLR | RET | B_COND | ADRP | ADR
  | NOP | DMB | BRK | SVC | DIRECTIVE
  | LSL | LSR | ASR | UBFX | SBFX | BFI
  | OP_CSET | OP_CSETM | OP_CSINV
  | CBZ | CBNZ
  | SCVTF | FCVTZS | FCVTMS
  | FMLA_VECTOR | FMUL_VECTOR | ADD_VECTOR | LD1_VECTOR | FADD_VECTOR | MUL_VECTOR
  | FSQRT.

Inductive ConditionCode : Type :=
  | EQ | NE | CS | CC | MI | PL | VS | VC
  | HI | LS | GE | LT | GT | LE | AL | NV | CC_UNKNOWN.

Inductive JITAttribute : Type :=
  | JitNone | JitAddress | JitCall | JitStore | JitRestore.

Inductive RelocationType : Type :=
  | NONE
  | PC_RELATIVE_19_BIT_OFFSET
  | PC_RELATIVE_26_BIT_OFFSET
  | PAGE_21_BIT_PC_RELATIVE
  | ADD_12_BIT_UNSIGNED_OFFSET
  | MOVZ_MOVK_IMM_0 | MOVZ_MOVK_IMM_16 | MOVZ_MOVK_IMM_32 | MOVZ_MOVK_IMM_48
  | ABSOLUTE_ADDRESS_LO32 | ABSOLUTE_ADDRESS_HI32
  | Jump
  | Label.

Inductive SegmentType : Type := CODE | RODATA | DATA.

#[export] Instance OpType_eq_dec : EqDecision OpType.
Proof. solve_decision. Defined.
#[export] Instance ConditionCode_eq_dec : EqDecision ConditionCode.
Proof. solve_decision. Defined.
#[export] Instance JITAttribute_eq_dec : EqDecision JITAttribute.
Proof. solve_decision. Defined.
#[export] Instance RelocationType_eq_dec : EqDecision RelocationType.
Proof. solve_decision. Defined.
#[export] Instance SegmentType_eq_dec : EqDecision SegmentType.
Proof. solve_decision. Defined.

Record Instruction : Type := mkInstruction {
  encoding : Z;
  assembly_text : string;
  address : Z;
  relocation : RelocationType;
  target_label : string;
  is_data_value : bool;
  is_label_definition : bool;
  relocation_applied : bool;
  resolved_symbol_name : string;
  resolved_target_address : Z;
  segment : SegmentType;
  branch_target : string;
  label : string;
  opcode : OpType;
  dest_reg : Z;
  src_reg1 : Z;
  src_reg2 : Z;
  base_reg : Z;
  ra_reg : Z;
  cond : ConditionCode;
  immediate : Z;
  uses_immediate : bool;
  is_mem_op : bool;
  jit_attribute : JITAttribute
}.

(** [Instruction() = default] *)
Definition Instruction_default : Instruction := {|
  encoding := 0;
  assembly_text := "";
  address := 0;
  relocation := NONE;
  target_label := "";
  is_data_value := false;
  is_label_definition := false;
  relocation_applied := false;
  resolved_symbol_name := "";
  resolved_target_address := 0;
  segment := CODE;
  branch_target := "";
  label := "";
  opcode := UNKNOWN;
  dest_reg := (-1);
  src_reg1 := (-1);
  src_reg2 := (-1);
  base_reg := (-1);
  ra_reg := (-1);
  cond := CC_UNKNOWN;
  immediate := 0;
  uses_immediate := false;
  is_mem_op := false;
  jit_attribute := JitNone
|}.

(** Field assignments. *)
Definition set_encoding (v : Z) (i : Instruction) : Instruction :=
  mkInstruction
    v (assembly_text i) (address i) (relocation i) (target_label i) (is_data_value i)
    (is_label_definition i) (relocation_applied i) (resolved_symbol_name i)
    (resolved_target_address i) (segment i) (branch_target i) (label i) (opcode i)
    (dest_reg i) (src_reg1 i) (src_reg2 i) (base_reg i) (ra_reg i) (cond i) (immediate
    i) (uses_immediate i) (is_mem_op i) (jit_attribute i).
Definition set_assembly_text (v : string) (i : Instruction) : Instruction :=
  mkInstruction
    (encoding i) v (address i) (relocation i) (target_label i) (is_data_value i)
    (is_label_definition i) (relocation_applied i) (resolved_symbol_name i)
    (resolved_target_address i) (segment i) (branch_target i) (label i) (opcode i)
    (dest_reg i) (src_reg1 i) (src_reg2 i) (base_reg i) (ra_reg i) (cond i) (immediate
    i) (uses_immediate i) (is_mem_op i) (jit_attribute i).
Definition set_address (v : Z) (i : Instruction) : Instruction :=
  mkInstruction
    (encoding i) (assembly_text i) v (relocation i) (target_label i) (is_data_value i)
    (is_label_definition i) (relocation_applied i) (resolved_symbol_name i)
    (resolved_target_address i) (segment i) (branch_target i) (label i) (opcode i)
    (dest_reg i) (src_reg1 i) (src_reg2 i) (base_reg i) (ra_reg i) (cond i) (immediate
    i) (uses_immediate i) (is_mem_op i) (jit_attribute i).
Definition set_relocation (v : RelocationType) (i : Instruction) : Instruction :=
  mkInstruction
    (encoding i) (assembly_text i) (address i) v (target_label i) (is_data_value i)
    (is_label_definition i) (relocation_applied i) (resolved_symbol_name i)
    (resolved_target_address i) (segment i) (branch_target i) (label i) (opcode i)
    (dest_reg i) (src_reg1 i) (src_reg2 i) (base_reg i) (ra_reg i) (cond i) (immediate
    i) (uses_immediate i) (is_mem_op i) (jit_attribute i).
Definition set_target_label (v : string) (i : Instruction) : Instruction :=
  mkInstruction
    (encoding i) (assembly_text i) (address i) (relocation i) v (is_data_value i)
    (is_label_definition i) (relocation_applied i) (resolved_symbol_name i)
    (resolved_target_address i) (segment i) (branch_target i) (label i) (opcode i)
    (dest_reg i) (src_reg1 i) (src_reg2 i) (base_reg i) (ra_reg i) (cond i) (immediate
    i) (uses_immediate i) (is_mem_op i) (jit_attribute i).
Definition set_is_data_value (v : bool) (i : Instruction) : Instruction :=
  mkInstruction
    (encoding i) (assembly_text i) (address i) (relocation i) (target_label i) v
    (is_label_definition i) (relocation_applied i) (resolved_symbol_name i)
    (resolved_target_address i) (segment i) (branch_target i) (label i) (opcode i)
    (dest_reg i) (src_reg1 i) (src_reg2 i) (base_reg i) (ra_reg i) (cond i) (immediate
    i) (uses_immediate i) (is_mem_op i) (jit_attribute i).
Definition set_is_label_definition (v : bool) (i : Instruction) : Instruction :=
  mkInstruction
    (encoding i) (assembly_text i) (address i) (relocation i) (target_label i)
    (is_data_value i) v (relocation_applied i) (resolved_symbol_name i)
    (resolved_target_address i) (segment i) (branch_target i) (label i) (opcode i)
    (dest_reg i) (src_reg1 i) (src_reg2 i) (base_reg i) (ra_reg i) (cond i) (immediate
    i) (uses_immediate i) (is_mem_op i) (jit_attribute i).
Definition set_relocation_applied (v : bool) (i : Instruction) : Instruction :=
  mkInstruction
    (encoding i) (assembly_text i) (address i) (relocation i) (target_label i)
    (is_data_value i) (is_label_definition i) v (resolved_symbol_name i)
    (resolved_target_address i) (segment i) (branch_target i) (label i) (opcode i)
    (dest_reg i) (src_reg1 i) (src_reg2 i) (base_reg i) (ra_reg i) (cond i) (immediate
    i) (uses_immediate i) (is_mem_op i) (jit_attribute i).
Definition set_resolved_symbol_name (v : string) (i : Instruction) : Instruction :=
  mkInstruction
    (encoding i) (assembly_text i) (address i) (relocation i) (target_label i)
    (is_data_value i) (is_label_definition i) (relocation_applied i) v
    (resolved_target_address i) (segment i) (branch_target i) (label i) (opcode i)
    (dest_reg i) (src_reg1 i) (src_reg2 i) (base_reg i) (ra_reg i) (cond i) (immediate
    i) (uses_immediate i) (is_mem_op i) (jit_attribute i).
Definition set_resolved_target_address (v : Z) (i : Instruction) : Instruction :=
  mkInstruction
    (encoding i) (assembly_text i) (address i) (relocation i) (target_label i)
    (is_data_value i) (is_label_definition i) (relocation_applied i)
    (resolved_symbol_name i) v (segment i) (branch_target i) (label i) (opcode i)
    (dest_reg i) (src_reg1 i) (src_reg2 i) (base_reg i) (ra_reg i) (cond i) (immediate
    i) (uses_immediate i) (is_mem_op i) (jit_attribute i).
Definition set_segment (v : SegmentType) (i : Instruction) : Instruction :=
  mkInstruction
    (encoding i) (assembly_text i) (address i) (relocation i) (target_label i)
    (is_data_value i) (is_label_definition i) (relocation_applied i)
    (resolved_symbol_name i) (resolved_target_address i) v (branch_target i) (label i)
    (opcode i) (dest_reg i) (src_reg1 i) (src_reg2 i) (base_reg i) (ra_reg i) (cond i)
    (immediate i) (uses_immediate i) (is_mem_op i) (jit_attribute i).
Definition set_branch_target (v : string) (i : Instruction) : Instruction :=
  mkInstruction
    (encoding i) (assembly_text i) (address i) (relocation i) (target_label i)
    (is_data_value i) (is_label_definition i) (relocation_applied i)
    (resolved_symbol_name i) (resolved_target_address i) (segment i) v (label i) (opcode
    i) (dest_reg i) (src_reg1 i) (src_reg2 i) (base_reg i) (ra_reg i) (cond i)
    (immediate i) (uses_immediate i) (is_mem_op i) (jit_attribute i).
Definition set_label (v : string) (i : Instruction) : Instruction :=
  mkInstruction
    (encoding i) (assembly_text i) (address i) (relocation i) (target_label i)
    (is_data_value i) (is_label_definition i) (relocation_applied i)
    (resolved_symbol_name i) (resolved_target_address i) (segment i) (branch_target i) v
    (opcode i) (dest_reg i) (src_reg1 i) (src_reg2 i) (base_reg i) (ra_reg i) (cond i)
    (immediate i) (uses_immediate i) (is_mem_op i) (jit_attribute i).
Definition set_opcode (v : OpType) (i : Instruction) : Instruction :=
  mkInstruction
    (encoding i) (assembly_text i) (address i) (relocation i) (target_label i)
    (is_data_value i) (is_label_definition i) (relocation_applied i)
    (resolved_symbol_name i) (resolved_target_address i) (segment i) (branch_target i)
    (label i) v (dest_reg i) (src_reg1 i) (src_reg2 i) (base_reg i) (ra_reg i) (cond i)
    (immediate i) (uses_immediate i) (is_mem_op i) (jit_attribute i).
Definition set_dest_reg (v : Z) (i : Instruction) : Instruction :=
  mkInstruction
    (encoding i) (assembly_text i) (address i) (relocation i) (target_label i)
    (is_data_value i) (is_label_definition i) (relocation_applied i)
    (resolved_symbol_name i) (resolved_target_address i) (segment i) (branch_target i)
    (label i) (opcode i) v (src_reg1 i) (src_reg2 i) (base_reg i) (ra_reg i) (cond i)
    (immediate i) (uses_immediate i) (is_mem_op i) (jit_attribute i).
Definition set_src_reg1 (v : Z) (i : Instruction) : Instruction :=
  mkInstruction
    (encoding i) (assembly_text i) (address i) (relocation i) (target_label i)
    (is_data_value i) (is_label_definition i) (relocation_applied i)
    (resolved_symbol_name i) (resolved_target_address i) (segment i) (branch_target i)
    (label i) (opcode i) (dest_reg i) v (src_reg2 i) (base_reg i) (ra_reg i) (cond i)
    (immediate i) (uses_immediate i) (is_mem_op i) (jit_attribute i).
Definition set_src_reg2 (v : Z) (i : Instruction) : Instruction :=
  mkInstruction
    (encoding i) (assembly_text i) (address i) (relocation i) (target_label i)
    (is_data_value i) (is_label_definition i) (relocation_applied i)
    (resolved_symbol_name i) (resolved_target_address i) (segment i) (branch_target i)
    (label i) (opcode i) (dest_reg i) (src_reg1 i) v (base_reg i) (ra_reg i) (cond i)
    (immediate i) (uses_immediate i) (is_mem_op i) (jit_attribute i).
Definition set_base_reg (v : Z) (i : Instruction) : Instruction :=
  mkInstruction
    (encoding i) (assembly_text i) (address i) (relocation i) (target_label i)
    (is_data_value i) (is_label_definition i) (relocation_applied i)
    (resolved_symbol_name i) (resolved_target_address i) (segment i) (branch_target i)
    (label i) (opcode i) (dest_reg i) (src_reg1 i) (src_reg2 i) v (ra_reg i) (cond i)
    (immediate i) (uses_immediate i) (is_mem_op i) (jit_attribute i).
Definition set_ra_reg (v : Z) (i : Instruction) : Instruction :=
  mkInstruction
    (encoding i) (assembly_text i) (address i) (relocation i) (target_label i)
    (is_data_value i) (is_label_definition i) (relocation_applied i)
    (resolved_symbol_name i) (resolved_target_address i) (segment i) (branch_target i)
    (label i) (opcode i) (dest_reg i) (src_reg1 i) (src_reg2 i) (base_reg i) v (cond i)
    (immediate i) (uses_immediate i) (is_mem_op i) (jit_attribute i).
Definition set_cond (v : ConditionCode) (i : Instruction) : Instruction :=
  mkInstruction
    (encoding i) (assembly_text i) (address i) (relocation i) (target_label i)
    (is_data_value i) (is_label_definition i) (relocation_applied i)
    (resolved_symbol_name i) (resolved_target_address i) (segment i) (branch_target i)
    (label i) (opcode i) (dest_reg i) (src_reg1 i) (src_reg2 i) (base_reg i) (ra_reg i)
    v (immediate i) (uses_immediate i) (is_mem_op i) (jit_attribute i).
Definition set_immediate (v : Z) (i : Instruction) : Instruction :=
  mkInstruction
    (encoding i) (assembly_text i) (address i) (relocation i) (target_label i)
    (is_data_value i) (is_label_definition i) (relocation_applied i)
    (resolved_symbol_name i) (resolved_target_address i) (segment i) (branch_target i)
    (label i) (opcode i) (dest_reg i) (src_reg1 i) (src_reg2 i) (base_reg i) (ra_reg i)
    (cond i) v (uses_immediate i) (is_mem_op i) (jit_attribute i).
Definition set_uses_immediate (v : bool) (i : Instruction) : Instruction :=
  mkInstruction
    (encoding i) (assembly_text i) (address i) (relocation i) (target_label i)
    (is_data_value i) (is_label_definition i) (relocation_applied i)
    (resolved_symbol_name i) (resolved_target_address i) (segment i) (branch_target i)
    (label i) (opcode i) (dest_reg i) (src_reg1 i) (src_reg2 i) (base_reg i) (ra_reg i)
    (cond i) (immediate i) v (is_mem_op i) (jit_attribute i).
Definition set_is_mem_op (v : bool) (i : Instruction) : Instruction :=
  mkInstruction
    (encoding i) (assembly_text i) (address i) (relocation i) (target_label i)
    (is_data_value i) (is_label_definition i) (relocation_applied i)
    (resolved_symbol_name i) (resolved_target_address i) (segment i) (branch_target i)
    (label i) (opcode i) (dest_reg i) (src_reg1 i) (src_reg2 i) (base_reg i) (ra_reg i)
    (cond i) (immediate i) (uses_immediate i) v (jit_attribute i).
Definition set_jit_attribute (v : JITAttribute) (i : Instruction) : Instruction :=
  mkInstruction
    (encoding i) (assembly_text i) (address i) (relocation i) (target_label i)
    (is_data_value i) (is_label_definition i) (relocation_applied i)
    (resolved_symbol_name i) (resolved_target_address i) (segment i) (branch_target i)
    (label i) (opcode i) (dest_reg i) (src_reg1 i) (src_reg2 i) (base_reg i) (ra_reg i)
    (cond i) (immediate i) (uses_immediate i) (is_mem_op i) v.

(** [Instruction(uint32_t enc, std::string text)] *)
Definition Instruction_new (enc : Z) (text : string) : Instruction :=
  set_assembly_text text (set_encoding enc Instruction_default).

(** The constructor that also sets the relocation, the target and the data flags. *)
Definition Instruction_reloc (enc : Z) (text : string) (rel : RelocationType)
    (target : string) (is_data reloc_applied : bool) : Instruction :=
  set_relocation_applied reloc_applied (set_is_data_value is_data
    (set_target_label target (set_relocation rel (Instruction_new enc text)))).

(** [Instruction::as_label] *)
Definition as_label (label_name : string) (seg : SegmentType) : Instruction :=
  set_segment seg (set_target_label label_name
    (set_is_label_definition true Instruction_default)).

(** [Instruction::as_relocatable_data] *)
Definition as_relocatable_data (target : string) (seg : SegmentType) : Instruction :=
  set_encoding 0 (set_segment seg (set_target_label target
    (set_relocation Label (set_is_data_value true Instruction_default)))).
