(* ===== verification/EncReg.v ===== *)
(** * Register names and condition codes of the encoder

    The register-name parsers of src/encoders: every encoder carries its own copy of the
    lambda [parse_register]; the copies differ in the aliases of register 31 they know
    and in the largest number they accept.  [get_reg_encoding] is the shared helper, which
    also knows the floating-point and vector registers. *)

From S2P Require Import Prelude Words Instr.
Local Open Scope Z_scope.

(** ** Parsers *)

(** [try { reg_num = std::stoul(text); if (reg_num > max) throw out_of_range; }
     catch (const std::logic_error&) { throw invalid_argument; }]; [reg_num] is a
    [uint32_t], so the [unsigned long] is truncated first. *)
Definition parse_number (max : Z) (text : string) : result Z :=
  catch_logic_error
    (v ← stoul text;
     let reg_num := u32 v in
     if max <? reg_num then Throw out_of_range else Ok reg_num)
    invalid_argument.

(** The common shape of the lambda: [zr] when it knows [wzr]/[xzr], [sp] when it knows
    [wsp]/[sp], and the largest register number. *)
Definition parse_register_with (zr sp : bool) (max : Z) (reg_str : string)
    : result (Z * bool) :=
  if string_empty reg_str then Throw invalid_argument
  else
    let lower_reg := lower reg_str in
    if zr && String.eqb lower_reg "wzr" then Ok (31, false)
    else if zr && String.eqb lower_reg "xzr" then Ok (31, true)
    else if sp && String.eqb lower_reg "wsp" then Ok (31, false)
    else if sp && String.eqb lower_reg "sp" then Ok (31, true)
    else
      let prefix := front lower_reg in
      is_64bit ← (if Ascii.eqb prefix "w"%char then Ok false
                  else if Ascii.eqb prefix "x"%char then Ok true
                  else Throw invalid_argument);
      reg_num ← parse_number max (substr1 reg_str);
      Ok (reg_num, is_64bit).

(** ADD, AND, BIC (register) and LSL (immediate). *)
Definition parse_register_30 : string -> result (Z * bool) := parse_register_with true true 30.
(** The other data-processing encoders and the loads and stores. *)
Definition parse_register_31 : string -> result (Z * bool) := parse_register_with true true 31.
(** CMP (immediate): no zero register. *)
Definition parse_register_sp : string -> result (Z * bool) := parse_register_with false true 31.
(** MOVZ, MOVK, CSET and CSETM: no stack pointer. *)
Definition parse_register_zr : string -> result (Z * bool) := parse_register_with true false 31.

(** ADD (literal): [xzr], [sp] and the [x] registers only. *)
Definition parse_register_add_literal (reg_str : string) : result (Z * bool) :=
  if string_empty reg_str then Throw invalid_argument
  else
    let lower_reg := lower reg_str in
    if String.eqb lower_reg "xzr" then Ok (31, true)
    else if String.eqb lower_reg "sp" then Ok (31, true)
    else if Ascii.eqb (front lower_reg) "x"%char then
      reg_num ← parse_number 31 (substr1 reg_str); Ok (reg_num, true)
    else Throw invalid_argument.

(** ADRP ([max = 30]), BR and BLR ([max = 31]): an [x] register, always 64-bit. *)
Definition parse_register_x (max : Z) (reg_str : string) : result (Z * bool) :=
  if string_empty reg_str then Throw invalid_argument
  else
    let lower_reg := lower reg_str in
    if negb (Ascii.eqb (front lower_reg) "x"%char) then Throw invalid_argument
    else reg_num ← parse_number max (substr1 lower_reg); Ok (reg_num, true).

(** MVN: [std::stoi] without a range check and outside any [try]. *)
Definition parse_register_mvn (reg_str : string) : result (Z * bool) :=
  if string_empty reg_str then Throw invalid_argument
  else
    let lower_reg := lower reg_str in
    if String.eqb lower_reg "wzr" then Ok (31, false)
    else if String.eqb lower_reg "xzr" then Ok (31, true)
    else if String.eqb lower_reg "wsp" then Ok (31, false)
    else if String.eqb lower_reg "sp" then Ok (31, true)
    else
      let prefix := front lower_reg in
      is_64bit ← (if Ascii.eqb prefix "w"%char then Ok false
                  else if Ascii.eqb prefix "x"%char then Ok true
                  else Throw invalid_argument);
      v ← stoi (substr1 lower_reg);
      Ok (u32 v, is_64bit).

(** [Encoder::get_reg_encoding] *)
Definition get_reg_encoding (reg_name : string) : result Z :=
  if string_empty reg_name then Throw invalid_argument
  else
    let lower_reg := lower reg_name in
    if String.eqb lower_reg "wzr" || String.eqb lower_reg "xzr"
       || String.eqb lower_reg "wsp" || String.eqb lower_reg "sp" then Ok 31
    else
      let prefix := front lower_reg in
      if negb (isalpha prefix) then Throw invalid_argument
      else
        catch_logic_error
          (if Ascii.eqb prefix "d"%char || Ascii.eqb prefix "v"%char then
             v ← stoul (substr1 lower_reg);
             let reg_num := u32 v in
             if 31 <? reg_num then Throw out_of_range else Ok reg_num
           else if Ascii.eqb prefix "w"%char || Ascii.eqb prefix "x"%char then
             v ← stoul (substr1 lower_reg);
             let reg_num := u32 v in
             if 31 <? reg_num then Throw out_of_range else Ok reg_num
           else Throw invalid_argument)
          invalid_argument.

(** ** Condition codes *)

(** [cond_map] of [get_condition_code] *)
Definition cond_map : list (string * Z) :=
  [("EQ", 0); ("NE", 1); ("CS", 2); ("HS", 2); ("CC", 3); ("LO", 3); ("MI", 4); ("PL", 5);
   ("VS", 6); ("VC", 7); ("HI", 8); ("LS", 9); ("GE", 10); ("LT", 11); ("GT", 12);
   ("LE", 13); ("AL", 14)]%string.

Fixpoint assoc_string {A} (k : string) (l : list (string * A)) : option A :=
  match l with
  | [] => None
  | (k', v) :: l' => if String.eqb k k' then Some v else assoc_string k l'
  end.

Definition get_condition_code (cond : string) : result Z :=
  match assoc_string (upper cond) cond_map with
  | Some v => Ok v
  | None => Throw invalid_argument
  end.

(** [Encoder::get_cond_encoding] has the same table and [NV]. *)
Definition get_cond_encoding (cond : string) : result Z :=
  match assoc_string (upper cond) (cond_map ++ [("NV"%string, 15)]) with
  | Some v => Ok v
  | None => Throw invalid_argument
  end.

Definition invert_condition_code (cond : Z) : Z := Z.lxor cond 1.

Definition stringToConditionCode (cond : string) : ConditionCode :=
  default CC_UNKNOWN (assoc_string (upper cond)
    [("EQ", EQ); ("NE", NE); ("CS", CS); ("CC", CC); ("MI", MI); ("PL", PL); ("VS", VS);
     ("VC", VC); ("HI", HI); ("LS", LS); ("GE", GE); ("LT", LT); ("GT", GT); ("LE", LE);
     ("AL", AL); ("NV", NV)]%string).

(** ** Lemmas *)

Lemma string_eqb_spec s t : String.eqb s t = true <-> s = t.
Proof. apply String.eqb_eq. Qed.

Lemma lower_substr1 s : substr1 (lower s) = lower (substr1 s).
Proof. destruct s; reflexivity. Qed.

Lemma string_empty_lower s : string_empty (lower s) = string_empty s.
Proof. destruct s; reflexivity. Qed.

(** [stoul] throws only [std::logic_error]s. *)
Lemma stoul_throws s e : stoul s = Throw e -> is_logic_error e = true.
Proof.
  unfold stoul. destruct (scan_sign (skip_spaces s)) as [neg ds].
  destruct (scan_digits None ds); [|intros [= <-]; reflexivity].
  case_match; [|discriminate]. intros [= <-]. reflexivity.
Qed.

Lemma parse_number_lower max s : parse_number max (lower s) = parse_number max s.
Proof. unfold parse_number. by rewrite stoul_lower. Qed.

Lemma parse_number_Ok max s n :
  parse_number max s = Ok n ->
  exists v, stoul s = Ok v /\ n = u32 v /\ 0 <= n <= max.
Proof.
  unfold parse_number. destruct (stoul s) as [v|e]; cbn.
  - destruct (max <? u32 v) eqn:E; cbn; [discriminate|].
    intros [= <-]. exists v. pose proof (u32_range v). bool_to_prop. repeat split; lia.
  - destruct (is_logic_error e); discriminate.
Qed.

Lemma parse_number_Throw max s e : parse_number max s = Throw e -> e = invalid_argument.
Proof.
  unfold parse_number. destruct (stoul s) as [v|e'] eqn:E; cbn.
  - destruct (max <? u32 v); cbn; [|discriminate]. congruence.
  - apply stoul_throws in E. rewrite E. congruence.
Qed.

Lemma stoul_zr : stoul "zr" = Throw invalid_argument. Proof. reflexivity. Qed.
Lemma stoul_sp : stoul "sp" = Throw invalid_argument. Proof. reflexivity. Qed.

(** The aliases of register 31 are not numbers: when a parser that does not know an
    alias is given it, the number scanner fails. *)
Lemma parse_number_alias max s t :
  lower s = t -> stoul (substr1 t) = Throw invalid_argument ->
  parse_number max (substr1 s) = Throw invalid_argument.
Proof.
  intros <- H. rewrite lower_substr1, stoul_lower in H. unfold parse_number. by rewrite H.
Qed.

(** Every parser agrees with [get_reg_encoding] when it succeeds. *)
Lemma get_reg_encoding_numbered s max n :
  max <= 31 -> string_empty s = false ->
  (front (lower s) = "w"%char \/ front (lower s) = "x"%char) ->
  parse_number max (substr1 s) = Ok n -> get_reg_encoding s = Ok n.
Proof.
  intros Hmax Hs Hp Hn. unfold get_reg_encoding. rewrite Hs.
  destruct (String.eqb (lower s) "wzr") eqn:E1.
  { apply String.eqb_eq in E1. by rewrite (parse_number_alias _ _ _ E1 stoul_zr) in Hn. }
  destruct (String.eqb (lower s) "xzr") eqn:E2.
  { apply String.eqb_eq in E2. by rewrite (parse_number_alias _ _ _ E2 stoul_zr) in Hn. }
  destruct (String.eqb (lower s) "wsp") eqn:E3.
  { apply String.eqb_eq in E3. by rewrite (parse_number_alias _ _ _ E3 stoul_sp) in Hn. }
  destruct (String.eqb (lower s) "sp") eqn:E4.
  { apply String.eqb_eq in E4. rewrite E4 in Hp. destruct Hp; discriminate. }
  apply parse_number_Ok in Hn. destruct Hn as (v & Hv & -> & Hr).
  cbn [orb]. rewrite lower_substr1, stoul_lower, Hv.
  destruct Hp as [-> | ->]; cbn; replace (31 <? u32 v) with false by lia; reflexivity.
Qed.

Lemma parse_register_with_Ok zr sp max s n b :
  max <= 31 -> parse_register_with zr sp max s = Ok (n, b) ->
  get_reg_encoding s = Ok n /\ 0 <= n < 32.
Proof.
  intros Hmax H. unfold parse_register_with in H.
  destruct (string_empty s) eqn:Hs; [discriminate|].
  assert (Hal : String.eqb (lower s) "wzr" || String.eqb (lower s) "xzr"
             || String.eqb (lower s) "wsp" || String.eqb (lower s) "sp" = true ->
             get_reg_encoding s = Ok 31).
  { intros Ha. unfold get_reg_encoding. by rewrite Hs, Ha. }
  repeat match type of H with
  | (if ?c then _ else _) = _ =>
      let E := fresh "E" in destruct c eqn:E;
      [ apply andb_true_iff in E as [_ E]; injection H as <- <-;
        split; [apply Hal; rewrite E, ?orb_true_r; reflexivity | lia] | ]
  end.
  inv_bind H. inv_bind H. injection H as <- <-.
  pose proof (parse_number_Ok _ _ _ Ha0) as (v & _ & _ & Hr). split; [|lia].
  apply (get_reg_encoding_numbered s max); [done | done | | done].
  destruct (Ascii.eqb_spec (front (lower s)) "w"%char); [by left|].
  destruct (Ascii.eqb_spec (front (lower s)) "x"%char); [by right | discriminate].
Qed.

Lemma parse_register_with_Throw zr sp max s e :
  parse_register_with zr sp max s = Throw e -> e = invalid_argument.
Proof.
  unfold parse_register_with. intros H.
  destruct (string_empty s); [congruence|].
  repeat case_if_in H; try discriminate; cbn in H; try congruence.
  all: destruct (parse_number max (substr1 s)) as [w|e'] eqn:Ep; cbn in H; [discriminate|].
  all: apply parse_number_Throw in Ep; congruence.
Qed.

Lemma get_reg_encoding_range s n : get_reg_encoding s = Ok n -> 0 <= n < 32.
Proof.
  unfold get_reg_encoding. intros H.
  destruct (string_empty s); [discriminate|].
  destruct (_ || _ || _ || _); [injection H as <-; lia|].
  destruct (negb _); [discriminate|].
  destruct (Ascii.eqb (front (lower s)) "d"%char || Ascii.eqb (front (lower s)) "v"%char);
    [|destruct (Ascii.eqb (front (lower s)) "w"%char || Ascii.eqb (front (lower s)) "x"%char);
      [|discriminate]].
  all: destruct (stoul (substr1 (lower s))) as [v|e]; cbn in H;
    [|destruct (is_logic_error e); discriminate].
  all: destruct (31 <? u32 v) eqn:E; cbn in H; [discriminate|]; injection H as <-.
  all: pose proof (u32_range v); bool_to_prop; lia.
Qed.

Lemma get_reg_encoding_Throw s e : get_reg_encoding s = Throw e -> e = invalid_argument.
Proof.
  unfold get_reg_encoding. intros H.
  destruct (string_empty s); [congruence|].
  destruct (_ || _ || _ || _); [discriminate|].
  destruct (negb _); [congruence|].
  revert H. destruct (stoul (substr1 (lower s))) as [v|e''] eqn:E; cbn.
  - intros H. repeat case_match; simplify_eq; cbn in *;
      repeat match goal with
      | H : context [if ?b then _ else _] |- _ => destruct b
      end; simplify_eq; done.
  - apply stoul_throws in E. intros H. repeat case_match; simplify_eq; cbn in *;
      rewrite ?E in H; congruence.
Qed.

Lemma parse_register_add_literal_Ok s n b :
  parse_register_add_literal s = Ok (n, b) ->
  get_reg_encoding s = Ok n /\ 0 <= n < 32 /\ b = true.
Proof.
  unfold parse_register_add_literal. intros H.
  destruct (string_empty s) eqn:Hs; [discriminate|].
  destruct (String.eqb (lower s) "xzr") eqn:E1.
  { injection H as <- <-. unfold get_reg_encoding. rewrite Hs, E1, orb_true_r.
    repeat split; lia. }
  destruct (String.eqb (lower s) "sp") eqn:E2.
  { injection H as <- <-. unfold get_reg_encoding. rewrite Hs, E2, orb_true_r.
    repeat split; lia. }
  destruct (Ascii.eqb_spec (front (lower s)) "x"%char); [|discriminate].
  inv_bind H. injection H as <- <-.
  pose proof (parse_number_Ok _ _ _ Ha) as (v & _ & _ & Hr).
  split; [|split; [lia | reflexivity]].
  apply (get_reg_encoding_numbered s 31); auto; lia.
Qed.

Lemma parse_register_x_Ok max s n b :
  max <= 31 -> parse_register_x max s = Ok (n, b) ->
  get_reg_encoding s = Ok n /\ 0 <= n < 32 /\ b = true.
Proof.
  unfold parse_register_x. intros Hmax H.
  destruct (string_empty s) eqn:Hs; [discriminate|].
  destruct (Ascii.eqb_spec (front (lower s)) "x"%char); [|discriminate]. cbn [negb] in H.
  inv_bind H. injection H as <- <-.
  rewrite lower_substr1, parse_number_lower in Ha.
  pose proof (parse_number_Ok _ _ _ Ha) as (v & _ & _ & Hr).
  split; [|split; [lia | reflexivity]].
  apply (get_reg_encoding_numbered s max); auto; lia.
Qed.

Lemma assoc_string_Forall {A} (P : A -> Prop) k l v :
  Forall (fun kv => P (snd kv)) l -> assoc_string k l = Some v -> P v.
Proof.
  induction 1 as [|[k' v'] l Hv _ IH]; cbn; [discriminate|].
  destruct (String.eqb k k'); [|exact IH]. intros [= <-]. exact Hv.
Qed.

Lemma get_condition_code_range c v : get_condition_code c = Ok v -> 0 <= v < 15.
Proof.
  unfold get_condition_code. destruct (assoc_string _ _) as [w|] eqn:E; [|discriminate].
  intros [= <-]. refine (assoc_string_Forall (fun v => 0 <= v < 15) _ _ _ _ E).
  repeat constructor; cbn; lia.
Qed.

Lemma get_condition_code_Throw c e : get_condition_code c = Throw e -> e = invalid_argument.
Proof. unfold get_condition_code. case_match; [discriminate|]. congruence. Qed.
