(* ===== verification/EncSpec.v ===== *)
(** * What an encoder promises

    The specification of the encoders of src/encoders, in terms of the A64 decoder: on
    register names of the right shape and size and on an immediate in range an encoder
    returns an [Instruction] whose word decodes to the intended instruction and whose
    semantic fields (used by the peephole optimizer and the scheduler) agree with it; on
    anything else it throws [std::invalid_argument].  The encoders are proved against the
    interface [RegParser], which every register parser of [EncReg] implements. *)

From S2P Require Import Prelude Words A64 Instr EncReg.
Local Open Scope Z_scope.

(** ** The interface of the register parsers *)

(** What an encoder relies on: an accepted name has a 5-bit number, which is also the one
    the shared helper returns for the semantic fields, and a refused one is refused with
    [std::invalid_argument]. *)
Class RegParser (parse : string -> result (Z * bool)) : Prop := {
  parser_encoding s n b : parse s = Ok (n, b) -> get_reg_encoding s = Ok n;
  parser_range s n b : parse s = Ok (n, b) -> 0 <= n < 32;
  parser_throw s e : parse s = Throw e -> e = invalid_argument
}.

(** The encoders of the optimizer call the shared helper and look at the first character:
    [xd[0] == 'x' || xd[0] == 'X']. *)
Definition is_x_name (s : string) : bool :=
  Ascii.eqb (front s) "x"%char || Ascii.eqb (front s) "X"%char.

Definition parse_register_opt (s : string) : result (Z * bool) :=
  n ← get_reg_encoding s; Ok (n, is_x_name s).

#[export] Instance parse_register_with_parser zr sp max :
  TCEq (max <=? 31) true -> RegParser (parse_register_with zr sp max).
Proof.
  intros Hmax. apply TCEq_eq in Hmax. bool_to_prop. split.
  - intros s n b H. by eapply parse_register_with_Ok.
  - intros s n b H. by eapply parse_register_with_Ok.
  - intros s e. apply parse_register_with_Throw.
Qed.

#[export] Instance parse_register_30_parser : RegParser parse_register_30.
Proof. unfold parse_register_30. apply _. Qed.
#[export] Instance parse_register_31_parser : RegParser parse_register_31.
Proof. unfold parse_register_31. apply _. Qed.
#[export] Instance parse_register_sp_parser : RegParser parse_register_sp.
Proof. unfold parse_register_sp. apply _. Qed.
#[export] Instance parse_register_zr_parser : RegParser parse_register_zr.
Proof. unfold parse_register_zr. apply _. Qed.

#[export] Instance parse_register_add_literal_parser : RegParser parse_register_add_literal.
Proof.
  split.
  - intros s n b H. by apply parse_register_add_literal_Ok in H as (? & ? & ?).
  - intros s n b H. by apply parse_register_add_literal_Ok in H as (? & ? & ?).
  - unfold parse_register_add_literal. intros s e H.
    repeat (case_match; try discriminate; try congruence).
    destruct (parse_number 31 (substr1 s)) eqn:E; cbn in H; [discriminate|].
    apply parse_number_Throw in E. congruence.
Qed.

#[export] Instance parse_register_x_parser max :
  TCEq (max <=? 31) true -> RegParser (parse_register_x max).
Proof.
  intros Hmax. apply TCEq_eq in Hmax. bool_to_prop. split.
  - intros s n b H. by eapply parse_register_x_Ok in H as (? & ? & ?).
  - intros s n b H. by eapply parse_register_x_Ok in H as (? & ? & ?).
  - unfold parse_register_x. intros s e H.
    repeat (case_match; try discriminate; try congruence).
    destruct (parse_number _ _) eqn:E in H; cbn in H; [discriminate|].
    apply parse_number_Throw in E. congruence.
Qed.

#[export] Instance parse_register_opt_parser : RegParser parse_register_opt.
Proof.
  split.
  - intros s n b H. unfold parse_register_opt in H. inv_bind H. congruence.
  - intros s n b H. unfold parse_register_opt in H. inv_bind H.
    apply get_reg_encoding_range in Ha. congruence.
  - intros s e H. unfold parse_register_opt in H.
    destruct (get_reg_encoding s) eqn:E; cbn in H; [discriminate|].
    apply get_reg_encoding_Throw in E. congruence.
Qed.

Lemma get_reg_encoding_opt s :
  get_reg_encoding s = (fst <$> parse_register_opt s).
Proof. unfold parse_register_opt. by destruct (get_reg_encoding s). Qed.

(** ** Outcomes *)

(** The instruction is a 32-bit word that decodes to [d], tagged with [op], and the linker
    will apply the relocation [rel] to it. *)
Definition emits (i : Instruction) (op : OpType) (rel : RelocationType) (d : insn) : Prop :=
  0 <= encoding i < 2 ^ 32 /\ decode (encoding i) = Some d /\ opcode i = op
  /\ relocation i = rel /\ is_data_value i = false /\ is_label_definition i = false.

Section outcomes.
Context (parse : string -> result (Z * bool)).

(** Three registers of one size. *)
Definition encodes_rrr (create : string -> string -> string -> result Instruction)
    (op : OpType) (shape : bool -> Z -> Z -> Z -> insn) : Prop :=
  forall xd xn xm,
  match parse xd, parse xn, parse xm with
  | Ok (rd, a), Ok (rn, b), Ok (rm, c) =>
      if eqb a b && eqb b c then
        exists i, create xd xn xm = Ok i /\ emits i op NONE (shape a rd rn rm)
          /\ dest_reg i = rd /\ src_reg1 i = rn /\ src_reg2 i = rm
      else create xd xn xm = Throw invalid_argument
  | _, _, _ => create xd xn xm = Throw invalid_argument
  end.

(** Two registers of one size and an immediate argument. *)
Definition encodes_rri {A} (create : string -> string -> A -> result Instruction)
    (op : OpType) (valid : bool -> A -> bool) (imm : A -> Z)
    (shape : bool -> Z -> Z -> A -> insn) : Prop :=
  forall xd xn v,
  match parse xd, parse xn with
  | Ok (rd, a), Ok (rn, b) =>
      if eqb a b && valid a v then
        exists i, create xd xn v = Ok i /\ emits i op NONE (shape a rd rn v)
          /\ dest_reg i = rd /\ src_reg1 i = rn
          /\ immediate i = imm v /\ uses_immediate i = true
      else create xd xn v = Throw invalid_argument
  | _, _ => create xd xn v = Throw invalid_argument
  end.

(** Two registers of one size; [regs] reads the semantic fields they end up in. *)
Definition encodes_rr (create : string -> string -> result Instruction)
    (op : OpType) (regs : Instruction -> Z * Z) (shape : bool -> Z -> Z -> insn) : Prop :=
  forall x1 x2,
  match parse x1, parse x2 with
  | Ok (r1, a), Ok (r2, b) =>
      if eqb a b then
        exists i, create x1 x2 = Ok i /\ emits i op NONE (shape a r1 r2)
          /\ regs i = (r1, r2)
      else create x1 x2 = Throw invalid_argument
  | _, _ => create x1 x2 = Throw invalid_argument
  end.
End outcomes.

(** ** Automation *)

(** Splits on the result of a parser and records what the interface promises. *)
Ltac split_parse p s n b :=
  let E := fresh "E" in let e := fresh "e" in
  destruct (p s) as [[n b]|e] eqn:E;
  [ pose proof (parser_encoding (parse := p) _ _ _ E);
    pose proof (parser_range (parse := p) _ _ _ E)
  | apply (parser_throw (parse := p)) in E; subst e ].

Ltac run_encoder :=
  repeat first
    [ rewrite bind_ret_l
    | rewrite bind_throw
    | rewrite patch_bind by reflexivity
    | rewrite patch_ok by reflexivity
    | match goal with H : get_reg_encoding ?s = Ok _ |- context [get_reg_encoding ?s] =>
        rewrite H end
    | progress cbn [negb andb orb eqb] ].

Lemma emits_intro i op rel d :
  0 <= encoding i < 2 ^ 32 -> decode (encoding i) = Some d ->
  opcode i = op -> relocation i = rel -> is_data_value i = false ->
  is_label_definition i = false -> emits i op rel d.
Proof. unfold emits. tauto. Qed.

Ltac decide_tests :=
  repeat match goal with
  | |- context [?x <=? ?y] =>
      first [ replace (x <=? y) with true by lia | replace (x <=? y) with false by lia ]
  end.

Ltac instr_fields :=
  cbn [encoding opcode dest_reg src_reg1 src_reg2 base_reg ra_reg cond immediate
    uses_immediate is_mem_op jit_attribute relocation target_label is_data_value
    is_label_definition relocation_applied segment address assembly_text
    set_encoding set_assembly_text set_address set_relocation set_target_label
    set_is_data_value set_is_label_definition set_relocation_applied
    set_resolved_symbol_name set_resolved_target_address set_segment set_branch_target
    set_label set_opcode set_dest_reg set_src_reg1 set_src_reg2 set_base_reg set_ra_reg
    set_cond set_immediate set_uses_immediate set_is_mem_op set_jit_attribute
    Instruction_new Instruction_reloc Instruction_default].

(** Closes [exists i, Ok j = Ok i /\ emits i _ _ _ /\ ...]. *)
Ltac solve_emits :=
  eexists; split; [reflexivity|]; split;
  [ apply emits_intro; instr_fields;
    [ solve_word_range | decode_word; decide_tests; reflexivity | reflexivity .. ]
  | instr_fields; auto 10 ].

(** Argument ranges of the immediate forms. *)
Definition valid_imm12 (sf : bool) (v : Z) : bool := (0 <=? v) && (v <=? 4095).
Definition valid_shift (sf : bool) (v : Z) : bool := (0 <=? v) && (v <? datasize sf).
Definition valid_field (sf : bool) (lw : Z * Z) : bool :=
  (0 <=? lw.1) && (lw.1 <? datasize sf) && (1 <=? lw.2) && (lw.1 + lw.2 <=? datasize sf).

(** Follows the argument checks of the encoder, then decides the check of the
    specification from them. *)
Ltac split_guards :=
  repeat match goal with
  | |- context [if ?c then Throw invalid_argument else _] =>
      let E := fresh "Ev" in destruct c eqn:E
  end; bool_to_prop.

Ltac decide_valid :=
  unfold valid_imm12, valid_shift, valid_field; cbn [datasize fst snd];
  lazymatch goal with
  | |- if ?c then _ else _ =>
      first [ replace c with false by lia; try reflexivity | replace c with true by lia ]
  | _ => idtac
  end.

(** Reduces the arithmetic of the field values; the ranges come from the guards. *)
Ltac reduce_values :=
  repeat match goal with
  | |- context [Z.rem ?x ?y] => rewrite (Z.rem_mod_nonneg x y) by lia
  | |- context [?x mod ?y] =>
      lazymatch goal with
      | _ : 0 <= x mod y < y |- _ => fail
      | _ => pose proof (Z.mod_pos_bound x y ltac:(lia))
      end
  | |- context [u32 ?x] => rewrite (u32_small x) by lia
  end.

(** The two shapes of proof: every combination of sizes is computed separately. *)
Ltac solve_rrr create p :=
  let xd := fresh "xd" in let xn := fresh "xn" in let xm := fresh "xm" in
  let rd := fresh "rd" in let rn := fresh "rn" in let rm := fresh "rm" in
  let a := fresh "a" in let b := fresh "b" in let c := fresh "c" in
  intros xd xn xm; unfold create;
  split_parse p xd rd a; [|reflexivity];
  split_parse p xn rn b; [|reflexivity];
  split_parse p xm rm c; [|reflexivity];
  destruct a, b, c; run_encoder; try reflexivity; solve_emits.

Ltac solve_rr create p :=
  let x1 := fresh "x1" in let x2 := fresh "x2" in
  let r1 := fresh "r1" in let r2 := fresh "r2" in
  let a := fresh "a" in let b := fresh "b" in
  intros x1 x2; unfold create;
  split_parse p x1 r1 a; [|reflexivity];
  split_parse p x2 r2 b; [|reflexivity];
  destruct a, b; run_encoder; try reflexivity; solve_emits.

Ltac solve_rri create p :=
  let xd := fresh "xd" in let xn := fresh "xn" in let v := fresh "v" in
  let rd := fresh "rd" in let rn := fresh "rn" in
  let a := fresh "a" in let b := fresh "b" in
  intros xd xn v; unfold create;
  split_parse p xd rd a; [|run_encoder; split_guards; reflexivity];
  split_parse p xn rn b; [|run_encoder; split_guards; reflexivity];
  destruct a, b; run_encoder; split_guards; run_encoder; split_guards; try reflexivity;
  decide_valid; run_encoder; reduce_values; solve_emits.

(** The encoders that read registers with the shared helper. *)
Ltac split_opt s n :=
  let E := fresh "E" in let e := fresh "e" in
  destruct (get_reg_encoding s) as [n|e] eqn:E;
  [ pose proof (get_reg_encoding_range _ _ E)
  | apply get_reg_encoding_Throw in E; subst e ].

Ltac solve_rri_opt create :=
  let xd := fresh "xd" in let xn := fresh "xn" in let v := fresh "v" in
  let rd := fresh "rd" in let rn := fresh "rn" in
  intros xd xn v; unfold create, parse_register_opt;
  split_opt xd rd; [|reflexivity];
  split_opt xn rn; [|reflexivity];
  destruct (is_x_name xd), (is_x_name xn); run_encoder; split_guards; try reflexivity;
  decide_valid; run_encoder; reduce_values; solve_emits.
