(* ===== verification/EncArith.v ===== *)
(** * Data-processing encoders

    The integer arithmetic, logical, shift, bit-field, move-wide and conditional-select
    encoders of src/encoders (and BIC and BFI of src/Encoder.cpp), one definition per
    [Encoder::] function, in the order of its statements.  [patcher] is the value held by
    the [BitPatcher]; [instr.f = v] is [set_f v instr].  The lemmas prove every one of them
    against the decoder ([EncSpec]); the last ones state what the two defective encoders,
    ORR and MVN, emit instead. *)

From S2P Require Import Prelude Words A64 Instr EncReg EncSpec.
Local Open Scope Z_scope.

(** ** Three- and two-register forms *)

Definition create_add_reg (xd xn xm : string) : result Instruction :=
  '(rd_num, rd_is_64) ← parse_register_30 xd;
  '(rn_num, rn_is_64) ← parse_register_30 xn;
  '(rm_num, rm_is_64) ← parse_register_30 xm;
  if negb (eqb rd_is_64 rn_is_64 && eqb rn_is_64 rm_is_64) then Throw invalid_argument
  else
    let patcher := 0x0B000000 in
    patcher ← (if rd_is_64 then patch patcher 1 31 1 else Ok patcher);
    patcher ← patch patcher rd_num 0 5;
    patcher ← patch patcher rn_num 5 5;
    patcher ← patch patcher rm_num 16 5;
    let assembly_text := ("ADD " ++ xd ++ ", " ++ xn ++ ", " ++ xm)%string in
    let instr := set_opcode ADD (Instruction_new patcher assembly_text) in
    d ← get_reg_encoding xd;
    let instr := set_dest_reg d instr in
    s1 ← get_reg_encoding xn;
    let instr := set_src_reg1 s1 instr in
    s2 ← get_reg_encoding xm;
    let instr := set_src_reg2 s2 instr in
    Ok instr.

Definition create_sub_reg (xd xn xm : string) : result Instruction :=
  '(rd_num, rd_is_64) ← parse_register_31 xd;
  '(rn_num, rn_is_64) ← parse_register_31 xn;
  '(rm_num, rm_is_64) ← parse_register_31 xm;
  if negb (eqb rd_is_64 rn_is_64 && eqb rn_is_64 rm_is_64) then Throw invalid_argument
  else
    let patcher := 0x4B000000 in
    patcher ← (if rd_is_64 then patch patcher 1 31 1 else Ok patcher);
    patcher ← patch patcher rd_num 0 5;
    patcher ← patch patcher rn_num 5 5;
    patcher ← patch patcher rm_num 16 5;
    let assembly_text := ("SUB " ++ xd ++ ", " ++ xn ++ ", " ++ xm)%string in
    let instr := set_opcode SUB (Instruction_new patcher assembly_text) in
    d ← get_reg_encoding xd;
    let instr := set_dest_reg d instr in
    s1 ← get_reg_encoding xn;
    let instr := set_src_reg1 s1 instr in
    s2 ← get_reg_encoding xm;
    let instr := set_src_reg2 s2 instr in
    Ok instr.

Definition create_mul_reg (xd xn xm : string) : result Instruction :=
  '(rd_num, rd_is_64) ← parse_register_31 xd;
  '(rn_num, rn_is_64) ← parse_register_31 xn;
  '(rm_num, rm_is_64) ← parse_register_31 xm;
  if negb (eqb rd_is_64 rn_is_64 && eqb rn_is_64 rm_is_64) then Throw invalid_argument
  else
    let patcher := 0x1B000000 in
    patcher ← (if rd_is_64 then patch patcher 1 31 1 else Ok patcher);
    patcher ← patch patcher rd_num 0 5;
    patcher ← patch patcher rn_num 5 5;
    patcher ← patch patcher rm_num 16 5;
    patcher ← patch patcher 31 10 5;
    let assembly_text := ("MUL " ++ xd ++ ", " ++ xn ++ ", " ++ xm)%string in
    let instr := set_opcode MUL (Instruction_new patcher assembly_text) in
    d ← get_reg_encoding xd;
    let instr := set_dest_reg d instr in
    s1 ← get_reg_encoding xn;
    let instr := set_src_reg1 s1 instr in
    s2 ← get_reg_encoding xm;
    let instr := set_src_reg2 s2 instr in
    let instr := set_ra_reg 31 instr in
    Ok instr.

Definition create_sdiv_reg (xd xn xm : string) : result Instruction :=
  '(rd_num, rd_is_64) ← parse_register_31 xd;
  '(rn_num, rn_is_64) ← parse_register_31 xn;
  '(rm_num, rm_is_64) ← parse_register_31 xm;
  if negb (eqb rd_is_64 rn_is_64 && eqb rn_is_64 rm_is_64) then Throw invalid_argument
  else
    let base_opcode := if rd_is_64 then 0x9AC00C00 else 0x1AC00C00 in
    let patcher := base_opcode in
    patcher ← patch patcher rm_num 16 5;
    patcher ← patch patcher rn_num 5 5;
    patcher ← patch patcher rd_num 0 5;
    let assembly_text := ("SDIV " ++ xd ++ ", " ++ xn ++ ", " ++ xm)%string in
    let instr := set_opcode SDIV (Instruction_new patcher assembly_text) in
    d ← get_reg_encoding xd;
    let instr := set_dest_reg d instr in
    s1 ← get_reg_encoding xn;
    let instr := set_src_reg1 s1 instr in
    s2 ← get_reg_encoding xm;
    let instr := set_src_reg2 s2 instr in
    Ok instr.

Definition create_and_reg (xd xn xm : string) : result Instruction :=
  '(rd_num, rd_is_64) ← parse_register_30 xd;
  '(rn_num, rn_is_64) ← parse_register_30 xn;
  '(rm_num, rm_is_64) ← parse_register_30 xm;
  if negb (eqb rd_is_64 rn_is_64 && eqb rn_is_64 rm_is_64) then Throw invalid_argument
  else
    let patcher := 0x0A000000 in
    patcher ← (if rd_is_64 then patch patcher 1 31 1 else Ok patcher);
    patcher ← patch patcher rd_num 0 5;
    patcher ← patch patcher rn_num 5 5;
    patcher ← patch patcher rm_num 16 5;
    let assembly_text := ("AND " ++ xd ++ ", " ++ xn ++ ", " ++ xm)%string in
    let instr := set_opcode AND (Instruction_new patcher assembly_text) in
    d ← get_reg_encoding xd;
    let instr := set_dest_reg d instr in
    s1 ← get_reg_encoding xn;
    let instr := set_src_reg1 s1 instr in
    s2 ← get_reg_encoding xm;
    let instr := set_src_reg2 s2 instr in
    Ok instr.

Definition create_orr_reg (xd xn xm : string) : result Instruction :=
  let patcher := 0x2A000000 in
  '(rd_num, rd_is_64) ← parse_register_31 xd;
  '(rn_num, rn_is_64) ← parse_register_31 xn;
  '(rm_num, rm_is_64) ← parse_register_31 xm;
  if negb (eqb rd_is_64 rn_is_64 && eqb rn_is_64 rm_is_64) then Throw invalid_argument
  else
    patcher ← patch patcher rd_num 0 5;
    patcher ← patch patcher rn_num 5 5;
    patcher ← patch patcher rm_num 16 5;
    let assembly_text := ("ORR " ++ xd ++ ", " ++ xn ++ ", " ++ xm)%string in
    let instr := set_opcode ORR (Instruction_new patcher assembly_text) in
    d ← get_reg_encoding xd;
    let instr := set_dest_reg d instr in
    s1 ← get_reg_encoding xn;
    let instr := set_src_reg1 s1 instr in
    s2 ← get_reg_encoding xm;
    let instr := set_src_reg2 s2 instr in
    Ok instr.

Definition create_bic_reg (xd xn xm : string) : result Instruction :=
  '(rd_num, rd_is_64) ← parse_register_30 xd;
  '(rn_num, rn_is_64) ← parse_register_30 xn;
  '(rm_num, rm_is_64) ← parse_register_30 xm;
  if negb (eqb rd_is_64 rn_is_64 && eqb rn_is_64 rm_is_64) then Throw invalid_argument
  else
    let patcher := 0x0A200000 in
    patcher ← (if rd_is_64 then patch patcher 1 31 1 else Ok patcher);
    patcher ← patch patcher rd_num 0 5;
    patcher ← patch patcher rn_num 5 5;
    patcher ← patch patcher rm_num 16 5;
    let assembly_text := ("BIC " ++ xd ++ ", " ++ xn ++ ", " ++ xm)%string in
    let instr := set_opcode BIC (Instruction_new patcher assembly_text) in
    d ← get_reg_encoding xd;
    let instr := set_dest_reg d instr in
    s1 ← get_reg_encoding xn;
    let instr := set_src_reg1 s1 instr in
    s2 ← get_reg_encoding xm;
    let instr := set_src_reg2 s2 instr in
    Ok instr.

Definition create_lsl_reg (xd xn xm : string) : result Instruction :=
  '(rd_num, rd_is_64) ← parse_register_31 xd;
  '(rn_num, rn_is_64) ← parse_register_31 xn;
  '(rm_num, rm_is_64) ← parse_register_31 xm;
  if negb (eqb rd_is_64 rn_is_64 && eqb rn_is_64 rm_is_64) then Throw invalid_argument
  else
    let patcher := 0x1AC02000 in
    patcher ← (if rd_is_64 then patch patcher 1 31 1 else Ok patcher);
    patcher ← patch patcher rd_num 0 5;
    patcher ← patch patcher rn_num 5 5;
    patcher ← patch patcher rm_num 16 5;
    let assembly_text := ("LSL " ++ xd ++ ", " ++ xn ++ ", " ++ xm)%string in
    let instr := set_opcode LSL (Instruction_new patcher assembly_text) in
    d ← get_reg_encoding xd;
    let instr := set_dest_reg d instr in
    s1 ← get_reg_encoding xn;
    let instr := set_src_reg1 s1 instr in
    s2 ← get_reg_encoding xm;
    let instr := set_src_reg2 s2 instr in
    Ok instr.

Definition create_lsr_reg (xd xn xm : string) : result Instruction :=
  '(rd_num, rd_is_64) ← parse_register_31 xd;
  '(rn_num, rn_is_64) ← parse_register_31 xn;
  '(rm_num, rm_is_64) ← parse_register_31 xm;
  if negb (eqb rd_is_64 rn_is_64 && eqb rn_is_64 rm_is_64) then Throw invalid_argument
  else
    let patcher := 0x1AC02400 in
    patcher ← (if rd_is_64 then patch patcher 1 31 1 else Ok patcher);
    patcher ← patch patcher rd_num 0 5;
    patcher ← patch patcher rn_num 5 5;
    patcher ← patch patcher rm_num 16 5;
    let assembly_text := ("LSR " ++ xd ++ ", " ++ xn ++ ", " ++ xm)%string in
    let instr := set_opcode LSR (Instruction_new patcher assembly_text) in
    d ← get_reg_encoding xd;
    let instr := set_dest_reg d instr in
    s1 ← get_reg_encoding xn;
    let instr := set_src_reg1 s1 instr in
    s2 ← get_reg_encoding xm;
    let instr := set_src_reg2 s2 instr in
    Ok instr.

Definition opt_create_asr_reg (xd xn xm : string) : result Instruction :=
  '(rd_num, rd_is_64) ← parse_register_31 xd;
  '(rn_num, rn_is_64) ← parse_register_31 xn;
  '(rm_num, rm_is_64) ← parse_register_31 xm;
  if negb (eqb rd_is_64 rn_is_64 && eqb rn_is_64 rm_is_64) then Throw invalid_argument
  else
    let patcher := 0x1AC01000 in
    patcher ← (if rd_is_64 then patch patcher 1 31 1 else Ok patcher);
    patcher ← patch patcher rd_num 0 5;
    patcher ← patch patcher rn_num 5 5;
    patcher ← patch patcher rm_num 16 5;
    let assembly_text := ("ASR " ++ xd ++ ", " ++ xn ++ ", " ++ xm)%string in
    let instr := set_opcode ASR (Instruction_new patcher assembly_text) in
    d ← get_reg_encoding xd;
    let instr := set_dest_reg d instr in
    s1 ← get_reg_encoding xn;
    let instr := set_src_reg1 s1 instr in
    s2 ← get_reg_encoding xm;
    let instr := set_src_reg2 s2 instr in
    Ok instr.

Definition create_cmp_reg (xn xm : string) : result Instruction :=
  '(rn_num, rn_is_64) ← parse_register_31 xn;
  '(rm_num, rm_is_64) ← parse_register_31 xm;
  if negb (eqb rn_is_64 rm_is_64) then Throw invalid_argument
  else
    let patcher := 0x6B000000 in
    patcher ← (if rn_is_64 then patch patcher 1 31 1 else Ok patcher);
    patcher ← patch patcher rm_num 16 5;
    patcher ← patch patcher rn_num 5 5;
    patcher ← patch patcher 31 0 5;
    let assembly_text := ("CMP " ++ xn ++ ", " ++ xm)%string in
    let instr := set_opcode CMP (Instruction_new patcher assembly_text) in
    s1 ← get_reg_encoding xn;
    let instr := set_src_reg1 s1 instr in
    s2 ← get_reg_encoding xm;
    let instr := set_src_reg2 s2 instr in
    Ok instr.

Definition create_mov_reg (xd xn : string) : result Instruction :=
  '(rd_num, rd_is_64) ← parse_register_31 xd;
  '(rn_num, rn_is_64) ← parse_register_31 xn;
  if negb (eqb rd_is_64 rn_is_64) then Throw invalid_argument
  else
    let patcher := 0x2A000000 in
    patcher ← (if rd_is_64 then patch patcher 1 31 1 else Ok patcher);
    patcher ← patch patcher rd_num 0 5;
    patcher ← patch patcher rn_num 16 5;
    patcher ← patch patcher 31 5 5;
    let assembly_text := ("MOV " ++ xd ++ ", " ++ xn)%string in
    let instr := set_opcode MOV (Instruction_new patcher assembly_text) in
    d ← get_reg_encoding xd;
    let instr := set_dest_reg d instr in
    s1 ← get_reg_encoding xn;
    let instr := set_src_reg1 s1 instr in
    Ok instr.

(** No check that the two operands have the same size. *)
Definition create_mvn_reg (xd xm : string) : result Instruction :=
  '(rd_num, rd_is_64) ← parse_register_mvn xd;
  '(rm_num, rm_is_64) ← parse_register_mvn xm;
  let patcher := 0x2A200800 in
  patcher ← (if rd_is_64 : bool then patch patcher 1 31 1 else Ok patcher);
  patcher ← patch patcher rd_num 0 5;
  patcher ← patch patcher 31 5 5;
  patcher ← patch patcher rm_num 16 5;
  let assembly_text := ("MVN " ++ xd ++ ", " ++ xm)%string in
  let instr := set_opcode ORR (Instruction_new patcher assembly_text) in
  d ← get_reg_encoding xd;
  let instr := set_dest_reg d instr in
  s1 ← get_reg_encoding "XZR";
  let instr := set_src_reg1 s1 instr in
  s2 ← get_reg_encoding xm;
  let instr := set_src_reg2 s2 instr in
  Ok instr.
(** ** Immediate forms *)

Definition create_add_imm (xd xn : string) (immediate : Z) : result Instruction :=
  if (immediate <? 0) || (4095 <? immediate) then Throw invalid_argument
  else
    '(rd_num, rd_is_64) ← parse_register_31 xd;
    '(rn_num, rn_is_64) ← parse_register_31 xn;
    if negb (eqb rd_is_64 rn_is_64) then Throw invalid_argument
    else
      let patcher := 0x11000000 in
      patcher ← (if rd_is_64 then patch patcher 1 31 1 else Ok patcher);
      patcher ← patch patcher (u32 immediate) 10 12;
      patcher ← patch patcher rn_num 5 5;
      patcher ← patch patcher rn_num 5 5;
      patcher ← patch patcher rd_num 0 5;
      let assembly_text := ("ADD " ++ xd ++ ", " ++ xn ++ ", #" ++ to_string immediate)%string in
      let instr := set_opcode ADD (Instruction_new patcher assembly_text) in
      d ← get_reg_encoding xd;
      let instr := set_dest_reg d instr in
      s1 ← get_reg_encoding xn;
      let instr := set_src_reg1 s1 instr in
      Ok (set_uses_immediate true (set_immediate immediate instr)).

Definition create_sub_imm (xd xn : string) (immediate : Z) : result Instruction :=
  if (immediate <? 0) || (4095 <? immediate) then Throw invalid_argument
  else
    '(rd_num, rd_is_64) ← parse_register_31 xd;
    '(rn_num, rn_is_64) ← parse_register_31 xn;
    if negb (eqb rd_is_64 rn_is_64) then Throw invalid_argument
    else
      let patcher := 0x51000000 in
      patcher ← (if rd_is_64 then patch patcher 1 31 1 else Ok patcher);
      patcher ← patch patcher (u32 immediate) 10 12;
      patcher ← patch patcher rn_num 5 5;
      patcher ← patch patcher rd_num 0 5;
      let assembly_text := ("SUB " ++ xd ++ ", " ++ xn ++ ", #" ++ to_string immediate)%string in
      let instr := set_opcode SUB (Instruction_new patcher assembly_text) in
      d ← get_reg_encoding xd;
      let instr := set_dest_reg d instr in
      s1 ← get_reg_encoding xn;
      let instr := set_src_reg1 s1 instr in
      Ok (set_uses_immediate true (set_immediate immediate instr)).

Definition create_cmp_imm (xn : string) (immediate : Z) : result Instruction :=
  if (immediate <? 0) || (4095 <? immediate) then Throw invalid_argument
  else
    '(rn_num, rn_is_64) ← parse_register_sp xn;
    let patcher := 0x71000000 in
    patcher ← (if rn_is_64 : bool then patch patcher 1 31 1 else Ok patcher);
    patcher ← patch patcher (u32 immediate) 10 12;
    patcher ← patch patcher rn_num 5 5;
    patcher ← patch patcher 31 0 5;
    let assembly_text := ("CMP " ++ xn ++ ", #" ++ to_string immediate)%string in
    let instr := set_opcode CMP (Instruction_new patcher assembly_text) in
    s1 ← get_reg_encoding xn;
    let instr := set_src_reg1 s1 instr in
    Ok (set_uses_immediate true (set_immediate immediate instr)).

Definition create_movz_imm (xd : string) (immediate shift : Z) (rel : RelocationType)
    (target : string) : result Instruction :=
  if negb (shift =? 0) && negb (shift =? 16) && negb (shift =? 32) && negb (shift =? 48)
  then Throw invalid_argument
  else
    '(rd_num, rd_is_64) ← parse_register_zr xd;
    if negb rd_is_64 && ((shift =? 32) || (shift =? 48)) then Throw invalid_argument
    else
      let patcher := 0x52800000 in
      patcher ← (if rd_is_64 : bool then patch patcher 1 31 1 else Ok patcher);
      let hw := u32 (shift ÷ 16) in
      patcher ← patch patcher hw 21 2;
      patcher ← patch patcher immediate 5 16;
      patcher ← patch patcher rd_num 0 5;
      let assembly_text := ("MOVZ " ++ xd ++ ", #" ++ to_string immediate)%string in
      let assembly_text :=
        (if 0 <? shift then (assembly_text ++ ", LSL #" ++ to_string shift)%string
         else assembly_text) in
      let instr := set_opcode MOVZ (Instruction_new patcher assembly_text) in
      d ← get_reg_encoding xd;
      let instr := set_dest_reg d instr in
      Ok (set_uses_immediate true (set_immediate immediate instr)).

Definition create_movk_imm (xd : string) (immediate shift : Z) (rel : RelocationType)
    (target : string) : result Instruction :=
  if negb (shift =? 0) && negb (shift =? 16) && negb (shift =? 32) && negb (shift =? 48)
  then Throw invalid_argument
  else
    '(rd_num, rd_is_64) ← parse_register_zr xd;
    if negb rd_is_64 && ((shift =? 32) || (shift =? 48)) then Throw invalid_argument
    else
      let patcher := 0x72800000 in
      patcher ← (if rd_is_64 : bool then patch patcher 1 31 1 else Ok patcher);
      let hw := u32 (shift ÷ 16) in
      patcher ← patch patcher hw 21 2;
      patcher ← patch patcher immediate 5 16;
      patcher ← patch patcher rd_num 0 5;
      let assembly_text := ("MOVK " ++ xd ++ ", #" ++ to_string immediate)%string in
      let assembly_text :=
        (if 0 <? shift then (assembly_text ++ ", LSL #" ++ to_string shift)%string
         else assembly_text) in
      let instr := set_opcode MOVK (Instruction_new patcher assembly_text) in
      d ← get_reg_encoding xd;
      let instr := set_dest_reg d instr in
      Ok (set_uses_immediate true (set_immediate immediate instr)).

Definition create_lsl_imm (xd xn : string) (shift_amount : Z) : result Instruction :=
  '(rd_num, rd_is_64) ← parse_register_30 xd;
  '(rn_num, rn_is_64) ← parse_register_30 xn;
  if negb (eqb rd_is_64 rn_is_64) then Throw invalid_argument
  else
    let datasize := if rd_is_64 then 64 else 32 in
    if (shift_amount <? 0) || (datasize <=? shift_amount) then Throw invalid_argument
    else
      let immr := u32 (Z.rem (datasize - shift_amount) datasize) in
      let imms := u32 (datasize - 1 - shift_amount) in
      let patcher := 0x53000000 in
      patcher ← (if rd_is_64 then
                   patcher ← patch patcher 1 31 1; patch patcher 1 22 1
                 else Ok patcher);
      patcher ← patch patcher immr 16 6;
      patcher ← patch patcher imms 10 6;
      patcher ← patch patcher rn_num 5 5;
      patcher ← patch patcher rd_num 0 5;
      let assembly_text :=
        ("LSL " ++ xd ++ ", " ++ xn ++ ", #" ++ to_string shift_amount)%string in
      let instr := set_opcode LSL (Instruction_new patcher assembly_text) in
      d ← get_reg_encoding xd;
      let instr := set_dest_reg d instr in
      s1 ← get_reg_encoding xn;
      let instr := set_src_reg1 s1 instr in
      Ok (set_uses_immediate true (set_immediate shift_amount instr)).

Definition opt_create_lsl_imm (xd xn : string) (shift_amount : Z) : result Instruction :=
  '(rd_num, rd_is_64) ← parse_register_30 xd;
  '(rn_num, rn_is_64) ← parse_register_30 xn;
  if negb (eqb rd_is_64 rn_is_64) then Throw invalid_argument
  else
    let datasize := if rd_is_64 then 64 else 32 in
    if (shift_amount <? 0) || (datasize <=? shift_amount) then Throw invalid_argument
    else
      let immr := u32 (Z.rem (datasize - shift_amount) datasize) in
      let imms := u32 (datasize - 1 - shift_amount) in
      let patcher := 0x53000000 in
      patcher ← (if rd_is_64 then
                   patcher ← patch patcher 1 31 1; patch patcher 1 22 1
                 else Ok patcher);
      patcher ← patch patcher immr 16 6;
      patcher ← patch patcher imms 10 6;
      patcher ← patch patcher rn_num 5 5;
      patcher ← patch patcher rd_num 0 5;
      let assembly_text :=
        ("LSL " ++ xd ++ ", " ++ xn ++ ", #" ++ to_string shift_amount)%string in
      let instr := set_opcode LSL (Instruction_new patcher assembly_text) in
      d ← get_reg_encoding xd;
      let instr := set_dest_reg d instr in
      s1 ← get_reg_encoding xn;
      let instr := set_src_reg1 s1 instr in
      Ok (set_uses_immediate true (set_immediate shift_amount instr)).

Definition opt_create_asr_imm (xd xn : string) (shift_amount : Z) : result Instruction :=
  rd_num ← get_reg_encoding xd;
  rn_num ← get_reg_encoding xn;
  let is_64bit := is_x_name xd in
  if negb (eqb is_64bit (is_x_name xn)) then Throw invalid_argument
  else
    let datasize := if is_64bit then 64 else 32 in
    if (shift_amount <? 0) || (datasize <=? shift_amount) then Throw invalid_argument
    else
      let n_val := if is_64bit then 1 else 0 in
      let immr_val := u32 shift_amount in
      let imms_val := u32 (datasize - 1) in
      let patcher := 0x13000000 in
      patcher ← (if is_64bit then patch patcher 1 31 1 else Ok patcher);
      patcher ← patch patcher n_val 22 1;
      patcher ← patch patcher immr_val 16 6;
      patcher ← patch patcher imms_val 10 6;
      patcher ← patch patcher rn_num 5 5;
      patcher ← patch patcher rd_num 0 5;
      let assembly_text :=
        ("ASR " ++ xd ++ ", " ++ xn ++ ", #" ++ to_string shift_amount)%string in
      let instr := set_opcode ASR (Instruction_new patcher assembly_text) in
      d ← get_reg_encoding xd;
      let instr := set_dest_reg d instr in
      s1 ← get_reg_encoding xn;
      let instr := set_src_reg1 s1 instr in
      Ok (set_uses_immediate true (set_immediate shift_amount instr)).

Definition opt_create_ubfx (xd xn : string) (lsb width : Z) : result Instruction :=
  rd_num ← get_reg_encoding xd;
  rn_num ← get_reg_encoding xn;
  let is_64bit := is_x_name xd in
  if negb (eqb is_64bit (is_x_name xn)) then Throw invalid_argument
  else
    let datasize := if is_64bit then 64 else 32 in
    if (lsb <? 0) || (datasize <=? lsb) then Throw invalid_argument
    else if (width <? 1) || (datasize <? lsb + width) then Throw invalid_argument
    else
      let n_val := if is_64bit then 1 else 0 in
      let immr_val := u32 lsb in
      let imms_val := u32 (lsb + width - 1) in
      let patcher := 0x53000000 in
      patcher ← (if is_64bit then patch patcher 1 31 1 else Ok patcher);
      patcher ← patch patcher n_val 22 1;
      patcher ← patch patcher immr_val 16 6;
      patcher ← patch patcher imms_val 10 6;
      patcher ← patch patcher rn_num 5 5;
      patcher ← patch patcher rd_num 0 5;
      let assembly_text :=
        ("UBFX " ++ xd ++ ", " ++ xn ++ ", #" ++ to_string lsb ++ ", #"
           ++ to_string width)%string in
      let instr := set_opcode UBFX (Instruction_new patcher assembly_text) in
      d ← get_reg_encoding xd;
      let instr := set_dest_reg d instr in
      s1 ← get_reg_encoding xn;
      let instr := set_src_reg1 s1 instr in
      Ok (set_uses_immediate true (set_immediate lsb instr)).

Definition opt_create_sbfx (xd xn : string) (lsb width : Z) : result Instruction :=
  rd_num ← get_reg_encoding xd;
  rn_num ← get_reg_encoding xn;
  let is_64bit := is_x_name xd in
  if negb (eqb is_64bit (is_x_name xn)) then Throw invalid_argument
  else
    let datasize := if is_64bit then 64 else 32 in
    if (lsb <? 0) || (datasize <=? lsb) then Throw invalid_argument
    else if (width <? 1) || (datasize <? lsb + width) then Throw invalid_argument
    else
      let n_val := if is_64bit then 1 else 0 in
      let immr_val := u32 lsb in
      let imms_val := u32 (lsb + width - 1) in
      let patcher := 0x13000000 in
      patcher ← (if is_64bit then patch patcher 1 31 1 else Ok patcher);
      patcher ← patch patcher n_val 22 1;
      patcher ← patch patcher immr_val 16 6;
      patcher ← patch patcher imms_val 10 6;
      patcher ← patch patcher rn_num 5 5;
      patcher ← patch patcher rd_num 0 5;
      let assembly_text :=
        ("SBFX " ++ xd ++ ", " ++ xn ++ ", #" ++ to_string lsb ++ ", #"
           ++ to_string width)%string in
      let instr := set_opcode SBFX (Instruction_new patcher assembly_text) in
      d ← get_reg_encoding xd;
      let instr := set_dest_reg d instr in
      s1 ← get_reg_encoding xn;
      let instr := set_src_reg1 s1 instr in
      Ok (set_uses_immediate true (set_immediate lsb instr)).

Definition opt_create_bfi (xd xn : string) (lsb width : Z) : result Instruction :=
  rd_num ← get_reg_encoding xd;
  rn_num ← get_reg_encoding xn;
  let is_64bit := is_x_name xd in
  if negb (eqb is_64bit (is_x_name xn)) then Throw invalid_argument
  else
    let datasize := if is_64bit then 64 else 32 in
    if (lsb <? 0) || (datasize <=? lsb) then Throw invalid_argument
    else if (width <? 1) || (datasize <? width) then Throw invalid_argument
    else if datasize <? lsb + width then Throw invalid_argument
    else
      let n_val := if is_64bit then 1 else 0 in
      let immr_val := u32 (Z.rem (datasize - lsb) datasize) in
      let imms_val := u32 (width - 1) in
      let patcher := 0x33000000 in
      patcher ← (if is_64bit then patch patcher 1 31 1 else Ok patcher);
      patcher ← patch patcher n_val 22 1;
      patcher ← patch patcher immr_val 16 6;
      patcher ← patch patcher imms_val 10 6;
      patcher ← patch patcher rn_num 5 5;
      patcher ← patch patcher rd_num 0 5;
      let assembly_text :=
        ("BFI " ++ xd ++ ", " ++ xn ++ ", #" ++ to_string lsb ++ ", #"
           ++ to_string width)%string in
      let instr := set_opcode BFI (Instruction_new patcher assembly_text) in
      d ← get_reg_encoding xd;
      let instr := set_dest_reg d instr in
      s1 ← get_reg_encoding xn;
      let instr := set_src_reg1 s1 instr in
      Ok (set_uses_immediate true (set_immediate lsb instr)).

(** The shift codes of [opt_create_add_shifted_reg]. *)
Definition shift_code (shift_type : string) : result Z :=
  let upper_shift_type := upper shift_type in
  if String.eqb upper_shift_type "LSL" then Ok 0
  else if String.eqb upper_shift_type "LSR" then Ok 1
  else if String.eqb upper_shift_type "ASR" then Ok 2
  else Throw invalid_argument.

Definition opt_create_add_shifted_reg (rd rn rm shift_type : string) (shift_amount : Z)
    : result Instruction :=
  rd_num ← get_reg_encoding rd;
  rn_num ← get_reg_encoding rn;
  rm_num ← get_reg_encoding rm;
  let is_64bit := is_x_name rd in
  if negb (eqb is_64bit (is_x_name rn)) || negb (eqb is_64bit (is_x_name rm))
  then Throw invalid_argument
  else
    let max_shift := if is_64bit then 63 else 31 in
    if (shift_amount <? 0) || (max_shift <? shift_amount) then Throw invalid_argument
    else
      shift_code ← shift_code shift_type;
      let patcher := 0x0B000000 in
      patcher ← (if is_64bit then patch patcher 1 31 1 else Ok patcher);
      patcher ← patch patcher shift_code 22 2;
      patcher ← patch patcher rm_num 16 5;
      patcher ← patch patcher (u32 shift_amount) 10 6;
      patcher ← patch patcher rn_num 5 5;
      patcher ← patch patcher rd_num 0 5;
      let assembly_text :=
        ("ADD " ++ rd ++ ", " ++ rn ++ ", " ++ rm ++ ", " ++ upper shift_type ++ " #"
           ++ to_string shift_amount)%string in
      let instr := set_opcode ADD (Instruction_new patcher assembly_text) in
      d ← get_reg_encoding rd;
      let instr := set_dest_reg d instr in
      s1 ← get_reg_encoding rn;
      let instr := set_src_reg1 s1 instr in
      s2 ← get_reg_encoding rm;
      let instr := set_src_reg2 s2 instr in
      Ok (set_uses_immediate true (set_immediate shift_amount instr)).

Definition opt_create_csinv (rd rn rm cond : string) : result Instruction :=
  rd_num ← get_reg_encoding rd;
  rn_num ← get_reg_encoding rn;
  rm_num ← get_reg_encoding rm;
  let is_64bit := is_x_name rd in
  if (negb (eqb is_64bit (is_x_name rn)) || negb (eqb is_64bit (is_x_name rm)))
     && negb (String.eqb rn "wzr" || String.eqb rn "xzr" || String.eqb rm "wzr"
              || String.eqb rm "xzr")
  then Throw invalid_argument
  else
    cond_code ← get_condition_code cond;
    let patcher := 0x5A800000 in
    patcher ← (if is_64bit then patch patcher 1 31 1 else Ok patcher);
    patcher ← patch patcher rm_num 16 5;
    patcher ← patch patcher cond_code 12 4;
    patcher ← patch patcher rn_num 5 5;
    patcher ← patch patcher rd_num 0 5;
    let assembly_text :=
      ("CSINV " ++ rd ++ ", " ++ rn ++ ", " ++ rm ++ ", " ++ cond)%string in
    let instr := set_opcode OP_CSINV (Instruction_new patcher assembly_text) in
    d ← get_reg_encoding rd;
    let instr := set_dest_reg d instr in
    s1 ← get_reg_encoding rn;
    let instr := set_src_reg1 s1 instr in
    s2 ← get_reg_encoding rm;
    let instr := set_src_reg2 s2 instr in
    Ok instr.

Definition create_cset (Rd cond : string) : result Instruction :=
  cond_code ← get_condition_code cond;
  let inverted_cond_code := invert_condition_code cond_code in
  '(rd_num, rd_is_64) ← parse_register_zr Rd;
  let patcher := 0x1A800400 in
  patcher ← (if rd_is_64 : bool then patch patcher 1 31 1 else Ok patcher);
  patcher ← patch patcher rd_num 0 5;
  patcher ← patch patcher 31 5 5;
  patcher ← patch patcher 31 16 5;
  patcher ← patch patcher inverted_cond_code 12 4;
  let assembly_text := ("CSET " ++ Rd ++ ", " ++ upper cond)%string in
  let instr := set_opcode OP_CSET (Instruction_new patcher assembly_text) in
  d ← get_reg_encoding Rd;
  let instr := set_dest_reg d instr in
  Ok (set_cond (stringToConditionCode cond) instr).

Definition create_csetm (Rd cond : string) : result Instruction :=
  cond_code ← get_condition_code cond;
  let inverted_cond_code := invert_condition_code cond_code in
  '(rd_num, rd_is_64) ← parse_register_zr Rd;
  let patcher := 0x5A800000 in
  patcher ← (if rd_is_64 : bool then patch patcher 1 31 1 else Ok patcher);
  patcher ← patch patcher rd_num 0 5;
  patcher ← patch patcher 31 5 5;
  patcher ← patch patcher 31 16 5;
  patcher ← patch patcher inverted_cond_code 12 4;
  let assembly_text := ("CSETM " ++ Rd ++ ", " ++ upper cond)%string in
  let instr := set_opcode OP_CSETM (Instruction_new patcher assembly_text) in
  d ← get_reg_encoding Rd;
  let instr := set_dest_reg d instr in
  Ok (set_cond (stringToConditionCode cond) instr).

Definition create_cset_eq (xd : string) : result Instruction := create_cset xd "EQ".

Definition create_csetm_eq (xd : string) : result Instruction := create_csetm xd "EQ".

Definition create_csetm_ne (xd : string) : result Instruction := create_csetm xd "NE".

(** ** Register forms *)

Lemma create_add_reg_ok : encodes_rrr parse_register_30 create_add_reg ADD ADDr.
Proof. solve_rrr create_add_reg parse_register_30. Qed.
Lemma create_sub_reg_ok : encodes_rrr parse_register_31 create_sub_reg SUB SUBr.
Proof. solve_rrr create_sub_reg parse_register_31. Qed.
Lemma create_mul_reg_ok : encodes_rrr parse_register_31 create_mul_reg MUL MULr.
Proof. solve_rrr create_mul_reg parse_register_31. Qed.
Lemma create_sdiv_reg_ok : encodes_rrr parse_register_31 create_sdiv_reg SDIV SDIVr.
Proof. solve_rrr create_sdiv_reg parse_register_31. Qed.
Lemma create_and_reg_ok : encodes_rrr parse_register_30 create_and_reg AND ANDr.
Proof. solve_rrr create_and_reg parse_register_30. Qed.
Lemma create_bic_reg_ok : encodes_rrr parse_register_30 create_bic_reg BIC BICr.
Proof. solve_rrr create_bic_reg parse_register_30. Qed.
Lemma create_lsl_reg_ok : encodes_rrr parse_register_31 create_lsl_reg LSL LSLr.
Proof. solve_rrr create_lsl_reg parse_register_31. Qed.
Lemma create_lsr_reg_ok : encodes_rrr parse_register_31 create_lsr_reg LSR LSRr.
Proof. solve_rrr create_lsr_reg parse_register_31. Qed.

Lemma create_cmp_reg_ok :
  encodes_rr parse_register_31 create_cmp_reg CMP (fun i => (src_reg1 i, src_reg2 i)) CMPr.
Proof. solve_rr create_cmp_reg parse_register_31. Qed.
Lemma create_mov_reg_ok :
  encodes_rr parse_register_31 create_mov_reg MOV (fun i => (dest_reg i, src_reg1 i)) MOVr.
Proof. solve_rr create_mov_reg parse_register_31. Qed.

(** The size bit of ORR is never set: the word is the 32-bit instruction, whatever the
    registers are. *)
Lemma create_orr_reg_emits :
  encodes_rrr parse_register_31 create_orr_reg ORR (fun _ => ORRr false).
Proof. solve_rrr create_orr_reg parse_register_31. Qed.

(** ASR (register): the base word has operation 4 in bits 15:10, where ASRV is 10. *)
Lemma opt_create_asr_reg_emits :
  encodes_rrr parse_register_31 opt_create_asr_reg ASR (fun sf rd rn rm => DP2 sf rm 4 rn rd).
Proof. solve_rrr opt_create_asr_reg parse_register_31. Qed.

Lemma parse_register_mvn_agrees s n b m :
  parse_register_mvn s = Ok (n, b) -> get_reg_encoding s = Ok m -> n = m.
Proof.
  unfold parse_register_mvn, get_reg_encoding. intros H1 H2.
  destruct (string_empty s); [discriminate|].
  destruct (String.eqb (lower s) "wzr"); [cbn in *; congruence|].
  destruct (String.eqb (lower s) "xzr"); [cbn in *; congruence|].
  destruct (String.eqb (lower s) "wsp"); [cbn in *; congruence|].
  destruct (String.eqb (lower s) "sp"); [cbn in *; congruence|].
  cbn [orb] in H2. inv_bind H1. inv_bind H1. injection H1 as <- <-.
  apply stoi_stoul in Ha0.
  rewrite Ha0 in H2.
  destruct (Ascii.eqb_spec (front (lower s)) "w"%char) as [->|];
    [|destruct (Ascii.eqb_spec (front (lower s)) "x"%char) as [->|]; [|discriminate]].
  all: cbn in H2; destruct (31 <? u32 _); cbn in H2; case_if_in H2; simplify_eq.
  all: unfold u32; symmetry; apply mod_mod_pow; lia.
Qed.

(** MVN: the base word has bit 11 set, in the middle of [imm6], so that the instruction
    complements [Rm << 2]; and the sizes of the two operands are not compared, the
    destination's decides. *)
Lemma create_mvn_reg_emits xd xm rd a rm b :
  parse_register_mvn xd = Ok (rd, a) -> parse_register_mvn xm = Ok (rm, b) ->
  is_ok (get_reg_encoding xd) = true -> is_ok (get_reg_encoding xm) = true ->
  exists i, create_mvn_reg xd xm = Ok i /\ emits i ORR NONE (LogShifted a 1 0 1 rm 2 31 rd)
    /\ dest_reg i = rd /\ src_reg2 i = rm.
Proof.
  intros Hd Hm Gd Gm.
  destruct (get_reg_encoding xd) as [d|] eqn:Ed; [|discriminate].
  destruct (get_reg_encoding xm) as [m|] eqn:Em; [|discriminate].
  pose proof (get_reg_encoding_range _ _ Ed). pose proof (get_reg_encoding_range _ _ Em).
  pose proof (parse_register_mvn_agrees _ _ _ _ Hd Ed) as ->.
  pose proof (parse_register_mvn_agrees _ _ _ _ Hm Em) as ->.
  unfold create_mvn_reg. rewrite Hd, Hm.
  replace (get_reg_encoding "XZR") with (@Ok Z 31) by reflexivity.
  destruct a; run_encoder; solve_emits.
Qed.

(** ** Immediate forms *)

Lemma create_add_imm_ok :
  encodes_rri parse_register_31 create_add_imm ADD valid_imm12 id ADDi.
Proof. solve_rri create_add_imm parse_register_31. Qed.
Lemma create_sub_imm_ok :
  encodes_rri parse_register_31 create_sub_imm SUB valid_imm12 id SUBi.
Proof. solve_rri create_sub_imm parse_register_31. Qed.
Lemma create_lsl_imm_ok :
  encodes_rri parse_register_30 create_lsl_imm LSL valid_shift id LSLi.
Proof. unfold LSLi, UBFM. solve_rri create_lsl_imm parse_register_30. Qed.
Lemma opt_create_lsl_imm_ok :
  encodes_rri parse_register_30 opt_create_lsl_imm LSL valid_shift id LSLi.
Proof. unfold LSLi, UBFM. solve_rri opt_create_lsl_imm parse_register_30. Qed.
Lemma opt_create_asr_imm_ok :
  encodes_rri parse_register_opt opt_create_asr_imm ASR valid_shift id ASRi.
Proof. solve_rri_opt opt_create_asr_imm. Qed.
Lemma opt_create_ubfx_ok :
  encodes_rri parse_register_opt (fun xd xn v => opt_create_ubfx xd xn v.1 v.2) UBFX
    valid_field fst (fun sf rd rn v => UBFXi sf rd rn v.1 v.2).
Proof. unfold UBFXi, UBFM. solve_rri_opt opt_create_ubfx. Qed.
Lemma opt_create_sbfx_ok :
  encodes_rri parse_register_opt (fun xd xn v => opt_create_sbfx xd xn v.1 v.2) SBFX
    valid_field fst (fun sf rd rn v => SBFXi sf rd rn v.1 v.2).
Proof. unfold SBFXi, SBFM. solve_rri_opt opt_create_sbfx. Qed.
Lemma opt_create_bfi_ok :
  encodes_rri parse_register_opt (fun xd xn v => opt_create_bfi xd xn v.1 v.2) BFI
    valid_field fst (fun sf rd rn v => BFIi sf rd rn v.1 v.2).
Proof. unfold BFIi, BFM. solve_rri_opt opt_create_bfi. Qed.

Lemma create_cmp_imm_ok xn v :
  match parse_register_sp xn with
  | Ok (rn, a) =>
      if valid_imm12 a v then
        exists i, create_cmp_imm xn v = Ok i /\ emits i CMP NONE (CMPi a rn v)
          /\ src_reg1 i = rn /\ immediate i = v /\ uses_immediate i = true
      else create_cmp_imm xn v = Throw invalid_argument
  | Throw _ => create_cmp_imm xn v = Throw invalid_argument
  end.
Proof.
  unfold create_cmp_imm.
  split_parse parse_register_sp xn rn a; [|split_guards; reflexivity].
  destruct a; run_encoder; split_guards; decide_valid; run_encoder; reduce_values;
    solve_emits.
Qed.

(** MOVZ and MOVK: the shift selects the halfword. *)
Definition valid_hw (sf : bool) (shift : Z) : bool :=
  (shift =? 0) || (shift =? 16) || (sf && ((shift =? 32) || (shift =? 48))).

Definition encodes_movw (create : string -> Z -> Z -> RelocationType -> string -> result Instruction)
    (op : OpType) (shape : bool -> Z -> Z -> Z -> insn) : Prop :=
  forall xd imm shift rel target, 0 <= imm < 2 ^ 16 ->
  match parse_register_zr xd with
  | Ok (rd, a) =>
      if valid_hw a shift then
        exists i, create xd imm shift rel target = Ok i /\ emits i op NONE (shape a rd imm shift)
          /\ dest_reg i = rd /\ immediate i = imm /\ uses_immediate i = true
          /\ jit_attribute i = JitNone
      else create xd imm shift rel target = Throw invalid_argument
  | Throw _ => create xd imm shift rel target = Throw invalid_argument
  end.

Lemma valid_hw_cases sf shift :
  valid_hw sf shift = true ->
  shift = 0 \/ shift = 16 \/ (sf = true /\ (shift = 32 \/ shift = 48)).
Proof. unfold valid_hw. destruct sf; intros H; lia. Qed.

Ltac compute_hw :=
  repeat match goal with
  | |- context [u32 (?x ÷ ?y)] =>
      let v := eval vm_compute in (u32 (x ÷ y)) in change (u32 (x ÷ y)) with v
  end.

Ltac solve_movw create :=
  let xd := fresh "xd" in let imm := fresh "imm" in let shift := fresh "shift" in
  let rd := fresh "rd" in let a := fresh "a" in
  intros xd imm shift rel target Himm; unfold create;
  split_parse parse_register_zr xd rd a; [|run_encoder; split_guards; reflexivity];
  destruct (valid_hw a shift) eqn:Ev;
  [ apply valid_hw_cases in Ev as [-> | [-> | (-> & [-> | ->])]];
    try destruct a; cbn [Z.eqb Pos.eqb]; run_encoder; compute_hw; solve_emits
  | unfold valid_hw in Ev; destruct a; cbn [andb orb] in Ev; run_encoder; split_guards;
    first [reflexivity | lia] ].

Lemma create_movz_imm_ok : encodes_movw create_movz_imm MOVZ MOVZi.
Proof. solve_movw create_movz_imm. Qed.
Lemma create_movk_imm_ok : encodes_movw create_movk_imm MOVK MOVKi.
Proof. solve_movw create_movk_imm. Qed.

(** ** Conditional select *)

(** The condition is inverted before it is stored: CSET is CSINC with the inverse
    condition. *)
Definition encodes_cset (create : string -> string -> result Instruction)
    (op : OpType) (shape : bool -> Z -> Z -> insn) : Prop :=
  forall Rd c,
  match get_condition_code c, parse_register_zr Rd with
  | Ok cc, Ok (rd, a) =>
      exists i, create Rd c = Ok i /\ emits i op NONE (shape a rd cc)
        /\ dest_reg i = rd /\ cond i = stringToConditionCode c
  | _, _ => create Rd c = Throw invalid_argument
  end.

Lemma lxor_1_range c : 0 <= c < 16 -> 0 <= Z.lxor c 1 < 16.
Proof.
  intros H. assert (E : c = Z.of_nat (Z.to_nat c)) by lia.
  assert (L : (Z.to_nat c < 16)%nat) by lia. revert E L. generalize (Z.to_nat c) as k.
  intros k -> L. do 16 (destruct k as [|k]; [vm_compute; split; congruence|]). lia.
Qed.

Ltac solve_cset create :=
  let Rd := fresh "Rd" in let c := fresh "c" in let cc := fresh "cc" in
  let rd := fresh "rd" in let a := fresh "a" in
  intros Rd c; unfold create;
  destruct (get_condition_code c) as [cc|] eqn:Ec;
  [ apply get_condition_code_range in Ec
  | apply get_condition_code_Throw in Ec; subst; reflexivity ];
  split_parse parse_register_zr Rd rd a; [|reflexivity];
  unfold invert_condition_code; pose proof (lxor_1_range cc ltac:(lia));
  destruct a; run_encoder; solve_emits.

Lemma create_cset_ok : encodes_cset create_cset OP_CSET CSET.
Proof. unfold CSET, invert_cond. solve_cset create_cset. Qed.
Lemma create_csetm_ok : encodes_cset create_csetm OP_CSETM CSETM.
Proof. unfold CSETM, invert_cond. solve_cset create_csetm. Qed.

(** CSINV: the sizes may differ when one of the sources is spelled [wzr] or [xzr]; the
    destination decides. *)
Definition csinv_sizes_ok (rd rn rm : string) : bool :=
  (eqb (is_x_name rd) (is_x_name rn) && eqb (is_x_name rd) (is_x_name rm))
  || (String.eqb rn "wzr" || String.eqb rn "xzr" || String.eqb rm "wzr"
      || String.eqb rm "xzr").

Lemma opt_create_csinv_ok rd rn rm c :
  match get_reg_encoding rd, get_reg_encoding rn, get_reg_encoding rm,
        get_condition_code c with
  | Ok d, Ok n, Ok m, Ok cc =>
      if csinv_sizes_ok rd rn rm then
        exists i, opt_create_csinv rd rn rm c = Ok i
          /\ emits i OP_CSINV NONE (CSINV (is_x_name rd) d n m cc)
          /\ dest_reg i = d /\ src_reg1 i = n /\ src_reg2 i = m
      else opt_create_csinv rd rn rm c = Throw invalid_argument
  | _, _, _, _ => opt_create_csinv rd rn rm c = Throw invalid_argument
  end.
Proof.
  unfold opt_create_csinv, csinv_sizes_ok.
  split_opt rd d; [|reflexivity]. split_opt rn n; [|reflexivity].
  split_opt rm m; [|reflexivity].
  set (z := String.eqb rn "wzr" || _ || _ || _).
  destruct (get_condition_code c) as [cc|] eqn:Ec.
  - apply get_condition_code_range in Ec.
    destruct (is_x_name rd), (is_x_name rn), (is_x_name rm), z; run_encoder;
      try reflexivity; solve_emits.
  - apply get_condition_code_Throw in Ec. subst.
    destruct (is_x_name rd), (is_x_name rn), (is_x_name rm), z; reflexivity.
Qed.

(** ADD (shifted register). *)
Lemma opt_create_add_shifted_reg_ok rd rn rm ty amount :
  match get_reg_encoding rd, get_reg_encoding rn, get_reg_encoding rm, shift_code ty with
  | Ok d, Ok n, Ok m, Ok sh =>
      let sf := is_x_name rd in
      if eqb sf (is_x_name rn) && eqb sf (is_x_name rm) && valid_shift sf amount then
        exists i, opt_create_add_shifted_reg rd rn rm ty amount = Ok i
          /\ emits i ADD NONE (AddSubShifted sf false false sh m amount n d)
          /\ dest_reg i = d /\ src_reg1 i = n /\ src_reg2 i = m
          /\ immediate i = amount /\ uses_immediate i = true
      else opt_create_add_shifted_reg rd rn rm ty amount = Throw invalid_argument
  | _, _, _, _ => opt_create_add_shifted_reg rd rn rm ty amount = Throw invalid_argument
  end.
Proof.
  unfold opt_create_add_shifted_reg.
  split_opt rd d; [|reflexivity]. split_opt rn n; [|reflexivity].
  split_opt rm m; [|reflexivity].
  destruct (shift_code ty) as [sh|] eqn:Es.
  - assert (Hsh : sh = 0 \/ sh = 1 \/ sh = 2).
    { unfold shift_code in Es. repeat case_match; simplify_eq; auto. }
    destruct (is_x_name rd), (is_x_name rn), (is_x_name rm); run_encoder; try reflexivity;
      split_guards; decide_valid; run_encoder; reduce_values;
      destruct Hsh as [-> | [-> | ->]]; solve_emits.
  - assert (e = invalid_argument) as -> by (unfold shift_code in Es; repeat case_match; congruence).
    destruct (is_x_name rd), (is_x_name rn), (is_x_name rm); run_encoder; split_guards;
      reflexivity.
Qed.
