(* ===== verification/EncMem.v ===== *)
(** * Load and store encoders

    The LDR/STR (immediate, word, byte, floating point, register offset) and LDP/STP
    (offset, pre- and post-index) encoders of src/encoders, as in [EncArith].  Offsets are
    C++ [int]s: [%] and [/] truncate towards zero ([Z.rem], [÷]), and the conversions to
    [uint32_t] are written out.  The lemmas prove that each accepted byte offset reaches the
    instruction scaled by the access size, and every other one is refused; the last ones
    state what the encoders that do not scale, or have a wrong base word, emit instead. *)

From S2P Require Import Prelude Words A64 Instr EncReg EncSpec.
Local Open Scope Z_scope.

(** [if (immediate != 0) assembly_text += ", #" + std::to_string(immediate);] *)
Definition append_offset (assembly_text : string) (immediate : Z) : string :=
  if negb (immediate =? 0) then (assembly_text ++ ", #" ++ to_string immediate)%string
  else assembly_text.

(** The name of the variable is appended as a comment unless it is already there. *)
Definition append_variable (assembly_text variable_name : string) : string :=
  if negb (string_empty variable_name)
     && (match String.index 0 variable_name assembly_text with
         | None => true | Some _ => false end)
  then (assembly_text ++ " ; " ++ variable_name)%string
  else assembly_text.

Definition create_ldr_imm (xt xn : string) (immediate : Z) (variable_name : string)
    : result Instruction :=
  '(rt_num, rt_is_64) ← parse_register_31 xt;
  '(rn_num, rn_is_64) ← parse_register_31 xn;
  if negb rn_is_64 then Throw invalid_argument
  else
    let base_opcode := if (rt_is_64 : bool) then 0xF9400000 else 0xB9400000 in
    let scale := if rt_is_64 then 8 else 4 in
    let max_offset := if rt_is_64 then 32760 else 16380 in
    if (negb (Z.rem immediate scale =? 0) || (immediate <? 0) || (max_offset <? immediate))
    then Throw invalid_argument
    else
      let assembly_text := ("LDR " ++ xt ++ ", [" ++ xn)%string in
      let assembly_text := append_offset assembly_text immediate in
      let assembly_text := (assembly_text ++ "]")%string in
      let assembly_text := append_variable assembly_text variable_name in
      let instruction :=
        Z.lor (Z.lor (Z.lor base_opcode (Z.shiftl (immediate ÷ scale) 10))
                 (u32 (Z.shiftl rn_num 5))) rt_num in
      let instr := set_opcode LDR (Instruction_new instruction assembly_text) in
      r ← get_reg_encoding xt;
      let instr := set_dest_reg r instr in
      b ← get_reg_encoding xn;
      let instr := set_base_reg b instr in
      Ok (set_is_mem_op true (set_uses_immediate true (set_immediate immediate instr))).

Definition create_str_imm (xt xn : string) (immediate : Z) (variable_name : string)
    : result Instruction :=
  '(rt_num, rt_is_64) ← parse_register_31 xt;
  '(rn_num, rn_is_64) ← parse_register_31 xn;
  if negb rn_is_64 then Throw invalid_argument
  else
    let base_opcode := if (rt_is_64 : bool) then 0xF9000000 else 0xB9000000 in
    let scale := if rt_is_64 then 8 else 4 in
    let max_offset := if rt_is_64 then 32760 else 16380 in
    if ((immediate <? 0) || (max_offset <? immediate) || negb (Z.rem immediate scale =? 0))
    then Throw invalid_argument
    else
      let imm12 := u32 (immediate ÷ scale) in
      let patcher := base_opcode in
      patcher ← patch patcher imm12 10 12;
      patcher ← patch patcher rn_num 5 5;
      patcher ← patch patcher rt_num 0 5;
      let assembly_text := ("STR " ++ xt ++ ", [" ++ xn)%string in
      let assembly_text := append_offset assembly_text immediate in
      let assembly_text := (assembly_text ++ "]")%string in
      let assembly_text := append_variable assembly_text variable_name in
      let instr := set_opcode STR (Instruction_new patcher assembly_text) in
      r ← get_reg_encoding xt;
      let instr := set_src_reg1 r instr in
      b ← get_reg_encoding xn;
      let instr := set_base_reg b instr in
      Ok (set_is_mem_op true (set_uses_immediate true (set_immediate immediate instr))).

Definition create_ldrb_imm (xt xn : string) (immediate : Z) : result Instruction :=
  if (immediate <? 0) || (4095 <? immediate) then Throw invalid_argument
  else
    '(rt_num, rt_is_64) ← parse_register_31 xt;
    '(rn_num, rn_is_64) ← parse_register_31 xn;
    if negb rn_is_64 then Throw invalid_argument
    else
      let patcher := 0x39400000 in
      patcher ← patch patcher (u32 immediate) 10 12;
      patcher ← patch patcher rn_num 5 5;
      patcher ← patch patcher rt_num 0 5;
      let assembly_text := ("LDRB " ++ xt ++ ", [" ++ xn)%string in
      let assembly_text := append_offset assembly_text immediate in
      let assembly_text := (assembly_text ++ "]")%string in
      let instr := set_opcode LDRB (Instruction_new patcher assembly_text) in
      r ← get_reg_encoding xt;
      let instr := set_dest_reg r instr in
      b ← get_reg_encoding xn;
      let instr := set_base_reg b instr in
      Ok (set_is_mem_op true (set_uses_immediate true (set_immediate immediate instr))).

Definition create_ldr_word_imm (wt xn : string) (immediate : Z) : result Instruction :=
  if (immediate <? 0) || (4095 <? immediate) then Throw invalid_argument
  else
    '(rt_num, rt_is_64) ← parse_register_31 wt;
    '(rn_num, rn_is_64) ← parse_register_31 xn;
    if negb rn_is_64 then Throw invalid_argument
    else if (rt_is_64 : bool) then Throw invalid_argument
    else
      let patcher := 0xB9400000 in
      patcher ← patch patcher (u32 immediate) 10 12;
      patcher ← patch patcher rn_num 5 5;
      patcher ← patch patcher rt_num 0 5;
      let assembly_text := ("LDR " ++ wt ++ ", [" ++ xn)%string in
      let assembly_text := append_offset assembly_text immediate in
      let assembly_text := (assembly_text ++ "]")%string in
      let instr := set_opcode LDR (Instruction_new patcher assembly_text) in
      r ← get_reg_encoding wt;
      let instr := set_dest_reg r instr in
      b ← get_reg_encoding xn;
      let instr := set_base_reg b instr in
      Ok (set_is_mem_op true (set_uses_immediate true (set_immediate immediate instr))).

(** No range check: the immediate is masked to 12 bits. *)
Definition create_str_word_imm (wt xn : string) (immediate : Z) : result Instruction :=
  let patcher := 0xB9000000 in
  let imm12 := Z.land (u32 immediate) 0xFFF in
  patcher ← patch patcher imm12 10 12;
  rn ← get_reg_encoding xn;
  patcher ← patch patcher rn 5 5;
  rt ← get_reg_encoding wt;
  patcher ← patch patcher rt 0 5;
  let assembly_text :=
    ("STR " ++ wt ++ ", [" ++ xn ++ ", #" ++ to_string immediate ++ "]")%string in
  let instr := set_opcode STR (Instruction_new patcher assembly_text) in
  r ← get_reg_encoding wt;
  let instr := set_src_reg1 r instr in
  b ← get_reg_encoding xn;
  let instr := set_base_reg b instr in
  Ok (set_is_mem_op true (set_uses_immediate true (set_immediate immediate instr))).

Definition create_ldr_fp_imm (dt xn : string) (immediate : Z) : result Instruction :=
  if (immediate <? 0) || (32760 <? immediate) || negb (Z.rem immediate 8 =? 0)
  then Throw runtime_error
  else
    rt ← get_reg_encoding dt;
    rn ← get_reg_encoding xn;
    let imm12 := u32 (immediate ÷ 8) in
    let patcher := 0xFD400000 in
    patcher ← patch patcher imm12 10 12;
    patcher ← patch patcher rn 5 5;
    patcher ← patch patcher rt 0 5;
    let assembly_text :=
      ("LDR " ++ dt ++ ", [" ++ xn ++ ", #" ++ to_string immediate ++ "]")%string in
    let instr := set_opcode LDR_FP (Instruction_new patcher assembly_text) in
    r ← get_reg_encoding dt;
    let instr := set_dest_reg r instr in
    b ← get_reg_encoding xn;
    let instr := set_base_reg b instr in
    Ok (set_is_mem_op true (set_uses_immediate true (set_immediate immediate instr))).

Definition create_str_fp_imm (dt xn : string) (immediate : Z) : result Instruction :=
  if (immediate <? 0) || (32760 <? immediate) || negb (Z.rem immediate 8 =? 0)
  then Throw runtime_error
  else
    rt ← get_reg_encoding dt;
    rn ← get_reg_encoding xn;
    let imm12 := u32 (immediate ÷ 8) in
    let patcher := 0xFD000000 in
    patcher ← patch patcher imm12 10 12;
    patcher ← patch patcher rn 5 5;
    patcher ← patch patcher rt 0 5;
    let assembly_text :=
      ("STR " ++ dt ++ ", [" ++ xn ++ ", #" ++ to_string immediate ++ "]")%string in
    let instr := set_opcode STR_FP (Instruction_new patcher assembly_text) in
    r ← get_reg_encoding dt;
    let instr := set_src_reg1 r instr in
    b ← get_reg_encoding xn;
    let instr := set_base_reg b instr in
    Ok (set_is_mem_op true (set_uses_immediate true (set_immediate immediate instr))).

Definition create_ldp_imm (xt1 xt2 xn : string) (immediate : Z) : result Instruction :=
  '(rt1_num, rt1_is_64) ← parse_register_31 xt1;
  '(rt2_num, rt2_is_64) ← parse_register_31 xt2;
  '(rn_num, rn_is_64) ← parse_register_31 xn;
  if negb (eqb rt1_is_64 rt2_is_64) then Throw invalid_argument
  else if negb rn_is_64 then Throw invalid_argument
  else
    let base_opcode := if rt1_is_64 then 0xA9400000 else 0x29400000 in
    let scale := if rt1_is_64 then 8 else 4 in
    let min_offset := if rt1_is_64 then -512 else -256 in
    let max_offset := if rt1_is_64 then 504 else 252 in
    if ((immediate <? min_offset) || (max_offset <? immediate)
           || negb (Z.rem immediate scale =? 0))
    then Throw invalid_argument
    else
      let imm7 := u32 (Z.land (immediate ÷ scale) 0x7F) in
      let patcher := base_opcode in
      patcher ← patch patcher imm7 15 7;
      patcher ← patch patcher rt2_num 10 5;
      patcher ← patch patcher rn_num 5 5;
      patcher ← patch patcher rt1_num 0 5;
      let assembly_text := ("LDP " ++ xt1 ++ ", " ++ xt2 ++ ", [" ++ xn)%string in
      let assembly_text := append_offset assembly_text immediate in
      let assembly_text := (assembly_text ++ "]")%string in
      let instr := Instruction_new patcher assembly_text in
      let instr := set_opcode LDP instr in
      r1 ← get_reg_encoding xt1;
      let instr := set_dest_reg r1 instr in
      r2 ← get_reg_encoding xt2;
      let instr := set_src_reg1 r2 instr in
      b ← get_reg_encoding xn;
      let instr := set_base_reg b instr in
      Ok (set_is_mem_op true (set_uses_immediate true (set_immediate immediate instr))).

Definition create_ldp_post_imm (xt1 xt2 xn : string) (immediate : Z) : result Instruction :=
  '(rt1_num, rt1_is_64) ← parse_register_31 xt1;
  '(rt2_num, rt2_is_64) ← parse_register_31 xt2;
  '(rn_num, rn_is_64) ← parse_register_31 xn;
  if negb (eqb rt1_is_64 rt2_is_64) then Throw invalid_argument
  else if negb rn_is_64 then Throw invalid_argument
  else
    let base_opcode := if rt1_is_64 then 0xA8400000 else 0x28400000 in
    let scale := if rt1_is_64 then 8 else 4 in
    let min_offset := if rt1_is_64 then -512 else -256 in
    let max_offset := if rt1_is_64 then 504 else 252 in
    if (negb (Z.rem immediate scale =? 0) || (immediate <? min_offset)
           || (max_offset <? immediate))
    then Throw invalid_argument
    else
      let imm7 := Z.land (u32 immediate / scale) 0x7F in
      let instruction_word :=
        Z.lor (Z.lor (Z.lor (Z.lor base_opcode (u32 (Z.shiftl imm7 15)))
                        (u32 (Z.shiftl rt2_num 10))) (u32 (Z.shiftl rn_num 5))) rt1_num in
      let assembly_text :=
        ("LDP " ++ xt1 ++ ", " ++ xt2 ++ ", [" ++ xn ++ "], #" ++ to_string immediate)%string in
      let instr := Instruction_new instruction_word assembly_text in
      let instr := set_opcode LDP instr in
      r1 ← get_reg_encoding xt1;
      let instr := set_dest_reg r1 instr in
      r2 ← get_reg_encoding xt2;
      let instr := set_src_reg1 r2 instr in
      b ← get_reg_encoding xn;
      let instr := set_base_reg b instr in
      Ok (set_is_mem_op true (set_uses_immediate true (set_immediate immediate instr))).

Definition create_stp_imm (xt1 xt2 xn : string) (immediate : Z) : result Instruction :=
  '(rt1_num, rt1_is_64) ← parse_register_31 xt1;
  '(rt2_num, rt2_is_64) ← parse_register_31 xt2;
  '(rn_num, rn_is_64) ← parse_register_31 xn;
  if negb (eqb rt1_is_64 rt2_is_64) then Throw invalid_argument
  else if negb rn_is_64 then Throw invalid_argument
  else
    let base_opcode := if rt1_is_64 then 0xA9000000 else 0x29000000 in
    let scale := if rt1_is_64 then 8 else 4 in
    let min_offset := if rt1_is_64 then -512 else -256 in
    let max_offset := if rt1_is_64 then 504 else 252 in
    if ((immediate <? min_offset) || (max_offset <? immediate)
           || negb (Z.rem immediate scale =? 0))
    then Throw invalid_argument
    else
      let imm7 := u32 (Z.land (immediate ÷ scale) 0x7F) in
      let patcher := base_opcode in
      patcher ← patch patcher imm7 15 7;
      patcher ← patch patcher rt2_num 10 5;
      patcher ← patch patcher rn_num 5 5;
      patcher ← patch patcher rt1_num 0 5;
      let assembly_text := ("STP " ++ xt1 ++ ", " ++ xt2 ++ ", [" ++ xn)%string in
      let assembly_text := append_offset assembly_text immediate in
      let assembly_text := (assembly_text ++ "]")%string in
      let instr := Instruction_new patcher assembly_text in
      let instr := set_opcode STP instr in
      r1 ← get_reg_encoding xt1;
      let instr := set_src_reg1 r1 instr in
      r2 ← get_reg_encoding xt2;
      let instr := set_src_reg2 r2 instr in
      b ← get_reg_encoding xn;
      let instr := set_base_reg b instr in
      Ok (set_is_mem_op true (set_uses_immediate true (set_immediate immediate instr))).

Definition create_stp_pre_imm (xt1 xt2 xn : string) (immediate : Z) : result Instruction :=
  '(rt1_num, rt1_is_64) ← parse_register_31 xt1;
  '(rt2_num, rt2_is_64) ← parse_register_31 xt2;
  '(rn_num, rn_is_64) ← parse_register_31 xn;
  if negb (eqb rt1_is_64 rt2_is_64) then Throw invalid_argument
  else if negb rn_is_64 then Throw invalid_argument
  else
    let base_opcode := if rt1_is_64 then 0xA9800000 else 0x29800000 in
    let scale := if rt1_is_64 then 8 else 4 in
    let min_offset := if rt1_is_64 then -512 else -256 in
    let max_offset := if rt1_is_64 then 504 else 252 in
    if ((immediate <? min_offset) || (max_offset <? immediate)
           || negb (Z.rem immediate scale =? 0))
    then Throw invalid_argument
    else
      let imm7 := u32 (Z.land (immediate ÷ scale) 0x7F) in
      let patcher := base_opcode in
      patcher ← patch patcher imm7 15 7;
      patcher ← patch patcher rt2_num 10 5;
      patcher ← patch patcher rn_num 5 5;
      patcher ← patch patcher rt1_num 0 5;
      let assembly_text :=
        ("STP " ++ xt1 ++ ", " ++ xt2 ++ ", [" ++ xn ++ ", #" ++ to_string immediate
           ++ "]!")%string in
      let instr := Instruction_new patcher assembly_text in
      let instr := set_opcode STP instr in
      r1 ← get_reg_encoding xt1;
      let instr := set_src_reg1 r1 instr in
      r2 ← get_reg_encoding xt2;
      let instr := set_src_reg2 r2 instr in
      b ← get_reg_encoding xn;
      let instr := set_base_reg b instr in
      Ok (set_is_mem_op true (set_uses_immediate true (set_immediate immediate instr))).

Definition create_ldp_pre_imm (xt1 xt2 xn : string) (immediate : Z) : result Instruction :=
  rt1_val ← get_reg_encoding xt1;
  rt2_val ← get_reg_encoding xt2;
  rn_val ← get_reg_encoding xn;
  if negb (Z.rem immediate 8 =? 0) then Throw invalid_argument
  else
    let imm7 := immediate ÷ 8 in
    if (imm7 <? -64) || (63 <? imm7) then Throw out_of_range
    else
      let patcher := 0xA9C00000 in
      patcher ← patch patcher (u32 imm7) 15 7;
      patcher ← patch patcher rt2_val 10 5;
      patcher ← patch patcher rn_val 5 5;
      patcher ← patch patcher rt1_val 0 5;
      let assembly :=
        ("LDP " ++ xt1 ++ ", " ++ xt2 ++ ", [" ++ xn ++ ", #" ++ to_string immediate
           ++ "]!")%string in
      let instr := set_opcode LDP (Instruction_new patcher assembly) in
      r1 ← get_reg_encoding xt1;
      let instr := set_dest_reg r1 instr in
      r2 ← get_reg_encoding xt2;
      let instr := set_src_reg1 r2 instr in
      b ← get_reg_encoding xn;
      let instr := set_base_reg b instr in
      Ok (set_is_mem_op true (set_uses_immediate true (set_immediate immediate instr))).

Definition create_ldr_scaled_reg_64bit (xt xn xm : string) (shift : Z) : result Instruction :=
  if negb (shift =? 0) && negb (shift =? 3) then Throw invalid_argument
  else
    '(rt_num, rt_is_64) ← parse_register_31 xt;
    '(rn_num, rn_is_64) ← parse_register_31 xn;
    '(rm_num, rm_is_64) ← parse_register_31 xm;
    if negb rt_is_64 then Throw invalid_argument
    else if negb rn_is_64 || negb rm_is_64 then Throw invalid_argument
    else
      let patcher := 0xF8606000 in
      patcher ← patch patcher rt_num 0 5;
      patcher ← patch patcher rn_num 5 5;
      patcher ← patch patcher rm_num 16 5;
      patcher ← (if shift =? 3 then patch patcher 1 12 1 else Ok patcher);
      let assembly_text := ("LDR " ++ xt ++ ", [" ++ xn ++ ", " ++ xm)%string in
      let assembly_text :=
        (if 0 <? shift then (assembly_text ++ ", LSL #" ++ to_string shift)%string
         else assembly_text) in
      let assembly_text := (assembly_text ++ "]")%string in
      let instr := set_opcode LDR (Instruction_new patcher assembly_text) in
      r ← get_reg_encoding xt;
      let instr := set_dest_reg r instr in
      b ← get_reg_encoding xn;
      let instr := set_base_reg b instr in
      m ← get_reg_encoding xm;
      let instr := set_src_reg1 m instr in
      Ok (set_is_mem_op true instr).

(** ** Specification *)

(** Byte offsets that are a multiple of the access size and whose quotient fits. *)
Definition access_size (sf : bool) : Z := if sf then 8 else 4.
Definition valid_uoffset (sf : bool) (off : Z) : bool :=
  (0 <=? off) && (off <=? 4095 * access_size sf) && (off mod access_size sf =? 0).
Definition valid_pair_offset (sf : bool) (off : Z) : bool :=
  (-64 * access_size sf <=? off) && (off <=? 63 * access_size sf)
  && (off mod access_size sf =? 0).

(** A transfer of one register: the base register must be 64 bits wide; [regs] reads the
    semantic fields of the transferred and of the base register. *)
Definition encodes_ldst (create : string -> string -> Z -> result Instruction)
    (op : OpType) (regs : Instruction -> Z * Z) (valid : bool -> Z -> bool)
    (shape : bool -> Z -> Z -> Z -> insn) : Prop :=
  forall xt xn imm,
  match parse_register_31 xt, parse_register_31 xn with
  | Ok (rt, a), Ok (rn, b) =>
      if b && valid a imm then
        exists i, create xt xn imm = Ok i /\ emits i op NONE (shape a rt rn imm)
          /\ regs i = (rt, rn) /\ immediate i = imm /\ is_mem_op i = true
      else create xt xn imm = Throw invalid_argument
  | _, _ => create xt xn imm = Throw invalid_argument
  end.

Definition encodes_pair (create : string -> string -> string -> Z -> result Instruction)
    (op : OpType) (regs : Instruction -> Z * Z * Z)
    (shape : bool -> Z -> Z -> Z -> Z -> insn) : Prop :=
  forall xt1 xt2 xn imm,
  match parse_register_31 xt1, parse_register_31 xt2, parse_register_31 xn with
  | Ok (rt1, a), Ok (rt2, b), Ok (rn, c) =>
      if eqb a b && c && valid_pair_offset a imm then
        exists i, create xt1 xt2 xn imm = Ok i /\ emits i op NONE (shape a rt1 rt2 rn imm)
          /\ regs i = (rt1, rt2, rn) /\ immediate i = imm /\ is_mem_op i = true
      else create xt1 xt2 xn imm = Throw invalid_argument
  | _, _, _ => create xt1 xt2 xn imm = Throw invalid_argument
  end.

(** ** Proofs *)

Lemma land_7F z : Z.land z 0x7F = z mod 2 ^ 7.
Proof. change 0x7F with (Z.ones 7). apply Z.land_ones. lia. Qed.

Lemma quot_multiple x y : 0 < y -> Z.rem x y = 0 -> x ÷ y = x / y.
Proof. intros Hy Hr. pose proof (Z.quot_rem' x y). apply Z.div_unique_exact; lia. Qed.

(** [valid] as the conjunction of the guards that were passed or not. *)
Ltac decide_offset :=
  unfold valid_uoffset, valid_pair_offset, valid_imm12, access_size; cbn [negb andb];
  lazymatch goal with
  | |- if ?c then _ else _ =>
      first [ replace c with false by (symmetry; apply not_true_is_false; intros ?; bool_to_prop; elia);
              try reflexivity
            | replace c with true by (symmetry; bool_to_prop; elia) ]
  | _ => idtac
  end.

(** The scaled offset fits its field. *)
Ltac bound_quotients :=
  repeat match goal with
  | |- context [?x / ?y] =>
      lazymatch goal with
      | _ : 0 <= x / y < _ |- _ => fail
      | _ => assert (0 <= x / y < 2 ^ 12) by elia
      end
  end.

(** Remainders become variables of known range: [lia] need not look inside them. *)
Ltac abstract_mods :=
  repeat match goal with
  | H : 0 <= ?x mod ?y < ?y |- _ =>
      let z := fresh "z" in set (z := x mod y) in *; clearbody z
  end.

Ltac solve_ldst create :=
  let xt := fresh "xt" in let xn := fresh "xn" in let imm := fresh "imm" in
  let rt := fresh "rt" in let rn := fresh "rn" in
  let a := fresh "a" in let b := fresh "b" in
  intros xt xn imm; unfold create, LDRi, STRi;
  split_parse parse_register_31 xt rt a; [|run_encoder; split_guards; reflexivity];
  split_parse parse_register_31 xn rn b; [|run_encoder; split_guards; reflexivity];
  destruct a, b; run_encoder; split_guards; run_encoder; try reflexivity; decide_offset;
  run_encoder; rewrite ?quot_multiple by (lia || assumption); bound_quotients;
  reduce_values; repeat or_to_patch 12; repeat or_to_patch 5; solve_emits.

Lemma create_ldr_imm_ok name :
  encodes_ldst (fun xt xn off => create_ldr_imm xt xn off name) LDR
    (fun i => (dest_reg i, base_reg i)) valid_uoffset LDRi.
Proof.
 solve_ldst create_ldr_imm.
Qed.
Lemma create_str_imm_ok name :
  encodes_ldst (fun xt xn off => create_str_imm xt xn off name) STR
    (fun i => (src_reg1 i, base_reg i)) valid_uoffset STRi.
Proof. solve_ldst create_str_imm. Qed.
Lemma create_ldrb_imm_ok :
  encodes_ldst create_ldrb_imm LDRB (fun i => (dest_reg i, base_reg i)) valid_imm12
    (fun _ => LDRBi).
Proof. solve_ldst create_ldrb_imm. Qed.

Lemma encodes_ldst_ext create op regs valid s1 s2 :
  (forall sf rt rn imm, s1 sf rt rn imm = s2 sf rt rn imm) ->
  encodes_ldst create op regs valid s1 -> encodes_ldst create op regs valid s2.
Proof.
  intros Hs H xt xn imm. specialize (H xt xn imm).
  destruct (parse_register_31 xt) as [[rt a]|]; [|exact H].
  destruct (parse_register_31 xn) as [[rn b]|]; [|exact H].
  by rewrite <-Hs.
Qed.

(** The word forms put the byte offset of their documentation into the field that the
    machine scales by four: they access byte [4 * imm]. *)
Lemma create_ldr_word_imm_emits :
  encodes_ldst create_ldr_word_imm LDR (fun i => (dest_reg i, base_reg i))
    (fun sf imm => negb sf && valid_imm12 sf imm)
    (fun _ rt rn imm => LDRi false rt rn (4 * imm)).
Proof.
  apply (encodes_ldst_ext _ _ _ _ (fun _ rt rn imm => LdStUImm 2 0 1 imm rn rt)).
  - intros. unfold LDRi. by rewrite Z.mul_comm, Z.div_mul by lia.
  - solve_ldst create_ldr_word_imm.
Qed.

Lemma land_FFF z : Z.land (u32 z) 0xFFF = z mod 2 ^ 12.
Proof.
  change 0xFFF with (Z.ones 12). rewrite Z.land_ones by lia. apply mod_mod_pow. lia.
Qed.

(** The word store checks nothing: the offset is taken modulo 4096 words, and the registers
    may have any size. *)
Lemma create_str_word_imm_emits wt xn imm :
  match get_reg_encoding wt, get_reg_encoding xn with
  | Ok rt, Ok rn =>
      exists i, create_str_word_imm wt xn imm = Ok i
        /\ emits i STR NONE (STRi false rt rn (4 * (imm mod 2 ^ 12)))
        /\ src_reg1 i = rt /\ base_reg i = rn /\ immediate i = imm /\ is_mem_op i = true
  | _, _ => create_str_word_imm wt xn imm = Throw invalid_argument
  end.
Proof.
  unfold create_str_word_imm, STRi. rewrite land_FFF.
  split_opt wt rt; split_opt xn rn; run_encoder; try reflexivity.
  rewrite Z.mul_comm, Z.div_mul by lia. reduce_values. abstract_mods. solve_emits.
Qed.

(** Double-precision loads and stores. *)
Definition encodes_fp_ldst (create : string -> string -> Z -> result Instruction)
    (op : OpType) (reg : Instruction -> Z) (shape : Z -> Z -> Z -> insn) : Prop :=
  forall dt xn imm,
  if valid_uoffset true imm then
    match get_reg_encoding dt, get_reg_encoding xn with
    | Ok rt, Ok rn =>
        exists i, create dt xn imm = Ok i /\ emits i op NONE (shape rt rn imm)
          /\ reg i = rt /\ base_reg i = rn /\ immediate i = imm /\ is_mem_op i = true
    | _, _ => create dt xn imm = Throw invalid_argument
    end
  else create dt xn imm = Throw runtime_error.

Lemma valid_uoffset_true imm :
  valid_uoffset true imm
  = negb ((imm <? 0) || (32760 <? imm) || negb (Z.rem imm 8 =? 0)).
Proof.
  unfold valid_uoffset, access_size. apply eq_true_iff_eq.
  rewrite negb_true_iff. split; intros H; bool_to_prop; elia.
Qed.

Ltac solve_fp_ldst create :=
  let dt := fresh "dt" in let xn := fresh "xn" in let imm := fresh "imm" in
  let rt := fresh "rt" in let rn := fresh "rn" in let Ev := fresh "Ev" in
  intros dt xn imm; unfold create, LDRDi, STRDi; rewrite valid_uoffset_true;
  destruct ((imm <? 0) || _ || _) eqn:Ev; [reflexivity|]; cbn [negb]; bool_to_prop;
  split_opt dt rt; split_opt xn rn; run_encoder; try reflexivity;
  rewrite ?quot_multiple by (lia || assumption); bound_quotients; reduce_values; solve_emits.

Lemma create_ldr_fp_imm_ok :
  encodes_fp_ldst create_ldr_fp_imm LDR_FP dest_reg LDRDi.
Proof. solve_fp_ldst create_ldr_fp_imm. Qed.
Lemma create_str_fp_imm_ok :
  encodes_fp_ldst create_str_fp_imm STR_FP src_reg1 STRDi.
Proof. solve_fp_ldst create_str_fp_imm. Qed.

(** ** Pairs *)

Ltac solve_pair create :=
  let x1 := fresh "x1" in let x2 := fresh "x2" in let xn := fresh "xn" in
  let imm := fresh "imm" in
  let r1 := fresh "r1" in let r2 := fresh "r2" in let rn := fresh "rn" in
  let a := fresh "a" in let b := fresh "b" in let c := fresh "c" in
  intros x1 x2 xn imm; unfold create, STPi, LDPi, pair_imm7;
  split_parse parse_register_31 x1 r1 a; [|reflexivity];
  split_parse parse_register_31 x2 r2 b; [|reflexivity];
  split_parse parse_register_31 xn rn c; [|reflexivity];
  destruct a, b, c; run_encoder; split_guards; run_encoder; try reflexivity; decide_offset;
  rewrite ?quot_multiple by (lia || assumption); rewrite ?land_7F; reduce_values; abstract_mods; solve_emits.


Lemma create_stp_imm_ok :
  encodes_pair create_stp_imm STP (fun i => (src_reg1 i, src_reg2 i, base_reg i))
    (fun sf => STPi sf mode_offset).
Proof. solve_pair create_stp_imm. Qed.
Lemma create_stp_pre_imm_ok :
  encodes_pair create_stp_pre_imm STP (fun i => (src_reg1 i, src_reg2 i, base_reg i))
    (fun sf => STPi sf mode_pre).
Proof. solve_pair create_stp_pre_imm. Qed.
Lemma create_ldp_imm_ok :
  encodes_pair create_ldp_imm LDP (fun i => (dest_reg i, src_reg1 i, base_reg i))
    (fun sf => LDPi sf mode_offset).
Proof. solve_pair create_ldp_imm. Qed.

(** The post-index form divides the offset as an unsigned number: the low seven bits of
    the quotient are the same. *)
Lemma unsigned_quotient imm scale :
  scale = 4 \/ scale = 8 -> imm mod scale = 0 ->
  Z.land (u32 imm / scale) 0x7F = (imm / scale) mod 2 ^ 7.
Proof.
  intros Hs Hm. rewrite land_7F. unfold u32.
  destruct Hs as [-> | ->].
  - change (2 ^ 32) with (4 * 2 ^ 30). elia.
  - change (2 ^ 32) with (8 * 2 ^ 29). elia.
Qed.
(** The base word of the post-index form has the mode bits of the non-temporal pair
    (LDNP): the base register is not updated. *)
Lemma create_ldp_post_imm_emits :
  encodes_pair create_ldp_post_imm LDP (fun i => (dest_reg i, src_reg1 i, base_reg i))
    (fun sf => LDPi sf 0).
Proof.
  intros x1 x2 xn imm. unfold create_ldp_post_imm, LDPi, pair_imm7.
  split_parse parse_register_31 x1 r1 a; [|reflexivity].
  split_parse parse_register_31 x2 r2 b; [|reflexivity].
  split_parse parse_register_31 xn rn c; [|reflexivity].
  destruct a, b, c; run_encoder; split_guards; run_encoder; try reflexivity; decide_offset.
  all: rewrite unsigned_quotient by first [left; reflexivity | right; reflexivity | elia];
    reduce_values; abstract_mods; repeat or_to_patch 7;
    repeat or_to_patch 5; solve_emits.
Qed.

Lemma create_ldp_pre_imm_ok x1 x2 xn imm :
  match get_reg_encoding x1, get_reg_encoding x2, get_reg_encoding xn with
  | Ok r1, Ok r2, Ok rn =>
      if valid_pair_offset true imm then
        exists i, create_ldp_pre_imm x1 x2 xn imm = Ok i
          /\ emits i LDP NONE (LDPi true mode_pre r1 r2 rn imm)
          /\ dest_reg i = r1 /\ src_reg1 i = r2 /\ base_reg i = rn
          /\ immediate i = imm /\ is_mem_op i = true
      else create_ldp_pre_imm x1 x2 xn imm
           = Throw (if Z.rem imm 8 =? 0 then out_of_range else invalid_argument)
  | _, _, _ => create_ldp_pre_imm x1 x2 xn imm = Throw invalid_argument
  end.
Proof.
  unfold create_ldp_pre_imm, LDPi, pair_imm7.
  split_opt x1 r1; [|reflexivity]. split_opt x2 r2; [|reflexivity].
  split_opt xn rn; [|reflexivity]. run_encoder.
  destruct (Z.rem imm 8 =? 0) eqn:E8; cbn [negb]; bool_to_prop.
  - rewrite quot_multiple by (lia || assumption).
    destruct ((imm / 8 <? -64) || (63 <? imm / 8)) eqn:Er; bool_to_prop.
    + replace (valid_pair_offset true imm) with false; [reflexivity|].
      unfold valid_pair_offset, access_size. symmetry. apply not_true_is_false.
      intros ?. bool_to_prop. elia.
    + replace (valid_pair_offset true imm) with true
        by (unfold valid_pair_offset, access_size; symmetry; bool_to_prop; elia).
      run_encoder. pose proof (mod_mod_pow (imm / 8) 32 7 ltac:(lia)) as Hm.
      pose proof (Z.mod_pos_bound (imm / 8) (2 ^ 7)). pose proof (u32_range (imm / 8)).
      eexists. split; [reflexivity|]. split; [|instr_fields; auto 10].
      apply emits_intro; instr_fields; [solve_word_range| |reflexivity..].
      decode_word. unfold u32. by rewrite Hm.
  - replace (valid_pair_offset true imm) with false; [reflexivity|].
    unfold valid_pair_offset, access_size. symmetry. apply not_true_is_false.
    intros ?. bool_to_prop. elia.
Qed.

(** LDR (register offset): the base word lacks bit 11, so no load with a register offset
    is emitted whatever the operands: the word is not in any class of the decoder. *)
Lemma create_ldr_scaled_reg_64bit_emits xt xn xm shift :
  match parse_register_31 xt, parse_register_31 xn, parse_register_31 xm with
  | Ok (rt, a), Ok (rn, b), Ok (rm, c) =>
      if ((shift =? 0) || (shift =? 3)) && a && b && c then
        exists i, create_ldr_scaled_reg_64bit xt xn xm shift = Ok i
          /\ decode (encoding i) = None /\ opcode i = LDR
          /\ dest_reg i = rt /\ base_reg i = rn /\ src_reg1 i = rm
      else create_ldr_scaled_reg_64bit xt xn xm shift = Throw invalid_argument
  | _, _, _ => create_ldr_scaled_reg_64bit xt xn xm shift = Throw invalid_argument
  end.
Proof.
  unfold create_ldr_scaled_reg_64bit.
  split_parse parse_register_31 xt rt a; [|split_guards; reflexivity].
  split_parse parse_register_31 xn rn b; [|split_guards; reflexivity].
  split_parse parse_register_31 xm rm c; [|split_guards; reflexivity].
  destruct (shift =? 0) eqn:S0, (shift =? 3) eqn:S3; bool_to_prop; [lia|subst shift..|];
    destruct a, b, c; run_encoder; try reflexivity.
  all: eexists; split; [reflexivity|]; split; [instr_fields; decode_word; reflexivity|].
  all: instr_fields; auto.
Qed.
