(* ===== verification/EncBranch.v ===== *)
(** * Branch, address, system and composite encoders

    Branches, compare-and-branch, ADR/ADRP/ADD (literal), the SP/FP moves, the system
    instructions and the two encoders that return several instructions
    (src/encoders/enc_create_movz_movk_*.cpp), as in [EncArith].  A branch or an address
    encoder leaves its displacement field zero and asks the linker for a relocation; what
    the linker does with it is in [Linker]. *)

From S2P Require Import Prelude Words A64 Instr EncReg EncSpec EncArith.
Local Open Scope Z_scope.

(** ** Branches *)

Definition create_branch_unconditional (label_name : string) : Instruction :=
  let encoding := 0x14000000 in
  let assembly_text := ("B " ++ label_name)%string in
  let instr := set_opcode B (Instruction_new encoding assembly_text) in
  set_target_label label_name (set_relocation PC_RELATIVE_26_BIT_OFFSET instr).

Definition create_branch_with_link (label_name : string) : Instruction :=
  let encoding := 0x94000000 in
  let assembly_text := ("BL " ++ label_name)%string in
  let instr := set_opcode BL (Instruction_new encoding assembly_text) in
  set_target_label label_name (set_relocation PC_RELATIVE_26_BIT_OFFSET instr).

Definition create_branch_conditional (condition label_name : string) : result Instruction :=
  cond_code ← get_condition_code condition;
  let patcher := 0x54000000 in
  patcher ← patch patcher cond_code 0 4;
  let assembly_text := ("B." ++ upper condition ++ " " ++ label_name)%string in
  let instr := set_opcode B_COND (Instruction_new patcher assembly_text) in
  let instr := set_relocation PC_RELATIVE_19_BIT_OFFSET instr in
  let instr := set_target_label label_name instr in
  Ok (set_cond (stringToConditionCode condition) instr).

Definition create_br_reg (xn : string) : result Instruction :=
  '(rn_num, rn_is_64) ← parse_register_x 31 xn;
  if negb rn_is_64 then Throw invalid_argument
  else
    let patcher := 0xD61F0000 in
    patcher ← patch patcher rn_num 5 5;
    let assembly_text := ("BR " ++ xn)%string in
    let instr := set_opcode BR (Instruction_new patcher assembly_text) in
    s1 ← get_reg_encoding xn;
    Ok (set_src_reg1 s1 instr).

Definition create_branch_with_link_register (xn : string) : result Instruction :=
  '(rn_num, rn_is_64) ← parse_register_x 31 xn;
  if negb rn_is_64 then Throw invalid_argument
  else
    let patcher := 0xD63F0000 in
    patcher ← patch patcher rn_num 5 5;
    let assembly_text := ("BLR " ++ xn)%string in
    let instr := set_opcode BLR (Instruction_new patcher assembly_text) in
    s1 ← get_reg_encoding xn;
    Ok (set_src_reg1 s1 instr).

Definition create_return : result Instruction :=
  let patcher := 0xD65F0000 in
  patcher ← patch patcher 30 5 5;
  let instr := set_opcode RET (Instruction_new patcher "RET") in
  Ok (set_src_reg1 30 instr).

Definition opt_create_cbz (xt label_name : string) : result Instruction :=
  rt_num ← get_reg_encoding xt;
  let is_64bit := is_x_name xt in
  let patcher := 0x34000000 in
  patcher ← (if is_64bit then patch patcher 1 31 1 else Ok patcher);
  patcher ← patch patcher rt_num 0 5;
  let assembly_text := ("CBZ " ++ xt ++ ", " ++ label_name)%string in
  let instr := set_opcode CBZ (Instruction_new patcher assembly_text) in
  s1 ← get_reg_encoding xt;
  let instr := set_src_reg1 s1 instr in
  let instr := set_relocation PC_RELATIVE_19_BIT_OFFSET instr in
  Ok (set_target_label label_name instr).

Definition opt_create_cbnz (xt label_name : string) : result Instruction :=
  rt_num ← get_reg_encoding xt;
  let is_64bit := is_x_name xt in
  let patcher := 0x35000000 in
  patcher ← (if is_64bit then patch patcher 1 31 1 else Ok patcher);
  patcher ← patch patcher rt_num 0 5;
  let assembly_text := ("CBNZ " ++ xt ++ ", " ++ label_name)%string in
  let instr := set_opcode CBNZ (Instruction_new patcher assembly_text) in
  s1 ← get_reg_encoding xt;
  let instr := set_src_reg1 s1 instr in
  let instr := set_relocation PC_RELATIVE_19_BIT_OFFSET instr in
  Ok (set_target_label label_name instr).

(** ** Addresses *)

Definition create_adrp (xd label_name : string) : result Instruction :=
  '(rd_num, rd_is_64) ← parse_register_x 30 xd;
  if negb rd_is_64 then Throw invalid_argument
  else
    let patcher := 0x90000000 in
    patcher ← patch patcher rd_num 0 5;
    let assembly_text := ("ADRP " ++ xd ++ ", " ++ label_name)%string in
    let instr := set_opcode ADRP (Instruction_new patcher assembly_text) in
    d ← get_reg_encoding xd;
    let instr := set_dest_reg d instr in
    let instr := set_relocation PAGE_21_BIT_PC_RELATIVE instr in
    Ok (set_target_label label_name instr).

(** The word of ADR is emitted without its destination register. *)
Definition create_adr (xd label_name : string) : result Instruction :=
  let assembly_text := ("ADR " ++ xd ++ ", " ++ label_name)%string in
  let instr :=
    Instruction_reloc 0x10000000 assembly_text PAGE_21_BIT_PC_RELATIVE label_name false
      false in
  let instr := set_opcode ADR instr in
  d ← get_reg_encoding xd;
  let instr := set_dest_reg d instr in
  Ok (set_target_label label_name instr).

Definition create_add_literal (xd xn label_name : string) : result Instruction :=
  '(rd_num, rd_is_64) ← parse_register_add_literal xd;
  '(rn_num, rn_is_64) ← parse_register_add_literal xn;
  if negb rd_is_64 || negb rn_is_64 then Throw invalid_argument
  else
    let patcher := 0x91000000 in
    patcher ← patch patcher rn_num 5 5;
    patcher ← patch patcher rd_num 0 5;
    let assembly_text := ("ADD " ++ xd ++ ", " ++ xn ++ ", #:lo12:" ++ label_name)%string in
    let instr := set_opcode ADD (Instruction_new patcher assembly_text) in
    d ← get_reg_encoding xd;
    let instr := set_dest_reg d instr in
    s1 ← get_reg_encoding xn;
    let instr := set_src_reg1 s1 instr in
    let instr := set_uses_immediate true instr in
    let instr := set_relocation ADD_12_BIT_UNSIGNED_OFFSET instr in
    Ok (set_target_label label_name instr).

Definition create_mov_fp_sp : result Instruction :=
  let patcher := 0x91000000 in
  patcher ← patch patcher 31 5 5;
  patcher ← patch patcher 29 0 5;
  let instr := set_opcode MOV (Instruction_new patcher "MOV X29, SP") in
  Ok (set_src_reg1 31 (set_dest_reg 29 instr)).

Definition create_mov_sp_fp : result Instruction :=
  let patcher := 0x91000000 in
  patcher ← patch patcher 29 5 5;
  patcher ← patch patcher 31 0 5;
  let instr := set_opcode MOV (Instruction_new patcher "MOV SP, X29") in
  Ok (set_src_reg1 29 (set_dest_reg 31 instr)).

(** ** System *)

Definition create_nop : Instruction :=
  set_opcode NOP (Instruction_new 0xD503201F "NOP").

Definition create_dmb : Instruction :=
  set_opcode DMB (Instruction_new 0xD5033BFF "DMB ISH").

Definition create_brk (imm : Z) : result Instruction :=
  let patcher := 0xD4200000 in
  patcher ← patch patcher imm 5 16;
  let assembly_text := ("BRK #" ++ to_string imm)%string in
  let instr := set_opcode BRK (Instruction_new patcher assembly_text) in
  Ok (set_uses_immediate true (set_immediate imm instr)).

Definition create_svc_imm (immediate : Z) : Instruction :=
  let encoding := Z.lor 0xD4000001 (u32 (Z.shiftl (Z.land immediate 0xFFFF) 5)) in
  let instr := set_opcode SVC (Instruction_new encoding ("SVC #" ++ to_string immediate)) in
  set_uses_immediate true (set_immediate immediate instr).

(** ** Composite encoders *)

(** The four half-words of a 64-bit address and the relocations that go with them. *)
Definition address_chunks (address : Z) : list (Z * Z * RelocationType) :=
  [ (Z.land (Z.shiftr address 0) 0xFFFF, 0, MOVZ_MOVK_IMM_0);
    (Z.land (Z.shiftr address 16) 0xFFFF, 16, MOVZ_MOVK_IMM_16);
    (Z.land (Z.shiftr address 32) 0xFFFF, 32, MOVZ_MOVK_IMM_32);
    (Z.land (Z.shiftr address 48) 0xFFFF, 48, MOVZ_MOVK_IMM_48) ].

(** The loop over the chunks: zero chunks are skipped, the first one emitted is a MOVZ. *)
Fixpoint emit_chunks (xd symbol : string) (is_first_instruction : bool)
    (chunks : list (Z * Z * RelocationType)) : result (list Instruction) :=
  match chunks with
  | [] => Ok []
  | (chunk, shift, rel) :: rest =>
      if chunk =? 0 then emit_chunks xd symbol is_first_instruction rest
      else
        i ← (if is_first_instruction then create_movz_imm xd chunk shift rel symbol
             else create_movk_imm xd chunk shift rel symbol);
        instructions ← emit_chunks xd symbol false rest;
        Ok (i :: instructions)
  end.

Definition create_movz_movk_abs64 (xd : string) (address : Z) (symbol : string)
    : result (list Instruction) :=
  if address =? 0 then
    i ← create_movz_imm xd 0 0 MOVZ_MOVK_IMM_0 symbol; Ok [i]
  else emit_chunks xd symbol true (address_chunks address).

Definition create_movz_movk_jit_addr (xd : string) (address : Z) (symbol : string)
    : result (list Instruction) :=
  let chunk0 := Z.land (Z.shiftr address 0) 0xFFFF in
  let chunk1 := Z.land (Z.shiftr address 16) 0xFFFF in
  let chunk2 := Z.land (Z.shiftr address 32) 0xFFFF in
  let chunk3 := Z.land (Z.shiftr address 48) 0xFFFF in
  i0 ← create_movz_imm xd chunk0 0 NONE symbol;
  i1 ← create_movk_imm xd chunk1 16 NONE symbol;
  i2 ← create_movk_imm xd chunk2 32 NONE symbol;
  i3 ← create_movk_imm xd chunk3 48 NONE symbol;
  Ok [set_jit_attribute JitAddress i0; set_jit_attribute JitAddress i1;
      set_jit_attribute JitAddress i2; set_jit_attribute JitAddress i3].

(** ** Branches: the word with an empty displacement and the relocation that fills it *)

Lemma create_branch_unconditional_ok label :
  emits (create_branch_unconditional label) B PC_RELATIVE_26_BIT_OFFSET (Branch false 0)
  /\ target_label (create_branch_unconditional label) = label.
Proof. split; [|reflexivity]. apply emits_intro; [cbn; lia|reflexivity..]. Qed.

Lemma create_branch_with_link_ok label :
  emits (create_branch_with_link label) BL PC_RELATIVE_26_BIT_OFFSET (Branch true 0)
  /\ target_label (create_branch_with_link label) = label.
Proof. split; [|reflexivity]. apply emits_intro; [cbn; lia|reflexivity..]. Qed.

Lemma create_branch_conditional_ok c label :
  match get_condition_code c with
  | Ok cc =>
      exists i, create_branch_conditional c label = Ok i
        /\ emits i B_COND PC_RELATIVE_19_BIT_OFFSET (BranchCond 0 cc)
        /\ target_label i = label /\ cond i = stringToConditionCode c
  | Throw _ => create_branch_conditional c label = Throw invalid_argument
  end.
Proof.
  unfold create_branch_conditional. destruct (get_condition_code c) as [cc|] eqn:Ec.
  - apply get_condition_code_range in Ec. run_encoder. solve_emits.
  - apply get_condition_code_Throw in Ec. by subst.
Qed.

(** Branches to a register; a refused name throws. *)
Definition encodes_branch_reg (create : string -> result Instruction) (op : OpType)
    (shape : Z -> insn) : Prop :=
  forall xn,
  match parse_register_x 31 xn with
  | Ok (rn, _) =>
      exists i, create xn = Ok i /\ emits i op NONE (shape rn) /\ src_reg1 i = rn
  | Throw _ => create xn = Throw invalid_argument
  end.

Lemma parse_register_x_64 max s n b : parse_register_x max s = Ok (n, b) -> b = true.
Proof.
  unfold parse_register_x. intros H. repeat (case_match; try discriminate).
  inv_bind H. congruence.
Qed.

Ltac solve_branch_reg create :=
  let xn := fresh "xn" in let rn := fresh "rn" in let b := fresh "b" in
  intros xn; unfold create;
  split_parse (parse_register_x 31) xn rn b; [|reflexivity];
  match goal with E : parse_register_x _ _ = Ok _ |- _ =>
    rewrite (parse_register_x_64 _ _ _ _ E) end;
  run_encoder; solve_emits.

Lemma create_br_reg_ok : encodes_branch_reg create_br_reg BR BRr.
Proof. solve_branch_reg create_br_reg. Qed.
Lemma create_branch_with_link_register_ok :
  encodes_branch_reg create_branch_with_link_register BLR BLRr.
Proof. solve_branch_reg create_branch_with_link_register. Qed.

Lemma create_return_ok :
  exists i, create_return = Ok i /\ emits i RET NONE (RETr 30) /\ src_reg1 i = 30.
Proof. unfold create_return. run_encoder. solve_emits. Qed.

Definition encodes_cmp_branch (create : string -> string -> result Instruction)
    (op : OpType) (nz : bool) : Prop :=
  forall xt label,
  match get_reg_encoding xt with
  | Ok rt =>
      exists i, create xt label = Ok i
        /\ emits i op PC_RELATIVE_19_BIT_OFFSET (CmpBranch (is_x_name xt) nz 0 rt)
        /\ target_label i = label /\ src_reg1 i = rt
  | Throw _ => create xt label = Throw invalid_argument
  end.

Ltac solve_cmp_branch create :=
  let xt := fresh "xt" in let label := fresh "label" in let rt := fresh "rt" in
  intros xt label; unfold create;
  split_opt xt rt; [|reflexivity];
  destruct (is_x_name xt); run_encoder; solve_emits.

Lemma opt_create_cbz_ok : encodes_cmp_branch opt_create_cbz CBZ false.
Proof. solve_cmp_branch opt_create_cbz. Qed.
Lemma opt_create_cbnz_ok : encodes_cmp_branch opt_create_cbnz CBNZ true.
Proof. solve_cmp_branch opt_create_cbnz. Qed.

(** ** Addresses *)

Lemma create_adrp_ok xd label :
  match parse_register_x 30 xd with
  | Ok (rd, _) =>
      exists i, create_adrp xd label = Ok i
        /\ emits i ADRP PAGE_21_BIT_PC_RELATIVE (PCRel true 0 0 rd)
        /\ target_label i = label /\ dest_reg i = rd
  | Throw _ => create_adrp xd label = Throw invalid_argument
  end.
Proof.
  unfold create_adrp. split_parse (parse_register_x 30) xd rd b; [|reflexivity].
  pose proof (parse_register_x_64 _ _ _ _ E). subst b. run_encoder. solve_emits.
Qed.

Lemma create_add_literal_ok xd xn label :
  match parse_register_add_literal xd, parse_register_add_literal xn with
  | Ok (rd, _), Ok (rn, _) =>
      exists i, create_add_literal xd xn label = Ok i
        /\ emits i ADD ADD_12_BIT_UNSIGNED_OFFSET (ADDi true rd rn 0)
        /\ target_label i = label /\ dest_reg i = rd /\ src_reg1 i = rn
  | _, _ => create_add_literal xd xn label = Throw invalid_argument
  end.
Proof.
  unfold create_add_literal.
  split_parse parse_register_add_literal xd rd a; [|reflexivity].
  split_parse parse_register_add_literal xn rn b; [|reflexivity].
  apply parse_register_add_literal_Ok in E as (_ & _ & ->).
  apply parse_register_add_literal_Ok in E0 as (_ & _ & ->).
  run_encoder. solve_emits.
Qed.

(** ADR: register 0 is encoded whatever the destination, and the relocation asked for is
    the page relocation of ADRP. *)
Lemma create_adr_emits xd label :
  match get_reg_encoding xd with
  | Ok rd =>
      exists i, create_adr xd label = Ok i
        /\ emits i ADR PAGE_21_BIT_PC_RELATIVE (PCRel false 0 0 0)
        /\ target_label i = label /\ dest_reg i = rd
  | Throw _ => create_adr xd label = Throw invalid_argument
  end.
Proof.
  unfold create_adr. split_opt xd rd; [|reflexivity].
  eexists. split; [reflexivity|]. split; [|by split].
  apply emits_intro; instr_fields; [lia|reflexivity..].
Qed.

Lemma create_mov_fp_sp_ok :
  exists i, create_mov_fp_sp = Ok i /\ emits i MOV NONE (ADDi true 29 31 0).
Proof. unfold create_mov_fp_sp. run_encoder. eexists. split; [reflexivity|].
  apply emits_intro; instr_fields; [solve_word_range|reflexivity..]. Qed.
Lemma create_mov_sp_fp_ok :
  exists i, create_mov_sp_fp = Ok i /\ emits i MOV NONE (ADDi true 31 29 0).
Proof. unfold create_mov_sp_fp. run_encoder. eexists. split; [reflexivity|].
  apply emits_intro; instr_fields; [solve_word_range|reflexivity..]. Qed.

(** ** System *)

Lemma create_nop_ok : emits create_nop NOP NONE NOPi.
Proof. apply emits_intro; [cbn; lia|reflexivity..]. Qed.

(** The word commented as [DMB ISH] has option 11 (the inner-shareable domain) but
    operation 7, which is not DMB. *)
Lemma create_dmb_emits : decode (encoding create_dmb) = None /\ opcode create_dmb = DMB.
Proof. by split. Qed.

Lemma create_brk_ok imm :
  0 <= imm < 2 ^ 16 ->
  exists i, create_brk imm = Ok i /\ emits i BRK NONE (Brk imm) /\ immediate i = imm.
Proof. intros H. unfold create_brk. run_encoder. solve_emits. Qed.

Lemma create_svc_imm_ok imm :
  0 <= imm < 2 ^ 16 ->
  emits (create_svc_imm imm) SVC NONE (Svc imm) /\ immediate (create_svc_imm imm) = imm.
Proof.
  intros H. split; [|reflexivity]. unfold create_svc_imm.
  change 0xFFFF with (Z.ones 16). rewrite Z.land_ones, Z.mod_small by lia.
  rewrite (u32_shiftl imm 5 16) by first [reflexivity | lia].
  rewrite (lor_shiftl_patch _ imm 5 16) by first [reflexivity | lia].
  apply emits_intro; instr_fields; [solve_word_range|decode_word; reflexivity|reflexivity..].
Qed.
