(* ===== verification/EncFloat.v ===== *)
(** * Floating-point and vector encoders

    The scalar double-precision and the vector encoders of src/encoders, as in [EncArith].
    They read their registers with the shared helper, which accepts a name of any class:
    the lemmas say which word results from every combination of names.  The vector forms
    and FSUB, FCVTMS have base words that are not the ones they are named after; the lemmas
    ending in [_emits] state what is emitted. *)

From S2P Require Import Prelude Words A64 Instr EncReg EncSpec.
Local Open Scope Z_scope.

Definition create_fadd_reg (dd dn dm : string) : result Instruction :=
  rd ← get_reg_encoding dd;
  rn ← get_reg_encoding dn;
  rm ← get_reg_encoding dm;
  let encoding :=
    Z.lor (Z.lor (Z.lor 0x1E602800 (u32 (Z.shiftl rm 16))) (u32 (Z.shiftl rn 5))) rd in
  let assembly_text := ("FADD " ++ dd ++ ", " ++ dn ++ ", " ++ dm)%string in
  let instr := set_opcode FADD (Instruction_new encoding assembly_text) in
  d ← get_reg_encoding dd;
  let instr := set_dest_reg d instr in
  s1 ← get_reg_encoding dn;
  let instr := set_src_reg1 s1 instr in
  s2 ← get_reg_encoding dm;
  let instr := set_src_reg2 s2 instr in
  Ok instr.

Definition create_fsub_reg (dd dn dm : string) : result Instruction :=
  rd ← get_reg_encoding dd;
  rn ← get_reg_encoding dn;
  rm ← get_reg_encoding dm;
  let patcher := 0x1E203800 in
  patcher ← patch patcher rm 16 5;
  patcher ← patch patcher rn 5 5;
  patcher ← patch patcher rd 0 5;
  let assembly_text := ("FSUB " ++ dd ++ ", " ++ dn ++ ", " ++ dm)%string in
  let instr := set_opcode FSUB (Instruction_new patcher assembly_text) in
  d ← get_reg_encoding dd;
  let instr := set_dest_reg d instr in
  s1 ← get_reg_encoding dn;
  let instr := set_src_reg1 s1 instr in
  s2 ← get_reg_encoding dm;
  let instr := set_src_reg2 s2 instr in
  Ok instr.

Definition create_fmul_reg (dd dn dm : string) : result Instruction :=
  rd ← get_reg_encoding dd;
  rn ← get_reg_encoding dn;
  rm ← get_reg_encoding dm;
  let patcher := 0x1E600800 in
  patcher ← patch patcher rm 16 5;
  patcher ← patch patcher rn 5 5;
  patcher ← patch patcher rd 0 5;
  let assembly_text := ("FMUL " ++ dd ++ ", " ++ dn ++ ", " ++ dm)%string in
  let instr := set_opcode FMUL (Instruction_new patcher assembly_text) in
  d ← get_reg_encoding dd;
  let instr := set_dest_reg d instr in
  s1 ← get_reg_encoding dn;
  let instr := set_src_reg1 s1 instr in
  s2 ← get_reg_encoding dm;
  let instr := set_src_reg2 s2 instr in
  Ok instr.

Definition create_fdiv_reg (dd dn dm : string) : result Instruction :=
  rd ← get_reg_encoding dd;
  rn ← get_reg_encoding dn;
  rm ← get_reg_encoding dm;
  let encoding :=
    Z.lor (Z.lor (Z.lor 0x1E601800 (u32 (Z.shiftl rm 16))) (u32 (Z.shiftl rn 5))) rd in
  let assembly_text := ("FDIV " ++ dd ++ ", " ++ dn ++ ", " ++ dm)%string in
  let instr := set_opcode FDIV (Instruction_new encoding assembly_text) in
  d ← get_reg_encoding dd;
  let instr := set_dest_reg d instr in
  s1 ← get_reg_encoding dn;
  let instr := set_src_reg1 s1 instr in
  s2 ← get_reg_encoding dm;
  let instr := set_src_reg2 s2 instr in
  Ok instr.

Definition create_fcmp_reg (dn dm : string) : result Instruction :=
  rn ← get_reg_encoding dn;
  rm ← get_reg_encoding dm;
  let encoding := Z.lor (Z.lor 0x1E602008 (u32 (Z.shiftl rm 16))) (u32 (Z.shiftl rn 5)) in
  let assembly_text := ("FCMP " ++ dn ++ ", " ++ dm)%string in
  let instr := set_opcode FCMP (Instruction_new encoding assembly_text) in
  s1 ← get_reg_encoding dn;
  let instr := set_src_reg1 s1 instr in
  s2 ← get_reg_encoding dm;
  let instr := set_src_reg2 s2 instr in
  Ok instr.

Definition create_scvtf_reg (dd xn : string) : result Instruction :=
  rd ← get_reg_encoding dd;
  rn ← get_reg_encoding xn;
  let patcher := 0x9E620000 in
  patcher ← patch patcher rn 5 5;
  patcher ← patch patcher rd 0 5;
  let assembly_text := ("SCVTF " ++ dd ++ ", " ++ xn)%string in
  let instr := set_opcode SCVTF (Instruction_new patcher assembly_text) in
  d ← get_reg_encoding dd;
  let instr := set_dest_reg d instr in
  s1 ← get_reg_encoding xn;
  let instr := set_src_reg1 s1 instr in
  Ok instr.

Definition create_fcvtzs_reg (xd dn : string) : result Instruction :=
  rd ← get_reg_encoding xd;
  rn ← get_reg_encoding dn;
  let encoding := Z.lor (Z.lor 0x9E780000 (u32 (Z.shiftl rn 5))) rd in
  let assembly_text := ("FCVTZS " ++ xd ++ ", " ++ dn)%string in
  let instr := set_opcode FCVTZS (Instruction_new encoding assembly_text) in
  d ← get_reg_encoding xd;
  let instr := set_dest_reg d instr in
  s1 ← get_reg_encoding dn;
  let instr := set_src_reg1 s1 instr in
  Ok instr.

Definition create_fcvtms_reg (xd dn : string) : result Instruction :=
  rd ← get_reg_encoding xd;
  rn ← get_reg_encoding dn;
  let patcher := 0x9E780000 in
  patcher ← patch patcher rn 5 5;
  patcher ← patch patcher rd 0 5;
  let assembly_text := ("FCVTMS " ++ xd ++ ", " ++ dn)%string in
  let instr := set_opcode FCVTMS (Instruction_new patcher assembly_text) in
  d ← get_reg_encoding xd;
  let instr := set_dest_reg d instr in
  s1 ← get_reg_encoding dn;
  let instr := set_src_reg1 s1 instr in
  Ok instr.

Definition create_fneg_reg (dd dn : string) : result Instruction :=
  rd ← get_reg_encoding dd;
  rn ← get_reg_encoding dn;
  let patcher := 0x1E614000 in
  patcher ← patch patcher rn 5 5;
  patcher ← patch patcher rd 0 5;
  let assembly_text := ("FNEG " ++ dd ++ ", " ++ dn)%string in
  let instr := set_opcode FMOV (Instruction_new patcher assembly_text) in
  Ok (set_src_reg1 rn (set_dest_reg rd instr)).

Definition create_fsqrt_reg (dd dn : string) : result Instruction :=
  rd ← get_reg_encoding dd;
  rn ← get_reg_encoding dn;
  let patcher := 0x1E61C000 in
  patcher ← patch patcher rn 5 5;
  patcher ← patch patcher rd 0 5;
  let assembly_text := ("FSQRT " ++ dd ++ ", " ++ dn)%string in
  let instr := set_opcode FSQRT (Instruction_new patcher assembly_text) in
  Ok (set_src_reg1 (rn + 32) (set_dest_reg (rd + 32) instr)).

(** The lambda of [create_fmov_reg]: upper-case [D] only, [-1] for anything else. *)
Definition parse_d_reg (reg : string) : Z :=
  if (Z.of_nat (String.length reg) <? 2) || negb (Ascii.eqb (front reg) "D"%char) then -1
  else match stoi (substr1 reg) with Ok v => v | Throw _ => -1 end.

Definition create_fmov_reg (dd ds : string) : result Instruction :=
  let d_dst := parse_d_reg dd in
  let d_src := parse_d_reg ds in
  if (d_dst <? 0) || (31 <? d_dst) || (d_src <? 0) || (31 <? d_src) then Throw runtime_error
  else
    let patcher := 0x1E604000 in
    patcher ← patch patcher d_src 5 5;
    patcher ← patch patcher d_dst 0 5;
    let instr := set_opcode FMOV (Instruction_new patcher ("FMOV " ++ dd ++ ", " ++ ds)%string) in
    d ← get_reg_encoding dd;
    let instr := set_dest_reg d instr in
    s1 ← get_reg_encoding ds;
    let instr := set_src_reg1 s1 instr in
    Ok instr.

(** [vd.empty() ? ' ' : std::toupper(vd[0])] *)
Definition reg_prefix (v : string) : Ascii.ascii :=
  if string_empty v then " "%char else toupper (front v).

Definition opt_create_fmadd (vd vn vm va : string) : result Instruction :=
  let vd_prefix := reg_prefix vd in
  let vn_prefix := reg_prefix vn in
  let vm_prefix := reg_prefix vm in
  let va_prefix := reg_prefix va in
  if negb (Ascii.eqb vd_prefix vn_prefix) || negb (Ascii.eqb vn_prefix vm_prefix)
     || negb (Ascii.eqb vm_prefix va_prefix) then Throw invalid_argument
  else if negb (Ascii.eqb vd_prefix "S"%char) && negb (Ascii.eqb vd_prefix "D"%char)
  then Throw invalid_argument
  else
    let is_double := Ascii.eqb vd_prefix "D"%char in
    vd_num ← get_reg_encoding vd;
    vn_num ← get_reg_encoding vn;
    vm_num ← get_reg_encoding vm;
    va_num ← get_reg_encoding va;
    let patcher := 0x1F000000 in
    patcher ← (if is_double then patch patcher 1 22 2 else Ok patcher);
    patcher ← patch patcher vm_num 16 5;
    patcher ← patch patcher va_num 10 5;
    patcher ← patch patcher vn_num 5 5;
    patcher ← patch patcher vd_num 0 5;
    let assembly_text := ("FMADD " ++ vd ++ ", " ++ vn ++ ", " ++ vm ++ ", " ++ va)%string in
    let instr := set_opcode FMADD (Instruction_new patcher assembly_text) in
    d ← get_reg_encoding vd;
    let instr := set_dest_reg d instr in
    s1 ← get_reg_encoding vn;
    let instr := set_src_reg1 s1 instr in
    s2 ← get_reg_encoding vm;
    let instr := set_src_reg2 s2 instr in
    r ← get_reg_encoding va;
    Ok (set_ra_reg r instr).

Definition opt_create_fmsub (vd vn vm va : string) : result Instruction :=
  let vd_prefix := reg_prefix vd in
  let vn_prefix := reg_prefix vn in
  let vm_prefix := reg_prefix vm in
  let va_prefix := reg_prefix va in
  if negb (Ascii.eqb vd_prefix vn_prefix) || negb (Ascii.eqb vn_prefix vm_prefix)
     || negb (Ascii.eqb vm_prefix va_prefix) then Throw invalid_argument
  else if negb (Ascii.eqb vd_prefix "S"%char) && negb (Ascii.eqb vd_prefix "D"%char)
  then Throw invalid_argument
  else
    let is_double := Ascii.eqb vd_prefix "D"%char in
    vd_num ← get_reg_encoding vd;
    vn_num ← get_reg_encoding vn;
    vm_num ← get_reg_encoding vm;
    va_num ← get_reg_encoding va;
    let patcher := 0x1F008000 in
    patcher ← (if is_double then patch patcher 1 22 2 else Ok patcher);
    patcher ← patch patcher vm_num 16 5;
    patcher ← patch patcher va_num 10 5;
    patcher ← patch patcher vn_num 5 5;
    patcher ← patch patcher vd_num 0 5;
    let assembly_text := ("FMSUB " ++ vd ++ ", " ++ vn ++ ", " ++ vm ++ ", " ++ va)%string in
    let instr := set_opcode FMSUB (Instruction_new patcher assembly_text) in
    d ← get_reg_encoding vd;
    let instr := set_dest_reg d instr in
    s1 ← get_reg_encoding vn;
    let instr := set_src_reg1 s1 instr in
    s2 ← get_reg_encoding vm;
    let instr := set_src_reg2 s2 instr in
    r ← get_reg_encoding va;
    Ok (set_ra_reg r instr).

Definition create_fadd_vector_reg (vd vn vm arrangement : string) : result Instruction :=
  rd ← get_reg_encoding vd;
  rn ← get_reg_encoding vn;
  rm ← get_reg_encoding vm;
  let encoding :=
    Z.lor (Z.lor (Z.lor 0x4E208400 (u32 (Z.shiftl rm 16))) (u32 (Z.shiftl rn 5))) rd in
  encoding ← (if String.eqb arrangement "4S" then Ok (Z.lor encoding (Z.shiftl 1 22))
              else if String.eqb arrangement "2D" then Ok (Z.lor encoding (Z.shiftl 2 22))
              else Throw runtime_error);
  let assembly_text :=
    ("FADD " ++ vd ++ "." ++ arrangement ++ ", " ++ vn ++ "." ++ arrangement ++ ", " ++ vm
       ++ "." ++ arrangement)%string in
  let instr := set_opcode FADD_VECTOR (Instruction_new encoding assembly_text) in
  d ← get_reg_encoding vd;
  let instr := set_dest_reg d instr in
  s1 ← get_reg_encoding vn;
  let instr := set_src_reg1 s1 instr in
  s2 ← get_reg_encoding vm;
  let instr := set_src_reg2 s2 instr in
  Ok instr.

Definition create_fmul_vector_reg (vd vn vm arrangement : string) : result Instruction :=
  rd ← get_reg_encoding vd;
  rn ← get_reg_encoding vn;
  rm ← get_reg_encoding vm;
  let encoding :=
    Z.lor (Z.lor (Z.lor 0x4E209000 (u32 (Z.shiftl rm 16))) (u32 (Z.shiftl rn 5))) rd in
  let assembly_text :=
    ("FMUL " ++ vd ++ "." ++ arrangement ++ ", " ++ vn ++ "." ++ arrangement ++ ", " ++ vm
       ++ "." ++ arrangement)%string in
  let instr := set_opcode FMUL_VECTOR (Instruction_new encoding assembly_text) in
  d ← get_reg_encoding vd;
  let instr := set_dest_reg d instr in
  s1 ← get_reg_encoding vn;
  let instr := set_src_reg1 s1 instr in
  s2 ← get_reg_encoding vm;
  let instr := set_src_reg2 s2 instr in
  Ok instr.

Definition create_fmla_vector_reg (vd vn vm arrangement : string) : result Instruction :=
  rd ← get_reg_encoding vd;
  rn ← get_reg_encoding vn;
  rm ← get_reg_encoding vm;
  let encoding :=
    Z.lor (Z.lor (Z.lor 0x4E208000 (u32 (Z.shiftl rm 16))) (u32 (Z.shiftl rn 5))) rd in
  let assembly_text :=
    ("FMLA " ++ vd ++ "." ++ arrangement ++ ", " ++ vn ++ "." ++ arrangement ++ ", " ++ vm
       ++ "." ++ arrangement)%string in
  let instr := set_opcode FMLA_VECTOR (Instruction_new encoding assembly_text) in
  d ← get_reg_encoding vd;
  let instr := set_dest_reg d instr in
  s1 ← get_reg_encoding vn;
  let instr := set_src_reg1 s1 instr in
  s2 ← get_reg_encoding vm;
  let instr := set_src_reg2 s2 instr in
  Ok instr.

Definition create_add_vector_reg (vd vn vm arrangement : string) : result Instruction :=
  rd ← get_reg_encoding vd;
  rn ← get_reg_encoding vn;
  rm ← get_reg_encoding vm;
  let encoding :=
    Z.lor (Z.lor (Z.lor 0x4E208000 (u32 (Z.shiftl rm 16))) (u32 (Z.shiftl rn 5))) rd in
  let assembly_text :=
    ("ADD " ++ vd ++ "." ++ arrangement ++ ", " ++ vn ++ "." ++ arrangement ++ ", " ++ vm
       ++ "." ++ arrangement)%string in
  let instr := set_opcode ADD_VECTOR (Instruction_new encoding assembly_text) in
  d ← get_reg_encoding vd;
  let instr := set_dest_reg d instr in
  s1 ← get_reg_encoding vn;
  let instr := set_src_reg1 s1 instr in
  s2 ← get_reg_encoding vm;
  let instr := set_src_reg2 s2 instr in
  Ok instr.

Definition create_mul_vector_reg (vd vn vm arrangement : string) : result Instruction :=
  rd ← get_reg_encoding vd;
  rn ← get_reg_encoding vn;
  rm ← get_reg_encoding vm;
  let encoding :=
    Z.lor (Z.lor (Z.lor 0x4E209C00 (u32 (Z.shiftl rm 16))) (u32 (Z.shiftl rn 5))) rd in
  let assembly_text :=
    ("MUL " ++ vd ++ "." ++ arrangement ++ ", " ++ vn ++ "." ++ arrangement ++ ", " ++ vm
       ++ "." ++ arrangement)%string in
  let instr := set_opcode MUL_VECTOR (Instruction_new encoding assembly_text) in
  d ← get_reg_encoding vd;
  let instr := set_dest_reg d instr in
  s1 ← get_reg_encoding vn;
  let instr := set_src_reg1 s1 instr in
  s2 ← get_reg_encoding vm;
  let instr := set_src_reg2 s2 instr in
  Ok instr.

Definition create_ld1_vector_reg (vt xn arrangement : string) : result Instruction :=
  rt ← get_reg_encoding vt;
  rn ← get_reg_encoding xn;
  let encoding := Z.lor (Z.lor 0x4C40CC00 (u32 (Z.shiftl rn 5))) rt in
  let assembly_text :=
    ("LD1 {" ++ vt ++ "." ++ arrangement ++ "}, [" ++ xn ++ "]")%string in
  let instr := set_opcode LD1_VECTOR (Instruction_new encoding assembly_text) in
  d ← get_reg_encoding vt;
  let instr := set_dest_reg d instr in
  b ← get_reg_encoding xn;
  Ok (set_is_mem_op true (set_base_reg b instr)).

(** ** Scalar forms *)

(** Any three names the helper knows. *)
Definition encodes_fff (create : string -> string -> string -> result Instruction)
    (op : OpType) (shape : Z -> Z -> Z -> insn) : Prop :=
  forall dd dn dm,
  match get_reg_encoding dd, get_reg_encoding dn, get_reg_encoding dm with
  | Ok rd, Ok rn, Ok rm =>
      exists i, create dd dn dm = Ok i /\ emits i op NONE (shape rd rn rm)
        /\ dest_reg i = rd /\ src_reg1 i = rn /\ src_reg2 i = rm
  | _, _, _ => create dd dn dm = Throw invalid_argument
  end.

(** Two names; [regs] is how the semantic fields are derived from the numbers. *)
Definition encodes_ff (create : string -> string -> result Instruction)
    (op : OpType) (regs : Instruction -> Z * Z) (shape : Z -> Z -> insn) : Prop :=
  forall dd dn,
  match get_reg_encoding dd, get_reg_encoding dn with
  | Ok rd, Ok rn =>
      exists i, create dd dn = Ok i /\ emits i op NONE (shape rd rn) /\ regs i = (rd, rn)
  | _, _ => create dd dn = Throw invalid_argument
  end.

Ltac solve_fff create :=
  let dd := fresh "dd" in let dn := fresh "dn" in let dm := fresh "dm" in
  let rd := fresh "rd" in let rn := fresh "rn" in let rm := fresh "rm" in
  intros dd dn dm; unfold create;
  split_opt dd rd; [|reflexivity]; split_opt dn rn; [|reflexivity];
  split_opt dm rm; [|reflexivity];
  run_encoder; repeat or_to_patch 5; solve_emits.

Ltac solve_ff create :=
  let dd := fresh "dd" in let dn := fresh "dn" in
  let rd := fresh "rd" in let rn := fresh "rn" in
  intros dd dn; unfold create;
  split_opt dd rd; [|reflexivity]; split_opt dn rn; [|reflexivity];
  run_encoder; repeat or_to_patch 5; solve_emits.

Lemma create_fadd_reg_ok : encodes_fff create_fadd_reg FADD FADDd.
Proof. solve_fff create_fadd_reg. Qed.
Lemma create_fmul_reg_ok : encodes_fff create_fmul_reg FMUL FMULd.
Proof. solve_fff create_fmul_reg. Qed.
Lemma create_fdiv_reg_ok : encodes_fff create_fdiv_reg FDIV FDIVd.
Proof. solve_fff create_fdiv_reg. Qed.
(** FSUB: the type field is that of single precision. *)
Lemma create_fsub_reg_emits :
  encodes_fff create_fsub_reg FSUB (fun rd rn rm => FPDP2 0 rm 3 rn rd).
Proof. solve_fff create_fsub_reg. Qed.

Lemma create_scvtf_reg_ok :
  encodes_ff create_scvtf_reg SCVTF (fun i => (dest_reg i, src_reg1 i)) SCVTFd.
Proof. solve_ff create_scvtf_reg. Qed.
Lemma create_fcvtzs_reg_ok :
  encodes_ff create_fcvtzs_reg FCVTZS (fun i => (dest_reg i, src_reg1 i)) FCVTZSd.
Proof. solve_ff create_fcvtzs_reg. Qed.
Lemma create_fneg_reg_ok :
  encodes_ff create_fneg_reg FMOV (fun i => (dest_reg i, src_reg1 i)) FNEGd.
Proof. solve_ff create_fneg_reg. Qed.
(** FCVTMS (round towards minus infinity) is emitted as FCVTZS (round towards zero). *)
Lemma create_fcvtms_reg_emits :
  encodes_ff create_fcvtms_reg FCVTMS (fun i => (dest_reg i, src_reg1 i)) FCVTZSd.
Proof. solve_ff create_fcvtms_reg. Qed.
(** The semantic registers of FSQRT are offset by 32; no other encoder does this. *)
Lemma create_fsqrt_reg_ok :
  encodes_ff create_fsqrt_reg FSQRT (fun i => (dest_reg i - 32, src_reg1 i - 32)) FSQRTd.
Proof.
  intros dd dn. unfold create_fsqrt_reg.
  split_opt dd rd; [|reflexivity]. split_opt dn rn; [|reflexivity].
  run_encoder. eexists. split; [reflexivity|]. split.
  - apply emits_intro; instr_fields; [solve_word_range|decode_word; reflexivity|reflexivity..].
  - instr_fields. f_equal; lia.
Qed.
(** FCMP: the base word has the operation of the comparison with zero, so the second
    register is ignored by the machine. *)
Lemma create_fcmp_reg_emits :
  encodes_ff create_fcmp_reg FCMP (fun i => (src_reg1 i, src_reg2 i))
    (fun rn rm => FPCmp 1 rm rn 8).
Proof. solve_ff create_fcmp_reg. Qed.

(** FMOV accepts [D0] to [D31] only, in upper case. *)
Lemma parse_d_reg_encoding s :
  0 <= parse_d_reg s <= 31 -> get_reg_encoding s = Ok (parse_d_reg s).
Proof.
  unfold parse_d_reg. destruct (Z.of_nat (String.length s) <? 2) eqn:El; cbn; [lia|].
  destruct s as [|c s]; [cbn; lia|]. cbn [front].
  destruct (Ascii.eqb_spec c "D"%char) as [->|]; cbn [negb]; [|lia].
  cbn [substr1]. destruct (stoi s) as [v|] eqn:Ev; [|lia]. intros Hv.
  apply stoi_stoul in Ev. rewrite Z.mod_small in Ev by lia.
  unfold get_reg_encoding. cbn [string_empty lower string_map substr1 front].
  change (tolower "D"%char) with "d"%char.
  change (string_map tolower s) with (lower s). rewrite stoul_lower, Ev.
  replace (String.eqb (String "d" (lower s)) _) with false by reflexivity.
  cbn. rewrite u32_small by lia. by replace (31 <? v) with false by lia.
Qed.

Lemma create_fmov_reg_ok dd ds :
  let rd := parse_d_reg dd in let rn := parse_d_reg ds in
  if (0 <=? rd) && (rd <=? 31) && (0 <=? rn) && (rn <=? 31) then
    exists i, create_fmov_reg dd ds = Ok i /\ emits i FMOV NONE (FMOVd rd rn)
      /\ dest_reg i = rd /\ src_reg1 i = rn
  else create_fmov_reg dd ds = Throw runtime_error.
Proof.
  cbn zeta. unfold create_fmov_reg. destruct ((0 <=? _) && _ && _ && _) eqn:E.
  - bool_to_prop.
    pose proof (parse_d_reg_encoding dd ltac:(lia)). pose proof (parse_d_reg_encoding ds ltac:(lia)).
    replace ((_ <? 0) || _ || _ || _) with false by lia.
    revert H3 H4. generalize dependent (parse_d_reg dd). generalize dependent (parse_d_reg ds).
    intros rn ?? rd ?? Hd Hn. run_encoder. solve_emits.
  - by replace ((_ <? 0) || _ || _ || _) with true by lia.
Qed.

(** Fused multiply-add: the four names must have the same first letter, [S] or [D]. *)
Definition fma_prefixes_ok (vd vn vm va : string) : bool :=
  Ascii.eqb (reg_prefix vd) (reg_prefix vn) && Ascii.eqb (reg_prefix vn) (reg_prefix vm)
  && Ascii.eqb (reg_prefix vm) (reg_prefix va)
  && (Ascii.eqb (reg_prefix vd) "S"%char || Ascii.eqb (reg_prefix vd) "D"%char).

Definition encodes_fma (create : string -> string -> string -> string -> result Instruction)
    (op : OpType) (shape : Z -> Z -> Z -> Z -> Z -> insn) : Prop :=
  forall vd vn vm va,
  match get_reg_encoding vd, get_reg_encoding vn, get_reg_encoding vm,
        get_reg_encoding va with
  | Ok d, Ok n, Ok m, Ok a =>
      if fma_prefixes_ok vd vn vm va then
        exists i, create vd vn vm va = Ok i
          /\ emits i op NONE (shape (if Ascii.eqb (reg_prefix vd) "D"%char then 1 else 0) d n m a)
          /\ dest_reg i = d /\ src_reg1 i = n /\ src_reg2 i = m /\ ra_reg i = a
      else create vd vn vm va = Throw invalid_argument
  | _, _, _, _ => create vd vn vm va = Throw invalid_argument
  end.

Ltac solve_fma create :=
  let vd := fresh "vd" in let vn := fresh "vn" in let vm := fresh "vm" in
  let va := fresh "va" in
  let d := fresh "d" in let n := fresh "n" in let m := fresh "m" in let a := fresh "a" in
  intros vd vn vm va; unfold create, fma_prefixes_ok;
  destruct (Ascii.eqb (reg_prefix vd) (reg_prefix vn)),
    (Ascii.eqb (reg_prefix vn) (reg_prefix vm)), (Ascii.eqb (reg_prefix vm) (reg_prefix va)),
    (Ascii.eqb (reg_prefix vd) "S"%char), (Ascii.eqb (reg_prefix vd) "D"%char);
  cbn [negb andb orb];
  (split_opt vd d; [|reflexivity]); (split_opt vn n; [|reflexivity]);
  (split_opt vm m; [|reflexivity]); (split_opt va a; [|reflexivity]);
  run_encoder; try reflexivity; solve_emits.

Lemma opt_create_fmadd_ok :
  encodes_fma opt_create_fmadd FMADD (fun ty d n m a => FPDP3 ty 0 m 0 a n d).
Proof. solve_fma opt_create_fmadd. Qed.
Lemma opt_create_fmsub_ok :
  encodes_fma opt_create_fmsub FMSUB (fun ty d n m a => FPDP3 ty 0 m 1 a n d).
Proof. solve_fma opt_create_fmsub. Qed.

(** The single-precision half of that check is dead: the helper knows no [S] register, only
    [sp] has that letter. *)
Lemma get_reg_encoding_S v :
  reg_prefix v = "S"%char -> get_reg_encoding v = Throw invalid_argument \/ lower v = "sp".
Proof.
  unfold reg_prefix, get_reg_encoding. destruct (string_empty v) eqn:Ev; [discriminate|].
  destruct v as [|c v]; [discriminate|]. cbn [front lower string_map]. intros Hc.
  assert (tolower c = "s"%char) as ->.
  { apply code_inj. rewrite code_tolower. unfold toupper, islower, isupper in *.
    destruct ((97 <=? code c) && (code c <=? 122)) eqn:E.
    - apply (f_equal code) in Hc. bool_to_prop. rewrite code_char_of in Hc by lia.
      change (code "S"%char) with 83 in Hc. change (code "s"%char) with 115.
      case_match; bool_to_prop; lia.
    - subst c. reflexivity. }
  destruct (String.eqb (String "s" _) "sp") eqn:E; [right; by apply String.eqb_eq|].
  left. cbn. reflexivity.
Qed.

(** ** Vector forms *)

Definition encodes_vvv (create : string -> string -> string -> string -> result Instruction)
    (op : OpType) (word : Z) (arr : string) : Prop :=
  forall vd vn vm,
  match get_reg_encoding vd, get_reg_encoding vn, get_reg_encoding vm with
  | Ok rd, Ok rn, Ok rm =>
      exists i, create vd vn vm arr = Ok i
        /\ encoding i = patch_word (patch_word (patch_word word rm 16 5) rn 5 5) rd 0 5
        /\ opcode i = op /\ dest_reg i = rd /\ src_reg1 i = rn /\ src_reg2 i = rm
  | _, _, _ => create vd vn vm arr = Throw invalid_argument
  end.

Ltac solve_vvv create :=
  let dd := fresh "dd" in let dn := fresh "dn" in let dm := fresh "dm" in
  let rd := fresh "rd" in let rn := fresh "rn" in let rm := fresh "rm" in
  intros dd dn dm; unfold create;
  split_opt dd rd; [|reflexivity]; split_opt dn rn; [|reflexivity];
  split_opt dm rm; [|reflexivity];
  run_encoder; repeat or_to_patch 5;
  eexists; split; [reflexivity|]; instr_fields; auto 10.

(** ADD and FMLA are emitted as the same word, which is neither: bit 10, set in every
    three-same instruction, is clear. *)
Lemma create_add_vector_reg_emits arr :
  encodes_vvv create_add_vector_reg ADD_VECTOR 0x4E208000 arr.
Proof. solve_vvv create_add_vector_reg. Qed.
Lemma create_fmla_vector_reg_emits arr :
  encodes_vvv create_fmla_vector_reg FMLA_VECTOR 0x4E208000 arr.
Proof. solve_vvv create_fmla_vector_reg. Qed.
Lemma create_fmul_vector_reg_emits arr :
  encodes_vvv create_fmul_vector_reg FMUL_VECTOR 0x4E209000 arr.
Proof. solve_vvv create_fmul_vector_reg. Qed.

(** MUL ignores its arrangement: sixteen bytes. *)
Lemma create_mul_vector_reg_emits arr :
  encodes_fff (fun vd vn vm => create_mul_vector_reg vd vn vm arr) MUL_VECTOR
    (fun rd rn rm => SIMD3Same 1 0 0 rm 19 rn rd).
Proof. solve_fff create_mul_vector_reg. Qed.

(** FADD is emitted as the integer ADD, with the element size of the arrangement's number
    halved: [8H] for [4S] and [4S] for [2D]. *)
Lemma create_fadd_vector_reg_emits :
  encodes_fff (fun vd vn vm => create_fadd_vector_reg vd vn vm "4S") FADD_VECTOR
    (fun rd rn rm => SIMD3Same 1 0 1 rm 16 rn rd)
  /\ encodes_fff (fun vd vn vm => create_fadd_vector_reg vd vn vm "2D") FADD_VECTOR
    (fun rd rn rm => SIMD3Same 1 0 2 rm 16 rn rd).
Proof.
  split; intros dd dn dm; unfold create_fadd_vector_reg.
  all: split_opt dd rd; [|reflexivity]; split_opt dn rn; [|reflexivity];
    split_opt dm rm; [|reflexivity]; cbn [String.eqb Ascii.eqb eqb];
    run_encoder; repeat or_to_patch 5.
  all: rewrite (lor_shiftl_patch _ _ 22 2);
    [|reflexivity|solve_word_range|read_zero|lia]; solve_emits.
Qed.

Lemma create_ld1_vector_reg_emits vt xn arr :
  match get_reg_encoding vt, get_reg_encoding xn with
  | Ok rt, Ok rn =>
      exists i, create_ld1_vector_reg vt xn arr = Ok i
        /\ emits i LD1_VECTOR NONE (SIMDLdStMult 1 1 12 3 rn rt)
        /\ dest_reg i = rt /\ base_reg i = rn /\ is_mem_op i = true
  | _, _ => create_ld1_vector_reg vt xn arr = Throw invalid_argument
  end.
Proof.
  unfold create_ld1_vector_reg. split_opt vt rt; [|reflexivity].
  split_opt xn rn; [|reflexivity]. run_encoder. repeat or_to_patch 5. solve_emits.
Qed.
