(* ===== verification/Encoders.v ===== *)
(** * Properties of the encoders

    The theorems about src/encoders and src/BitPatcher.cpp, each over a family of encoders:
    the words that are right ([..._encode], for every combination of operand strings, the
    refused ones included) and the words that are not what the encoder's name says
    ([..._miscode]).  They collect the lemmas of the component files. *)

From S2P Require Import Prelude Words A64 Instr EncReg EncSpec EncArith EncMem EncBranch EncFloat.
Local Open Scope Z_scope.

(** ** Bit patcher and register names *)

(** [BitPatcher::patch] on a 32-bit word either writes the low bits of
    the value into the field and nothing else, or, when the field does not lie within the
    word, throws [std::out_of_range]. *)
Theorem patch_writes_field data value start num :
  0 <= data < 2 ^ 32 ->
  if (1 <=? num) && (0 <=? start) && (start <=? 31) && (start + num <=? 32) then
    exists w, patch data value start num = Ok w /\ 0 <= w < 2 ^ 32
      /\ bits w start num = value mod 2 ^ num
      /\ (forall i, 0 <= i < 32 -> ~ (start <= i < start + num) ->
            Z.testbit w i = Z.testbit data i)
  else patch data value start num = Throw out_of_range.
Proof.
  intros Hd. unfold patch. case_match eqn:E.
  - bool_to_prop.
    replace ((num <=? 0) || (32 <? num)) with false by lia.
    replace ((start <? 0) || (31 <? start)) with false by lia.
    replace (32 <? start + num) with false by lia.
    eexists. split; [reflexivity|]. split; [apply patch_word_range; lia|].
    split; [apply bits_patch_same; lia|].
    intros i Hi Hn. rewrite patch_word_testbit by lia.
    by replace ((start <=? i) && (i <? start + num)) with false by lia.
  - destruct ((num <=? 0) || (32 <? num)) eqn:E1; [done|].
    destruct ((start <? 0) || (31 <? start)) eqn:E2; [done|].
    destruct (32 <? start + num) eqn:E3; [done|]. bool_to_prop. lia.
Qed.

Lemma patch_writes_field_witness :
  exists w, patch 0x0B000000 7 16 5 = Ok w /\ 0 <= w < 2 ^ 32 /\ bits w 16 5 = 7 mod 2 ^ 5
    /\ (forall i, 0 <= i < 32 -> ~ (16 <= i < 16 + 5) ->
          Z.testbit w i = Z.testbit 0x0B000000 i).
Proof. apply (patch_writes_field 0x0B000000 7 16 5). lia. Defined.

(** The printed register names. *)
Definition x_name (n : Z) : string := ("X" ++ to_string n)%string.
Definition w_name (n : Z) : string := ("w" ++ to_string n)%string.

Lemma below_32 (P : Z -> Prop) :
  Forall P (Z.of_nat <$> seq 0 32) -> forall n, 0 <= n <= 31 -> P n.
Proof.
  rewrite list.Forall_forall. intros H n Hn. apply H. apply list_elem_of_fmap.
  exists (Z.to_nat n). split; [lia|]. apply elem_of_seq. lia.
Qed.

(** The names of the 31 registers (and of register 31 where it is
    admitted) are read back by every parser with their number and size, the parsers of the
    encoders give the same number as the shared helper, and a refused name is always
    reported as [std::invalid_argument]. *)
Theorem register_names_read :
  (forall n, 0 <= n <= 31 ->
     parse_register_31 (x_name n) = Ok (n, true) /\ parse_register_31 (w_name n) = Ok (n, false)
     /\ parse_register_zr (x_name n) = Ok (n, true)
     /\ parse_register_sp (w_name n) = Ok (n, false)
     /\ parse_register_30 (x_name n)
        = (if n <=? 30 then Ok (n, true) else Throw invalid_argument)
     /\ parse_register_mvn (w_name n) = Ok (n, false)
     /\ get_reg_encoding (x_name n) = Ok n
     /\ get_reg_encoding ("d" ++ to_string n)%string = Ok n)
  /\ (forall zr sp s n b, parse_register_with zr sp 31 s = Ok (n, b) ->
        get_reg_encoding s = Ok n /\ 0 <= n < 32)
  /\ (forall zr sp s e, parse_register_with zr sp 31 s = Throw e -> e = invalid_argument).
Proof.
  split; [|split].
  - apply below_32. repeat constructor.
  - intros *. apply parse_register_with_Ok. lia.
  - intros *. apply parse_register_with_Throw.
Qed.

(** The number is truncated to 32 bits before the range check,
    so that a name with a huge number designates a low register. *)
Theorem register_number_truncated :
  parse_register_31 "x4294967297" = Ok (1, true)
  /\ get_reg_encoding "x4294967297" = Ok 1
  /\ parse_register_31 "x-4294967295" = Ok (1, true)
  /\ parse_register_31 "x99" = Throw invalid_argument.
Proof. repeat split; vm_compute; reflexivity. Qed.

(** ** The families *)

(** *** Operands *)

(** The names of the general registers and of the zero registers, in lower case. *)
Definition general_registers : list (string * (Z * bool)) :=
  List.map (fun n => (("x" ++ to_string (Z.of_nat n))%string, (Z.of_nat n, true))) (seq 0 31)
  ++ List.map (fun n => (("w" ++ to_string (Z.of_nat n))%string, (Z.of_nat n, false))) (seq 0 31)
  ++ [("xzr", (31, true)); ("wzr", (31, false))]%string.

(** The register that an operand stands for in the register forms, in either case, and
    whether it has 64 bits.  The encoders accept the stack pointer, but number 31 is the zero
    register in these forms. *)
Inductive designates (s : string) : Z -> bool -> Prop :=
  | general n b : (lower s, (n, b)) ∈ general_registers -> designates s n b
  | stack_pointer_as_zero (b : bool) : lower s = (if b then "sp" else "wsp")%string -> designates s 31 b.

Definition encodes3 (create : string -> string -> string -> result Instruction) (op : OpType)
    (shape : bool -> Z -> Z -> Z -> insn) : Prop :=
  forall xd xn xm rd rn rm a b c, designates xd rd a -> designates xn rn b -> designates xm rm c ->
  if eqb a b && eqb b c then
    exists i, create xd xn xm = Ok i /\ emits i op NONE (shape a rd rn rm)
      /\ dest_reg i = rd /\ src_reg1 i = rn /\ src_reg2 i = rm
  else create xd xn xm = Throw invalid_argument.

Definition encodes2 (create : string -> string -> result Instruction) (op : OpType)
    (regs : Instruction -> Z * Z) (shape : bool -> Z -> Z -> insn) : Prop :=
  forall x1 x2 r1 r2 a b, designates x1 r1 a -> designates x2 r2 b ->
  if eqb a b then
    exists i, create x1 x2 = Ok i /\ emits i op NONE (shape a r1 r2) /\ regs i = (r1, r2)
  else create x1 x2 = Throw invalid_argument.

Lemma tolower_twice c : tolower (tolower c) = tolower c.
Proof. destruct c as [[] [] [] [] [] [] [] []]; reflexivity. Qed.

Lemma lower_twice s : lower (lower s) = lower s.
Proof. induction s as [|c s IH]; [done|]. unfold lower in *. cbn. by rewrite tolower_twice, IH. Qed.

Lemma parse_lower zr sp max s : parse_register_with zr sp max (lower s) = parse_register_with zr sp max s.
Proof.
  unfold parse_register_with. by rewrite string_empty_lower, lower_twice, lower_substr1, parse_number_lower.
Qed.

Lemma designates_parsed max s n b : max = 30 \/ max = 31 -> designates s n b ->
  parse_register_with true true max s = Ok (n, b).
Proof.
  intros Hm H. rewrite <-parse_lower. destruct H as [n b Hin|b E].
  - assert (F : Forall (fun p => parse_register_with true true max p.1 = Ok p.2) general_registers)
      by (destruct Hm as [-> | ->]; repeat constructor).
    rewrite list.Forall_forall in F. exact (F _ Hin).
  - rewrite E. destruct Hm as [-> | ->]; by destruct b.
Qed.

Lemma encodes_rrr_designates max create op shape : max = 30 \/ max = 31 ->
  encodes_rrr (parse_register_with true true max) create op shape -> encodes3 create op shape.
Proof.
  intros Hm H xd xn xm rd rn rm a b c Hd Hn Hx. specialize (H xd xn xm).
  by rewrite !(designates_parsed max _ _ _ Hm Hd), !(designates_parsed max _ _ _ Hm Hn), !(designates_parsed max _ _ _ Hm Hx) in H.
Qed.

Lemma encodes_rr_designates create op regs shape :
  encodes_rr parse_register_31 create op regs shape -> encodes2 create op regs shape.
Proof.
  intros H x1 x2 r1 r2 a b H1 H2. specialize (H x1 x2). unfold parse_register_31 in H.
  by rewrite !(designates_parsed 31 _ _ _ (or_intror eq_refl) H1), !(designates_parsed 31 _ _ _ (or_intror eq_refl) H2) in H.
Qed.

(** C40: the register forms of ADD, SUB, MUL, SDIV, AND, BIC, LSL, LSR, CMP and MOV, given the
    names of general registers or of the zero register, in any case, encode the instruction
    they are named after on these registers, with the size of the operands, and refuse
    operands of mixed size.  SP and WSP are accepted too, but what is encoded is the
    instruction on the zero register, not on the stack pointer: ADD X0, SP, X1 adds X1 to 0. *)
Theorem register_forms_encode :
  encodes3 create_add_reg ADD ADDr
  /\ encodes3 create_sub_reg SUB SUBr
  /\ encodes3 create_mul_reg MUL MULr
  /\ encodes3 create_sdiv_reg SDIV SDIVr
  /\ encodes3 create_and_reg AND ANDr
  /\ encodes3 create_bic_reg BIC BICr
  /\ encodes3 create_lsl_reg LSL LSLr
  /\ encodes3 create_lsr_reg LSR LSRr
  /\ encodes2 create_cmp_reg CMP (fun i => (src_reg1 i, src_reg2 i)) CMPr
  /\ encodes2 create_mov_reg MOV (fun i => (dest_reg i, src_reg1 i)) MOVr.
Proof.
  pose proof (encodes_rrr_designates 30) as H30. pose proof (encodes_rrr_designates 31) as H31.
  split_and!.
  - apply H30, create_add_reg_ok. by left.
  - apply H31, create_sub_reg_ok. by right.
  - apply H31, create_mul_reg_ok. by right.
  - apply H31, create_sdiv_reg_ok. by right.
  - apply H30, create_and_reg_ok. by left.
  - apply H30, create_bic_reg_ok. by left.
  - apply H31, create_lsl_reg_ok. by right.
  - apply H31, create_lsr_reg_ok. by right.
  - apply encodes_rr_designates, create_cmp_reg_ok.
  - apply encodes_rr_designates, create_mov_reg_ok.
Qed.

(** ADD X0, SP, X1 is encoded as ADD X0, XZR, X1. *)
Lemma register_forms_encode_witness :
  exists i, create_add_reg "X0" "SP" "x1" = Ok i /\ decode (encoding i) = Some (ADDr true 0 31 1).
Proof.
  assert (H0 : designates "X0" 0 true) by (apply general; vm_compute; left).
  assert (H1 : designates "SP" 31 true) by by apply stack_pointer_as_zero.
  assert (H2 : designates "x1" 1 true) by (apply general; vm_compute; right; left).
  destruct (proj1 register_forms_encode "X0" "SP" "x1" 0 31 1 true true true H0 H1 H2)%string
    as (i & E & (_ & D & _) & _).
  by exists i.
Defined.

(** The immediate forms of ADD, SUB, LSL (both copies), ASR, UBFX,
    SBFX and BFI put an immediate, shift or bit-field in range into the fields of their
    instruction (with the rotations of the aliases), and refuse any other. *)
Theorem immediate_forms_encode :
  encodes_rri parse_register_31 create_add_imm ADD valid_imm12 id ADDi
  /\ encodes_rri parse_register_31 create_sub_imm SUB valid_imm12 id SUBi
  /\ encodes_rri parse_register_30 create_lsl_imm LSL valid_shift id LSLi
  /\ encodes_rri parse_register_30 opt_create_lsl_imm LSL valid_shift id LSLi
  /\ encodes_rri parse_register_opt opt_create_asr_imm ASR valid_shift id ASRi
  /\ encodes_rri parse_register_opt (fun xd xn v => opt_create_ubfx xd xn v.1 v.2) UBFX
       valid_field fst (fun sf rd rn v => UBFXi sf rd rn v.1 v.2)
  /\ encodes_rri parse_register_opt (fun xd xn v => opt_create_sbfx xd xn v.1 v.2) SBFX
       valid_field fst (fun sf rd rn v => SBFXi sf rd rn v.1 v.2)
  /\ encodes_rri parse_register_opt (fun xd xn v => opt_create_bfi xd xn v.1 v.2) BFI
       valid_field fst (fun sf rd rn v => BFIi sf rd rn v.1 v.2).
Proof.
  exact (conj create_add_imm_ok (conj create_sub_imm_ok (conj create_lsl_imm_ok (conj
    opt_create_lsl_imm_ok (conj opt_create_asr_imm_ok (conj opt_create_ubfx_ok (conj
    opt_create_sbfx_ok opt_create_bfi_ok))))))).
Qed.

(** MOVZ and MOVK put the half-word where its shift says;
    CSET and CSETM store the inverse of the condition they are given; each refuses bad
    shifts, conditions and names. *)
Theorem move_wide_and_select_encode :
  encodes_movw create_movz_imm MOVZ MOVZi
  /\ encodes_movw create_movk_imm MOVK MOVKi
  /\ encodes_cset create_cset OP_CSET CSET
  /\ encodes_cset create_csetm OP_CSETM CSETM.
Proof.
  exact (conj create_movz_imm_ok (conj create_movk_imm_ok (conj create_cset_ok
    create_csetm_ok))).
Qed.

(** LDR, STR, LDRB and the double-precision LDR and STR accept
    exactly the byte offsets that are a multiple of the access size and fit twelve bits
    scaled, and the machine's scaled offset is the one asked for. *)
Theorem loads_and_stores_encode :
  (forall name, encodes_ldst (fun xt xn off => create_ldr_imm xt xn off name) LDR
     (fun i => (dest_reg i, base_reg i)) valid_uoffset LDRi)
  /\ (forall name, encodes_ldst (fun xt xn off => create_str_imm xt xn off name) STR
     (fun i => (src_reg1 i, base_reg i)) valid_uoffset STRi)
  /\ encodes_ldst create_ldrb_imm LDRB (fun i => (dest_reg i, base_reg i)) valid_imm12
       (fun _ => LDRBi)
  /\ encodes_fp_ldst create_ldr_fp_imm LDR_FP dest_reg LDRDi
  /\ encodes_fp_ldst create_str_fp_imm STR_FP src_reg1 STRDi.
Proof.
  exact (conj create_ldr_imm_ok (conj create_str_imm_ok (conj create_ldrb_imm_ok (conj
    create_ldr_fp_imm_ok create_str_fp_imm_ok)))).
Qed.

(** LDP and STP (offset) and STP (pre-index) accept exactly the offsets of
    seven signed bits scaled by the register size and encode them, with the write-back mode
    they are named after. *)
Theorem pairs_encode :
  encodes_pair create_stp_imm STP (fun i => (src_reg1 i, src_reg2 i, base_reg i))
    (fun sf => STPi sf mode_offset)
  /\ encodes_pair create_stp_pre_imm STP (fun i => (src_reg1 i, src_reg2 i, base_reg i))
       (fun sf => STPi sf mode_pre)
  /\ encodes_pair create_ldp_imm LDP (fun i => (dest_reg i, src_reg1 i, base_reg i))
       (fun sf => LDPi sf mode_offset).
Proof.
  exact (conj create_stp_imm_ok (conj create_stp_pre_imm_ok create_ldp_imm_ok)).
Qed.

(** B, BL, B.cond, BR, BLR, RET, CBZ and CBNZ encode their branch with an
    empty displacement and ask the linker for the relocation of its width. *)
Theorem branches_encode :
  (forall label, emits (create_branch_unconditional label) B PC_RELATIVE_26_BIT_OFFSET (Branch false 0)
     /\ target_label (create_branch_unconditional label) = label)
  /\ (forall label, emits (create_branch_with_link label) BL PC_RELATIVE_26_BIT_OFFSET (Branch true 0)
     /\ target_label (create_branch_with_link label) = label)
  /\ (forall c label,
      match get_condition_code c with
      | Ok cc =>
          exists i, create_branch_conditional c label = Ok i
            /\ emits i B_COND PC_RELATIVE_19_BIT_OFFSET (BranchCond 0 cc)
            /\ target_label i = label /\ cond i = stringToConditionCode c
      | Throw _ => create_branch_conditional c label = Throw invalid_argument
      end)
  /\ encodes_branch_reg create_br_reg BR BRr
  /\ encodes_branch_reg create_branch_with_link_register BLR BLRr
  /\ (exists i, create_return = Ok i /\ emits i RET NONE (RETr 30) /\ src_reg1 i = 30)
  /\ encodes_cmp_branch opt_create_cbz CBZ false
  /\ encodes_cmp_branch opt_create_cbnz CBNZ true.
Proof.
  exact (conj create_branch_unconditional_ok (conj create_branch_with_link_ok
    (conj create_branch_conditional_ok (conj create_br_reg_ok
    (conj create_branch_with_link_register_ok (conj create_return_ok
    (conj opt_create_cbz_ok opt_create_cbnz_ok))))))).
Qed.

(** FADD, FMUL, FDIV, SCVTF, FCVTZS, FNEG, FSQRT, FMADD and FMSUB
    encode the double-precision instruction they are named after. *)
Theorem float_forms_encode :
  encodes_fff create_fadd_reg FADD FADDd
  /\ encodes_fff create_fmul_reg FMUL FMULd
  /\ encodes_fff create_fdiv_reg FDIV FDIVd
  /\ encodes_ff create_scvtf_reg SCVTF (fun i => (dest_reg i, src_reg1 i)) SCVTFd
  /\ encodes_ff create_fcvtzs_reg FCVTZS (fun i => (dest_reg i, src_reg1 i)) FCVTZSd
  /\ encodes_ff create_fneg_reg FMOV (fun i => (dest_reg i, src_reg1 i)) FNEGd
  /\ encodes_ff create_fsqrt_reg FSQRT (fun i => (dest_reg i - 32, src_reg1 i - 32)) FSQRTd
  /\ encodes_fma opt_create_fmadd FMADD (fun ty d n m a => FPDP3 ty 0 m 0 a n d)
  /\ encodes_fma opt_create_fmsub FMSUB (fun ty d n m a => FPDP3 ty 0 m 1 a n d).
Proof.
  exact (conj create_fadd_reg_ok (conj create_fmul_reg_ok (conj create_fdiv_reg_ok (conj
    create_scvtf_reg_ok (conj create_fcvtzs_reg_ok (conj create_fneg_reg_ok (conj
    create_fsqrt_reg_ok (conj opt_create_fmadd_ok opt_create_fmsub_ok)))))))).
Qed.

(** ** Encoders that emit something else *)

(** For all operands, ORR is emitted as the 32-bit instruction even
    on X registers, ASR (register) with an operation code that is not ASRV, and the
    post-index LDP as the non-temporal pair load, which leaves its base register
    unchanged. *)
Theorem integer_forms_miscode :
  encodes_rrr parse_register_31 create_orr_reg ORR (fun _ => ORRr false)
  /\ encodes_rrr parse_register_31 opt_create_asr_reg ASR (fun sf rd rn rm => DP2 sf rm 4 rn rd)
  /\ encodes_pair create_ldp_post_imm LDP (fun i => (dest_reg i, src_reg1 i, base_reg i))
       (fun sf => LDPi sf 0).
Proof.
  exact (conj create_orr_reg_emits (conj opt_create_asr_reg_emits
    create_ldp_post_imm_emits)).
Qed.

(** FSUB is emitted in single precision, FCMP as the comparison of its
    first operand with zero, FCVTMS as FCVTZS, and the word LDR reads four times the byte
    offset it is given. *)
Theorem float_forms_miscode :
  encodes_fff create_fsub_reg FSUB (fun rd rn rm => FPDP2 0 rm 3 rn rd)
  /\ encodes_ff create_fcmp_reg FCMP (fun i => (src_reg1 i, src_reg2 i))
       (fun rn rm => FPCmp 1 rm rn 8)
  /\ encodes_ff create_fcvtms_reg FCVTMS (fun i => (dest_reg i, src_reg1 i)) FCVTZSd
  /\ encodes_ldst create_ldr_word_imm LDR (fun i => (dest_reg i, base_reg i))
       (fun sf imm => negb sf && valid_imm12 sf imm)
       (fun _ rt rn imm => LDRi false rt rn (4 * imm)).
Proof.
  exact (conj create_fsub_reg_emits (conj create_fcmp_reg_emits (conj create_fcvtms_reg_emits
    create_ldr_word_imm_emits))).
Qed.
