(* ===== verification/Labels.v ===== *)
(** * Labels, runtime functions and the instruction stream

    [LabelManager] (src/LabelManager.cpp), [RuntimeManager] (src/RuntimeManager.cpp) and
    [InstructionStream] (src/InstructionStream.cpp): the three tables the code generator
    fills and the linker reads.  Each [std::unordered_map] is a [gmap]; a method that can
    throw after it has changed the object returns the object and the outcome. *)

From S2P Require Import Prelude Words Instr.
Local Open Scope Z_scope.

(** ** LabelManager *)

Record LabelManager : Type := mkLabelManager {
  defined_labels : gmap string Z;
  next_label_id : Z
}.

Definition LabelManager_empty : LabelManager := mkLabelManager ∅ 0.

Definition create_label (m : LabelManager) : string * LabelManager :=
  ((".L" ++ to_string (next_label_id m))%string,
   mkLabelManager (defined_labels m) (u64 (next_label_id m + 1))).

Definition create_global_label (name : string) : string := ("global_" ++ name)%string.
Definition create_static_label (name : string) : string := ("static_" ++ name)%string.

Definition is_label_defined (m : LabelManager) (label_name : string) : bool :=
  match defined_labels m !! label_name with Some _ => true | None => false end.

Definition define_label (m : LabelManager) (label_name : string) (address : Z)
    : result LabelManager :=
  if is_label_defined m label_name then Throw runtime_error
  else Ok (mkLabelManager (<[label_name := address]> (defined_labels m)) (next_label_id m)).

Definition get_label_address (m : LabelManager) (label_name : string) : result Z :=
  match defined_labels m !! label_name with
  | Some a => Ok a
  | None => Throw runtime_error
  end.

Definition reset (m : LabelManager) : LabelManager := mkLabelManager ∅ 0.

(** ** RuntimeManager *)

Inductive FunctionType : Type := STANDARD | FLOAT.

Record RuntimeFunction : Type := mkRuntimeFunction {
  rf_name : string;
  rf_num_args : Z;
  rf_address : Z;
  rf_type : FunctionType;
  rf_table_offset : Z
}.

Record RuntimeManager : Type := mkRuntimeManager {
  functions : gmap string RuntimeFunction;
  next_table_offset : Z
}.

Definition RuntimeManager_empty : RuntimeManager := mkRuntimeManager ∅ 0.

(** The offset is advanced before the size of the table is checked: a refused 257th
    registration still consumes a slot number. *)
Definition register_function (m : RuntimeManager) (name : string) (num_args address : Z)
    (type : FunctionType) : RuntimeManager * result unit :=
  let upper_name := upper name in
  match functions m !! upper_name with
  | Some _ => (m, Throw runtime_error)
  | None =>
      let offset := next_table_offset m in
      let m := mkRuntimeManager (functions m) (u64 (next_table_offset m + 8)) in
      if 256 <=? offset / 8 then (m, Throw runtime_error)
      else
        let func := mkRuntimeFunction upper_name num_args address type offset in
        (mkRuntimeManager (<[upper_name := func]> (functions m)) (next_table_offset m), Ok tt)
  end.

Definition get_function (m : RuntimeManager) (name : string) : result RuntimeFunction :=
  match functions m !! upper name with
  | Some f => Ok f
  | None => Throw runtime_error
  end.

Definition is_function_registered (m : RuntimeManager) (name : string) : bool :=
  match functions m !! upper name with Some _ => true | None => false end.

Definition set_function_address (m : RuntimeManager) (name : string) (address : Z)
    : result RuntimeManager :=
  let upper_name := upper name in
  match functions m !! upper_name with
  | None => Throw runtime_error
  | Some f =>
      Ok (mkRuntimeManager
            (<[upper_name := mkRuntimeFunction (rf_name f) (rf_num_args f) address (rf_type f)
                               (rf_table_offset f)]> (functions m))
            (next_table_offset m))
  end.

Definition get_function_offset (m : RuntimeManager) (name : string) : result Z :=
  match functions m !! upper name with
  | Some f => Ok (rf_table_offset f)
  | None => Throw runtime_error
  end.

(** Memory as 64-bit words by address; [base = 0] is the null pointer.  The loop visits the
    functions in the order of the hash table, which the model takes from [map_to_list]: the
    slots are distinct, so the order does not matter. *)
Definition populate_function_pointer_table (m : RuntimeManager) (base : Z) (mem : gmap Z Z)
    : result (gmap Z Z) :=
  if base =? 0 then Throw runtime_error
  else
    Ok (foldr (fun p mem => <[u64 (base + rf_table_offset (snd p)) := rf_address (snd p)]> mem)
          mem (map_to_list (functions m))).

(** ** InstructionStream *)

Record InstructionStream : Type := mkInstructionStream {
  instructions : list Instruction
}.

Definition add (s : InstructionStream) (instr : Instruction) : InstructionStream :=
  mkInstructionStream (instructions s ++ [set_address 0 instr]).

Definition stream_define_label (s : InstructionStream) (label_name : string)
    : InstructionStream :=
  let label_instr := set_target_label label_name (set_is_label_definition true
                       Instruction_default) in
  mkInstructionStream (instructions s ++ [label_instr]).

Definition create_and_define_label (s : InstructionStream) (m : LabelManager)
    : string * InstructionStream * LabelManager :=
  let '(label_name, m) := create_label m in
  (label_name, stream_define_label s label_name, m).

(** [std::hex]: lower-case digits without leading zeros. *)
Definition hex_digit (d : Z) : Ascii.ascii :=
  if d <? 10 then char_of (48 + d) else char_of (87 + d).

Fixpoint hex_digits (fuel : nat) (z : Z) (acc : string) : string :=
  match fuel with
  | O => acc
  | S n =>
      let acc := String (hex_digit (z mod 16)) acc in
      if z <? 16 then acc else hex_digits n (z / 16) acc
  end.

(** Sixteen digits hold any 64-bit number. *)
Definition to_hex (z : Z) : string := hex_digits 16 z EmptyString.

Definition set_label_if (label_name : string) (i : Instruction) : Instruction :=
  if negb (string_empty label_name) then set_target_label label_name i else i.

Definition add_data32 (s : InstructionStream) (data : Z) (label_name : string)
    (segment : SegmentType) : InstructionStream :=
  let instr := Instruction_new data ("DCD 0x" ++ to_hex data)%string in
  let instr := set_segment segment (set_is_data_value true instr) in
  add s (set_label_if label_name instr).

Definition add_data64 (s : InstructionStream) (data : Z) (label_name : string)
    (segment : SegmentType) : InstructionStream :=
  let lower_half := Z.land data 0xFFFFFFFF in
  let upper_half := u32 (Z.shiftr data 32) in
  let quad_instr :=
    set_segment segment (set_is_data_value true
      (set_assembly_text (".quad 0x" ++ to_hex data)%string
        (set_encoding lower_half Instruction_default))) in
  let s := add s (set_label_if label_name quad_instr) in
  let upper_instr :=
    set_segment segment (set_is_data_value true
      (set_assembly_text "; (upper half)"
        (set_encoding upper_half Instruction_default))) in
  add s upper_instr.

Fixpoint repeat_add {A} (n : nat) (f : A -> A) (s : A) : A :=
  match n with O => s | S n => repeat_add n f (f s) end.

(** Both paddings count every stream entry as four bytes, label definitions included. *)
Definition add_padcode (s : InstructionStream) (alignment : Z) : result InstructionStream :=
  if negb (alignment =? 8) && negb (alignment =? 16) then Throw runtime_error
  else
    let nop_instruction := Instruction_new 0xD503201F "nop" in
    let current_size_bytes := Z.of_nat (length (instructions s)) * 4 in
    let remainder := current_size_bytes mod alignment in
    if remainder =? 0 then Ok s
    else
      let padding_bytes := alignment - remainder in
      let nop_count := padding_bytes / 4 in
      Ok (repeat_add (Z.to_nat nop_count) (fun s => add s nop_instruction) s).

Definition add_data_padding (s : InstructionStream) (alignment : Z) : InstructionStream :=
  if alignment <=? 0 then s
  else
    let current_size_bytes := Z.of_nat (length (instructions s)) * 4 in
    let remainder := current_size_bytes mod alignment in
    if remainder =? 0 then s
    else
      let padding_bytes := alignment - remainder in
      let zero_count := padding_bytes / 4 in
      repeat_add (Z.to_nat zero_count) (fun s => add_data32 s 0 EmptyString DATA) s.

Definition replace_instructions (new_instructions : list Instruction) : InstructionStream :=
  mkInstructionStream new_instructions.

Definition get_current_address (s : InstructionStream) : Z :=
  foldl (fun address instr =>
           if is_data_value instr then address + 4
           else if negb (is_label_definition instr) then address + 4
           else address)
    0 (instructions s).

(** ** Lemmas: labels *)

Lemma is_label_defined_true m l :
  is_label_defined m l = true <-> exists a, get_label_address m l = Ok a.
Proof.
  unfold is_label_defined, get_label_address.
  destruct (defined_labels m !! l) as [a|]; split; intros H;
    [by exists a | done | discriminate | destruct H; discriminate].
Qed.

Lemma define_label_Ok m l a m' :
  define_label m l a = Ok m' ->
  defined_labels m !! l = None /\ defined_labels m' = <[l := a]> (defined_labels m)
  /\ next_label_id m' = next_label_id m.
Proof.
  unfold define_label, is_label_defined.
  destruct (defined_labels m !! l); [discriminate|]. by intros [= <-].
Qed.

(** The label factory: a label is never handed out twice before the 64-bit counter wraps. *)
Lemma create_label_fresh (i j : Z) :
  i <> j -> (".L" ++ to_string i)%string <> (".L" ++ to_string j)%string.
Proof.
  intros Hij H. apply Hij. unfold to_string in H.
  apply (inj (String.append ".L")) in H. by apply (inj (pretty (A:=Z))).
Qed.

(** ** Lemmas: the runtime function table *)

(** Every function is stored under its own upper-case name, in a slot of its own below
    both the next free slot and the end of the 256-entry table. *)
Record runtime_ok (m : RuntimeManager) : Prop := {
  rt_next_aligned : next_table_offset m mod 8 = 0;
  rt_next_range : 0 <= next_table_offset m;
  rt_slot k f : functions m !! k = Some f ->
    rf_name f = k /\ rf_table_offset f mod 8 = 0
    /\ 0 <= rf_table_offset f < 2048 /\ rf_table_offset f < next_table_offset m;
  rt_distinct k1 k2 f1 f2 : functions m !! k1 = Some f1 -> functions m !! k2 = Some f2 ->
    rf_table_offset f1 = rf_table_offset f2 -> k1 = k2
}.

Lemma runtime_ok_empty : runtime_ok RuntimeManager_empty.
Proof.
  split; cbn; [done | lia | |]; intros *; rewrite lookup_empty; discriminate.
Qed.

(** The counter does not wrap: it counts registrations by 8. *)
Lemma register_function_ok m name n a ty m' r :
  runtime_ok m -> next_table_offset m + 8 < 2 ^ 64 ->
  register_function m name n a ty = (m', r) -> runtime_ok m'.
Proof.
  intros [Ha Hr Hs Hd] Hw. unfold register_function.
  destruct (functions m !! upper name) as [g|] eqn:El; [by intros [= <- <-]|].
  cbn [functions next_table_offset]. rewrite u64_small by lia.
  destruct (256 <=? next_table_offset m / 8) eqn:Ec; intros [= <- <-]; bool_to_prop.
  - split; cbn; [elia | lia | | done].
    intros k f Hk. destruct (Hs k f Hk) as (? & ? & ? & ?). repeat split; [done.. | lia | lia | lia].
  - split; cbn; [elia | lia | |].
    + intros k f Hk. rewrite lookup_insert_Some in Hk.
      destruct Hk as [(<- & <-) | (Hne & Hk)]; cbn.
      * repeat split; [done | lia | elia | lia].
      * destruct (Hs k f Hk) as (? & ? & ? & ?). repeat split; [done.. | lia | lia | lia].
    + intros k1 k2 f1 f2 H1 H2 Heq. rewrite lookup_insert_Some in H1, H2.
      destruct H1 as [(<- & <-) | (? & H1)], H2 as [(<- & <-) | (? & H2)]; cbn in Heq.
      * done.
      * destruct (Hs _ _ H2) as (_ & _ & _ & ?). lia.
      * destruct (Hs _ _ H1) as (_ & _ & _ & ?). lia.
      * by eapply Hd.
Qed.

Lemma set_function_address_ok m name a m' :
  runtime_ok m -> set_function_address m name a = Ok m' -> runtime_ok m'.
Proof.
  intros [Ha Hr Hs Hd]. unfold set_function_address.
  destruct (functions m !! upper name) as [g|] eqn:El; [|discriminate]. intros [= <-].
  assert (Hlk : forall k f, <[upper name := mkRuntimeFunction (rf_name g) (rf_num_args g) a
                 (rf_type g) (rf_table_offset g)]> (functions m) !! k = Some f ->
             exists f', functions m !! k = Some f' /\ rf_name f = rf_name f'
               /\ rf_table_offset f = rf_table_offset f').
  { intros k f Hk. rewrite lookup_insert_Some in Hk.
    destruct Hk as [(<- & <-) | (_ & Hk)]; eauto. }
  split; cbn; [done | done | |].
  - intros k f Hk. apply Hlk in Hk as (f' & Hk & -> & ->). by apply Hs.
  - intros k1 k2 f1 f2 H1 H2. apply Hlk in H1 as (? & H1 & _ & ->).
    apply Hlk in H2 as (? & H2 & _ & ->). by eapply Hd.
Qed.

(** Writing a list of distinct slots: the slot of each entry holds its address. *)
Lemma populate_list base (mem : gmap Z Z) (l : list (string * RuntimeFunction)) k f :
  0 < base -> base + 2048 <= 2 ^ 64 ->
  NoDup l.*1 ->
  (forall k f, (k, f) ∈ l -> 0 <= rf_table_offset f < 2048) ->
  (forall k1 f1 k2 f2, (k1, f1) ∈ l -> (k2, f2) ∈ l ->
     rf_table_offset f1 = rf_table_offset f2 -> k1 = k2) ->
  (k, f) ∈ l ->
  foldr (fun p mem => <[u64 (base + rf_table_offset (snd p)) := rf_address (snd p)]> mem)
    mem l !! (base + rf_table_offset f) = Some (rf_address f).
Proof.
  intros Hb Hb'. induction l as [|[k' f'] l IH]; cbn [foldr fmap list_fmap fst snd];
    intros Hnd Hr Hd Hin; [by apply not_elem_of_nil in Hin|].
  apply list.NoDup_cons in Hnd as [Hk' Hnd].
  assert (Hr' : 0 <= rf_table_offset f' < 2048) by (eapply Hr; left).
  rewrite u64_small by lia.
  apply elem_of_cons in Hin as [[= -> ->] | Hin]; [by rewrite lookup_insert_eq|].
  rewrite lookup_insert_ne.
  - apply IH; [done | | | done].
    + intros k0 f0 H0. eapply Hr. by right.
    + intros k1 f1 k2 f2 H1 H2. eapply Hd; by right.
  - intros Heq. apply Hk'. assert (k' = k) as ->.
    { eapply (Hd k' f' k f); [by left | by right | lia]. }
    apply list_elem_of_fmap. by exists (k, f).
Qed.

Lemma populate_ok m base mem k f :
  runtime_ok m -> 0 < base -> base + 2048 <= 2 ^ 64 -> functions m !! k = Some f ->
  exists mem', populate_function_pointer_table m base mem = Ok mem'
    /\ mem' !! (base + rf_table_offset f) = Some (rf_address f).
Proof.
  intros [_ _ Hs Hd] Hb Hb' Hk. unfold populate_function_pointer_table.
  replace (base =? 0) with false by lia. eexists. split; [reflexivity|].
  apply (populate_list base mem _ k); [done | done | apply NoDup_fst_map_to_list | | |].
  - intros k0 f0 H0. apply elem_of_map_to_list in H0. by destruct (Hs _ _ H0) as (_ & _ & ? & _).
  - intros k1 f1 k2 f2 H1 H2. apply elem_of_map_to_list in H1, H2. by eapply Hd.
  - by apply elem_of_map_to_list.
Qed.

(** ** Properties *)

(** The operations that change the table; a refused one leaves what it has changed. *)
Inductive runtime_op : Type :=
  | RegisterFunction (name : string) (num_args address : Z) (type : FunctionType)
  | SetFunctionAddress (name : string) (address : Z).

Definition run_op (m : RuntimeManager) (op : runtime_op) : RuntimeManager :=
  match op with
  | RegisterFunction name n a ty => fst (register_function m name n a ty)
  | SetFunctionAddress name a =>
      match set_function_address m name a with Ok m' => m' | Throw _ => m end
  end.

Lemma run_op_ok m op :
  runtime_ok m -> next_table_offset m + 8 < 2 ^ 64 ->
  runtime_ok (run_op m op) /\ next_table_offset (run_op m op) <= next_table_offset m + 8.
Proof.
  intros Hm Hw. pose proof (rt_next_range m Hm). destruct op as [name n a ty | name a]; cbn [run_op].
  - destruct (register_function m name n a ty) as [m' r] eqn:E. cbn [fst].
    split; [by eapply register_function_ok|]. revert E. unfold register_function.
    case_match; [intros [= <- <-]; lia|]. cbn. rewrite u64_small by lia.
    case_match; intros [= <- <-]; cbn; lia.
  - destruct (set_function_address m name a) as [m'|] eqn:E; [|split; [done|lia]].
    split; [by eapply set_function_address_ok|]. revert E. unfold set_function_address.
    case_match; [|discriminate]. intros [= <-]. cbn. lia.
Qed.

Lemma run_ops_ok ops : forall m,
  runtime_ok m -> next_table_offset m + 8 * Z.of_nat (length ops) < 2 ^ 64 ->
  runtime_ok (foldl run_op m ops).
Proof.
  induction ops as [|op ops IH]; intros m Hm Hw; [done|]. cbn [length] in Hw. cbn [foldl].
  destruct (run_op_ok m op Hm) as [Hok Hn]; [lia|]. apply IH; [done | lia].
Qed.

(** After any sequence of registrations and address updates
    (fewer than 2^60), every registered function has a slot of its own in the 256-entry
    table, and populating the table stores the function's current address in that slot, so
    that the slot offset the code generator was given leads to the function. *)
Theorem runtime_table_populated ops base mem name f :
  8 * Z.of_nat (length ops) < 2 ^ 64 ->
  let m := foldl run_op RuntimeManager_empty ops in
  get_function m name = Ok f -> 0 < base -> base + 2048 <= 2 ^ 64 ->
  get_function_offset m name = Ok (rf_table_offset f)
  /\ 0 <= rf_table_offset f < 2048 /\ rf_table_offset f mod 8 = 0
  /\ exists mem', populate_function_pointer_table m base mem = Ok mem'
       /\ mem' !! (base + rf_table_offset f) = Some (rf_address f).
Proof.
  intros Hn m Hf Hb Hb'.
  assert (Hm : runtime_ok m) by (apply run_ops_ok; [apply runtime_ok_empty | exact Hn]).
  unfold get_function, get_function_offset in *.
  destruct (functions m !! upper name) as [g|] eqn:El; [|discriminate]. injection Hf as ->.
  destruct (rt_slot m Hm _ _ El) as (_ & Ha & Hr & _).
  split; [done|]. split; [done|]. split; [done|]. by eapply populate_ok.
Qed.

Definition sample_ops : list runtime_op :=
  [RegisterFunction "writes" 1 0x7000 STANDARD; RegisterFunction "rdch" 0 0x8000 STANDARD;
   SetFunctionAddress "WRITES" 0x9000].

Lemma runtime_table_populated_witness :
  exists mem', populate_function_pointer_table (foldl run_op RuntimeManager_empty sample_ops)
                 0x10000 ∅ = Ok mem'
    /\ mem' !! 0x10000 = Some 0x9000.
Proof.
  destruct (runtime_table_populated sample_ops 0x10000 ∅ "Writes"
              (mkRuntimeFunction "WRITES" 1 0x9000 STANDARD 0))
    as (_ & _ & _ & mem' & Hp & Hm); [cbn; lia | vm_compute; reflexivity | lia | lia |].
  exists mem'. split; [exact Hp | exact Hm].
Defined.

(** A label manager never gives a defined label a second address:
    defining it again is refused with [std::runtime_error], and a successful definition
    changes the address of that label only. *)
Theorem labels_defined_once m label a :
  match define_label m label a with
  | Ok m' => is_label_defined m label = false /\ get_label_address m' label = Ok a
      /\ (forall l, l <> label -> get_label_address m' l = get_label_address m l)
      /\ is_ok (define_label m' label a) = false
  | Throw e => is_label_defined m label = true /\ e = runtime_error
      /\ is_ok (get_label_address m label) = true
  end.
Proof.
  unfold define_label, is_label_defined, get_label_address.
  destruct (defined_labels m !! label) as [b|] eqn:E; cbn.
  - done.
  - rewrite lookup_insert_eq. split; [done|]. split; [done|]. split; [|done].
    intros l Hl. by rewrite lookup_insert_ne.
Qed.
