(* ===== verification/Linker.v ===== *)
(** * The linker

    [Linker] (src/Linker.cpp, src/linker_helpers): pass 1 lays out the code, read-only and
    data segments and defines the labels, pass 2 patches the relocated words.  The lemmas
    show that the layout keeps the stream, gives every emitting entry of a segment its own
    word, and that a relocated branch, ADRP/ADD pair or MOVZ/MOVK word designates its
    target, up to the width of the field it is written into. *)

From S2P Require Import Prelude Words A64 Instr Labels.
Local Open Scope Z_scope.

(** ** Relocations *)

Definition apply_movz_movk_relocation (instruction_encoding target_address : Z)
    (type : RelocationType) : result Z :=
  imm16 ← match type with
          | MOVZ_MOVK_IMM_0 => Ok (Z.land (Z.shiftr target_address 0) 0xFFFF)
          | MOVZ_MOVK_IMM_16 => Ok (Z.land (Z.shiftr target_address 16) 0xFFFF)
          | MOVZ_MOVK_IMM_32 => Ok (Z.land (Z.shiftr target_address 32) 0xFFFF)
          | MOVZ_MOVK_IMM_48 => Ok (Z.land (Z.shiftr target_address 48) 0xFFFF)
          | _ => Throw runtime_error
          end;
  patch instruction_encoding imm16 5 16.

(** [~0xFFF] is an [int], sign-extended when it meets a [size_t]. *)
Definition page_of (address : Z) : Z := Z.land address (Z.lnot 0xFFF).

(** The differences of two [int64_t]s are exact: where they would not fit the C++ is
    undefined. *)
Definition apply_pc_relative_relocation (instruction_encoding instruction_address
    target_address : Z) (type : RelocationType) : result Z :=
  let offset := s64 target_address - s64 instruction_address in
  match type with
  | PC_RELATIVE_26_BIT_OFFSET =>
      let imm26 := Z.land (offset ÷ 4) 0x03FFFFFF in
      patch instruction_encoding imm26 0 26
  | PC_RELATIVE_19_BIT_OFFSET =>
      let imm19 := Z.land (offset ÷ 4) 0x0007FFFF in
      patch instruction_encoding imm19 5 19
  | PAGE_21_BIT_PC_RELATIVE =>
      let pc_page := page_of instruction_address in
      let target_page := page_of target_address in
      let page_offset := s64 target_page - s64 pc_page in
      let imm21 := Z.land (Z.shiftr page_offset 12) 0x1FFFFF in
      patcher ← patch instruction_encoding (Z.land imm21 0x3) 29 2;
      patch patcher (Z.shiftr imm21 2) 5 19
  | ADD_12_BIT_UNSIGNED_OFFSET =>
      let lo12 := u32 (Z.land target_address 0xFFF) in
      patch instruction_encoding lo12 10 12
  | _ => Throw runtime_error
  end.

(** ** Pass 1 *)

Record cursors : Type := mkCursors { code_cursor : Z; rodata_cursor : Z; data_cursor : Z }.

Definition cursor (seg : SegmentType) (c : cursors) : Z :=
  match seg with
  | CODE => code_cursor c
  | RODATA => rodata_cursor c
  | DATA => data_cursor c
  end.

(** [*current_cursor += 4] *)
Definition advance (seg : SegmentType) (c : cursors) : cursors :=
  match seg with
  | CODE => mkCursors (u64 (code_cursor c + 4)) (rodata_cursor c) (data_cursor c)
  | RODATA => mkCursors (code_cursor c) (u64 (rodata_cursor c + 4)) (data_cursor c)
  | DATA => mkCursors (code_cursor c) (rodata_cursor c) (u64 (data_cursor c + 4))
  end.

Definition emits_data_or_code (instr : Instruction) : bool :=
  negb (string_empty (assembly_text instr)) || is_data_value instr.

(** Pass 1a *)
Definition code_segment_size (stream : list Instruction) : Z :=
  foldl (fun size instr =>
           match segment instr with
           | CODE => if negb (is_label_definition instr) then u64 (size + 4) else size
           | _ => size
           end) 0 stream.

Definition CODE_RODATA_GAP_BYTES : Z := 16 * 1024.

Definition rodata_start (code_base_address size : Z) : Z :=
  Z.land (u64 (code_base_address + size + CODE_RODATA_GAP_BYTES + 0xFFF)) (Z.lnot 0xFFF).

(** Pass 1b: the loop over the stream. *)
Fixpoint assign_loop (stream : list Instruction) (manager : LabelManager) (c : cursors)
    : result (list Instruction * LabelManager) :=
  match stream with
  | [] => Ok ([], manager)
  | instr :: rest =>
      manager ← (if is_label_definition instr
                 then define_label manager (target_label instr) (cursor (segment instr) c)
                 else Ok manager);
      let '(new_instr, c) :=
        if emits_data_or_code instr
        then (set_address (cursor (segment instr) c) instr, advance (segment instr) c)
        else (instr, c) in
      '(finalized, manager) ← assign_loop rest manager c;
      Ok (new_instr :: finalized, manager)
  end.

Definition assignAddressesAndResolveLabels (stream : list Instruction)
    (manager : LabelManager) (code_base_address data_base : Z)
    : result (list Instruction * LabelManager) :=
  let rodata := rodata_start code_base_address (code_segment_size stream) in
  assign_loop stream manager (mkCursors code_base_address rodata data_base).

(** ** Pass 2 *)

Definition resolve (manager : LabelManager) (runtime_manager : RuntimeManager)
    (label : string) : result Z :=
  if is_function_registered runtime_manager label then
    f ← get_function runtime_manager label; Ok (rf_address f)
  else if is_label_defined manager label then get_label_address manager label
  else Throw runtime_error.

Definition relocate (manager : LabelManager) (runtime_manager : RuntimeManager)
    (instr : Instruction) : result Instruction :=
  if decide (relocation instr = NONE) then Ok instr
  else if string_empty (target_label instr) then Ok instr
  else
    let instr := set_resolved_symbol_name (target_label instr) instr in
    let instr := set_relocation_applied true instr in
    target_address ← resolve manager runtime_manager (target_label instr);
    let instr := set_resolved_target_address target_address instr in
    match relocation instr with
    | PC_RELATIVE_26_BIT_OFFSET | PC_RELATIVE_19_BIT_OFFSET | PAGE_21_BIT_PC_RELATIVE
    | ADD_12_BIT_UNSIGNED_OFFSET =>
        e ← apply_pc_relative_relocation (encoding instr) (address instr) target_address
              (relocation instr);
        Ok (set_encoding e instr)
    | MOVZ_MOVK_IMM_0 | MOVZ_MOVK_IMM_16 | MOVZ_MOVK_IMM_32 | MOVZ_MOVK_IMM_48 =>
        e ← apply_movz_movk_relocation (encoding instr) target_address (relocation instr);
        Ok (set_encoding e instr)
    | ABSOLUTE_ADDRESS_LO32 => Ok (set_encoding (u32 (Z.land target_address 0xFFFFFFFF)) instr)
    | ABSOLUTE_ADDRESS_HI32 => Ok (set_encoding (u32 (Z.shiftr target_address 32)) instr)
    | _ => Ok instr
    end.

Fixpoint performRelocations (manager : LabelManager) (runtime_manager : RuntimeManager)
    (instrs : list Instruction) : result (list Instruction) :=
  match instrs with
  | [] => Ok []
  | instr :: rest =>
      instr ← relocate manager runtime_manager instr;
      rest ← performRelocations manager runtime_manager rest;
      Ok (instr :: rest)
  end.

Definition process (stream : InstructionStream) (manager : LabelManager)
    (runtime_manager : RuntimeManager) (code_base_address data_base : Z)
    : result (list Instruction * LabelManager) :=
  '(instructions_with_addresses, manager) ←
    assignAddressesAndResolveLabels (instructions stream) manager code_base_address data_base;
  instructions_with_addresses ←
    performRelocations manager runtime_manager instructions_with_addresses;
  Ok (instructions_with_addresses, manager).

(** ** Lemmas: relocations *)

(** A half-word mask. *)
Lemma halfword_mask z k : 0 <= k -> Z.land (Z.shiftr z k) 0xFFFF = bits z k 16.
Proof. reflexivity. Qed.

Lemma quot4 d : d mod 4 = 0 -> d ÷ 4 = d / 4.
Proof. intros. elia. Qed.

(** A 26-bit branch to [t] from [a]: the displacement is the distance, modulo the 256 MB
    the field can express. *)
Lemma relocate_branch_26 w l x a t :
  decode w = Some (Branch l x) ->
  0 <= a < 2 ^ 63 -> 0 <= t < 2 ^ 63 -> (t - a) mod 4 = 0 ->
  exists w' i, apply_pc_relative_relocation w a t PC_RELATIVE_26_BIT_OFFSET = Ok w'
    /\ decode w' = Some i /\ (exists x', i = Branch l x')
    /\ branch_offset i = Some (sext 28 (t - a)).
Proof.
  intros Hw Ha Ht Hd. unfold apply_pc_relative_relocation.
  rewrite !s64_small, quot4 by done.
  change 0x03FFFFFF with (Z.ones 26). rewrite Z.land_ones by lia.
  rewrite patch_ok by reflexivity.
  do 2 eexists. split; [reflexivity|]. split; [exact (decode_patch_branch _ _ _ _ Hw)|].
  split; [by eexists|]. cbn [branch_offset]. f_equal.
  rewrite Z.mod_mod, sext_mod by lia. exact (sext_scale 26 2 (t - a) ltac:(lia) ltac:(lia) Hd).
Qed.

Lemma relocate_branch_19 w i a t :
  decode w = Some i ->
  (exists x c, i = BranchCond x c) \/ (exists sf nz x rt, i = CmpBranch sf nz x rt) ->
  0 <= a < 2 ^ 63 -> 0 <= t < 2 ^ 63 -> (t - a) mod 4 = 0 ->
  exists w' i', apply_pc_relative_relocation w a t PC_RELATIVE_19_BIT_OFFSET = Ok w'
    /\ decode w' = Some i' /\ same_branch i i' /\ branch_offset i' = Some (sext 21 (t - a)).
Proof.
  intros Hw Hi Ha Ht Hd. unfold apply_pc_relative_relocation.
  rewrite !s64_small, quot4 by done.
  change 0x0007FFFF with (Z.ones 19). rewrite Z.land_ones by lia.
  rewrite patch_ok by reflexivity.
  assert (Hs : 4 * sext 19 ((((t - a) / 4) mod 2 ^ 19) mod 2 ^ 19) = sext 21 (t - a)).
  { rewrite Z.mod_mod, sext_mod by lia.
    exact (sext_scale 19 2 (t - a) ltac:(lia) ltac:(lia) Hd). }
  destruct Hi as [(x & c & ->) | (sf & nz & x & rt & ->)].
  - do 2 eexists. split; [reflexivity|]. split; [eapply decode_patch_branch_cond; exact Hw|].
    split; [done|]. cbn [branch_offset]. by rewrite Hs.
  - do 2 eexists. split; [reflexivity|].
    split; [eapply decode_patch_cmp_branch; exact Hw|].
    split; [done|]. cbn [branch_offset]. by rewrite Hs.
Qed.

Lemma page_of_mod z : page_of z = z - z mod 4096.
Proof.
  unfold page_of. change (Z.lnot 0xFFF) with (Z.lnot (Z.ones 12)).
  rewrite <-Z.ldiff_land, Z.ldiff_ones_r, Z.shiftr_div_pow2, Z.shiftl_mul_pow2 by lia.
  change (2 ^ 12) with 4096. elia.
Qed.

(** ADRP and ADD (literal) together form the address, within 4 GB of the instruction. *)
Lemma relocate_adrp w p q rd a t :
  decode w = Some (PCRel true p q rd) ->
  0 <= a < 2 ^ 63 -> 0 <= t < 2 ^ 63 ->
  exists w' i, apply_pc_relative_relocation w a t PAGE_21_BIT_PC_RELATIVE = Ok w'
    /\ decode w' = Some i /\ (exists p' q', i = PCRel true p' q' rd)
    /\ pcrel_target a i
       = Some (page_of a + sext 33 (page_of t - page_of a)).
Proof.
  intros Hw Ha Ht. unfold apply_pc_relative_relocation.
  assert (Hpa : 0 <= page_of a < 2 ^ 63) by (rewrite page_of_mod; elia).
  assert (Hpt : 0 <= page_of t < 2 ^ 63) by (rewrite page_of_mod; elia).
  rewrite (s64_small (page_of a)), (s64_small (page_of t)) by done.
  set (d := page_of t - page_of a). cbv zeta.
  assert (Hd : d mod 2 ^ 12 = 0) by (unfold d; rewrite !page_of_mod; change (2 ^ 12) with 4096; elia).
  change 0x1FFFFF with (Z.ones 21). rewrite Z.land_ones, Z.shiftr_div_pow2 by lia.
  change 0x3 with (Z.ones 2). rewrite Z.land_ones, Z.shiftr_div_pow2 by lia.
  rewrite patch_bind, patch_ok by reflexivity.
  do 2 eexists. split; [reflexivity|]. split; [eapply decode_patch_pcrel; exact Hw|].
  split; [by do 2 eexists|]. cbn [pcrel_target]. rewrite <-page_of_mod. do 2 f_equal.
  set (v := (d / 2 ^ 12) mod 2 ^ 21).
  assert (0 <= v < 2 ^ 21) by (apply Z.mod_pos_bound; lia).
  replace (4 * ((v / 2 ^ 2) mod 2 ^ 19) + v mod 2 ^ 2 mod 2 ^ 2) with v
    by (change (2 ^ 2) with 4; change (2 ^ 19) with 524288; change (2 ^ 21) with 2097152 in *; elia).
  unfold v. rewrite sext_mod by lia.
  exact (sext_scale 21 12 d ltac:(lia) ltac:(lia) Hd).
Qed.

Lemma relocate_lo12 w sf sub st sh imm rn rd a t :
  decode w = Some (AddSubImm sf sub st sh imm rn rd) ->
  exists w', apply_pc_relative_relocation w a t ADD_12_BIT_UNSIGNED_OFFSET = Ok w'
    /\ decode w' = Some (AddSubImm sf sub st sh (t mod 4096) rn rd).
Proof.
  intros Hw. unfold apply_pc_relative_relocation.
  change 0xFFF with (Z.ones 12). rewrite Z.land_ones by lia.
  rewrite patch_ok by reflexivity.
  eexists. split; [reflexivity|]. rewrite (decode_patch_add_imm _ _ _ _ _ _ _ _ _ Hw).
  pose proof (Z.mod_pos_bound t (2 ^ 12) ltac:(lia)).
  rewrite u32_small, Z.mod_mod by lia. reflexivity.
Qed.

Definition mov_half (type : RelocationType) : option Z :=
  match type with
  | MOVZ_MOVK_IMM_0 => Some 0
  | MOVZ_MOVK_IMM_16 => Some 16
  | MOVZ_MOVK_IMM_32 => Some 32
  | MOVZ_MOVK_IMM_48 => Some 48
  | _ => None
  end.

Lemma relocate_mov_wide w sf opc hw imm rd t type k :
  decode w = Some (MovWide sf opc hw imm rd) -> mov_half type = Some k ->
  exists w', apply_movz_movk_relocation w t type = Ok w'
    /\ decode w' = Some (MovWide sf opc hw (bits t k 16) rd).
Proof.
  intros Hw Hk. unfold apply_movz_movk_relocation.
  assert (Hb : 0 <= k -> bits t k 16 mod 2 ^ 16 = bits t k 16).
  { intros. apply Z.mod_small, bits_range; lia. }
  destruct type; try discriminate Hk; injection Hk as <-; rewrite bind_ret_l, patch_ok by reflexivity;
    (eexists; split; [reflexivity|]; rewrite (decode_patch_mov_wide _ _ _ _ _ _ _ Hw);
     rewrite halfword_mask, Hb by lia; reflexivity).
Qed.

(** ** Lemmas: layout *)

(** Bytes emitted into a segment by a stream. *)
Fixpoint seg_size (seg : SegmentType) (stream : list Instruction) : Z :=
  match stream with
  | [] => 0
  | i :: rest =>
      (if decide (segment i = seg) then if emits_data_or_code i then 4 else 0 else 0)
      + seg_size seg rest
  end.

Definition labels (stream : list Instruction) : list string :=
  target_label <$> filter (fun i => is_label_definition i = true) stream.

(** The address of entry [k]: the start of its segment and what precedes it there. *)
Definition entry_address (c : cursors) (stream : list Instruction) (k : nat)
    (i : Instruction) : Z :=
  u64 (cursor (segment i) c + seg_size (segment i) (take k stream)).

Lemma seg_size_nonneg seg l : 0 <= seg_size seg l.
Proof. induction l; cbn; repeat case_match; lia. Qed.

Lemma seg_size_app seg l1 l2 : seg_size seg (l1 ++ l2) = seg_size seg l1 + seg_size seg l2.
Proof. induction l1; cbn; [lia|]. rewrite IHl1. lia. Qed.

Lemma cursor_advance seg seg' c :
  cursor seg' (advance seg c)
  = if decide (seg = seg') then u64 (cursor seg' c + 4) else cursor seg' c.
Proof. destruct seg, seg'; reflexivity. Qed.

Definition cursors_ok (c : cursors) : Prop := forall seg, 0 <= cursor seg c < 2 ^ 64.

Lemma advance_ok seg c : cursors_ok c -> cursors_ok (advance seg c).
Proof.
  intros Hc seg'. rewrite cursor_advance. case_decide; [apply u64_range | apply Hc].
Qed.

(** What pass 1 makes of an entry and of the cursors. *)
Definition step_cursors (i : Instruction) (c : cursors) : cursors :=
  if emits_data_or_code i then advance (segment i) c else c.

Definition place (i : Instruction) (a : Z) : Instruction :=
  if emits_data_or_code i then set_address a i else i.

Lemma assign_loop_cons i rest m c out m' :
  assign_loop (i :: rest) m c = Ok (out, m') ->
  exists m1 out1,
    (if is_label_definition i then define_label m (target_label i) (cursor (segment i) c) = Ok m1
     else m1 = m)
    /\ assign_loop rest m1 (step_cursors i c) = Ok (out1, m')
    /\ out = place i (cursor (segment i) c) :: out1.
Proof.
  cbn [assign_loop]. intros H. inv_bind H. exists a.
  unfold step_cursors, place. destruct (emits_data_or_code i); inv_bind H;
    destruct a0 as [out1 m1]; injection H as <- <-; exists out1;
    (destruct (is_label_definition i); [|injection Ha as ->]); done.
Qed.

Lemma entry_address_S i rest c k j :
  cursors_ok c ->
  entry_address (step_cursors i c) rest k j = entry_address c (i :: rest) (S k) j.
Proof.
  intros Hc. unfold entry_address, step_cursors. cbn [take seg_size].
  destruct (emits_data_or_code i).
  - rewrite cursor_advance. case_decide; [|f_equal; lia].
    unfold u64. rewrite Z.add_mod_idemp_l by lia. f_equal. lia.
  - case_decide; f_equal; lia.
Qed.

Lemma step_cursors_ok i c : cursors_ok c -> cursors_ok (step_cursors i c).
Proof. unfold step_cursors. case_match; [apply advance_ok | done]. Qed.

(** The stream keeps its entries and their order; each emitting one gets its address. *)
Lemma assign_loop_lookup stream : forall m c out m' k i,
  cursors_ok c -> assign_loop stream m c = Ok (out, m') -> stream !! k = Some i ->
  out !! k = Some (place i (entry_address c stream k i)).
Proof.
  induction stream as [|j rest IH]; intros m c out m' k i Hc H Hk; [by rewrite lookup_nil in Hk|].
  apply assign_loop_cons in H as (m1 & out1 & _ & Hrest & ->).
  destruct k as [|k].
  - injection Hk as <-. simpl. do 2 f_equal.
    unfold entry_address. cbn. rewrite Z.add_0_r. symmetry. apply u64_small, Hc.
  - simpl in Hk |- *. rewrite (IH _ _ _ _ _ _ (step_cursors_ok j c Hc) Hrest Hk).
    by rewrite entry_address_S.
Qed.

Lemma assign_loop_length stream : forall m c out m',
  assign_loop stream m c = Ok (out, m') -> length out = length stream.
Proof.
  induction stream as [|j rest IH]; intros m c out m' H.
  - by injection H as <- <-.
  - apply assign_loop_cons in H as (m1 & out1 & _ & Hrest & ->). cbn. f_equal. by eapply IH.
Qed.

(** Labels already in the table keep their addresses. *)
Lemma assign_loop_keeps stream : forall m c out m' l a,
  assign_loop stream m c = Ok (out, m') -> defined_labels m !! l = Some a ->
  defined_labels m' !! l = Some a.
Proof.
  induction stream as [|j rest IH]; intros m c out m' l a H Hl.
  - by injection H as <- <-.
  - apply assign_loop_cons in H as (m1 & out1 & Hm & Hrest & ->).
    eapply IH; [exact Hrest|]. destruct (is_label_definition j); [|by subst].
    apply define_label_Ok in Hm as (Hn & -> & _). by rewrite lookup_insert_ne by congruence.
Qed.

(** A label gets the address of the next word of its segment. *)
Lemma assign_loop_label stream : forall m c out m' k i,
  cursors_ok c -> assign_loop stream m c = Ok (out, m') -> stream !! k = Some i ->
  is_label_definition i = true ->
  defined_labels m' !! target_label i = Some (entry_address c stream k i).
Proof.
  induction stream as [|j rest IH]; intros m c out m' k i Hc H Hk Hi; [by rewrite lookup_nil in Hk|].
  apply assign_loop_cons in H as (m1 & out1 & Hm & Hrest & ->).
  destruct k as [|k].
  - injection Hk as <-. rewrite Hi in Hm. apply define_label_Ok in Hm as (_ & Hd & _).
    eapply assign_loop_keeps; [exact Hrest|]. rewrite Hd, lookup_insert_eq. f_equal.
    unfold entry_address. cbn. rewrite Z.add_0_r. symmetry. apply u64_small, Hc.
  - simpl in Hk.
    rewrite (IH _ _ _ _ _ _ (step_cursors_ok j c Hc) Hrest Hk Hi). by rewrite entry_address_S.
Qed.

(** Pass 1 succeeds exactly when no label is defined twice. *)
Lemma assign_loop_Ok_iff stream : forall m c,
  is_ok (assign_loop stream m c) = true <->
  NoDup (labels stream) /\ (forall l, l ∈ labels stream -> defined_labels m !! l = None).
Proof.
  induction stream as [|i rest IH]; intros m c.
  - cbn. split; [intros _ | done]. split; [constructor | set_solver].
  - cbn [assign_loop].
    assert (Hstep : forall m1,
      is_ok (let '(new_instr, c0) :=
               if emits_data_or_code i
               then (set_address (cursor (segment i) c) i, advance (segment i) c) else (i, c) in
             '(finalized, manager) ← assign_loop rest m1 c0;
             Ok (new_instr :: finalized, manager))
      = is_ok (assign_loop rest m1 (step_cursors i c))).
    { intros m1. unfold step_cursors.
      destruct (emits_data_or_code i); destruct (assign_loop _ _ _) as [[? ?]|]; reflexivity. }
    unfold labels. rewrite filter_cons. destruct (is_label_definition i) eqn:Ei.
    + rewrite decide_True by done. cbn [fmap list_fmap]. fold (labels rest).
      unfold define_label, is_label_defined.
      destruct (defined_labels m !! target_label i) as [a|] eqn:El.
      * cbn. split; [discriminate|]. intros [_ H]. rewrite (H (target_label i)) in El; [done|left].
      * rewrite bind_ret_l, Hstep, IH. cbn [defined_labels]. rewrite list.NoDup_cons.
        split.
        -- intros [Hn Hd]. repeat split; [|done|].
           ++ intros Hin. specialize (Hd _ Hin). by rewrite lookup_insert_eq in Hd.
           ++ intros l [->|Hin]%elem_of_cons; [done|]. specialize (Hd _ Hin).
              by apply lookup_insert_None in Hd as [? _].
        -- intros [[Hni Hn] Hd]. split; [done|]. intros l Hin.
           rewrite lookup_insert_ne by congruence. apply Hd. by right.
    + rewrite decide_False by done. rewrite bind_ret_l, Hstep. apply IH.
Qed.

Lemma assign_loop_Throw stream : forall m c e,
  assign_loop stream m c = Throw e -> e = runtime_error.
Proof.
  induction stream as [|i rest IH]; intros m c e H; [discriminate|].
  cbn [assign_loop] in H.
  destruct (if is_label_definition i then _ else _) as [m1|e1] eqn:Em in H.
  - rewrite bind_ret_l in H. destruct (emits_data_or_code i);
      destruct (assign_loop rest _ _) as [[? ?]|e2] eqn:Er in H; cbn in H; try discriminate;
      injection H as <-; by eapply IH.
  - injection H as <-. unfold define_label in Em. repeat case_match; congruence.
Qed.

Lemma seg_size_le seg l : seg_size seg l <= 4 * Z.of_nat (length l).
Proof. induction l; cbn [seg_size length]; [lia|]. repeat case_match; lia. Qed.

Lemma seg_size_mod4 seg l : seg_size seg l mod 4 = 0.
Proof.
  induction l as [|i l IH]; [done|]. cbn [seg_size].
  repeat case_match; rewrite ?Z.add_0_l; [|done..].
  rewrite Z.add_comm, <-Z.add_mod_idemp_l, IH by lia. done.
Qed.

Lemma seg_size_take seg l k : seg_size seg (take k l) <= seg_size seg l.
Proof.
  rewrite <-(take_drop k l) at 2. rewrite seg_size_app.
  pose proof (seg_size_nonneg seg (drop k l)). lia.
Qed.

(** An emitting entry takes four more bytes than what precedes it. *)
Lemma seg_size_entry l k i :
  l !! k = Some i -> emits_data_or_code i = true ->
  seg_size (segment i) (take k l) + 4 <= seg_size (segment i) l.
Proof.
  intros Hk Hi. rewrite <-(take_drop_middle l k i Hk) at 2. rewrite seg_size_app.
  cbn [seg_size]. rewrite decide_True, Hi by done.
  pose proof (seg_size_nonneg (segment i) (drop (S k) l)). lia.
Qed.

(** A stream in which label definitions emit nothing ([as_label], [define_label]). *)
Definition labels_empty (stream : list Instruction) : Prop :=
  Forall (fun i => is_label_definition i = true -> emits_data_or_code i = false) stream.

Definition count_size (size : Z) (instr : Instruction) : Z :=
  match segment instr with
  | CODE => if negb (is_label_definition instr) then u64 (size + 4) else size
  | _ => size
  end.

Lemma code_size_bounds stream : forall n,
  labels_empty stream -> 0 <= n -> n + 4 * Z.of_nat (length stream) < 2 ^ 64 ->
  n + seg_size CODE stream <= foldl count_size n stream
  <= n + 4 * Z.of_nat (length stream).
Proof.
  induction stream as [|i rest IH]; intros n Hl Hn Hw; cbn [foldl seg_size length]; [lia|].
  apply list.Forall_cons in Hl as [Hi Hl]. cbn [length] in Hw.
  assert (Hc : n + (if decide (segment i = CODE) then if emits_data_or_code i then 4 else 0 else 0)
               <= count_size n i <= n + 4).
  { unfold count_size. destruct (decide (segment i = CODE)) as [E|E]; cbv iota.
    - rewrite E. destruct (is_label_definition i); cbn [negb].
      + rewrite Hi by done. lia.
      + rewrite u64_small by lia. case_match; lia.
    - destruct (segment i); [done | lia | lia]. }
  pose proof (seg_size_nonneg CODE [i]) as He. cbn [seg_size] in He.
  specialize (IH (count_size n i) Hl ltac:(lia) ltac:(lia)). lia.
Qed.

(** The code segment ends at least 16 KB before the page where read-only data starts. *)
Lemma rodata_after_code base size :
  0 <= base -> 0 <= size -> base + size + 2 ^ 15 < 2 ^ 64 ->
  rodata_start base size mod 4096 = 0
  /\ base + size + CODE_RODATA_GAP_BYTES <= rodata_start base size
     < base + size + CODE_RODATA_GAP_BYTES + 4096.
Proof.
  intros Hb Hs Hw. unfold rodata_start, CODE_RODATA_GAP_BYTES in *.
  rewrite u64_small by lia. fold (page_of (base + size + 16 * 1024 + 0xFFF)).
  rewrite page_of_mod. split; elia.
Qed.

(** ** Lemmas: the whole linker *)

Lemma performRelocations_lookup m rt l : forall out k i,
  performRelocations m rt l = Ok out -> l !! k = Some i ->
  exists i', relocate m rt i = Ok i' /\ out !! k = Some i'.
Proof.
  induction l as [|j l IH]; intros out k i H Hk; [by rewrite lookup_nil in Hk|].
  cbn [performRelocations] in H. inv_bind H. inv_bind H. injection H as <-.
  destruct k as [|k]; simpl in Hk |- *; [injection Hk as ->; eauto|]. by apply IH.
Qed.

(** Nothing but the encoding and the bookkeeping of the relocation is written. *)
Lemma relocate_address m rt i i' :
  relocate m rt i = Ok i' -> address i' = address i /\ segment i' = segment i.
Proof.
  unfold relocate. intros H. case_decide; [by injection H as <-|].
  destruct (string_empty (target_label i)); [by injection H as <-|].
  inv_bind H. cbn in H.
  destruct (relocation i); try (injection H as <-; done); inv_bind H; injection H as <-; done.
Qed.

(** A relocated branch, given its target. *)
Lemma relocate_branch m rt b i l t :
  relocation b = PC_RELATIVE_26_BIT_OFFSET -> string_empty (target_label b) = false ->
  resolve m rt (target_label b) = Ok t -> decode (encoding b) = Some (Branch l i) ->
  0 <= address b < 2 ^ 63 -> 0 <= t < 2 ^ 63 -> (t - address b) mod 4 = 0 ->
  exists b' j, relocate m rt b = Ok b' /\ decode (encoding b') = Some j
    /\ branch_offset j = Some (sext 28 (t - address b)).
Proof.
  intros Hr Ht Hres Hd Ha Htr Hm. unfold relocate.
  rewrite decide_False by (rewrite Hr; discriminate). rewrite Ht. cbn [target_label set_relocation_applied set_resolved_symbol_name].
  rewrite Hres, bind_ret_l. cbn [relocation set_relocation_applied set_resolved_symbol_name set_resolved_target_address].
  rewrite Hr. cbn [encoding address set_relocation_applied set_resolved_symbol_name set_resolved_target_address].
  destruct (relocate_branch_26 _ _ _ _ _ Hd Ha Htr Hm) as (w' & j & -> & Hj & _ & Ho).
  do 2 eexists. split; [reflexivity|]. by split.
Qed.

Lemma assign_entry stream m m' c out k i :
  cursors_ok c -> assign_loop stream m c = Ok (out, m') -> stream !! k = Some i ->
  emits_data_or_code i = true ->
  out !! k = Some (set_address (entry_address c stream k i) i).
Proof.
  intros Hc H Hk Hi. rewrite (assign_loop_lookup _ _ _ _ _ _ _ Hc H Hk).
  unfold place. by rewrite Hi.
Qed.

Lemma resolve_label m rt l a :
  is_function_registered rt l = false -> defined_labels m !! l = Some a ->
  resolve m rt l = Ok a.
Proof.
  intros Hr Hl. unfold resolve, is_label_defined, get_label_address. by rewrite Hr, Hl.
Qed.

Lemma process_Ok stream m rt base data out m' :
  process stream m rt base data = Ok (out, m') ->
  exists placed,
    assign_loop (instructions stream) m
      (mkCursors base (rodata_start base (code_segment_size (instructions stream))) data)
    = Ok (placed, m')
    /\ performRelocations m' rt placed = Ok out.
Proof.
  unfold process, assignAddressesAndResolveLabels. intros H.
  inv_bind H. destruct a as [placed m1]. inv_bind H. injection H as <- <-. eauto.
Qed.

Lemma rodata_start_range base size : 0 <= rodata_start base size < 2 ^ 64.
Proof.
  unfold rodata_start. set (z := u64 _). pose proof (u64_range (base + size + CODE_RODATA_GAP_BYTES + 0xFFF)) as Hz.
  fold z in Hz. fold (page_of z). rewrite page_of_mod. elia.
Qed.

Lemma initial_cursors_ok base size data :
  0 <= base < 2 ^ 64 -> 0 <= data < 2 ^ 64 ->
  cursors_ok (mkCursors base (rodata_start base size) data).
Proof.
  intros Hb Hd []; cbn [cursor code_cursor rodata_cursor data_cursor];
    [done | apply rodata_start_range | done].
Qed.

(** ** Properties *)

Section properties.
Context (stream : InstructionStream) (m : LabelManager) (rt : RuntimeManager).
Context (base data : Z) (out : list Instruction) (m' : LabelManager).

(** The cursors pass 1b starts with. *)
Definition initial_cursors : cursors :=
  mkCursors base (rodata_start base (code_segment_size (instructions stream))) data.

Lemma code_entry_range k i :
  0 <= base -> base + 4 * Z.of_nat (length (instructions stream)) < 2 ^ 63 ->
  segment i = CODE ->
  let a := entry_address initial_cursors (instructions stream) k i in
  a = base + seg_size CODE (take k (instructions stream))
  /\ base <= a <= base + 4 * Z.of_nat (length (instructions stream)).
Proof using.
  intros Hb Hl Hs. unfold entry_address. rewrite Hs. cbn [cursor initial_cursors code_cursor].
  pose proof (seg_size_nonneg CODE (take k (instructions stream))).
  pose proof (seg_size_take CODE (instructions stream) k).
  pose proof (seg_size_le CODE (instructions stream)).
  rewrite u64_small by lia. lia.
Qed.

(** C36: a branch of the stream lands on its label. When linking succeeds, a B or BL to a
    label of the code segment (and not the name of a runtime function) is patched so that
    its address plus its decoded displacement is the address of the first word emitted
    into the code segment after the label, for any stream below 128 MB. *)
Theorem process_branch_lands kb b link kl l kt i :
  process stream m rt base data = Ok (out, m') ->
  0 <= base -> base mod 4 = 0 -> 0 <= data < 2 ^ 64 ->
  base + 4 * Z.of_nat (length (instructions stream)) < 2 ^ 63 ->
  4 * Z.of_nat (length (instructions stream)) < 2 ^ 27 ->
  instructions stream !! kb = Some b -> segment b = CODE ->
  emits_data_or_code b = true -> relocation b = PC_RELATIVE_26_BIT_OFFSET ->
  decode (encoding b) = Some (Branch link 0) ->
  string_empty (target_label b) = false ->
  is_function_registered rt (target_label b) = false ->
  instructions stream !! kl = Some l -> is_label_definition l = true ->
  segment l = CODE -> target_label l = target_label b ->
  instructions stream !! kt = Some i -> segment i = CODE ->
  emits_data_or_code i = true ->
  seg_size CODE (take kt (instructions stream)) = seg_size CODE (take kl (instructions stream)) ->
  exists b' i' j off,
    out !! kb = Some b' /\ out !! kt = Some i' /\ decode (encoding b') = Some j
    /\ branch_offset j = Some off /\ address b' + off = address i'.
Proof using.
  intros H Hb Hb4 Hd Hlen Hlen27 Hkb Hsb Heb Hrb Hdb Htb Hrt Hkl Hl Hsl Htl Hkt Hsi Hei Hseg.
  apply process_Ok in H as (placed & Hp & Hr). fold initial_cursors in Hp.
  assert (Hc : cursors_ok initial_cursors) by (apply initial_cursors_ok; lia).
  pose proof (assign_entry _ _ _ _ _ _ _ Hc Hp Hkb Heb) as Hpb.
  pose proof (assign_entry _ _ _ _ _ _ _ Hc Hp Hkt Hei) as Hpi.
  pose proof (assign_loop_label _ _ _ _ _ _ _ Hc Hp Hkl Hl) as Hlab. rewrite Htl in Hlab.
  destruct (code_entry_range kb b Hb Hlen Hsb) as [Hab Habr].
  destruct (code_entry_range kl l Hb Hlen Hsl) as [Hal Halr].
  destruct (code_entry_range kt i Hb Hlen Hsi) as [Hai Hair].
  destruct (performRelocations_lookup _ _ _ _ _ _ Hr Hpb) as (b' & Hrelb & Hob).
  destruct (performRelocations_lookup _ _ _ _ _ _ Hr Hpi) as (i' & Hreli & Hoi).
  pose proof (relocate_address _ _ _ _ Hrelb) as [Hadb _].
  pose proof (relocate_address _ _ _ _ Hreli) as [Hadi _].
  cbn [address set_address] in Hadb, Hadi.
  pose proof (seg_size_mod4 CODE (take kb (instructions stream))).
  pose proof (seg_size_mod4 CODE (take kl (instructions stream))).
  destruct (relocate_branch m' rt (set_address (entry_address initial_cursors (instructions stream) kb b) b)
              0 link (entry_address initial_cursors (instructions stream) kl l))
    as (b'' & j & Hrel' & Hj & Hoff); cbn [relocation target_label encoding address set_address];
    [done | done | by apply resolve_label | done | lia | lia | rewrite Hal, Hab; elia |].
  rewrite Hrel' in Hrelb. injection Hrelb as ->.
  exists b', i', j. eexists. repeat split; [done.. |].
  cbn [address set_address] in *. rewrite sext_small by lia. lia.
Qed.

(** C37: the layout. When linking succeeds every entry is kept in its place; an entry that
    emits a word has the address of its segment's start plus the words emitted into that
    segment before it, and a label is defined at the address of the word that follows. *)
Theorem process_layout k i :
  process stream m rt base data = Ok (out, m') ->
  0 <= base < 2 ^ 64 -> 0 <= data < 2 ^ 64 ->
  instructions stream !! k = Some i ->
  let a := entry_address initial_cursors (instructions stream) k i in
  (exists i', out !! k = Some i' /\ segment i' = segment i
     /\ (emits_data_or_code i = true -> address i' = a))
  /\ (is_label_definition i = true -> get_label_address m' (target_label i) = Ok a).
Proof using.
  intros H Hb Hd Hk a. apply process_Ok in H as (placed & Hp & Hr).
  fold initial_cursors in Hp.
  assert (Hc : cursors_ok initial_cursors) by (by apply initial_cursors_ok).
  pose proof (assign_loop_lookup _ _ _ _ _ _ _ Hc Hp Hk) as Hpl. fold a in Hpl.
  destruct (performRelocations_lookup _ _ _ _ _ _ Hr Hpl) as (i' & Hrel & Ho).
  apply relocate_address in Hrel as [Ha Hs]. unfold place in *. split.
  - exists i'. split; [done|]. destruct (emits_data_or_code i); by split.
  - intros Hl. unfold get_label_address.
    by rewrite (assign_loop_label _ _ _ _ _ _ _ Hc Hp Hk Hl).
Qed.

(** The segments do not run into each other. With label definitions that emit nothing,
    every code word lies between the code base and the computed end of the code segment,
    which is 16 to 20 KB below the page-aligned start of the read-only data. *)
Theorem process_code_below_rodata k i :
  0 <= base -> base + 4 * Z.of_nat (length (instructions stream)) + 2 ^ 15 < 2 ^ 64 ->
  labels_empty (instructions stream) ->
  instructions stream !! k = Some i -> segment i = CODE -> emits_data_or_code i = true ->
  let size := code_segment_size (instructions stream) in
  let rodata := rodata_start base size in
  base <= entry_address initial_cursors (instructions stream) k i
  /\ entry_address initial_cursors (instructions stream) k i + 4 <= base + size
  /\ rodata mod 4096 = 0
  /\ base + size + CODE_RODATA_GAP_BYTES <= rodata < base + size + CODE_RODATA_GAP_BYTES + 4096.
Proof using.
  intros Hb Hl He Hk Hs Hi size rodata.
  pose proof (code_size_bounds (instructions stream) 0 He ltac:(lia) ltac:(lia)) as Hsz.
  change (foldl count_size 0 (instructions stream)) with size in Hsz.
  pose proof (seg_size_entry _ _ _ Hk Hi) as Hent. rewrite Hs in Hent.
  pose proof (seg_size_nonneg CODE (take k (instructions stream))).
  pose proof (seg_size_nonneg CODE (instructions stream)).
  destruct (rodata_after_code base size) as [Hr1 Hr2]; [lia.. |].
  unfold entry_address. rewrite Hs. cbn [cursor initial_cursors code_cursor].
  rewrite u64_small by lia. repeat split; [lia | lia | done | lia | lia].
Qed.
End properties.

(** ** Witnesses *)

(** [B end; B end; end: NOP], linked at 0x1000. *)
Definition sample_branch : Instruction :=
  set_target_label "end" (set_relocation PC_RELATIVE_26_BIT_OFFSET
    (Instruction_new 0x14000000 "B end")).
Definition sample_label : Instruction := as_label "end" CODE.
Definition sample_nop : Instruction := Instruction_new 0xD503201F "NOP".

Definition sample_stream : InstructionStream :=
  let s := add (add (mkInstructionStream []) sample_branch) sample_branch in
  add (stream_define_label s "end") sample_nop.

Definition sample_linked : list Instruction * LabelManager :=
  match process sample_stream LabelManager_empty RuntimeManager_empty 0x1000 0x100000 with
  | Ok r => r
  | Throw _ => ([], LabelManager_empty)
  end.

Lemma process_branch_lands_witness :
  exists b' i' j off,
    sample_linked.1 !! 0%nat = Some b' /\ sample_linked.1 !! 3%nat = Some i'
    /\ decode (encoding b') = Some j /\ branch_offset j = Some off
    /\ address b' + off = address i'.
Proof.
  apply (process_branch_lands sample_stream LabelManager_empty RuntimeManager_empty 0x1000
           0x100000 sample_linked.1 sample_linked.2 0 sample_branch false 2 sample_label
           3 sample_nop);
    first [lia | vm_compute; first [reflexivity | split; [discriminate | reflexivity]]].
Defined.

Lemma process_layout_witness :
  exists i', sample_linked.1 !! 3%nat = Some i' /\ address i' = 0x1008.
Proof.
  destruct (process_layout sample_stream LabelManager_empty RuntimeManager_empty 0x1000
              0x100000 sample_linked.1 sample_linked.2 3 sample_nop)
    as [(i' & Hi & _ & Ha) _]; [vm_compute; reflexivity | lia | lia | reflexivity |].
  exists i'. split; [exact Hi|]. rewrite Ha by reflexivity. vm_compute. reflexivity.
Defined.

Lemma process_code_below_rodata_witness :
  0x1000 + 12 + CODE_RODATA_GAP_BYTES <= rodata_start 0x1000 12.
Proof.
  apply (process_code_below_rodata sample_stream 0x1000 0x100000 3 sample_nop);
    [lia | cbn; lia | repeat constructor; discriminate | reflexivity..].
Defined.

(** ** Properties of the passes *)

(** Pass 1 succeeds exactly when the labels of the stream are
    pairwise distinct and none is already defined; otherwise it throws
    [std::runtime_error]. *)
Theorem labels_link_iff_unique stream m base data :
  let r := assignAddressesAndResolveLabels stream m base data in
  (is_ok r = true <->
   NoDup (labels stream) /\ (forall l, l ∈ labels stream -> is_label_defined m l = false))
  /\ (is_ok r = false -> r = Throw runtime_error).
Proof.
  cbv zeta. unfold assignAddressesAndResolveLabels. split.
  - rewrite assign_loop_Ok_iff. apply and_iff_compat_l. unfold is_label_defined.
    split; intros H l Hl; specialize (H l Hl); destruct (defined_labels m !! l); done.
  - destruct (assign_loop _ _ _) as [|e] eqn:E; [discriminate|].
    by apply assign_loop_Throw in E as ->.
Qed.

(** The branch relocation does not check its range: for any two
    addresses of the same alignment the decoded displacement is the distance reduced modulo
    the reach of the field (2^28 bytes for B and BL), so a target out of reach is replaced
    by another address instead of being reported. *)
Theorem branch_relocation_wraps w link x a t :
  decode w = Some (Branch link x) ->
  0 <= a < 2 ^ 63 -> 0 <= t < 2 ^ 63 -> (t - a) mod 4 = 0 ->
  exists w' x', apply_pc_relative_relocation w a t PC_RELATIVE_26_BIT_OFFSET = Ok w'
    /\ decode w' = Some (Branch link x')
    /\ branch_offset (Branch link x') = Some (sext 28 (t - a))
    /\ ((-2 ^ 27 <= t - a < 2 ^ 27) <-> a + 4 * sext 26 x' = t).
Proof.
  intros Hw Ha Ht Hd.
  destruct (relocate_branch_26 w link x a t Hw Ha Ht Hd) as (w' & i & Hr & Hi & (x' & ->) & Ho).
  exists w', x'. split; [done|]. split; [done|]. split; [done|].
  cbn [branch_offset] in Ho. injection Ho as Ho. rewrite Ho.
  pose proof (sext_range 28 (t - a) ltac:(lia)). split; intros Hx.
  - rewrite sext_small by lia. lia.
  - lia.
Qed.

Lemma branch_relocation_wraps_witness :
  exists w' x', apply_pc_relative_relocation 0x14000000 0x1000 0x20001000 PC_RELATIVE_26_BIT_OFFSET
                = Ok w'
    /\ decode w' = Some (Branch false x')
    /\ branch_offset (Branch false x') = Some (sext 28 (0x20001000 - 0x1000))
    /\ ((-2 ^ 27 <= 0x20001000 - 0x1000 < 2 ^ 27) <-> 0x1000 + 4 * sext 26 x' = 0x20001000).
Proof.
  apply (branch_relocation_wraps 0x14000000 false 0 0x1000 0x20001000);
    [vm_compute; reflexivity | lia | lia | reflexivity].
Defined.

(** An ADRP and an ADD (literal) relocated against the same target
    compute its address: the page ADRP forms plus the twelve bits ADD adds, for every
    target whose page is within 4 GB of the instruction's. *)
Theorem adrp_add_address w1 w2 p q rd rn rd2 a a2 t :
  decode w1 = Some (PCRel true p q rd) -> decode w2 = Some (ADDi true rd2 rn 0) ->
  0 <= a < 2 ^ 63 -> 0 <= t < 2 ^ 63 -> - 2 ^ 32 <= page_of t - page_of a < 2 ^ 32 ->
  exists w1' w2' i page imm,
    apply_pc_relative_relocation w1 a t PAGE_21_BIT_PC_RELATIVE = Ok w1'
    /\ apply_pc_relative_relocation w2 a2 t ADD_12_BIT_UNSIGNED_OFFSET = Ok w2'
    /\ decode w1' = Some i /\ pcrel_target a i = Some page
    /\ decode w2' = Some (ADDi true rd2 rn imm)
    /\ page + imm = t.
Proof.
  intros H1 H2 Ha Ht Hp.
  destruct (relocate_adrp w1 p q rd a t H1 Ha Ht) as (w1' & i & Hr1 & Hi & _ & Hpage).
  destruct (relocate_lo12 w2 _ _ _ _ _ _ _ a2 t H2) as (w2' & Hr2 & Hd2).
  exists w1', w2', i. eexists. exists (t mod 4096). repeat split; try eassumption.
  rewrite sext_small by lia. rewrite (page_of_mod t). lia.
Qed.

Lemma adrp_add_address_witness :
  exists w1' w2' i page imm,
    apply_pc_relative_relocation 0x90000001 0x10004 0x12345678 PAGE_21_BIT_PC_RELATIVE = Ok w1'
    /\ apply_pc_relative_relocation 0x91000021 0x10008 0x12345678 ADD_12_BIT_UNSIGNED_OFFSET
       = Ok w2'
    /\ decode w1' = Some i /\ pcrel_target 0x10004 i = Some page
    /\ decode w2' = Some (ADDi true 1 1 imm) /\ page + imm = 0x12345678.
Proof.
  apply (adrp_add_address 0x90000001 0x91000021 0 0 1 1 1 0x10004 0x10008 0x12345678);
    [vm_compute; reflexivity | vm_compute; reflexivity | lia | lia |].
  vm_compute. split; [discriminate | reflexivity].
Defined.
