(* ===== verification/Machine.v ===== *)
(** * A small A64 machine

    The instructions of the call frames, of the address-loading sequences and of integer
    expressions, executed on the decoded form: general registers, SP, 64-bit words of memory
    and the flags the compiled comparisons read, with the stack-pointer and natural alignment
    checks of the architecture.  Like [A64] it is a
    reference, not a translation; an instruction it does not know makes it stop.  The second
    half proves that the MOVZ/MOVK sequences of src/encoders/enc_create_movz_movk_*.cpp load
    their address. *)

From S2P Require Import Prelude Words A64 Instr EncReg EncSpec EncArith EncBranch.
Local Open Scope Z_scope.

(** ** State *)

(** The flags of the last comparison: Z, and N different from V (signed less). *)
Record flags : Type := mkFlags { zero_flag : bool; less_flag : bool }.

Record machine : Type := mkMachine {
  xreg : Z -> Z;
  sp : Z;
  mem : Z -> Z;
  nzcv : flags
}.

Definition upd (f : Z -> Z) (k v : Z) : Z -> Z := fun i => if i =? k then v else f i.

(** Register 31 is the zero register ... *)
Definition rget (m : machine) (n : Z) : Z := if n =? 31 then 0 else xreg m n.
Definition rset (m : machine) (n v : Z) : machine :=
  if n =? 31 then m else mkMachine (upd (xreg m) n v) (sp m) (mem m) (nzcv m).
(** ... or the stack pointer. *)
Definition rget_sp (m : machine) (n : Z) : Z := if n =? 31 then sp m else xreg m n.
Definition rset_sp (m : machine) (n v : Z) : machine :=
  if n =? 31 then mkMachine (xreg m) v (mem m) (nzcv m)
  else mkMachine (upd (xreg m) n v) (sp m) (mem m) (nzcv m).

Definition set_mem (m : machine) (a v : Z) : machine :=
  mkMachine (xreg m) (sp m) (upd (mem m) a v) (nzcv m).
Definition set_flags (m : machine) (f : flags) : machine :=
  mkMachine (xreg m) (sp m) (mem m) f.

(** What [SUBS] of two 64-bit words leaves. *)
Definition compare_flags (a b : Z) : flags :=
  mkFlags (u64 (a - b) =? 0) (sext 64 a <? sext 64 b).

Definition cond_holds (f : flags) (cond : Z) : option bool :=
  match cond with
  | 0 => Some (zero_flag f)
  | 1 => Some (negb (zero_flag f))
  | 10 => Some (negb (less_flag f))
  | 11 => Some (less_flag f)
  | 12 => Some (negb (zero_flag f || less_flag f))
  | 13 => Some (zero_flag f || less_flag f)
  | _ => None
  end.

(** A base register that is SP must be 16-byte aligned. *)
Definition base_ok (m : machine) (rn : Z) : bool := negb (rn =? 31) || (sp m mod 16 =? 0).

Inductive outcome : Type :=
  | Next (m : machine)
  | Taken (m : machine) (offset : Z)
  | Return (m : machine) (target : Z)
  | Stuck.

(** [MOVK]: the half-word at bit [s] of [v] is replaced. *)
Definition insert_half (v s imm : Z) : Z := v - 2 ^ s * bits v s 16 + 2 ^ s * imm.

(** Data processing on two words; [None] for the operations that are not modelled. *)
Definition dp2 (opcode a b : Z) : option Z :=
  match opcode with
  | 3 => Some (if b =? 0 then 0 else u64 (Z.quot (sext 64 a) (sext 64 b)))
  | 8 => Some (u64 (Z.shiftl a (b mod 64)))
  | 9 => Some (Z.shiftr a (b mod 64))
  | 10 => Some (u64 (Z.shiftr (sext 64 a) (b mod 64)))
  | _ => None
  end.

Definition logical (opc a b : Z) : option Z :=
  match opc with
  | 0 => Some (Z.land a b)
  | 1 => Some (Z.lor a b)
  | 2 => Some (Z.lxor a b)
  | _ => None
  end.

Definition set_result (m : machine) (rd : Z) (v : option Z) : outcome :=
  match v with Some v => Next (rset m rd v) | None => Stuck end.

Definition exec (m : machine) (i : insn) : outcome :=
  match i with
  | MovWide true 2 hw imm rd => Next (rset m rd (imm * 2 ^ (16 * hw)))
  | MovWide true 3 hw imm rd => Next (rset m rd (insert_half (rget m rd) (16 * hw) imm))
  | AddSubImm true sub false 0 imm rn rd =>
      Next (rset_sp m rd (u64 (if sub then rget_sp m rn - imm else rget_sp m rn + imm)))
  | AddSubImm true true true 0 imm rn 31 =>
      Next (set_flags m (compare_flags (rget_sp m rn) imm))
  | AddSubShifted true true true 0 rm 0 rn 31 =>
      Next (set_flags m (compare_flags (rget m rn) (rget m rm)))
  | AddSubShifted true sub false 0 rm 0 rn rd =>
      Next (rset m rd (u64 (if sub then rget m rn - rget m rm else rget m rn + rget m rm)))
  | LogShifted true opc 0 inv rm amount rn rd =>
      let b := u64 (Z.shiftl (rget m rm) amount) in
      set_result m rd (logical opc (rget m rn) (if inv =? 1 then 2 ^ 64 - 1 - b else b))
  | DP2 true rm opcode rn rd => set_result m rd (dp2 opcode (rget m rn) (rget m rm))
  | DP3 true 0 rm 0 ra rn rd => Next (rset m rd (u64 (rget m ra + rget m rn * rget m rm)))
  | CondSel true inv rm cond op2 rn rd =>
      match cond_holds (nzcv m) cond with
      | Some true => Next (rset m rd (rget m rn))
      | Some false =>
          let b := if inv then 2 ^ 64 - 1 - rget m rm else rget m rm in
          Next (rset m rd (u64 (b + op2)))
      | None => Stuck
      end
  | LdStUImm 3 0 opc imm12 rn rt =>
      let a := u64 (rget_sp m rn + 8 * imm12) in
      if base_ok m rn && (a mod 8 =? 0) then
        match opc with
        | 0 => Next (set_mem m a (rget m rt))
        | 1 => Next (rset m rt (mem m a))
        | _ => Stuck
        end
      else Stuck
  | LdStPair 2 0 3 0 imm7 rt2 rn rt =>
      let a := u64 (rget_sp m rn + 8 * sext 7 imm7) in
      if base_ok m rn && (a mod 8 =? 0) then
        let m := set_mem (set_mem m a (rget m rt)) (u64 (a + 8)) (rget m rt2) in
        Next (rset_sp m rn a)
      else Stuck
  | BranchCond imm19 cond =>
      match cond_holds (nzcv m) cond with
      | Some taken => if taken then Taken m (4 * sext 19 imm19) else Next m
      | None => Stuck
      end
  | BranchReg 2 rn => Return m (rget m rn)
  | _ => Stuck
  end.

(** Straight-line execution of instruction words: [Next] while every instruction falls
    through; a return, a taken branch or a stop ends it. *)
Fixpoint run (m : machine) (ws : list Z) : outcome :=
  match ws with
  | [] => Next m
  | w :: ws =>
      match decode w with
      | None => Stuck
      | Some i => match exec m i with Next m => run m ws | o => o end
      end
  end.

Definition run_instrs (m : machine) (instrs : list Instruction) : outcome :=
  run m (encoding <$> instrs).

Lemma run_app m ws1 ws2 :
  run m (ws1 ++ ws2) = match run m ws1 with Next m' => run m' ws2 | o => o end.
Proof.
  revert m. induction ws1 as [|w ws1 IH]; intros m; [done|]. cbn [run app].
  destruct (decode w) as [i|]; [destruct (exec m i); [apply IH|done..] | done].
Qed.

Lemma run_one m i d : decode (encoding i) = Some d -> run_instrs m [i] = exec m d.
Proof. intros H. unfold run_instrs. cbn. rewrite H. by destruct (exec m d). Qed.

Lemma run_cons m i instrs d :
  decode (encoding i) = Some d ->
  run_instrs m (i :: instrs) = match exec m d with Next m' => run_instrs m' instrs | o => o end.
Proof. intros H. unfold run_instrs. cbn. by rewrite H. Qed.

Lemma upd_same f k v : upd f k v k = v.
Proof. unfold upd. by rewrite Z.eqb_refl. Qed.

Lemma upd_other f k v i : i <> k -> upd f k v i = f i.
Proof. unfold upd. intros H. by replace (i =? k) with false by lia. Qed.

(** The same machine but for one general register. *)
Definition only_reg (rd : Z) (m m' : machine) : Prop :=
  sp m' = sp m /\ mem m' = mem m /\ nzcv m' = nzcv m
  /\ forall r, r <> rd -> xreg m' r = xreg m r.

Lemma only_reg_refl rd m : only_reg rd m m.
Proof. done. Qed.

Lemma only_reg_trans rd m1 m2 m3 :
  only_reg rd m1 m2 -> only_reg rd m2 m3 -> only_reg rd m1 m3.
Proof.
  intros (? & ? & ? & Ha) (? & ? & ? & Hb). repeat split; try congruence.
  intros r Hr. by rewrite Hb, Ha.
Qed.

#[export] Instance only_reg_preorder rd : PreOrder (only_reg rd).
Proof. split; [exact (only_reg_refl rd) | exact (only_reg_trans rd)]. Qed.

Lemma only_reg_rset rd m v : rd <> 31 -> only_reg rd m (rset m rd v).
Proof.
  intros H. unfold rset. replace (rd =? 31) with false by lia. repeat split.
  intros r Hr. cbn. by rewrite upd_other.
Qed.

(** ** Loading an address *)

Section load_address.
Context (xd symbol : string) (rd a : Z).
Context (Hname : parse_register_zr xd = Ok (rd, true)) (Hrd : rd <> 31).
Context (Ha : 0 <= a < 2 ^ 64).

(** What has been loaded before half-word [k]: nothing but zeros when no instruction has
    been emitted yet. *)
Definition loaded (is_first : bool) (k : Z) (m : machine) : Prop :=
  if is_first then a mod 2 ^ (16 * k) = 0 else xreg m rd = a mod 2 ^ (16 * k).

Lemma mod_next_half k :
  0 <= k -> a mod 2 ^ (16 * (k + 1)) = a mod 2 ^ (16 * k) + 2 ^ (16 * k) * bits a (16 * k) 16.
Proof using.
  intros Hk. rewrite bits_mod by lia.
  replace (16 * (k + 1)) with (16 * k + 16) by lia. rewrite Z.pow_add_r by lia.
  rewrite Z.rem_mul_r by lia. lia.
Qed.

(** One emitted half-word. *)
Lemma load_half (is_first : bool) k rel m :
  0 <= k <= 3 -> loaded is_first k m ->
  exists i m',
    (if is_first then create_movz_imm xd (bits a (16 * k) 16) (16 * k) rel symbol
     else create_movk_imm xd (bits a (16 * k) 16) (16 * k) rel symbol) = Ok i
    /\ jit_attribute i = JitNone
    /\ run_instrs m [i] = Next m' /\ loaded false (k + 1) m' /\ only_reg rd m m'.
Proof using Hname Hrd.
  intros Hk Hl. pose proof (bits_range a (16 * k) 16 ltac:(lia) ltac:(lia)) as Hb.
  assert (Hv : valid_hw true (16 * k) = true) by (unfold valid_hw; lia).
  assert (Hq : 16 * k / 16 = k) by (rewrite Z.mul_comm; apply Z.div_mul; lia).
  pose proof (mod_next_half k ltac:(lia)) as Hm.
  destruct is_first; unfold loaded in *.
  - pose proof (create_movz_imm_ok xd _ (16 * k) rel symbol Hb) as H.
    rewrite Hname, Hv in H. destruct H as (i & Hi & He & _ & _ & _ & Hj).
    exists i. eexists. split; [exact Hi|]. split; [exact Hj|].
    destruct He as (_ & Hd & _). unfold MOVZi in Hd. rewrite Hq in Hd.
    rewrite (run_one _ _ _ Hd). cbn [exec]. split; [reflexivity|].
    split; [|by apply only_reg_rset]. unfold rset. replace (rd =? 31) with false by lia.
    cbn [xreg]. rewrite upd_same. lia.
  - pose proof (create_movk_imm_ok xd _ (16 * k) rel symbol Hb) as H.
    rewrite Hname, Hv in H. destruct H as (i & Hi & He & _ & _ & _ & Hj).
    exists i. eexists. split; [exact Hi|]. split; [exact Hj|].
    destruct He as (_ & Hd & _). unfold MOVKi in Hd. rewrite Hq in Hd.
    rewrite (run_one _ _ _ Hd). cbn [exec]. split; [reflexivity|].
    split; [|by apply only_reg_rset]. unfold rset, rget. replace (rd =? 31) with false by lia.
    cbn [xreg]. rewrite upd_same, Hl. unfold insert_half.
    replace (bits (a mod 2 ^ (16 * k)) (16 * k) 16) with 0; [lia|].
    pose proof (Z.mod_pos_bound a (2 ^ (16 * k)) ltac:(lia)) as Hr.
    rewrite bits_mod by lia. rewrite Z.div_small by lia. reflexivity.
Qed.

(** The chunk of half-word [k], as [address_chunks] lists it. *)
Definition chunk_rel (k : Z) : RelocationType :=
  nth (Z.to_nat k) [MOVZ_MOVK_IMM_0; MOVZ_MOVK_IMM_16; MOVZ_MOVK_IMM_32; MOVZ_MOVK_IMM_48] NONE.

Fixpoint chunks_from (n : nat) (k : Z) : list (Z * Z * RelocationType) :=
  match n with
  | O => []
  | S n => (bits a (16 * k) 16, 16 * k, chunk_rel k) :: chunks_from n (k + 1)
  end.

Lemma emit_chunks_loads n : forall k is_first m,
  0 <= k -> k + Z.of_nat n = 4 -> loaded is_first k m -> (is_first = true -> a <> 0) ->
  exists instrs m', emit_chunks xd symbol is_first (chunks_from n k) = Ok instrs
    /\ Z.of_nat (length instrs) <= Z.of_nat n
    /\ run_instrs m instrs = Next m' /\ xreg m' rd = a /\ only_reg rd m m'.
Proof using Hname Hrd Ha.
  induction n as [|n IH]; intros k is_first m Hk Hn Hl Hz.
  - cbn in Hn. replace k with 4 in Hl by lia. exists [], m. cbn.
    unfold loaded in Hl. change (16 * 4) with 64 in Hl. rewrite Z.mod_small in Hl by lia.
    destruct is_first; [by specialize (Hz eq_refl)|]. repeat split; try done; lia.
  - cbn [chunks_from emit_chunks]. destruct (bits a (16 * k) 16 =? 0) eqn:E; bool_to_prop.
    + destruct (IH (k + 1) is_first m) as (instrs & m' & He & Hlen & Hrun & Hx & Ho);
        [lia | lia | | done |].
      { unfold loaded in *. by rewrite mod_next_half, E, Z.mul_0_r, Z.add_0_r by lia. }
      exists instrs, m'. split; [done|]. split; [lia|]. done.
    + destruct (load_half is_first k (chunk_rel k) m) as (i & m1 & Hi & _ & Hr1 & Hl1 & Ho1);
        [lia | done |].
      destruct (IH (k + 1) false m1) as (instrs & m' & He & Hlen & Hrun & Hx & Ho);
        [lia | lia | done | done |].
      exists (i :: instrs), m'. rewrite Hi, bind_ret_l, He, bind_ret_l.
      split; [done|]. split; [cbn [length]; lia|]. split.
      { unfold run_instrs in *. cbn [fmap list_fmap]. cbn [fmap list_fmap] in Hr1.
        change (encoding i :: (encoding <$> instrs)) with ([encoding i] ++ (encoding <$> instrs)).
        rewrite run_app, Hr1. exact Hrun. }
      split; [done|]. by etrans.
Qed.

Lemma address_chunks_from : address_chunks a = chunks_from 4 0.
Proof using. reflexivity. Qed.

End load_address.

(** Four instructions run one after the other; their JIT tags do not matter. *)
Lemma run_four m m0 m1 m2 m3 i0 i1 i2 i3 :
  run_instrs m [i0] = Next m0 -> run_instrs m0 [i1] = Next m1 ->
  run_instrs m1 [i2] = Next m2 -> run_instrs m2 [i3] = Next m3 ->
  run_instrs m [set_jit_attribute JitAddress i0; set_jit_attribute JitAddress i1;
                set_jit_attribute JitAddress i2; set_jit_attribute JitAddress i3] = Next m3.
Proof.
  unfold run_instrs. cbn [fmap list_fmap encoding set_jit_attribute]. intros R0 R1 R2 R3.
  change ([encoding i0; encoding i1; encoding i2; encoding i3])
    with ([encoding i0] ++ [encoding i1] ++ [encoding i2] ++ [encoding i3]).
  rewrite run_app, R0, run_app, R1, run_app, R2. exact R3.
Qed.

(** What the two loaders of an address are proved to do. *)
Definition loads (code : result (list Instruction)) (rd a : Z)
    (shape : list Instruction -> Prop) : Prop :=
  exists instrs, code = Ok instrs /\ shape instrs
    /\ forall m, exists m', run_instrs m instrs = Next m' /\ xreg m' rd = a /\ only_reg rd m m'.

Lemma abs64_loads xd symbol rd a :
  parse_register_zr xd = Ok (rd, true) -> rd <> 31 -> 0 <= a < 2 ^ 64 ->
  loads (create_movz_movk_abs64 xd a symbol) rd a (fun instrs => (length instrs <= 4)%nat).
Proof.
  intros Hname Hrd Ha. set (m := mkMachine (fun _ => 0) 0 (fun _ => 0) (mkFlags false false)).
  assert (H : forall m, exists instrs m', create_movz_movk_abs64 xd a symbol = Ok instrs
    /\ (length instrs <= 4)%nat
    /\ run_instrs m instrs = Next m' /\ xreg m' rd = a /\ only_reg rd m m').
  { clear m. intros m. unfold create_movz_movk_abs64. destruct (a =? 0) eqn:E; bool_to_prop.
    - subst a.
      destruct (load_half xd symbol rd 0 Hname Hrd true 0 MOVZ_MOVK_IMM_0 m)
        as (i & m' & Hi & _ & Hr & Hl & Ho); [lia | done |].
      exists [i], m'. change (bits 0 (16 * 0) 16) with 0 in Hi. change (16 * 0) with 0 in Hi.
      rewrite Hi, bind_ret_l. cbn [length]. repeat split; try done; try lia; apply Ho.
    - rewrite address_chunks_from.
      destruct (emit_chunks_loads xd symbol rd a Hname Hrd Ha 4 0 true m)
        as (instrs & m' & He & Hlen & Hrun & Hx & Ho); [lia | done | apply Z.mod_1_r | done |].
      exists instrs, m'. split; [done|]. split; [lia | done]. }
  destruct (H m) as (instrs & _ & Hi & Hlen & _). exists instrs. split; [done|]. split; [done|].
  intros m'. destruct (H m') as (instrs' & m2 & Hi' & _ & Hr). exists m2.
  rewrite Hi in Hi'. by injection Hi' as <-.
Qed.

Lemma jit_addr_loads xd symbol rd a :
  parse_register_zr xd = Ok (rd, true) -> rd <> 31 -> 0 <= a < 2 ^ 64 ->
  loads (create_movz_movk_jit_addr xd a symbol) rd a
    (fun instrs => length instrs = 4%nat
       /\ Forall (fun i => jit_attribute i = JitAddress) instrs).
Proof.
  intros Hname Hrd Ha. set (m := mkMachine (fun _ => 0) 0 (fun _ => 0) (mkFlags false false)).
  assert (H : forall m, exists instrs m', create_movz_movk_jit_addr xd a symbol = Ok instrs
    /\ length instrs = 4%nat /\ Forall (fun i => jit_attribute i = JitAddress) instrs
    /\ run_instrs m instrs = Next m' /\ xreg m' rd = a /\ only_reg rd m m').
  { clear m. intros m. unfold create_movz_movk_jit_addr.
    destruct (load_half xd symbol rd a Hname Hrd true 0 NONE m)
      as (i0 & m0 & H0 & _ & R0 & L0 & O0); [lia | apply Z.mod_1_r |].
    destruct (load_half xd symbol rd a Hname Hrd false 1 NONE m0)
      as (i1 & m1 & H1 & _ & R1 & L1 & O1); [lia | done |].
    destruct (load_half xd symbol rd a Hname Hrd false 2 NONE m1)
      as (i2 & m2 & H2 & _ & R2 & L2 & O2); [lia | done |].
    destruct (load_half xd symbol rd a Hname Hrd false 3 NONE m2)
      as (i3 & m3 & H3 & _ & R3 & L3 & O3); [lia | done |].
    change (Z.land (Z.shiftr a 0) 0xFFFF) with (bits a (16 * 0) 16).
    change (Z.land (Z.shiftr a 16) 0xFFFF) with (bits a (16 * 1) 16).
    change (Z.land (Z.shiftr a 32) 0xFFFF) with (bits a (16 * 2) 16).
    change (Z.land (Z.shiftr a 48) 0xFFFF) with (bits a (16 * 3) 16).
    change (create_movz_imm xd (bits a (16 * 0) 16) 0 NONE symbol = Ok i0) in H0.
    change (create_movk_imm xd (bits a (16 * 1) 16) 16 NONE symbol = Ok i1) in H1.
    change (create_movk_imm xd (bits a (16 * 2) 16) 32 NONE symbol = Ok i2) in H2.
    change (create_movk_imm xd (bits a (16 * 3) 16) 48 NONE symbol = Ok i3) in H3.
    cbv zeta.
    eexists _, m3. rewrite H0, bind_ret_l, H1, bind_ret_l, H2, bind_ret_l, H3, bind_ret_l.
    split; [reflexivity|]. split; [reflexivity|]. split; [by repeat constructor|].
    split; [exact (run_four _ _ _ _ _ _ _ _ _ R0 R1 R2 R3)|]. split.
    + unfold loaded in L3. rewrite L3. apply Z.mod_small. exact Ha.
    + etrans; [exact O0|]. etrans; [exact O1|]. by etrans. }
  destruct (H m) as (instrs & _ & Hi & Hlen & Hj & _). exists instrs.
  split; [done|]. split; [done|].
  intros m'. destruct (H m') as (instrs' & m2 & Hi' & _ & _ & Hr). exists m2.
  rewrite Hi in Hi'. by injection Hi' as <-.
Qed.

(** The MOVZ/MOVK sequence for an X register (other than 31) and
    any 64-bit address is at most four instructions long and, executed, leaves the address
    in the register and everything else unchanged; so does the four-instruction sequence of
    the JIT, all of whose instructions are tagged as JIT addresses. *)
Theorem movz_movk_loads_address xd symbol rd a :
  parse_register_zr xd = Ok (rd, true) -> rd <> 31 -> 0 <= a < 2 ^ 64 ->
  loads (create_movz_movk_abs64 xd a symbol) rd a (fun instrs => (length instrs <= 4)%nat)
  /\ loads (create_movz_movk_jit_addr xd a symbol) rd a
       (fun instrs => length instrs = 4%nat
          /\ Forall (fun i => jit_attribute i = JitAddress) instrs).
Proof. intros Hname Hrd Ha. split; [by apply abs64_loads | by apply jit_addr_loads]. Qed.

Lemma movz_movk_loads_address_witness :
  loads (create_movz_movk_abs64 "X9" 0xDEADBEEF00001234 "") 9 0xDEADBEEF00001234
    (fun instrs => (length instrs <= 4)%nat).
Proof.
  apply (movz_movk_loads_address "X9" "" 9 0xDEADBEEF00001234);
    [vm_compute; reflexivity | lia | lia].
Defined.
