(* ===== verification/CallFrame.v ===== *)
(** * Call frames

    [CallFrameManager] (src/CallFrameManager.cpp, src/cf_*.cpp): the layout of a function's
    stack frame and the prologue and epilogue that create and remove it.  The static flag
    [enable_stack_canaries] is the argument [canaries]; a method that can throw after it has
    changed the object returns the object and the outcome.  C++ [int]s are unbounded here:
    sizes and offsets stay far below 2^31.  [CallFrameProof] executes the generated code. *)

From S2P Require Import Prelude Words A64 Instr EncReg EncSpec EncArith EncMem EncBranch.
Local Open Scope Z_scope.

(** ** Variable types (src/DataTypes.h): bit sets *)

Definition VarType : Type := Z.
Definition VT_UNKNOWN : VarType := 0.
Definition VT_INTEGER : VarType := 1.
Definition VT_FLOAT : VarType := 2.
Definition VT_VEC : VarType := 256.
Definition VT_POINTER_TO : VarType := 4096.
Definition POINTER_TO_INT_VEC : VarType := Z.lor (Z.lor VT_POINTER_TO VT_VEC) VT_INTEGER.
Definition POINTER_TO_FLOAT_VEC : VarType := Z.lor (Z.lor VT_POINTER_TO VT_VEC) VT_FLOAT.

Definition get_size_for_type (type : VarType) : Z :=
  if (type =? POINTER_TO_FLOAT_VEC) || (type =? POINTER_TO_INT_VEC) then 16 else 8.

(** ** State *)

Record CallFrameManager : Type := mkCallFrame {
  function_name : string;
  current_locals_offset : Z;
  local_declarations : list (string * Z);
  locals_total_size : Z;
  variable_offsets : gmap string Z;
  spill_area_size : Z;
  next_spill_offset : Z;
  spill_variable_offsets : gmap string Z;
  variable_types : gmap string VarType;
  final_frame_size : Z;
  callee_saved : list string;
  is_prologue_generated : bool;
  uses_global_pointers : bool;
  active_variable_regs : list string
}.

Definition UPPER_CANARY_VALUE : Z := 0x1122334455667788.
Definition LOWER_CANARY_VALUE : Z := 0xAABBCCDDEEFF0011.
Definition CANARY_SIZE : Z := 8.

(** [RegisterManager::VARIABLE_REGS] and [EXTENDED_VARIABLE_REGS] *)
Definition VARIABLE_REGS : list string :=
  ["X20"; "X21"; "X22"; "X23"; "X24"; "X25"; "X26"; "X27"]%string.
Definition EXTENDED_VARIABLE_REGS : list string :=
  ["X19"; "X20"; "X21"; "X22"; "X23"; "X24"; "X25"; "X26"; "X27"; "X28"]%string.

Definition canary_space (canaries : bool) : Z := if canaries then 2 * CANARY_SIZE else 0.

Definition CallFrameManager_new (canaries : bool) (name : string) : CallFrameManager :=
  mkCallFrame name (16 + canary_space canaries) [] 0 ∅ 0 0 ∅ ∅ 0 [] false false VARIABLE_REGS.

(** ** Operations before the prologue *)

Definition add_local (st : CallFrameManager) (variable_name : string) (type : VarType)
    : CallFrameManager :=
  match variable_offsets st !! variable_name with
  | Some _ => st
  | None =>
      let size := get_size_for_type type in
      mkCallFrame (function_name st) (current_locals_offset st + size)
        (local_declarations st ++ [(variable_name, size)]) (locals_total_size st + size)
        (<[variable_name := current_locals_offset st]> (variable_offsets st))
        (spill_area_size st) (next_spill_offset st) (spill_variable_offsets st)
        (<[variable_name := type]> (variable_types st)) (final_frame_size st)
        (callee_saved st) (is_prologue_generated st) (uses_global_pointers st)
        (active_variable_regs st)
  end.

Definition add_parameter := add_local.

Definition set_callee_saved (l : list string) (st : CallFrameManager) : CallFrameManager :=
  mkCallFrame (function_name st) (current_locals_offset st) (local_declarations st)
    (locals_total_size st) (variable_offsets st) (spill_area_size st) (next_spill_offset st)
    (spill_variable_offsets st) (variable_types st) (final_frame_size st) l
    (is_prologue_generated st) (uses_global_pointers st) (active_variable_regs st).

(** [if (std::find(...) == end()) push_back(reg_name)] *)
Definition push_new (reg_name : string) (l : list string) : list string :=
  if decide (reg_name ∈ l) then l else l ++ [reg_name].

Definition force_save_register (st : CallFrameManager) (reg_name : string)
    : result CallFrameManager :=
  if is_prologue_generated st then Throw runtime_error
  else Ok (set_callee_saved (push_new reg_name (callee_saved st)) st).

(** The loop stops at the end of the active pool. *)
Definition reserve_registers_based_on_pressure (st : CallFrameManager)
    (register_pressure : Z) : result CallFrameManager :=
  if is_prologue_generated st then Throw runtime_error
  else
    let regs := take (Z.to_nat register_pressure) (active_variable_regs st) in
    Ok (set_callee_saved (foldl (fun l r => push_new r l) (callee_saved st) regs) st).

Definition set_active_register_pool (st : CallFrameManager) (use_extended_pool : bool)
    : CallFrameManager :=
  mkCallFrame (function_name st) (current_locals_offset st) (local_declarations st)
    (locals_total_size st) (variable_offsets st) (spill_area_size st) (next_spill_offset st)
    (spill_variable_offsets st) (variable_types st) (final_frame_size st) (callee_saved st)
    (is_prologue_generated st) (uses_global_pointers st)
    (if use_extended_pool then EXTENDED_VARIABLE_REGS else VARIABLE_REGS).

Definition setUsesGlobalPointers (st : CallFrameManager) (uses : bool) : CallFrameManager :=
  mkCallFrame (function_name st) (current_locals_offset st) (local_declarations st)
    (locals_total_size st) (variable_offsets st) (spill_area_size st) (next_spill_offset st)
    (spill_variable_offsets st) (variable_types st) (final_frame_size st) (callee_saved st)
    (is_prologue_generated st) uses (active_variable_regs st).

Definition preallocate_spill_slots (st : CallFrameManager) (count : Z) : CallFrameManager :=
  if is_prologue_generated st then st
  else
    let bytes_to_add := count * 8 in
    mkCallFrame (function_name st) (current_locals_offset st) (local_declarations st)
      (locals_total_size st) (variable_offsets st) (spill_area_size st + bytes_to_add)
      (next_spill_offset st) (spill_variable_offsets st) (variable_types st)
      (final_frame_size st) (callee_saved st) (is_prologue_generated st)
      (uses_global_pointers st) (active_variable_regs st).

(** Each new variable takes the next slot; nothing compares it with the area reserved. *)
Definition get_spill_offset (st : CallFrameManager) (variable_name : string)
    : Z * CallFrameManager :=
  match spill_variable_offsets st !! variable_name with
  | Some offset => (offset, st)
  | None =>
      let type := default VT_UNKNOWN (variable_types st !! variable_name) in
      let slot_size := get_size_for_type type in
      let offset := next_spill_offset st in
      (offset,
       mkCallFrame (function_name st) (current_locals_offset st) (local_declarations st)
         (locals_total_size st) (variable_offsets st) (spill_area_size st + slot_size)
         (next_spill_offset st + slot_size)
         (<[variable_name := offset]> (spill_variable_offsets st)) (variable_types st)
         (final_frame_size st) (callee_saved st) (is_prologue_generated st)
         (uses_global_pointers st) (active_variable_regs st))
  end.

Definition set_variable_type (st : CallFrameManager) (variable_name : string)
    (type : VarType) : CallFrameManager :=
  mkCallFrame (function_name st) (current_locals_offset st) (local_declarations st)
    (locals_total_size st) (variable_offsets st) (spill_area_size st) (next_spill_offset st)
    (spill_variable_offsets st) (<[variable_name := type]> (variable_types st))
    (final_frame_size st) (callee_saved st) (is_prologue_generated st)
    (uses_global_pointers st) (active_variable_regs st).

Definition get_variable_type (st : CallFrameManager) (variable_name : string) : VarType :=
  default VT_UNKNOWN (variable_types st !! variable_name).

Definition is_float_variable (st : CallFrameManager) (variable_name : string) : bool :=
  match variable_types st !! variable_name with
  | Some t => t =? VT_FLOAT
  | None => false
  end.

Definition get_offset (st : CallFrameManager) (variable_name : string) : result Z :=
  if negb (is_prologue_generated st) then Throw runtime_error
  else match variable_offsets st !! variable_name with
       | Some o => Ok o
       | None => Throw runtime_error
       end.

Definition has_local (st : CallFrameManager) (variable_name : string) : bool :=
  existsb (fun d => String.eqb (fst d) variable_name) (local_declarations st)
  || existsb (String.eqb variable_name) (callee_saved st).

(** ** The prologue *)

Definition align_to_16 (size : Z) : Z := Z.land (size + 15) (Z.lnot 15).

(** [std::sort] on strings: the order of their bytes. *)
Fixpoint insert_string (s : string) (l : list string) : list string :=
  match l with
  | [] => [s]
  | t :: l' => if String.leb s t then s :: l else t :: insert_string s l'
  end.
Definition sort_strings (l : list string) : list string := foldr insert_string [] l.

(** The two loops that assign offsets; the second skips a name that already has one. *)
Definition place_locals (decls : list (string * Z)) (start : Z) : gmap string Z * Z :=
  foldl (fun '(m, off) '(name, size) => (<[name := off]> m, off + size)) (∅, start) decls.

Definition place_registers (regs : list string) (p : gmap string Z * Z) : gmap string Z * Z :=
  foldl (fun '(m, off) r =>
           match m !! r with
           | None => (<[r := off]> m, off + 8)
           | Some _ => (m, off)
           end) p regs.

Definition annotate (text : string) (i : Instruction) : Instruction :=
  set_assembly_text (assembly_text i ++ text)%string i.

(** [code.back().assembly_text += text] *)
Definition annotate_last (text : string) (code : list Instruction) : list Instruction :=
  match rev code with
  | [] => []
  | i :: rest => rev (annotate text i :: rest)
  end.

Definition save_register (offsets : gmap string Z) (reg : string) : result Instruction :=
  match offsets !! reg with
  | None => Throw out_of_range
  | Some offset =>
      instr ← create_str_imm reg "X29" offset "";
      Ok (annotate (" ; Saved Reg: " ++ reg ++ " @ FP+" ++ to_string offset) instr)
  end.

Fixpoint mapM_list {A B} (f : A -> result B) (l : list A) : result (list B) :=
  match l with
  | [] => Ok []
  | a :: l => b ← f a; bs ← mapM_list f l; Ok (b :: bs)
  end.

Definition canary_prologue : result (list Instruction) :=
  let upper_canary_offset := 16 in
  let lower_canary_offset := 16 + CANARY_SIZE in
  upper ← create_movz_movk_abs64 "X9" UPPER_CANARY_VALUE "";
  store_upper ← create_str_imm "X9" "X29" upper_canary_offset "";
  lower ← create_movz_movk_abs64 "X9" LOWER_CANARY_VALUE "";
  store_lower ← create_str_imm "X9" "X29" lower_canary_offset "";
  Ok (annotate_last " ; Load UPPER_CANARY_VALUE" upper
      ++ [annotate " ; Store Upper Stack Canary" store_upper]
      ++ annotate_last " ; Load LOWER_CANARY_VALUE" lower
      ++ [annotate " ; Store Lower Stack Canary" store_lower]).

(** The layout is decided, and kept in the object, before any instruction is encoded. *)
Definition layout_frame (canaries : bool) (st : CallFrameManager) : CallFrameManager :=
  let regs :=
    if uses_global_pointers st
    then push_new "X28" (push_new "X19" (callee_saved st)) else callee_saved st in
  let regs := sort_strings regs in
  let callee_saved_size := Z.of_nat (length regs) * 8 in
  let minimum_frame_content := 16 in
  let required_content_size :=
    locals_total_size st + callee_saved_size + minimum_frame_content + canary_space canaries
    + spill_area_size st in
  let frame_size := align_to_16 required_content_size in
  let '(offsets, next) :=
    place_registers regs (place_locals (local_declarations st) (16 + canary_space canaries)) in
  mkCallFrame (function_name st) (current_locals_offset st) (local_declarations st)
    (locals_total_size st) offsets (spill_area_size st) next (spill_variable_offsets st)
    (variable_types st) frame_size regs (is_prologue_generated st) (uses_global_pointers st)
    (active_variable_regs st).

Definition set_prologue_generated (st : CallFrameManager) : CallFrameManager :=
  mkCallFrame (function_name st) (current_locals_offset st) (local_declarations st)
    (locals_total_size st) (variable_offsets st) (spill_area_size st) (next_spill_offset st)
    (spill_variable_offsets st) (variable_types st) (final_frame_size st) (callee_saved st)
    true (uses_global_pointers st) (active_variable_regs st).

Definition prologue_code (canaries : bool) (st : CallFrameManager) : result (list Instruction) :=
  push ← create_stp_pre_imm "X29" "X30" "SP" (- final_frame_size st);
  set_fp ← create_mov_fp_sp;
  guards ← (if canaries then canary_prologue else Ok []);
  saves ← mapM_list (save_register (variable_offsets st)) (callee_saved st);
  Ok ([push; set_fp] ++ guards ++ saves).

Definition generate_prologue (canaries : bool) (st : CallFrameManager)
    : CallFrameManager * result (list Instruction) :=
  if is_prologue_generated st then (st, Throw runtime_error)
  else
    let st := layout_frame canaries st in
    match prologue_code canaries st with
    | Ok code => (set_prologue_generated st, Ok code)
    | Throw e => (st, Throw e)
    end.

(** ** The epilogue *)

Definition restore_register (offsets : gmap string Z) (reg : string) : result Instruction :=
  match offsets !! reg with
  | None => Throw out_of_range
  | Some offset =>
      instr ← create_ldr_imm reg "X29" offset "";
      Ok (annotate (" ; Restored Reg: " ++ reg ++ " @ FP+" ++ to_string offset) instr)
  end.

Definition check_canary (which name label_suffix : string) (offset value : Z)
    : result (list Instruction) :=
  load ← create_ldr_imm "X10" "X29" offset "";
  expected ← create_movz_movk_abs64 "X11" value "";
  compare ← create_cmp_reg "X10" "X11";
  branch ← create_branch_conditional "NE" (name ++ label_suffix);
  Ok ([annotate (" ; Load " ++ which ++ " Stack Canary for check") load]
      ++ annotate_last (" ; Load Expected " ++ upper which ++ "_CANARY_VALUE") expected
      ++ [annotate (" ; Compare " ++ which ++ " Canary") compare;
          annotate (" ; Branch if " ++ which ++ " Canary Corrupted") branch]).

Definition canary_handler (which name label_suffix : string) : result (list Instruction) :=
  let label_instr := set_target_label (name ++ label_suffix)%string
                       (set_is_label_definition true Instruction_default) in
  trap ← create_brk 0;
  Ok [label_instr;
      annotate (" ; Stack Corruption Detected for " ++ which ++ " Canary!") trap].

Definition canary_epilogue (name : string) : result (list Instruction) :=
  upper ← check_canary "Upper" name "_stackprot_upper" 16 UPPER_CANARY_VALUE;
  lower ← check_canary "Lower" name "_stackprot_lower" (16 + CANARY_SIZE) LOWER_CANARY_VALUE;
  Ok (upper ++ lower).

Definition canary_handlers (name : string) : result (list Instruction) :=
  upper ← canary_handler "Upper" name "_stackprot_upper";
  lower ← canary_handler "Lower" name "_stackprot_lower";
  Ok (upper ++ lower).

Definition leave_frame : result (list Instruction) :=
  set_sp ← create_mov_sp_fp;
  load_fp ← create_ldr_imm "X29" "SP" 0 "";
  load_lr ← create_ldr_imm "X30" "SP" 8 "";
  pop ← create_add_imm "SP" "SP" 16;
  ret ← create_return;
  Ok [annotate " ; Deallocate frame by moving FP to SP" set_sp;
      annotate " ; Restore caller's Frame Pointer" load_fp;
      annotate " ; Restore Link Register" load_lr;
      annotate " ; Deallocate space for saved FP/LR" pop;
      ret].

Definition generate_epilogue (canaries : bool) (st : CallFrameManager)
    : result (list Instruction) :=
  if negb (is_prologue_generated st) then Throw runtime_error
  else
    restores ← mapM_list (restore_register (variable_offsets st)) (callee_saved st);
    checks ← (if canaries then canary_epilogue (function_name st) else Ok []);
    leave ← leave_frame;
    handlers ← (if canaries then canary_handlers (function_name st) else Ok []);
    Ok (restores ++ checks ++ leave ++ handlers).
