(* ===== verification/FrameLayout.v ===== *)
(** * The layout of a call frame

    Invariant of [CallFrameManager] before the prologue and what [layout_frame] makes of it:
    aligned, pairwise disjoint slots inside the frame. *)

From S2P Require Import Prelude CallFrame.
Local Open Scope Z_scope.

(** ** Consecutive slots *)

Definition total (l : list (string * Z)) : Z := foldr (fun d acc => d.2 + acc) 0 l.

Lemma total_app l1 l2 : total (l1 ++ l2) = total l1 + total l2.
Proof. unfold total in *. induction l1 as [|d l1 IH]; cbn; lia. Qed.

Lemma place_locals_snoc l d start :
  place_locals (l ++ [d]) start
  = (<[d.1 := (place_locals l start).2]> (place_locals l start).1,
     (place_locals l start).2 + d.2).
Proof.
  unfold place_locals. rewrite foldl_app. cbn [foldl].
  destruct (foldl _ _ l) as [m off]. by destruct d.
Qed.

Lemma place_locals_next l start : (place_locals l start).2 = start + total l.
Proof.
  induction l as [|d l IH] using rev_ind; [cbn; lia|].
  rewrite place_locals_snoc, total_app. cbn [snd]. rewrite IH. cbn. lia.
Qed.

Lemma place_locals_dom l start n :
  (place_locals l start).1 !! n = None <-> n ∉ l.*1.
Proof.
  induction l as [|d l IH] using rev_ind; [cbn; set_solver|].
  rewrite place_locals_snoc, fmap_app. cbn [fst fmap list_fmap].
  rewrite lookup_insert_None, IH, not_elem_of_app, list_elem_of_singleton. intuition congruence.
Qed.

(** The slot of entry [k] starts where the sizes of the entries before it end. *)
Lemma place_locals_lookup l start : NoDup l.*1 -> forall k d,
  l !! k = Some d -> (place_locals l start).1 !! d.1 = Some (start + total (take k l)).
Proof.
  induction l as [|e l IH] using rev_ind; intros Hnd k d Hk; [by rewrite lookup_nil in Hk|].
  rewrite fmap_app, list.NoDup_app in Hnd. destruct Hnd as (Hnd & Hdis & _).
  rewrite place_locals_snoc. cbn [fst]. apply lookup_app_Some in Hk as [Hk | [Hlen Hk]].
  - rewrite lookup_insert_ne.
    + rewrite (IH Hnd k d Hk). rewrite take_app_le; [done|].
      apply lookup_lt_Some in Hk. lia.
    + intros Heq. apply (Hdis d.1); [|cbn; rewrite Heq; left].
      apply list_elem_of_fmap. exists d. split; [done|]. by apply list_elem_of_lookup_2 in Hk.
  - apply list_lookup_singleton_Some in Hk as [Hk ->]. rewrite lookup_insert_eq.
    rewrite place_locals_next. replace k with (length l) by lia. by rewrite take_app_length.
Qed.

(** The second loop goes on like the first when no register has the name of a local. *)
Lemma place_registers_locals regs : forall decls start,
  NoDup regs -> (forall r, r ∈ regs -> r ∉ decls.*1) ->
  place_registers regs (place_locals decls start)
  = place_locals (decls ++ ((fun r => (r, 8)) <$> regs)) start.
Proof.
  induction regs as [|r regs IH]; intros decls start Hnd Hdis.
  - cbn. by rewrite app_nil_r.
  - apply list.NoDup_cons in Hnd as [Hr Hnd]. unfold place_registers. cbn [foldl].
    destruct (place_locals decls start) as [m off] eqn:E.
    assert (m !! r = None) as ->.
    { change m with (m, off).1. rewrite <-E. apply place_locals_dom, Hdis. left. }
    fold (place_registers regs (<[r := off]> m, off + 8)).
    replace (<[r := off]> m, off + 8) with (place_locals (decls ++ [(r, 8)]) start)
      by (by rewrite place_locals_snoc, E).
    rewrite IH; [|done|].
    + rewrite <-app_assoc. done.
    + intros r' Hr'. rewrite fmap_app. cbn. intros Hin. apply elem_of_app in Hin as [Hin|Hin].
      * apply (Hdis r'); [by right | done].
      * apply list_elem_of_singleton in Hin. congruence.
Qed.

(** ** Sorting *)

Lemma insert_string_perm s l : insert_string s l ≡ₚ s :: l.
Proof.
  induction l as [|t l IH]; cbn; [done|]. case_match; [done|]. rewrite IH. constructor.
Qed.

Lemma sort_strings_perm l : sort_strings l ≡ₚ l.
Proof.
  induction l as [|s l IH]; cbn; [done|]. rewrite insert_string_perm. by constructor.
Qed.

Lemma push_new_NoDup r l : NoDup l -> NoDup (push_new r l).
Proof.
  intros H. unfold push_new. case_decide; [done|]. apply list.NoDup_app.
  split; [done|]. split; [|apply NoDup_singleton].
  intros x Hx Hin. apply list_elem_of_singleton in Hin as ->. done.
Qed.

Lemma elem_of_push_new r r' l : r' ∈ push_new r l <-> r' = r \/ r' ∈ l.
Proof.
  unfold push_new. case_decide; [|rewrite elem_of_app, list_elem_of_singleton; tauto]. split; [by right|]. intros [->|]; done.
Qed.

(** ** The invariant *)

Record frame_inv (canaries : bool) (st : CallFrameManager) : Prop := {
  fi_pending : is_prologue_generated st = false;
  fi_names : NoDup (local_declarations st).*1;
  fi_dom n : variable_offsets st !! n = None <-> n ∉ (local_declarations st).*1;
  fi_sizes : Forall (fun d => d.2 = 8 \/ d.2 = 16) (local_declarations st);
  fi_total : locals_total_size st = total (local_declarations st);
  fi_next : current_locals_offset st = 16 + canary_space canaries + locals_total_size st;
  fi_saved : NoDup (callee_saved st);
  fi_spill : 0 <= spill_area_size st /\ spill_area_size st mod 8 = 0
}.

Lemma frame_inv_new canaries name : frame_inv canaries (CallFrameManager_new canaries name).
Proof.
  split; cbn; try done; try constructor; try lia.
  - intros _. set_solver.
  - intros _. apply lookup_empty.
Qed.

Lemma get_size_cases t : get_size_for_type t = 8 \/ get_size_for_type t = 16.
Proof. unfold get_size_for_type. case_match; auto. Qed.

Lemma add_local_inv canaries st n t :
  frame_inv canaries st -> frame_inv canaries (add_local st n t).
Proof.
  intros [Hp Hn Hd Hs Ht Hc Hr Hsp]. unfold add_local.
  destruct (variable_offsets st !! n) as [o|] eqn:El; [by split|].
  split; cbn; try done.
  - rewrite fmap_app. apply list.NoDup_app. split; [done|]. apply Hd in El.
    split; [|apply NoDup_singleton].
    intros x Hx Hin. apply list_elem_of_singleton in Hin as ->. by apply El.
  - intros n'. rewrite lookup_insert_None, Hd, fmap_app, not_elem_of_app. cbn.
    rewrite list_elem_of_singleton. intuition congruence.
  - apply list.Forall_app. split; [done|]. constructor; [apply get_size_cases | done].
  - rewrite Ht, total_app. cbn. lia.
  - lia.
Qed.

Lemma set_callee_saved_inv canaries st l :
  frame_inv canaries st -> NoDup l -> frame_inv canaries (set_callee_saved l st).
Proof. by intros [] H; split. Qed.

Lemma push_all_NoDup regs : forall l, NoDup l -> NoDup (foldl (fun l r => push_new r l) l regs).
Proof.
  induction regs as [|r regs IH]; intros l H; [done|]. by apply IH, push_new_NoDup.
Qed.

Lemma get_spill_offset_inv canaries st n :
  frame_inv canaries st -> frame_inv canaries (get_spill_offset st n).2.
Proof.
  intros [Hp Hn Hd Hs Ht Hc Hr Hsp]. unfold get_spill_offset.
  destruct (spill_variable_offsets st !! n); [by split|].
  split; cbn [snd spill_area_size callee_saved locals_total_size current_locals_offset
    local_declarations variable_offsets is_prologue_generated]; try done.
  set (t := default _ _). destruct (get_size_cases t) as [-> | ->]; elia.
Qed.

(** ** Operations as a language *)

Inductive frame_op : Type :=
  | AddLocal (name : string) (type : VarType)
  | ForceSave (reg : string)
  | Reserve (pressure : Z)
  | SetPool (extended : bool)
  | UsesGlobals (uses : bool)
  | Preallocate (count : nat)
  | SpillOffset (name : string)
  | SetType (name : string) (type : VarType).

(** A refused operation leaves the object unchanged. *)
Definition frame_step (st : CallFrameManager) (op : frame_op) : CallFrameManager :=
  match op with
  | AddLocal n t => add_local st n t
  | ForceSave r => match force_save_register st r with Ok st' => st' | Throw _ => st end
  | Reserve p =>
      match reserve_registers_based_on_pressure st p with Ok st' => st' | Throw _ => st end
  | SetPool b => set_active_register_pool st b
  | UsesGlobals b => setUsesGlobalPointers st b
  | Preallocate n => preallocate_spill_slots st (Z.of_nat n)
  | SpillOffset n => (get_spill_offset st n).2
  | SetType n t => set_variable_type st n t
  end.

Lemma frame_step_inv canaries st op :
  frame_inv canaries st -> frame_inv canaries (frame_step st op).
Proof.
  intros H. destruct op; cbn [frame_step].
  - by apply add_local_inv.
  - unfold force_save_register. destruct (is_prologue_generated st); [done|]. apply set_callee_saved_inv; [done|].
    apply push_new_NoDup, H.
  - unfold reserve_registers_based_on_pressure. destruct (is_prologue_generated st); [done|].
    apply set_callee_saved_inv; [done|]. apply push_all_NoDup, H.
  - by destruct H; split.
  - by destruct H; split.
  - unfold preallocate_spill_slots. destruct (is_prologue_generated st); [done|]. destruct H; split; cbn; try done. elia.
  - by apply get_spill_offset_inv.
  - by destruct H; split.
Qed.

Definition build_frame (canaries : bool) (name : string) (ops : list frame_op)
    : CallFrameManager :=
  foldl frame_step (CallFrameManager_new canaries name) ops.

Lemma build_frame_inv canaries name ops : frame_inv canaries (build_frame canaries name ops).
Proof.
  unfold build_frame. generalize (frame_inv_new canaries name).
  generalize (CallFrameManager_new canaries name). induction ops as [|op ops IH]; [done|].
  intros st H. cbn. by apply IH, frame_step_inv.
Qed.

(** ** The laid-out frame *)

(** The registers the prologue saves. *)
Definition saved_registers (st : CallFrameManager) : list string :=
  sort_strings (if uses_global_pointers st
                then push_new "X28" (push_new "X19" (callee_saved st)) else callee_saved st).

(** Locals and saved registers, in the order of their slots. *)
Definition slots (st : CallFrameManager) : list (string * Z) :=
  local_declarations st ++ ((fun r => (r, 8)) <$> saved_registers st).

(** No local has the name of a saved register. *)
Definition no_clash (st : CallFrameManager) : Prop :=
  forall r, r ∈ saved_registers st -> r ∉ (local_declarations st).*1.

#[export] Instance no_clash_dec st : Decision (no_clash st).
Proof.
  refine (cast_if (decide (Forall (fun r => r ∉ (local_declarations st).*1) (saved_registers st))));
    abstract (by unfold no_clash; rewrite <-list.Forall_forall).
Defined.

Lemma saved_registers_NoDup canaries st : frame_inv canaries st -> NoDup (saved_registers st).
Proof.
  intros H. unfold saved_registers. rewrite sort_strings_perm.
  case_match; [apply push_new_NoDup, push_new_NoDup|]; apply H.
Qed.

Lemma slots_NoDup canaries st : frame_inv canaries st -> no_clash st -> NoDup (slots st).*1.
Proof.
  intros H Hc. unfold slots. rewrite fmap_app, <-list_fmap_compose.
  replace (fst ∘ (fun r : string => (r, 8)) <$> saved_registers st) with (saved_registers st)
    by (symmetry; apply list_fmap_id).
  apply list.NoDup_app. split; [apply H|]. split; [|by eapply saved_registers_NoDup].
  intros n Hn Hr. by apply (Hc n).
Qed.

Lemma layout_offsets canaries st :
  frame_inv canaries st -> no_clash st ->
  variable_offsets (layout_frame canaries st)
  = (place_locals (slots st) (16 + canary_space canaries)).1
  /\ next_spill_offset (layout_frame canaries st)
     = 16 + canary_space canaries + total (slots st).
Proof.
  intros H Hc. unfold layout_frame. fold (saved_registers st).
  rewrite place_registers_locals; [|by eapply saved_registers_NoDup | done].
  fold (slots st). rewrite <-place_locals_next.
  by destruct (place_locals (slots st) _).
Qed.

Lemma layout_callee_saved canaries st :
  callee_saved (layout_frame canaries st) = saved_registers st.
Proof. unfold layout_frame. fold (saved_registers st). by destruct (place_registers _ _). Qed.

Lemma total_saved (regs : list string) :
  total ((fun r => (r, 8)) <$> regs) = 8 * Z.of_nat (length regs).
Proof. induction regs as [|r regs IH]; cbn; [done|]. fold (total ((fun r => (r, 8)) <$> regs)). lia. Qed.

Lemma align_to_16_spec z :
  z <= align_to_16 z < z + 16 /\ align_to_16 z mod 16 = 0.
Proof.
  unfold align_to_16. change (Z.lnot 15) with (Z.lnot (Z.ones 4)).
  rewrite <-Z.ldiff_land, Z.ldiff_ones_r, Z.shiftr_div_pow2, Z.shiftl_mul_pow2 by lia.
  change (2 ^ 4) with 16. elia.
Qed.

Lemma layout_frame_size canaries st :
  frame_inv canaries st ->
  final_frame_size (layout_frame canaries st)
  = align_to_16 (16 + canary_space canaries + total (slots st) + spill_area_size st).
Proof.
  intros H. unfold layout_frame. fold (saved_registers st).
  destruct (place_registers _ _) as [m off]. cbn [final_frame_size].
  unfold slots. rewrite total_app, total_saved, (fi_total _ _ H). f_equal. lia.
Qed.

Lemma slot_sizes canaries st :
  frame_inv canaries st -> Forall (fun d => d.2 = 8 \/ d.2 = 16) (slots st).
Proof.
  intros H. unfold slots. apply list.Forall_app. split; [apply H|].
  apply list.Forall_forall. intros d Hd. apply list_elem_of_fmap in Hd as (r & -> & _). by left.
Qed.

Lemma total_nonneg l : Forall (fun d : string * Z => d.2 = 8 \/ d.2 = 16) l ->
  0 <= total l /\ total l mod 8 = 0.
Proof.
  induction 1 as [|d l Hd _ IH]; cbn; [done|]. fold (total l). destruct Hd as [-> | ->]; elia.
Qed.

Lemma total_split l k d : l !! k = Some d -> total l = total (take k l) + d.2 + total (drop (S k) l).
Proof.
  intros H. rewrite <-(take_drop_middle l k d H) at 1. rewrite total_app. cbn.
  fold (total (drop (S k) l)). lia.
Qed.

Lemma total_take_le l k j d :
  Forall (fun d : string * Z => d.2 = 8 \/ d.2 = 16) l -> l !! k = Some d -> (k < j)%nat ->
  total (take k l) + d.2 <= total (take j l).
Proof.
  intros Hf Hk Hj. assert (Hk' : take j l !! k = Some d) by (by rewrite lookup_take_lt).
  pose proof (total_split _ _ _ Hk') as E. rewrite take_take, Nat.min_l in E by lia.
  assert (Hd : Forall (fun d : string * Z => d.2 = 8 \/ d.2 = 16) (drop (S k) (take j l))).
  { apply Forall_drop, Forall_take, Hf. }
  pose proof (total_nonneg _ Hd). lia.
Qed.

(** Slot [k] of a laid-out frame. *)
Lemma layout_slot canaries st k d :
  frame_inv canaries st -> no_clash st -> slots st !! k = Some d ->
  let o := 16 + canary_space canaries + total (take k (slots st)) in
  variable_offsets (layout_frame canaries st) !! d.1 = Some o
  /\ 16 + canary_space canaries <= o /\ o mod 8 = 0
  /\ o + d.2 + spill_area_size st <= final_frame_size (layout_frame canaries st).
Proof.
  intros H Hc Hk o. destruct (layout_offsets canaries st H Hc) as [-> _].
  split; [by apply place_locals_lookup; [eapply slots_NoDup|]|].
  pose proof (slot_sizes canaries st H) as Hs.
  pose proof (total_nonneg _ (Forall_take _ k _ Hs)) as [Ht Hm].
  pose proof (total_nonneg _ (Forall_drop _ (S k) _ Hs)) as [Hd _].
  rewrite layout_frame_size by done.
  destruct (align_to_16_spec (16 + canary_space canaries + total (slots st) + spill_area_size st))
    as [Ha _].
  rewrite (total_split _ _ _ Hk) in Ha |- *. unfold o, canary_space, CANARY_SIZE in *.
  split; [lia|]. split; [destruct canaries; elia | lia].
Qed.

Lemma generate_prologue_state canaries st :
  is_prologue_generated st = false ->
  let st' := (generate_prologue canaries st).1 in
  variable_offsets st' = variable_offsets (layout_frame canaries st)
  /\ callee_saved st' = saved_registers st
  /\ final_frame_size st' = final_frame_size (layout_frame canaries st)
  /\ next_spill_offset st' = next_spill_offset (layout_frame canaries st)
  /\ spill_area_size st' = spill_area_size st
  /\ spill_variable_offsets st' = spill_variable_offsets st
  /\ variable_types st' = variable_types st.
Proof.
  intros Hp. unfold generate_prologue. rewrite Hp.
  pose proof (layout_callee_saved canaries st) as Hs.
  destruct (prologue_code _ _); cbn [fst set_prologue_generated variable_offsets callee_saved
    final_frame_size next_spill_offset spill_area_size spill_variable_offsets variable_types];
    unfold layout_frame in *; destruct (place_registers _ _); done.
Qed.

Lemma slots_disjoint_at l (base : Z) i j d1 d2 :
  Forall (fun d : string * Z => d.2 = 8 \/ d.2 = 16) l ->
  l !! i = Some d1 -> l !! j = Some d2 -> i <> j ->
  base + total (take i l) + d1.2 <= base + total (take j l)
  \/ base + total (take j l) + d2.2 <= base + total (take i l).
Proof.
  intros Hf H1 H2 Hne. destruct (Nat.lt_ge_cases i j).
  - left. pose proof (total_take_le l i j d1 Hf H1). lia.
  - right. pose proof (total_take_le l j i d2 Hf H2). lia.
Qed.

(** C39: whatever locals, saved registers, spill slots and flags a function asks
    for before its prologue, the prologue gives every local and every saved register a slot
    of its own: 8-byte aligned, above the frame record and the canaries, below the spill
    area, no two overlapping; the spill area ends inside the frame, whose size is a multiple
    of 16; and the registers saved are those asked for, with X19 and X28 when the function
    uses the global pointers.  No local may have the name of a saved register. *)
Theorem frame_layout canaries name ops :
  let st := build_frame canaries name ops in
  let st' := (generate_prologue canaries st).1 in
  no_clash st ->
  final_frame_size st' mod 16 = 0
  /\ next_spill_offset st' + spill_area_size st' <= final_frame_size st'
  /\ (forall r, r ∈ callee_saved st' <->
        r ∈ callee_saved st \/ uses_global_pointers st = true /\ (r = "X19" \/ r = "X28")%string)
  /\ (forall d, d ∈ slots st -> exists o, variable_offsets st' !! d.1 = Some o
        /\ 16 + canary_space canaries <= o /\ o mod 8 = 0
        /\ o + d.2 <= next_spill_offset st')
  /\ (forall d1 d2 o1 o2, d1 ∈ slots st -> d2 ∈ slots st -> d1.1 <> d2.1 ->
        variable_offsets st' !! d1.1 = Some o1 -> variable_offsets st' !! d2.1 = Some o2 ->
        o1 + d1.2 <= o2 \/ o2 + d2.2 <= o1).
Proof.
  intros st st' Hc. pose proof (build_frame_inv canaries name ops : frame_inv canaries st) as H.
  destruct (generate_prologue_state canaries st (fi_pending _ _ H))
    as (Ho & Hs & Hf & Hn & Ha & _). fold st' in Ho, Hs, Hf, Hn, Ha.
  rewrite Ho, Hs, Hf, Hn, Ha, layout_frame_size by done.
  destruct (layout_offsets canaries st H Hc) as [_ ->].
  pose proof (align_to_16_spec (16 + canary_space canaries + total (slots st)
    + spill_area_size st)) as [Hal Hmod].
  split; [exact Hmod|]. split; [lia|].
  assert (Hslot : forall d, d ∈ slots st -> exists k, slots st !! k = Some d
    /\ variable_offsets (layout_frame canaries st) !! d.1
       = Some (16 + canary_space canaries + total (take k (slots st)))).
  { intros d Hd. apply list_elem_of_lookup_1 in Hd as [k Hk]. exists k.
    split; [done|]. by apply (layout_slot canaries st k d H Hc Hk). }
  split; [|split].
  - intros r. unfold saved_registers. rewrite sort_strings_perm.
    destruct (uses_global_pointers st); [|intuition congruence].
    rewrite !elem_of_push_new. intuition congruence.
  - intros d Hd. destruct (Hslot d Hd) as (k & Hk & Hl). eexists. split; [exact Hl|].
    destruct (layout_slot canaries st k d H Hc Hk) as (_ & Hlo & Hm8 & _).
    split; [done|]. split; [done|].
    pose proof (total_split _ _ _ Hk) as E.
    pose proof (total_nonneg _ (Forall_drop _ (S k) _ (slot_sizes canaries st H))). lia.
  - intros d1 d2 o1 o2 H1 H2 Hne E1 E2.
    destruct (Hslot d1 H1) as (i & Hi & Hl1), (Hslot d2 H2) as (j & Hj & Hl2).
    rewrite Hl1 in E1. rewrite Hl2 in E2. injection E1 as <-. injection E2 as <-.
    apply slots_disjoint_at; [by apply slot_sizes with canaries | done..|].
    intros ->. congruence.
Qed.

Definition sample_ops : list frame_op :=
  [AddLocal "x" VT_INTEGER; AddLocal "v" POINTER_TO_INT_VEC; AddLocal "x" VT_FLOAT;
   ForceSave "X21"; Reserve 2; UsesGlobals true; Preallocate 2]%string.

Lemma frame_layout_witness :
  final_frame_size (generate_prologue true (build_frame true "f" sample_ops)).1 mod 16 = 0.
Proof.
  apply (frame_layout true "f" sample_ops). apply (bool_decide_unpack _). vm_compute. exact I.
Defined.

(** ** Spill slots *)

Definition spill_all (st : CallFrameManager) (names : list string) : CallFrameManager :=
  foldl (fun st n => (get_spill_offset st n).2) st names.

Definition spill_sizes (st : CallFrameManager) (names : list string) : list (string * Z) :=
  (fun n => (n, get_size_for_type (get_variable_type st n))) <$> names.

Lemma spill_sizes_ok st names : Forall (fun d => d.2 = 8 \/ d.2 = 16) (spill_sizes st names).
Proof.
  apply list.Forall_forall. intros d Hd. apply list_elem_of_fmap in Hd as (n & -> & _).
  apply get_size_cases.
Qed.

(** A slot once given is kept. *)
Lemma spill_all_keeps names : forall st n o,
  spill_variable_offsets st !! n = Some o ->
  spill_variable_offsets (spill_all st names) !! n = Some o.
Proof.
  induction names as [|n' names IH]; intros st n o H; [done|]. cbn. apply IH.
  unfold get_spill_offset. destruct (spill_variable_offsets st !! n') eqn:E; [done|].
  cbn. rewrite lookup_insert_ne; [done|]. intros ->. congruence.
Qed.

Lemma spill_all_slot names : forall st,
  NoDup names -> (forall n, n ∈ names -> spill_variable_offsets st !! n = None) ->
  forall k n, names !! k = Some n ->
  spill_variable_offsets (spill_all st names) !! n
  = Some (next_spill_offset st + total (take k (spill_sizes st names))).
Proof.
  induction names as [|n0 names IH]; intros st Hnd Hnone k n Hk; [by rewrite lookup_nil in Hk|].
  apply list.NoDup_cons in Hnd as [Hn0 Hnd]. cbn [spill_all foldl]. unfold get_spill_offset.
  rewrite (Hnone n0) by left. cbn [snd].
  change (default VT_UNKNOWN (variable_types st !! n0)) with (get_variable_type st n0).
  set (st1 := mkCallFrame _ _ _ _ _ _ _ _ _ _ _ _ _ _). fold (spill_all st1 names).
  destruct k as [|k]; cbn in Hk.
  - injection Hk as <-. cbn. rewrite Z.add_0_r. apply spill_all_keeps, lookup_insert_eq.
  - rewrite (IH st1 Hnd) with (k := k); [|intros m Hm; cbn; rewrite lookup_insert_ne | done].
    + change (spill_sizes st1 names) with (spill_sizes st names).
      change (next_spill_offset st1)
        with (next_spill_offset st + get_size_for_type (get_variable_type st n0)).
      change (total (take (S k) (spill_sizes st (n0 :: names))))
        with (get_size_for_type (get_variable_type st n0) + total (take k (spill_sizes st names))).
      f_equal. lia.
    + apply Hnone. by right.
    + intros ->. done.
Qed.

(** Variables spilled after the prologue get slots of their own, 8-byte
    aligned, above every local and saved register; as long as their sizes add up to at most
    the spill area counted before the prologue, and none was spilled earlier, the slots lie
    inside the frame. *)
Theorem spill_slots_fit canaries name ops names :
  let st := build_frame canaries name ops in
  let st' := (generate_prologue canaries st).1 in
  let st'' := spill_all st' names in
  no_clash st -> spill_variable_offsets st = ∅ -> NoDup names ->
  total (spill_sizes st' names) <= spill_area_size st' ->
  (forall n, n ∈ names -> exists o, spill_variable_offsets st'' !! n = Some o
     /\ (get_spill_offset st'' n).1 = o /\ o mod 8 = 0
     /\ (forall d o', d ∈ slots st -> variable_offsets st' !! d.1 = Some o' -> o' + d.2 <= o)
     /\ o + get_size_for_type (get_variable_type st' n) <= final_frame_size st')
  /\ (forall n1 n2 o1 o2, n1 ∈ names -> n2 ∈ names -> n1 <> n2 ->
        spill_variable_offsets st'' !! n1 = Some o1 ->
        spill_variable_offsets st'' !! n2 = Some o2 ->
        o1 + get_size_for_type (get_variable_type st' n1) <= o2
        \/ o2 + get_size_for_type (get_variable_type st' n2) <= o1).
Proof.
  intros st st' st'' Hc Hsp Hnd Hfit.
  pose proof (build_frame_inv canaries name ops : frame_inv canaries st) as H.
  destruct (generate_prologue_state canaries st (fi_pending _ _ H))
    as (Ho & _ & Hf & Hn & Ha & Hs & _). fold st' in Ho, Hf, Hn, Ha, Hs.
  destruct (layout_offsets canaries st H Hc) as [_ Hnext]. rewrite <-Hn in Hnext.
  pose proof (layout_frame_size canaries st H) as Hsize. rewrite <-Hf in Hsize.
  pose proof (align_to_16_spec (16 + canary_space canaries + total (slots st)
    + spill_area_size st)) as [Hal _]. rewrite <-Hsize in Hal. clear Hsize.
  assert (Hslot : forall n, n ∈ names -> exists k,
    spill_sizes st' names !! k = Some (n, get_size_for_type (get_variable_type st' n))
    /\ spill_variable_offsets st'' !! n
       = Some (next_spill_offset st' + total (take k (spill_sizes st' names)))).
  { intros n Hin. apply list_elem_of_lookup_1 in Hin as [k Hk]. exists k. split.
    - unfold spill_sizes. by rewrite list_lookup_fmap, Hk.
    - apply spill_all_slot; [done| |done]. intros m _. by rewrite Hs, Hsp. }
  split.
  - intros n Hin. destruct (Hslot n Hin) as (k & Hk & Hl). eexists. split; [exact Hl|].
    pose proof (total_split _ _ _ Hk) as E. cbn [snd] in E.
    pose proof (total_nonneg _ (Forall_drop _ (S k) _ (spill_sizes_ok st' names))) as [Hd _].
    pose proof (total_nonneg _ (Forall_take _ k _ (spill_sizes_ok st' names))) as [Ht Htm].
    pose proof (total_nonneg _ (slot_sizes canaries st H)) as [_ Hm].
    split; [unfold get_spill_offset; by rewrite Hl|].
    split; [rewrite Hnext; unfold canary_space, CANARY_SIZE; destruct canaries; elia|].
    split; [|lia].
    intros d o' Hd' Hlo. apply list_elem_of_lookup_1 in Hd' as [j Hj].
    destruct (layout_slot canaries st j d H Hc Hj) as (Hlj & _). rewrite Ho, Hlj in Hlo.
    injection Hlo as <-. pose proof (total_split _ _ _ Hj) as Ej.
    pose proof (total_nonneg _ (Forall_drop _ (S j) _ (slot_sizes canaries st H))). lia.
  - intros n1 n2 o1 o2 H1 H2 Hne E1 E2.
    destruct (Hslot n1 H1) as (i & Hi & Hl1), (Hslot n2 H2) as (j & Hj & Hl2).
    rewrite Hl1 in E1. rewrite Hl2 in E2. injection E1 as <-. injection E2 as <-.
    apply (slots_disjoint_at _ _ i j _ _ (spill_sizes_ok st' names) Hi Hj). congruence.
Qed.

Lemma spill_slots_fit_witness :
  let st' := (generate_prologue false (build_frame false "f" sample_ops)).1 in
  exists o, spill_variable_offsets (spill_all st' ["s"; "t"]%string) !! "t"%string = Some o
    /\ o + 8 <= final_frame_size st'.
Proof.
  assert (Hnd : NoDup ["s"; "t"]%string) by (apply (bool_decide_unpack _); vm_compute; exact I).
  destruct (spill_slots_fit false "f" sample_ops ["s"; "t"]%string
    ltac:(apply (bool_decide_unpack _); vm_compute; exact I)
    ltac:(vm_compute; reflexivity) Hnd ltac:(vm_compute; discriminate)) as [H _].
  destruct (H "t"%string ltac:(by right; left)) as (o & Ho & _ & _ & _ & Hf).
  exists o. split; [exact Ho | exact Hf].
Defined.
