(* ===== verification/CallFrameProof.v ===== *)
(** * Prologue and epilogue, executed

    The code [CallFrameManager] emits, run on [Machine]: the prologue builds the frame that
    [FrameLayout] lays out and stores the saved registers in it, the epilogue restores them
    and returns to the caller. *)

From S2P Require Import Prelude Words A64 Instr EncReg EncSpec EncArith EncMem EncBranch Machine CallFrame FrameLayout.
Local Open Scope Z_scope.

(** ** Single instructions

    [runs c f]: the encoder call [c] succeeds and the instruction it returns turns a machine
    [m] that satisfies the precondition into [f m]. *)
Definition runs (c : result Instruction) (pre : machine -> Prop) (f : machine -> outcome) : Prop :=
  exists i, c = Ok i /\ forall m, pre m -> run_instrs m [i] = f m.

Lemma annotate_encoding t i : encoding (annotate t i) = encoding i.
Proof. reflexivity. Qed.

Lemma annotate_last_encoding t code : encoding <$> annotate_last t code = encoding <$> code.
Proof.
  unfold annotate_last. rewrite <-(rev_involutive code) at 2.
  destruct (rev code) as [|i l]; [done|]. cbn [rev]. by rewrite !fmap_app.
Qed.

Lemma run_instrs_app m c1 c2 :
  run_instrs m (c1 ++ c2)
  = match run_instrs m c1 with Next m' => run_instrs m' c2 | o => o end.
Proof. unfold run_instrs. rewrite fmap_app. apply run_app. Qed.

Lemma run_instrs_annotate m t i : run_instrs m [annotate t i] = run_instrs m [i].
Proof. reflexivity. Qed.

Lemma run_instrs_annotate_last m t code :
  run_instrs m (annotate_last t code) = run_instrs m code.
Proof. unfold run_instrs. by rewrite annotate_last_encoding. Qed.

Lemma run_instrs_next m i code m' :
  run_instrs m [i] = Next m' -> run_instrs m (i :: code) = run_instrs m' code.
Proof. intros H. change (i :: code) with ([i] ++ code). by rewrite run_instrs_app, H. Qed.

(** The code does not depend on the machine that will run it. *)
Lemma uniform_code {A B} (c : result A) (pre : B -> Prop) (post : B -> A -> Prop) (b0 : B) :
  pre b0 -> (forall b, pre b -> exists a, c = Ok a /\ post b a) ->
  exists a, c = Ok a /\ forall b, pre b -> post b a.
Proof.
  intros H0 H. destruct (H b0 H0) as (a & Ha & _). exists a. split; [done|].
  intros b Hb. destruct (H b Hb) as (a' & Ha' & Hp). rewrite Ha in Ha'. by injection Ha' as <-.
Qed.

(** The address [off] bytes above the base register, when it is a valid one. *)
Definition slot_ok (n off : Z) (m : machine) : Prop :=
  0 <= rget_sp m n /\ rget_sp m n mod 8 = 0 /\ rget_sp m n + off < 2 ^ 64
  /\ base_ok m n = true.

Lemma slot_address m n off :
  slot_ok n off m -> 0 <= off -> off mod 8 = 0 ->
  u64 (rget_sp m n + 8 * (off / 8)) = rget_sp m n + off
  /\ base_ok m n && (u64 (rget_sp m n + 8 * (off / 8)) mod 8 =? 0) = true.
Proof.
  intros (H0 & H8 & Hlt & ->) Hoff Hm.
  assert (E : u64 (rget_sp m n + 8 * (off / 8)) = rget_sp m n + off).
  { unfold u64. rewrite Z.mod_small; elia. }
  split; [exact E|]. rewrite E. apply andb_true_intro. split; [done|]. elia.
Qed.

Section transfer.
Context (xt xn name : string) (t n off : Z).
Context (Ht : parse_register_31 xt = Ok (t, true)) (Hn : parse_register_31 xn = Ok (n, true)).
Context (Hoff : 0 <= off <= 32760) (Hm : off mod 8 = 0).

Lemma valid_slot : valid_uoffset true off = true.
Proof using Hoff Hm. unfold valid_uoffset, access_size. lia. Qed.

Lemma str_runs :
  runs (create_str_imm xt xn off name) (slot_ok n off)
    (fun m => Next (set_mem m (rget_sp m n + off) (rget m t))).
Proof using Ht Hn Hoff Hm.
  pose proof (create_str_imm_ok name xt xn off) as H. cbv beta in H.
  rewrite Ht, Hn, valid_slot in H. destruct H as (i & Hi & (_ & Hd & _) & _).
  exists i. split; [exact Hi|]. intros m Hs. rewrite (run_one _ _ _ Hd).
  destruct (slot_address m n off Hs) as [Ha Hb]; [lia | done |].
  unfold STRi. cbn [exec]. rewrite Hb, Ha. reflexivity.
Qed.

Lemma ldr_runs :
  runs (create_ldr_imm xt xn off name) (slot_ok n off)
    (fun m => Next (rset m t (mem m (rget_sp m n + off)))).
Proof using Ht Hn Hoff Hm.
  pose proof (create_ldr_imm_ok name xt xn off) as H. cbv beta in H.
  rewrite Ht, Hn, valid_slot in H. destruct H as (i & Hi & (_ & Hd & _) & _).
  exists i. split; [exact Hi|]. intros m Hs. rewrite (run_one _ _ _ Hd).
  destruct (slot_address m n off Hs) as [Ha Hb]; [lia | done |].
  unfold LDRi. cbn [exec]. rewrite Hb, Ha. reflexivity.
Qed.
End transfer.

(** [STP X29, X30, [SP, #-size]!] *)
Lemma push_runs size :
  0 < size <= 512 -> size mod 16 = 0 ->
  runs (create_stp_pre_imm "X29" "X30" "SP" (- size))
    (fun m => sp m mod 16 = 0 /\ size <= sp m < 2 ^ 64)
    (fun m => Next (mkMachine (xreg m) (sp m - size)
       (upd (upd (mem m) (sp m - size) (xreg m 29)) (sp m - size + 8) (xreg m 30)) (nzcv m))).
Proof.
  intros Hs Hm. pose proof (create_stp_pre_imm_ok "X29" "X30" "SP" (- size)) as H.
  replace (parse_register_31 "X29") with (Ok (29, true)) in H by (vm_compute; reflexivity).
  replace (parse_register_31 "X30") with (Ok (30, true)) in H by (vm_compute; reflexivity).
  replace (parse_register_31 "SP") with (Ok (31, true)) in H by (vm_compute; reflexivity).
  replace (valid_pair_offset true (- size)) with true in H
    by (symmetry; unfold valid_pair_offset, access_size; bool_to_prop; elia).
  destruct H as (i & Hi & (_ & Hd & _) & _). exists i. split; [exact Hi|].
  intros m (Hsp & Hr). rewrite (run_one _ _ _ Hd). unfold STPi, mode_pre. cbn [exec].
  assert (Ha : u64 (rget_sp m 31 + 8 * sext 7 (pair_imm7 true (- size))) = sp m - size).
  { unfold pair_imm7. change (rget_sp m 31) with (sp m).
    rewrite sext_mod by lia. rewrite sext_small by elia. unfold u64.
    rewrite Z.mod_small; elia. }
  rewrite Ha. replace (u64 (sp m - size + 8)) with (sp m - size + 8)
    by (unfold u64; rewrite Z.mod_small; elia).
  unfold base_ok. replace ((negb (31 =? 31) || (sp m mod 16 =? 0)) && ((sp m - size) mod 8 =? 0))
    with true by (symmetry; bool_to_prop; elia).
  reflexivity.
Qed.

(** [MOV X29, SP] and [MOV SP, X29] *)
Lemma set_fp_runs :
  runs create_mov_fp_sp (fun m => 0 <= sp m < 2 ^ 64) (fun m => Next (rset m 29 (sp m))).
Proof.
  destruct create_mov_fp_sp_ok as (i & Hi & _ & Hd & _). exists i. split; [exact Hi|].
  intros m Hm. rewrite (run_one _ _ _ Hd). unfold ADDi. cbn [exec].
  change (rget_sp m 31) with (sp m). rewrite Z.add_0_r. unfold u64.
  rewrite Z.mod_small by lia. reflexivity.
Qed.

Lemma set_sp_runs :
  runs create_mov_sp_fp (fun m => 0 <= xreg m 29 < 2 ^ 64)
    (fun m => Next (rset_sp m 31 (xreg m 29))).
Proof.
  destruct create_mov_sp_fp_ok as (i & Hi & _ & Hd & _). exists i. split; [exact Hi|].
  intros m Hm. rewrite (run_one _ _ _ Hd). unfold ADDi. cbn [exec].
  change (rget_sp m 29) with (xreg m 29). rewrite Z.add_0_r. unfold u64.
  rewrite Z.mod_small by lia. reflexivity.
Qed.

(** [ADD SP, SP, #16] *)
Lemma pop_runs :
  runs (create_add_imm "SP" "SP" 16) (fun m => 0 <= sp m < 2 ^ 64 - 16)
    (fun m => Next (rset_sp m 31 (sp m + 16))).
Proof.
  pose proof (create_add_imm_ok "SP" "SP" 16) as H.
  replace (parse_register_31 "SP") with (Ok (31, true)) in H by (vm_compute; reflexivity).
  replace (valid_imm12 true 16) with true in H by (vm_compute; reflexivity).
  destruct H as (i & Hi & (_ & Hd & _) & _). exists i. split; [exact Hi|].
  intros m Hm. rewrite (run_one _ _ _ Hd). unfold ADDi. cbn [exec].
  change (rget_sp m 31) with (sp m). unfold u64. rewrite Z.mod_small by lia. reflexivity.
Qed.

Lemma return_runs : runs create_return (fun _ => True) (fun m => Return m (xreg m 30)).
Proof.
  destruct create_return_ok as (i & Hi & (_ & Hd & _) & _). exists i. split; [exact Hi|].
  intros m _. rewrite (run_one _ _ _ Hd). reflexivity.
Qed.

(** ** The saved registers *)

Definition regnum (r : string) : Z :=
  match parse_register_31 r with Ok (n, _) => n | Throw _ => 0 end.

(** Only callee-saved general registers, X19 to X28, are saved. *)
Definition saveable (r : string) : Prop := r ∈ EXTENDED_VARIABLE_REGS.

Lemma saveable_check (P : string -> Prop) r :
  Forall P EXTENDED_VARIABLE_REGS -> saveable r -> P r.
Proof. rewrite list.Forall_forall. intros H Hr. by apply H. Qed.

Lemma saveable_parse r : saveable r -> parse_register_31 r = Ok (regnum r, true).
Proof.
  apply (saveable_check (fun r => parse_register_31 r = Ok (regnum r, true))).
  repeat (constructor; [vm_compute; reflexivity|]). constructor.
Qed.

Lemma saveable_range r : saveable r -> 19 <= regnum r <= 28.
Proof.
  apply (saveable_check (fun r => 19 <= regnum r <= 28)).
  repeat (constructor; [vm_compute; split; discriminate|]). constructor.
Qed.

Lemma saveable_number r : saveable r -> EXTENDED_VARIABLE_REGS !! Z.to_nat (regnum r - 19) = Some r.
Proof.
  apply (saveable_check (fun r => EXTENDED_VARIABLE_REGS !! Z.to_nat (regnum r - 19) = Some r)).
  repeat (constructor; [vm_compute; reflexivity|]). constructor.
Qed.

Lemma regnum_inj r1 r2 : saveable r1 -> saveable r2 -> regnum r1 = regnum r2 -> r1 = r2.
Proof.
  intros H1%saveable_number H2%saveable_number E. rewrite E in H1. congruence.
Qed.

Lemma parse_X29 : parse_register_31 "X29" = Ok (29, true).
Proof. vm_compute. reflexivity. Qed.
Lemma parse_X30 : parse_register_31 "X30" = Ok (30, true).
Proof. vm_compute. reflexivity. Qed.
Lemma parse_SP : parse_register_31 "SP" = Ok (31, true).
Proof. vm_compute. reflexivity. Qed.

Section registers.
Context (fp limit : Z) (offsets : gmap string Z).
Context (Hfp : 0 <= fp /\ fp mod 16 = 0) (Hlimit : fp + limit <= 2 ^ 64 /\ limit <= 512).

(** A list of saved registers with their slots. *)
Definition placed (regs : list string) : Prop :=
  Forall (fun r => saveable r /\ exists o, offsets !! r = Some o
            /\ 16 <= o < limit /\ o mod 8 = 0) regs.

Lemma fp_slot m o : xreg m 29 = fp -> 0 <= o < limit -> slot_ok 29 o m.
Proof using Hfp Hlimit.
  intros H Ho. unfold slot_ok, base_ok. change (rget_sp m 29) with (xreg m 29). rewrite H.
  split; [lia|]. split; [elia|]. split; [lia | reflexivity].
Qed.

(** The frame holds in the slots of [regs] what the registers of [m] hold. *)
Definition holds (regs : list string) (m : machine) (memory : Z -> Z) : Prop :=
  forall r o, r ∈ regs -> offsets !! r = Some o -> memory (fp + o) = xreg m (regnum r).

Lemma saves_run regs :
  placed regs -> NoDup regs ->
  (forall r1 r2 o, r1 ∈ regs -> r2 ∈ regs -> offsets !! r1 = Some o -> offsets !! r2 = Some o ->
     r1 = r2) ->
  exists code, mapM_list (save_register offsets) regs = Ok code
    /\ forall m, xreg m 29 = fp -> exists memory,
      run_instrs m code = Next (mkMachine (xreg m) (sp m) memory (nzcv m))
      /\ holds regs m memory
      /\ forall a, (forall r o, r ∈ regs -> offsets !! r = Some o -> a <> fp + o) ->
           memory a = mem m a.
Proof using Hfp Hlimit.
  induction regs as [|r regs IH]; intros Hp Hnd Hinj.
  { exists []. split; [done|]. intros m _. exists (mem m). split; [by destruct m|].
    split; [|done]. intros r o Hr. by apply not_elem_of_nil in Hr. }
  apply list.Forall_cons in Hp as [(Hr & o & Ho & Hrange & H8) Hp].
  apply list.NoDup_cons in Hnd as [Hnr Hnd].
  destruct IH as (code & Hcode & Hrun); [done | done | |].
  { intros r1 r2 o' H1 H2. by apply Hinj; right. }
  destruct (str_runs r "X29" "" (regnum r) 29 o (saveable_parse r Hr) parse_X29
    ltac:(lia) H8) as (i & Hi & Hstep).
  assert (Hi' : exists t, save_register offsets r = Ok (annotate t i)).
  { unfold save_register. rewrite Ho, Hi. by eexists. }
  destruct Hi' as [t Hi']. exists (annotate t i :: code). cbn [mapM_list].
  rewrite Hi', bind_ret_l, Hcode, bind_ret_l. split; [reflexivity|]. intros m Hm.
  assert (Hone : run_instrs m [i] = Next (set_mem m (fp + o) (xreg m (regnum r)))).
  { rewrite Hstep by (apply fp_slot; [done | lia]). pose proof (saveable_range r Hr).
    unfold rget. replace (regnum r =? 31) with false by lia.
    change (rget_sp m 29) with (xreg m 29). by rewrite Hm. }
  destruct (Hrun (set_mem m (fp + o) (xreg m (regnum r)))) as (memory & Hr' & Hh & Hother);
    [done|].
  exists memory. split; [|split].
  - erewrite run_instrs_next by (rewrite run_instrs_annotate; exact Hone). exact Hr'.
  - intros r' o' [-> | Hr'']%elem_of_cons Ho'; [|by apply Hh].
    rewrite Ho in Ho'. injection Ho' as <-. rewrite Hother; [by cbn; rewrite upd_same|].
    intros r2 o2 H2 Ho2 E. assert (o2 = o) as -> by lia. apply Hnr.
    rewrite (Hinj r r2 o); [done | left | by right | done | done].
  - intros a Ha. rewrite Hother.
    + cbn. rewrite upd_other; [done|]. apply (Ha r); [left | done].
    + intros r' o' Hr'' Ho'. apply (Ha r'); [by right | done].
Qed.

Lemma restores_run regs :
  placed regs -> NoDup regs ->
  exists code, mapM_list (restore_register offsets) regs = Ok code
    /\ forall m, xreg m 29 = fp -> exists regs',
      run_instrs m code = Next (mkMachine regs' (sp m) (mem m) (nzcv m))
      /\ (forall r o, r ∈ regs -> offsets !! r = Some o -> regs' (regnum r) = mem m (fp + o))
      /\ forall n, (forall r, r ∈ regs -> n <> regnum r) -> regs' n = xreg m n.
Proof using Hfp Hlimit.
  induction regs as [|r regs IH]; intros Hp Hnd.
  { exists []. split; [done|]. intros m _. exists (xreg m). split; [by destruct m|].
    split; [|done]. intros r o Hr. by apply not_elem_of_nil in Hr. }
  apply list.Forall_cons in Hp as [(Hr & o & Ho & Hrange & H8) Hp].
  apply list.NoDup_cons in Hnd as [Hnr Hnd].
  destruct (IH Hp Hnd) as (code & Hcode & Hrun).
  destruct (ldr_runs r "X29" "" (regnum r) 29 o (saveable_parse r Hr) parse_X29
    ltac:(lia) H8) as (i & Hi & Hstep).
  assert (Hi' : exists t, restore_register offsets r = Ok (annotate t i)).
  { unfold restore_register. rewrite Ho, Hi. by eexists. }
  destruct Hi' as [t Hi']. exists (annotate t i :: code). cbn [mapM_list].
  rewrite Hi', bind_ret_l, Hcode, bind_ret_l. split; [reflexivity|]. intros m Hm.
  pose proof (saveable_range r Hr) as Hn.
  set (m1 := mkMachine (upd (xreg m) (regnum r) (mem m (fp + o))) (sp m) (mem m) (nzcv m)).
  assert (Hone : run_instrs m [i] = Next m1).
  { rewrite Hstep by (apply fp_slot; [done | lia]).
    unfold rset. replace (regnum r =? 31) with false by lia.
    change (rget_sp m 29) with (xreg m 29). by rewrite Hm. }
  destruct (Hrun m1) as (regs' & Hr' & Hh & Hother); [by cbn; rewrite upd_other by lia|].
  assert (Hne : forall r', r' ∈ regs -> regnum r <> regnum r').
  { intros r' Hr'' E. apply Hnr. unfold placed in Hp. rewrite list.Forall_forall in Hp.
    rewrite (regnum_inj r r'); [done | done | by apply Hp | done]. }
  exists regs'. split; [|split].
  - erewrite run_instrs_next by (rewrite run_instrs_annotate; exact Hone). exact Hr'.
  - intros r' o' [-> | Hr'']%elem_of_cons Ho'; [|by apply Hh].
    rewrite Ho in Ho'. injection Ho' as <-. rewrite Hother by done. cbn. apply upd_same.
  - intros n Hnn. rewrite Hother by (intros; apply Hnn; by right).
    cbn. apply upd_other. apply Hnn. left.
Qed.

(** ** The canaries *)

Definition canary_value (off : Z) : Z :=
  if off =? 16 then UPPER_CANARY_VALUE else LOWER_CANARY_VALUE.

(** One canary: its value is loaded and stored. *)
Lemma set_canary_run off :
  off = 16 \/ off = 24 -> 32 <= limit ->
  exists value store,
    create_movz_movk_abs64 "X9" (canary_value off) "" = Ok value
    /\ create_str_imm "X9" "X29" off "" = Ok store
    /\ forall m, xreg m 29 = fp -> exists m',
      run_instrs m (value ++ [store]) = Next m' /\ sp m' = sp m
      /\ (forall r, r <> 9 -> xreg m' r = xreg m r)
      /\ mem m' = upd (mem m) (fp + off) (canary_value off).
Proof using Hfp Hlimit.
  intros Hoff Hl.
  destruct (abs64_loads "X9" "" 9 (canary_value off)) as (value & Hv & _ & Hload);
    [vm_compute; reflexivity | lia | destruct Hoff as [-> | ->]; vm_compute; by split |].
  destruct (str_runs "X9" "X29" "" 9 29 off ltac:(vm_compute; reflexivity) parse_X29
    ltac:(lia) ltac:(destruct Hoff as [-> | ->]; reflexivity)) as (store & Hs & Hstep).
  exists value, store. split; [done|]. split; [done|]. intros m Hm.
  destruct (Hload m) as (m1 & Hr1 & H9 & Hsp & Hmem & _ & Hx).
  assert (Hm1 : xreg m1 29 = fp) by (by rewrite Hx by lia).
  eexists. rewrite run_instrs_app, Hr1, Hstep by (apply fp_slot; [done | lia]).
  split; [reflexivity|]. split; [exact Hsp|]. split; [exact Hx|].
  unfold set_mem. cbn [mem]. change (rget_sp m1 29) with (xreg m1 29).
  change (rget m1 9) with (xreg m1 9). by rewrite Hm1, H9, Hmem.
Qed.

Lemma guards_run canaries :
  (canaries = true -> 32 <= limit) ->
  exists code, (if canaries then canary_prologue else Ok []) = Ok code
    /\ forall m, xreg m 29 = fp -> exists m',
      run_instrs m code = Next m' /\ sp m' = sp m
      /\ (forall r, canaries = true /\ r = 9 \/ xreg m' r = xreg m r)
      /\ mem m' = if canaries
         then upd (upd (mem m) (fp + 16) UPPER_CANARY_VALUE) (fp + 24) LOWER_CANARY_VALUE
         else mem m.
Proof using Hfp Hlimit.
  intros Hl. destruct canaries; [|exists []; split; [done|]; intros m _; exists m; by auto].
  destruct (set_canary_run 16) as (v1 & s1 & Hv1 & Hs1 & R1); [by left | by apply Hl |].
  destruct (set_canary_run 24) as (v2 & s2 & Hv2 & Hs2 & R2); [by right | by apply Hl |].
  cbv [canary_value] in *. cbn [Z.eqb Pos.eqb] in *.
  eexists. unfold canary_prologue. change (16 + CANARY_SIZE) with 24. cbv zeta.
  rewrite Hv1, bind_ret_l, Hs1, bind_ret_l, Hv2, bind_ret_l, Hs2, bind_ret_l.
  split; [reflexivity|]. intros m Hm.
  destruct (R1 m Hm) as (m1 & E1 & Hsp1 & Hx1 & Hm1).
  destruct (R2 m1) as (m2 & E2 & Hsp2 & Hx2 & Hm2); [by rewrite Hx1 by lia|].
  exists m2. split; [|split; [congruence | split]].
  - transitivity (run_instrs m ((v1 ++ [s1]) ++ v2 ++ [s2])).
    + unfold run_instrs. f_equal. rewrite !fmap_app, !annotate_last_encoding.
      by rewrite <-!app_assoc.
    + by rewrite run_instrs_app, E1.
  - intros r. destruct (decide (r = 9)) as [-> | Hr]; [by left | right].
    by rewrite Hx2, Hx1.
  - by rewrite Hm2, Hm1.
Qed.

(** The check of one canary falls through when it is intact and branches otherwise. *)
Lemma check_run which name suffix off :
  off = 16 \/ off = 24 -> 32 <= limit ->
  exists code, check_canary which name suffix off (canary_value off) = Ok code
    /\ forall m, xreg m 29 = fp -> 0 <= mem m (fp + off) < 2 ^ 64 -> exists m',
      run_instrs m code = (if mem m (fp + off) =? canary_value off then Next m' else Taken m' 0)
      /\ sp m' = sp m /\ mem m' = mem m
      /\ forall r, r <> 10 -> r <> 11 -> xreg m' r = xreg m r.
Proof using Hfp Hlimit.
  intros Hoff Hl.
  assert (Hval : 0 <= canary_value off < 2 ^ 64)
    by (destruct Hoff as [-> | ->]; vm_compute; by split).
  destruct (ldr_runs "X10" "X29" "" 10 29 off ltac:(vm_compute; reflexivity) parse_X29
    ltac:(lia) ltac:(destruct Hoff as [-> | ->]; reflexivity)) as (load & Hload & Hstep).
  destruct (abs64_loads "X11" "" 11 (canary_value off)) as (value & Hv & _ & Hvalue);
    [vm_compute; reflexivity | lia | done |].
  pose proof (create_cmp_reg_ok "X10" "X11") as Hcmp.
  replace (parse_register_31 "X10") with (Ok (10, true)) in Hcmp by (vm_compute; reflexivity).
  replace (parse_register_31 "X11") with (Ok (11, true)) in Hcmp by (vm_compute; reflexivity).
  destruct Hcmp as (cmp & Hcmp & (_ & Dcmp & _) & _).
  pose proof (create_branch_conditional_ok "NE" (name ++ suffix)) as Hbr.
  replace (get_condition_code "NE") with (Ok 1) in Hbr by (vm_compute; reflexivity).
  destruct Hbr as (br & Hbr & (_ & Dbr & _) & _).
  eexists. unfold check_canary. rewrite Hload, bind_ret_l, Hv, bind_ret_l, Hcmp, bind_ret_l.
  rewrite Hbr, bind_ret_l. split; [reflexivity|]. intros m Hm Hrange.
  set (m1 := rset m 10 (mem m (fp + off))).
  assert (R1 : run_instrs m [load] = Next m1).
  { rewrite Hstep by (apply fp_slot; [done | lia]). unfold m1.
    change (rget_sp m 29) with (xreg m 29). by rewrite Hm. }
  destruct (Hvalue m1) as (m2 & R2 & H11 & Hsp & Hmem & _ & Hx).
  exists (set_flags m2 (compare_flags (mem m (fp + off)) (canary_value off))).
  split; [|split; [exact Hsp | split; [exact Hmem|]]].
  - rewrite run_instrs_app, run_instrs_annotate, R1, run_instrs_app, run_instrs_annotate_last, R2.
    unfold run_instrs. cbn [fmap list_fmap]. rewrite !annotate_encoding. cbn [run].
    rewrite Dcmp, Dbr. unfold CMPr. cbn [exec].
    change (rget m2 11) with (xreg m2 11). change (rget m2 10) with (xreg m2 10).
    rewrite H11, Hx by lia. change (xreg m1 10) with (mem m (fp + off)).
    unfold compare_flags. cbn [nzcv set_flags cond_holds zero_flag].
    replace (u64 (mem m (fp + off) - canary_value off) =? 0)
      with (mem m (fp + off) =? canary_value off); [by destruct (_ =? _)|].
    unfold u64. apply eq_true_iff_eq. rewrite !Z.eqb_eq. clear - Hval Hrange. elia.
  - intros r H10 Hr. cbn. rewrite Hx by done. unfold m1, rset. cbn. by apply upd_other.
Qed.

Definition intact (memory : Z -> Z) : bool :=
  (memory (fp + 16) =? UPPER_CANARY_VALUE) && (memory (fp + 24) =? LOWER_CANARY_VALUE).

Lemma checks_run canaries name :
  (canaries = true -> 32 <= limit) ->
  exists code, (if canaries then canary_epilogue name else Ok []) = Ok code
    /\ forall m, xreg m 29 = fp ->
      (forall off, off = 16 \/ off = 24 -> 0 <= mem m (fp + off) < 2 ^ 64) ->
      exists m',
      run_instrs m code
      = (if negb canaries || intact (mem m) then Next m' else Taken m' 0)
      /\ sp m' = sp m /\ mem m' = mem m
      /\ forall r, r <> 10 -> r <> 11 -> xreg m' r = xreg m r.
Proof using Hfp Hlimit.
  intros Hl. destruct canaries; [|exists []; split; [done|]; intros m _ _; exists m; by auto].
  destruct (check_run "Upper" name "_stackprot_upper" 16) as (c1 & H1 & R1);
    [by left | by apply Hl |].
  destruct (check_run "Lower" name "_stackprot_lower" 24) as (c2 & H2 & R2);
    [by right | by apply Hl |].
  exists (c1 ++ c2). unfold canary_epilogue. change (16 + CANARY_SIZE) with 24.
  change UPPER_CANARY_VALUE with (canary_value 16). change LOWER_CANARY_VALUE with (canary_value 24).
  rewrite H1, bind_ret_l, H2, bind_ret_l. split; [done|]. intros m Hm Hw.
  destruct (R1 m Hm (Hw _ ltac:(by left))) as (m1 & E1 & Hsp1 & Hm1 & Hx1).
  destruct (R2 m1) as (m2 & E2 & Hsp2 & Hm2 & Hx2);
    [by rewrite Hx1 by lia | rewrite Hm1; by apply Hw; right |].
  unfold intact. rewrite run_instrs_app, E1. rewrite Hm1 in E2.
  change UPPER_CANARY_VALUE with (canary_value 16). change LOWER_CANARY_VALUE with (canary_value 24).
  destruct (mem m (fp + 16) =? canary_value 16); cbn [negb orb andb].
  - exists m2. rewrite E2. split; [done|]. split; [congruence|]. split; [congruence|].
    intros r Ha Hb. by rewrite Hx2, Hx1.
  - by exists m1.
Qed.
End registers.

(** ** Leaving the frame *)

Lemma leave_run fp :
  0 <= fp < 2 ^ 64 - 16 -> fp mod 16 = 0 ->
  exists code, leave_frame = Ok code
    /\ forall m rest, xreg m 29 = fp -> exists m',
      run_instrs m (code ++ rest) = Return m' (mem m (fp + 8))
      /\ sp m' = fp + 16 /\ mem m' = mem m
      /\ xreg m' 29 = mem m fp /\ xreg m' 30 = mem m (fp + 8)
      /\ forall r, r <> 29 -> r <> 30 -> xreg m' r = xreg m r.
Proof.
  intros Hfp H16. destruct set_sp_runs as (i1 & H1 & R1).
  destruct (ldr_runs "X29" "SP" "" 29 31 0 parse_X29 parse_SP ltac:(lia) eq_refl)
    as (i2 & H2 & R2).
  destruct (ldr_runs "X30" "SP" "" 30 31 8 parse_X30 parse_SP ltac:(lia) eq_refl)
    as (i3 & H3 & R3).
  destruct pop_runs as (i4 & H4 & R4). destruct return_runs as (i5 & H5 & R5).
  eexists. unfold leave_frame.
  rewrite H1, bind_ret_l, H2, bind_ret_l, H3, bind_ret_l, H4, bind_ret_l, H5, bind_ret_l.
  split; [reflexivity|]. intros m rest Hm. cbn [app].
  assert (Hslot : forall regs mem z o, o = 0 \/ o = 8 -> slot_ok 31 o (mkMachine regs fp mem z)).
  { intros regs memory z o Ho. unfold slot_ok, base_ok. cbn.
    split; [lia|]. split; [elia|]. split; [lia|]. by rewrite H16. }
  set (m1 := mkMachine (xreg m) fp (mem m) (nzcv m)).
  set (m2 := mkMachine (upd (xreg m) 29 (mem m fp)) fp (mem m) (nzcv m)).
  set (m3 := mkMachine (upd (xreg m2) 30 (mem m (fp + 8))) fp (mem m) (nzcv m)).
  assert (E1 : run_instrs m [i1] = Next m1) by (rewrite R1 by lia; by rewrite Hm).
  assert (E2 : run_instrs m1 [i2] = Next m2).
  { rewrite R2 by (apply Hslot; by left). change (rget_sp m1 31) with fp. by rewrite Z.add_0_r. }
  assert (E3 : run_instrs m2 [i3] = Next m3) by (by rewrite R3 by (apply Hslot; by right)).
  exists (mkMachine (xreg m3) (fp + 16) (mem m) (nzcv m)). split.
  - erewrite run_instrs_next by (rewrite run_instrs_annotate; exact E1).
    erewrite run_instrs_next by (rewrite run_instrs_annotate; exact E2).
    erewrite run_instrs_next by (rewrite run_instrs_annotate; exact E3).
    erewrite run_instrs_next by (rewrite run_instrs_annotate; apply R4; exact Hfp).
    change (i5 :: rest) with ([i5] ++ rest). rewrite run_instrs_app, R5 by done. reflexivity.
  - cbn. repeat split; try done. intros r H29 H30. by rewrite !upd_other.
Qed.

Lemma handlers_exist (canaries : bool) (name : string) :
  exists code, (if canaries then canary_handlers name else Ok []) = Ok code.
Proof.
  destruct canaries; [|by exists []].
  destruct (create_brk_ok 0 ltac:(lia)) as (i & Hi & _).
  unfold canary_handlers, canary_handler. rewrite Hi, !bind_ret_l. by eexists.
Qed.

(** ** The frame of a function *)

Section frame.
Context (canaries : bool) (st : CallFrameManager).
Context (Hinv : frame_inv canaries st) (Hclash : no_clash st).
Context (Hsave : Forall saveable (saved_registers st)).
Let size : Z := final_frame_size (layout_frame canaries st).
Context (Hsize : size <= 512).

Lemma size_bounds : 16 + canary_space canaries <= size /\ size mod 16 = 0.
Proof using Hinv Hsize.
  unfold size. rewrite layout_frame_size by done.
  destruct (align_to_16_spec (16 + canary_space canaries + total (slots st)
    + spill_area_size st)) as [Ha Hm].
  pose proof (total_nonneg _ (slot_sizes canaries st Hinv)). pose proof (fi_spill _ _ Hinv).
  split; [lia | done].
Qed.

Lemma saved_slot r :
  r ∈ saved_registers st ->
  exists k, slots st !! k = Some (r, 8).
Proof using.
  intros Hr. apply list_elem_of_lookup_1. unfold slots. apply elem_of_app. right.
  apply list_elem_of_fmap. by exists r.
Qed.

Lemma saved_placed :
  placed size (variable_offsets (layout_frame canaries st)) (saved_registers st).
Proof using Hinv Hclash Hsave Hsize.
  apply list.Forall_forall. intros r Hr. split; [by rewrite list.Forall_forall in Hsave; apply Hsave|].
  destruct (saved_slot r Hr) as [k Hk].
  destruct (layout_slot canaries st k _ Hinv Hclash Hk) as (Hl & Hlo & Hm & Hhi).
  cbn [fst snd] in *. pose proof (fi_spill _ _ Hinv). fold size in Hhi.
  assert (0 <= canary_space canaries) by (by destruct canaries).
  eexists. split; [exact Hl|]. split; [lia | exact Hm].
Qed.

(** The saved registers have different slots, above the canaries. *)
Lemma saved_offsets r1 r2 o :
  r1 ∈ saved_registers st -> r2 ∈ saved_registers st ->
  variable_offsets (layout_frame canaries st) !! r1 = Some o ->
  variable_offsets (layout_frame canaries st) !! r2 = Some o ->
  r1 = r2 /\ 16 + canary_space canaries <= o.
Proof using Hinv Hclash Hsize.
  intros H1 H2 E1 E2. destruct (saved_slot r1 H1) as [i Hi], (saved_slot r2 H2) as [j Hj].
  destruct (layout_slot canaries st i _ Hinv Hclash Hi) as (L1 & Hlo & _).
  destruct (layout_slot canaries st j _ Hinv Hclash Hj) as (L2 & _).
  cbn [fst] in *. rewrite L1 in E1. rewrite L2 in E2. injection E1 as E1. injection E2 as E2.
  split; [|lia]. destruct (decide (i = j)) as [-> | Hne]; [congruence|].
  pose proof (slots_disjoint_at _ (16 + canary_space canaries) i j _ _
    (slot_sizes canaries st Hinv) Hi Hj Hne) as Hd. cbn [snd] in Hd. lia.
Qed.

(** What the prologue makes of a machine. *)
Record built (m m' : machine) : Prop := {
  built_sp : sp m' = sp m - size;
  built_fp : xreg m' 29 = sp m';
  built_regs r : r <> 29 -> canaries = true /\ r = 9 \/ xreg m' r = xreg m r;
  built_old_fp : mem m' (sp m') = xreg m 29;
  built_old_lr : mem m' (sp m' + 8) = xreg m 30;
  built_saved : holds (sp m') (variable_offsets (layout_frame canaries st))
                  (saved_registers st) m (mem m');
  built_canaries : canaries = true -> intact (sp m') (mem m') = true;
  built_outside a : a < sp m' \/ sp m <= a -> mem m' a = mem m a
}.

Lemma built_intro m m' fp :
  sp m' = fp -> fp = sp m - size -> xreg m' 29 = fp ->
  (forall r, r <> 29 -> canaries = true /\ r = 9 \/ xreg m' r = xreg m r) ->
  mem m' fp = xreg m 29 -> mem m' (fp + 8) = xreg m 30 ->
  holds fp (variable_offsets (layout_frame canaries st)) (saved_registers st) m (mem m') ->
  (canaries = true -> intact fp (mem m') = true) ->
  (forall a, a < fp \/ sp m <= a -> mem m' a = mem m a) -> built m m'.
Proof using. intros <-. by split. Qed.

Definition stack_ok (m : machine) : Prop := sp m mod 16 = 0 /\ size <= sp m < 2 ^ 64.

Lemma prologue_code_runs m : stack_ok m ->
  exists code, prologue_code canaries (layout_frame canaries st) = Ok code
    /\ exists m', run_instrs m code = Next m' /\ built m m'.
Proof using Hinv Hclash Hsave Hsize.
  intros [H16 Hsp]. pose proof size_bounds as [Hlo Hmod]. unfold canary_space, CANARY_SIZE in Hlo.
  set (fp := sp m - size). assert (Hlo' : 16 <= size) by (destruct canaries; lia).
  destruct (push_runs size) as (push & Hpush & Rpush); [destruct canaries; lia | done |].
  destruct set_fp_runs as (setfp & Hfp & Rfp).
  destruct (guards_run fp size ltac:(split; [lia | unfold fp; elia]) ltac:(lia) canaries)
    as (guards & Hg & Rg); [destruct canaries; [lia | done]|].
  destruct (saves_run fp size (variable_offsets (layout_frame canaries st))
    ltac:(split; [lia | unfold fp; elia]) ltac:(lia) (saved_registers st) saved_placed)
    as (saves & Hs & Rs).
  { by eapply saved_registers_NoDup. }
  { intros r1 r2 o H1 H2 E1 E2. by apply (saved_offsets r1 r2 o). }
  eexists. unfold prologue_code. fold size. rewrite layout_callee_saved.
  rewrite Hpush, bind_ret_l, Hfp, bind_ret_l, Hg, bind_ret_l, Hs, bind_ret_l.
  split; [reflexivity|].
  specialize (Rpush m (conj H16 Hsp)). fold fp in Rpush.
  set (m1 := mkMachine _ _ _ _) in Rpush.
  assert (Hrange : 0 <= fp < 2 ^ 64) by (unfold fp; destruct canaries; lia).
  specialize (Rfp m1 Hrange). set (m2 := rset m1 29 (sp m1)) in Rfp.
  destruct (Rg m2 eq_refl) as (m3 & E3 & Hsp3 & Hx3 & Hm3).
  destruct (Rs m3) as (memory & E4 & Hh & Ho); [by destruct (Hx3 29) as [[_ ?]| ->]|].
  eexists. split.
  - cbn [app]. erewrite run_instrs_next by exact Rpush. erewrite run_instrs_next by exact Rfp.
    rewrite run_instrs_app, E3. exact E4.
  - assert (Hkeep : forall a, a < fp + 16 + canary_space canaries \/ sp m <= a -> memory a = mem m3 a).
    { intros a Ha. apply Ho. intros r o Hr Hro.
      destruct (saved_offsets r r o Hr Hr Hro Hro) as [_ Hlow].
      pose proof saved_placed as Hp. unfold placed in Hp. rewrite list.Forall_forall in Hp.
      destruct (Hp r Hr) as (_ & o' & Ho' & Hr' & _). rewrite Hro in Ho'. injection Ho' as <-.
      unfold fp in *. lia. }
    assert (Hbase : forall a, a < fp + 16 \/ sp m <= a -> mem m3 a = mem m1 a).
    { intros a Ha. rewrite Hm3. destruct canaries; [|done].
      rewrite !upd_other; [done | unfold fp in *; lia..]. }
    assert (Hreg : forall r, r <> 29 -> canaries = true /\ r = 9 \/ xreg m3 r = xreg m r).
    { intros r Hr. destruct (Hx3 r) as [?| ->]; [by left | right].
      change (upd (xreg m) 29 fp r = xreg m r). by apply upd_other. }
    assert (H0 : 0 <= canary_space canaries) by (by destruct canaries).
    apply built_intro with fp; cbn [sp xreg mem]; try done.
    + by destruct (Hx3 29) as [[_ ?]| ->].
    + rewrite Hkeep, Hbase by lia. cbn. rewrite upd_other by lia. apply upd_same.
    + rewrite Hkeep, Hbase by lia. cbn. apply upd_same.
    + intros r o Hr Hro. rewrite (Hh r o Hr Hro).
      rewrite list.Forall_forall in Hsave. pose proof (saveable_range r (Hsave r Hr)).
      destruct (Hreg (regnum r)) as [[_ ?]|?]; [lia | lia | done].
    + intros Hc. unfold intact. rewrite !Hkeep by (rewrite Hc; unfold canary_space, CANARY_SIZE; lia).
      rewrite Hm3, Hc. rewrite upd_other by lia. rewrite !upd_same. reflexivity.
    + intros a Ha. rewrite Hkeep, Hbase by lia. cbn. rewrite !upd_other; [done | unfold fp in *; lia..].
Qed.

Let st' : CallFrameManager := set_prologue_generated (layout_frame canaries st).
Let offsets : gmap string Z := variable_offsets (layout_frame canaries st).

Lemma epilogue_code_runs fp :
  0 <= fp -> fp mod 16 = 0 -> fp + size < 2 ^ 64 ->
  exists code, generate_epilogue canaries st' = Ok code
    /\ forall m, xreg m 29 = fp ->
      (forall off, off = 16 \/ off = 24 -> 0 <= mem m (fp + off) < 2 ^ 64) ->
      let ok := negb canaries || intact fp (mem m) in
      exists m', run_instrs m code = (if ok then Return m' (mem m (fp + 8)) else Taken m' 0)
        /\ mem m' = mem m
        /\ (ok = true -> sp m' = fp + 16 /\ xreg m' 29 = mem m fp
            /\ (forall r o, r ∈ saved_registers st -> offsets !! r = Some o ->
                  xreg m' (regnum r) = mem m (fp + o))
            /\ forall n, n ∉ [10; 11; 29; 30] ->
                 (forall r, r ∈ saved_registers st -> n <> regnum r) -> xreg m' n = xreg m n).
Proof using Hinv Hclash Hsave Hsize.
  intros H0 H16 Hlt. pose proof size_bounds as [Hlo Hmod].
  assert (Hcs : 0 <= canary_space canaries) by (by destruct canaries).
  destruct (restores_run fp size offsets ltac:(done) ltac:(lia) (saved_registers st) saved_placed)
    as (restores & Hr & Rr); [by eapply saved_registers_NoDup|].
  destruct (checks_run fp size ltac:(done) ltac:(lia) canaries (function_name st))
    as (checks & Hc & Rc); [intros Hc; rewrite Hc in Hlo; exact Hlo|].
  destruct (leave_run fp ltac:(lia) H16) as (leave & Hl & Rl).
  destruct (handlers_exist canaries (function_name st)) as (handlers & Hh).
  enough (He : exists code, generate_epilogue canaries st' = Ok code
    /\ code = restores ++ checks ++ leave ++ handlers).
  { destruct He as (_ & He & ->). eexists. split; [exact He|]. intros m Hm Hw ok.
    destruct (Rr m Hm) as (regs & E1 & Hsaved & Hother).
    set (m1 := mkMachine regs _ _ _) in E1.
    assert (Hn : forall r, r ∈ saved_registers st -> 19 <= regnum r <= 28).
    { intros r Hin. rewrite list.Forall_forall in Hsave. by apply saveable_range, Hsave. }
    assert (Hm1 : xreg m1 29 = fp).
    { cbn. rewrite Hother; [done|]. intros r Hin. specialize (Hn r Hin). lia. }
    destruct (Rc m1 Hm1 Hw) as (m2 & E2 & Hsp2 & Hm2 & Hx2).
    change (mem m1) with (mem m) in *. fold ok in E2.
    rewrite run_instrs_app, E1, run_instrs_app, E2.
    destruct ok; [|by exists m2].
    destruct (Rl m2 handlers) as (m3 & E3 & Hsp3 & Hm3 & H29 & _ & Hx3); [by rewrite Hx2 by lia|].
    exists m3. rewrite E3, Hm2. split; [done|]. split; [congruence|]. intros _.
    split; [done|]. split; [by rewrite H29, Hm2|]. split.
    - intros r o Hin Ho. specialize (Hn r Hin). rewrite Hx3, Hx2 by lia. by apply Hsaved.
    - intros n Hne Hnr. rewrite !not_elem_of_cons in Hne. destruct Hne as (? & ? & ? & ? & _).
      rewrite Hx3, Hx2 by done. apply (Hother n Hnr). }
  eexists. unfold generate_epilogue, st'.
  cbn [is_prologue_generated set_prologue_generated negb variable_offsets callee_saved
    function_name]. fold offsets. rewrite layout_callee_saved.
  replace (function_name (layout_frame canaries st)) with (function_name st)
    by (unfold layout_frame; by destruct (place_registers _ _)).
  rewrite Hr, bind_ret_l, Hc, bind_ret_l, Hl, bind_ret_l, Hh, bind_ret_l.
  by split.
Qed.

(** What a function body has to leave alone: the frame pointer, the frame record and the
    slots of the saved registers.  The words read as canaries are 64-bit words. *)
Record body_keeps (m m' : machine) : Prop := {
  keeps_fp : xreg m' 29 = xreg m 29;
  keeps_record o : o = 0 \/ o = 8 -> mem m' (sp m + o) = mem m (sp m + o);
  keeps_saved r o : r ∈ saved_registers st -> offsets !! r = Some o ->
    mem m' (sp m + o) = mem m (sp m + o);
  keeps_words off : off = 16 \/ off = 24 -> 0 <= mem m' (sp m + off) < 2 ^ 64
}.

Lemma call_runs m : stack_ok m ->
  exists prologue epilogue,
    generate_prologue canaries st = (st', Ok prologue)
    /\ generate_epilogue canaries st' = Ok epilogue
    /\ exists m0, run_instrs m prologue = Next m0 /\ built m m0
    /\ forall m1, body_keeps m0 m1 ->
      let ok := negb canaries || intact (sp m0) (mem m1) in
      exists m2, run_instrs m1 epilogue = (if ok then Return m2 (xreg m 30) else Taken m2 0)
        /\ mem m2 = mem m1
        /\ (ok = true -> sp m2 = sp m - size + 16 /\ xreg m2 29 = xreg m 29
            /\ forall r, r ∈ saved_registers st -> xreg m2 (regnum r) = xreg m (regnum r)).
Proof using Hinv Hclash Hsave Hsize.
  intros Hstack. destruct (prologue_code_runs m Hstack) as (pro & Hp & m0 & E0 & B).
  destruct Hstack as [H16 Hsp]. pose proof size_bounds as [Hlo Hmod].
  pose proof (built_sp _ _ B) as Hs0.
  destruct (epilogue_code_runs (sp m0)) as (epi & He & Re); [lia | rewrite Hs0; elia | lia |].
  exists pro, epi. split; [|split; [exact He|]].
  { unfold generate_prologue. rewrite (fi_pending _ _ Hinv). cbv zeta. by rewrite Hp. }
  exists m0. split; [done|]. split; [done|]. intros m1 [Kfp Krec Ksaved Kw] ok.
  destruct (Re m1) as (m2 & E2 & Hm2 & Hok).
  { by rewrite Kfp, (built_fp _ _ B). }
  { exact Kw. }
  fold ok in E2, Hok. exists m2. split; [|split; [done|]].
  { rewrite E2, Krec by (by right). by rewrite (built_old_lr _ _ B). }
  intros H. destruct (Hok H) as (Ha & Hb & Hc & _). split; [lia|]. split.
  - rewrite Hb. rewrite <-(Z.add_0_r (sp m0)) at 1. rewrite Krec by (by left).
    by rewrite Z.add_0_r, (built_old_fp _ _ B).
  - intros r Hr. destruct (saved_slot r Hr) as [k Hk].
    destruct (layout_slot canaries st k _ Hinv Hclash Hk) as (Hl & _). cbn [fst] in Hl.
    rewrite (Hc r _ Hr Hl), (Ksaved r _ Hr Hl). exact (built_saved _ _ B r _ Hr Hl).
Qed.
End frame.

(** ** The properties *)

(** The prologue of a function whose frame is at most 512 bytes and
    which saves registers among X19-X28 is emitted, and executed with an aligned stack of
    sufficient size it lowers SP by the frame size, points X29 at the frame record holding
    the caller's X29 and X30, stores every saved register in its slot and the two canaries
    in theirs, and changes no other register (but the scratch register X9, when there are
    canaries) and no memory outside the frame. *)
Theorem prologue_builds_frame canaries name ops m :
  let st := build_frame canaries name ops in
  no_clash st -> Forall saveable (saved_registers st) ->
  final_frame_size (layout_frame canaries st) <= 512 -> stack_ok canaries st m ->
  exists code m0,
    generate_prologue canaries st = (set_prologue_generated (layout_frame canaries st), Ok code)
    /\ run_instrs m code = Next m0 /\ built canaries st m m0.
Proof.
  intros st Hc Hs Hsize Hm.
  destruct (call_runs canaries st (build_frame_inv canaries name ops) Hc Hs Hsize m Hm)
    as (pro & epi & Hp & _ & m0 & Hr & Hb & _). eauto.
Qed.

(** C38: a body that keeps the frame pointer, the frame record and the slots of
    the saved registers is followed by an epilogue that restores the saved registers and
    X29 and returns to the address the function was called with; with canaries, when one
    of them has been overwritten it branches to the handler instead.  The stack pointer it
    returns with is 16 bytes above the bottom of the frame: the caller's only when the
    frame is 16 bytes long. *)
Theorem call_returns canaries name ops m :
  let st := build_frame canaries name ops in
  let size := final_frame_size (layout_frame canaries st) in
  no_clash st -> Forall saveable (saved_registers st) -> size <= 512 -> stack_ok canaries st m ->
  exists st' prologue epilogue m0,
    generate_prologue canaries st = (st', Ok prologue)
    /\ generate_epilogue canaries st' = Ok epilogue
    /\ run_instrs m prologue = Next m0
    /\ forall m1, body_keeps canaries st m0 m1 ->
      let ok := negb canaries || intact (sp m0) (mem m1) in
      exists m2, run_instrs m1 epilogue = (if ok then Return m2 (xreg m 30) else Taken m2 0)
        /\ mem m2 = mem m1
        /\ (ok = true -> sp m2 = sp m - (size - 16) /\ xreg m2 29 = xreg m 29
            /\ forall r, r ∈ saved_registers st -> xreg m2 (regnum r) = xreg m (regnum r)).
Proof.
  intros st size Hc Hs Hsize Hm.
  destruct (call_runs canaries st (build_frame_inv canaries name ops) Hc Hs Hsize m Hm)
    as (pro & epi & Hp & He & m0 & Hr & _ & Hbody).
  exists (set_prologue_generated (layout_frame canaries st)), pro, epi, m0.
  split; [done|]. split; [done|]. split; [done|]. intros m1 Hk ok.
  destruct (Hbody m1 Hk) as (m2 & E & Hmem & Hok). exists m2. split; [done|]. split; [done|].
  intros H. destruct (Hok H) as (Hsp & H'). split; [unfold size; lia | done].
Qed.

(** A function whose frame record, canaries, locals, saved registers
    and spill area take more than 512 bytes gets no prologue: [invalid_argument] is thrown
    when the STP is encoded, after the layout has been stored in the object, whose epilogue
    is then refused too. *)
Theorem large_frame_refused canaries name ops :
  let st := build_frame canaries name ops in
  512 < 16 + canary_space canaries + locals_total_size st
        + 8 * Z.of_nat (length (saved_registers st)) + spill_area_size st ->
  generate_prologue canaries st = (layout_frame canaries st, Throw invalid_argument)
  /\ generate_epilogue canaries (layout_frame canaries st) = Throw runtime_error.
Proof.
  intros st Hbig. pose proof (build_frame_inv canaries name ops : frame_inv canaries st) as H.
  pose proof (layout_frame_size canaries st H) as Hsize.
  pose proof (align_to_16_spec (16 + canary_space canaries + total (slots st)
    + spill_area_size st)) as [Hal _]. rewrite <-Hsize in Hal.
  unfold slots in Hal. rewrite total_app, total_saved, <-(fi_total _ _ H) in Hal.
  assert (Hp : is_prologue_generated (layout_frame canaries st) = false).
  { unfold layout_frame. destruct (place_registers _ _). exact (fi_pending _ _ H). }
  split.
  - unfold generate_prologue. rewrite (fi_pending _ _ H). cbv zeta. unfold prologue_code.
    pose proof (create_stp_pre_imm_ok "X29" "X30" "SP"
      (- final_frame_size (layout_frame canaries st))) as Hstp.
    rewrite parse_X29, parse_X30, parse_SP in Hstp.
    replace (valid_pair_offset true _) with false in Hstp; [by rewrite Hstp|].
    symmetry. apply not_true_is_false. unfold valid_pair_offset, access_size.
    intros ?. bool_to_prop. lia.
  - unfold generate_epilogue. by rewrite Hp.
Qed.

(** ** Witnesses *)

Definition sample_machine : machine := mkMachine (fun r => 100 + r) 0x8000 (fun _ => 0) (mkFlags false false).

Lemma sample_frame canaries :
  no_clash (build_frame canaries "f" sample_ops)
  /\ Forall saveable (saved_registers (build_frame canaries "f" sample_ops))
  /\ final_frame_size (layout_frame canaries (build_frame canaries "f" sample_ops)) <= 512
  /\ stack_ok canaries (build_frame canaries "f" sample_ops) sample_machine.
Proof.
  destruct canaries; (split; [apply (bool_decide_unpack _); vm_compute; exact I|]);
    (split; [apply (bool_decide_unpack _); vm_compute; exact I|]);
    (split; [vm_compute; discriminate|]); split; vm_compute; auto; by split.
Defined.

Lemma prologue_builds_frame_witness :
  exists code m0, (generate_prologue true (build_frame true "f" sample_ops)).2 = Ok code
    /\ run_instrs sample_machine code = Next m0 /\ mem m0 (sp m0 + 8) = 130.
Proof.
  destruct (sample_frame true) as (H1 & H2 & H3 & H4).
  destruct (prologue_builds_frame true "f" sample_ops sample_machine H1 H2 H3 H4)
    as (code & m0 & Hp & Hr & Hb).
  exists code, m0. split; [by rewrite Hp|]. split; [exact Hr|].
  rewrite (built_old_lr _ _ _ _ Hb). reflexivity.
Defined.

Lemma call_returns_witness :
  exists st' prologue epilogue m0 m2,
    generate_prologue true (build_frame true "f" sample_ops) = (st', Ok prologue)
    /\ generate_epilogue true st' = Ok epilogue
    /\ run_instrs sample_machine prologue = Next m0
    /\ run_instrs m0 epilogue = Return m2 130 /\ xreg m2 21 = 121.
Proof.
  destruct (sample_frame true) as (H1 & H2 & H3 & H4).
  destruct (call_returns true "f" sample_ops sample_machine H1 H2 H3 H4)
    as (st' & pro & epi & m0 & Hp & He & Hr & Hb).
  assert (Hk : body_keeps true (build_frame true "f" sample_ops) m0 m0
    /\ intact (sp m0) (mem m0) = true).
  { assert (Hp' : generate_prologue true (build_frame true "f" sample_ops) = (st', Ok pro)) by exact Hp.
    vm_compute in Hp'. injection Hp' as _ <-. vm_compute in Hr. injection Hr as <-.
    split; [split | reflexivity]; try done.
    intros off [-> | ->]; vm_compute; by split. }
  destruct Hk as [Hk Hi]. destruct (Hb m0 Hk) as (m2 & E & _ & Hok).
  rewrite Hi in E, Hok. exists st', pro, epi, m0, m2.
  split; [exact Hp|]. split; [exact He|]. split; [exact Hr|]. split; [exact E|].
  destruct (Hok eq_refl) as (_ & _ & Hs). apply (Hs "X21"%string).
  apply (bool_decide_unpack _). vm_compute. exact I.
Defined.

Lemma large_frame_refused_witness :
  (generate_prologue false (build_frame false "f" [Preallocate 63])).2 = Throw invalid_argument.
Proof.
  destruct (large_frame_refused false "f" [Preallocate 63]) as [H _];
    [vm_compute; reflexivity|]. rewrite H. reflexivity.
Defined.
