(* ===== verification/Registers.v ===== *)
(** * The register manager

    [RegisterManager] (src/RegisterManager.cpp, src/rm_*.cpp): the pools of general, floating
    and vector registers, the register each variable lives in, and the least-recently-used
    lists from which a victim is taken when a pool is empty.  Its operations change the
    manager, the frame of the current function (spill slots, saved registers) and append
    code; they may throw after some of these changes, or run into undefined behaviour (the
    last element of an empty [std::list]), so they are modelled as state transformers with an
    [outcome].  The routine-address cache (rm_clear_routine_cache.cpp and two more files) and
    the parameterless [acquire_scratch_reg] are not declared in the class and are
    left out. *)

From S2P Require Import Prelude Words A64 Instr EncReg EncSpec EncMem CallFrame.
Local Open Scope Z_scope.

(** ** State *)

Inductive RegisterStatus : Type :=
  | FREE
  | IN_USE_VARIABLE
  | IN_USE_SCRATCH
  | IN_USE_ROUTINE_ADDR
  | IN_USE_DATA_BASE.

#[export] Instance RegisterStatus_eq_dec : EqDecision RegisterStatus.
Proof. solve_decision. Defined.

Record RegisterInfo : Type := mkInfo {
  status : RegisterStatus;
  bound_to : string;
  dirty : bool
}.

Definition free_info : RegisterInfo := mkInfo FREE "" false.

Record RegisterManager : Type := mkRegisters {
  registers : gmap string RegisterInfo;
  variable_to_reg_map : gmap string string;
  variable_reg_lru_order : list string;
  spilled_variables : gset string;
  fp_variable_to_reg_map : gmap string string;
  fp_variable_reg_lru_order : list string;
  vec_variable_to_reg_map : gmap string string;
  vec_variable_reg_lru_order : list string;
  active_pool : list string
}.

(** What the operations work on: the manager, the frame and the code of [code_gen]. *)
Record generator : Type := mkGenerator {
  manager : RegisterManager;
  frame : CallFrameManager;
  emitted : list Instruction
}.

Definition FP_VARIABLE_REGS : list string :=
  ["D8"; "D9"; "D10"; "D11"; "D12"; "D13"; "D14"; "D15"]%string.
Definition FP_SCRATCH_REGS : list string :=
  ["D0"; "D1"; "D2"; "D3"; "D4"; "D5"; "D6"; "D7"; "D16"; "D17"; "D18"; "D19"; "D20"; "D21";
   "D22"; "D23"; "D24"; "D25"; "D26"; "D27"; "D28"; "D29"; "D30"; "D31"]%string.
Definition VEC_VARIABLE_REGS : list string :=
  ["V8"; "V9"; "V10"; "V11"; "V12"; "V13"; "V14"; "V15"]%string.
Definition VEC_SCRATCH_REGS : list string :=
  ["V0"; "V1"; "V2"; "V3"; "V4"; "V5"; "V6"; "V7"; "V16"; "V17"; "V18"; "V19"; "V20"; "V21";
   "V22"; "V23"; "V24"; "V25"; "V26"; "V27"; "V28"; "V29"; "V30"; "V31"]%string.
Definition SCRATCH_REGS : list string := ["X10"; "X11"; "X12"; "X13"; "X14"; "X15"]%string.
Definition RESERVED_REGS : list string := ["X28"]%string.

(** ** Computations *)

Definition M (A : Type) : Type := generator -> generator * outcome A.

#[export] Instance M_ret : MRet M := fun A a g => (g, Done a).
#[export] Instance M_bind : MBind M := fun A B f m g =>
  match m g with
  | (g, Done a) => f a g
  | (g, Raised e) => (g, Raised e)
  | (g, Undefined) => (g, Undefined)
  end.

Definition lift {A} (r : result A) : M A := fun g =>
  (g, match r with Ok a => Done a | Throw e => Raised e end).
Definition throw {A} (e : exn) : M A := fun g => (g, Raised e).
Definition get {A} (f : RegisterManager -> A) : M A := fun g => (g, Done (f (manager g))).
Definition modify (f : RegisterManager -> RegisterManager) : M unit := fun g =>
  (mkGenerator (f (manager g)) (frame g) (emitted g), Done tt).
Definition with_frame {A} (f : CallFrameManager -> A * CallFrameManager) : M A := fun g =>
  let '(a, fr) := f (frame g) in (mkGenerator (manager g) fr (emitted g), Done a).
Definition emit (i : Instruction) : M unit := fun g =>
  (mkGenerator (manager g) (frame g) (emitted g ++ [i]), Done tt).

Definition set_registers (m : gmap string RegisterInfo) (s : RegisterManager) : RegisterManager :=
  mkRegisters m (variable_to_reg_map s) (variable_reg_lru_order s) (spilled_variables s)
    (fp_variable_to_reg_map s) (fp_variable_reg_lru_order s) (vec_variable_to_reg_map s)
    (vec_variable_reg_lru_order s) (active_pool s).
Definition set_variables (m : gmap string string) (lru : list string) (sp : gset string)
    (s : RegisterManager) : RegisterManager :=
  mkRegisters (registers s) m lru sp
    (fp_variable_to_reg_map s) (fp_variable_reg_lru_order s) (vec_variable_to_reg_map s)
    (vec_variable_reg_lru_order s) (active_pool s).
Definition set_fp_variables (m : gmap string string) (lru : list string)
    (s : RegisterManager) : RegisterManager :=
  mkRegisters (registers s) (variable_to_reg_map s) (variable_reg_lru_order s)
    (spilled_variables s) m lru (vec_variable_to_reg_map s) (vec_variable_reg_lru_order s)
    (active_pool s).
Definition set_vec_variables (m : gmap string string) (lru : list string)
    (s : RegisterManager) : RegisterManager :=
  mkRegisters (registers s) (variable_to_reg_map s) (variable_reg_lru_order s)
    (spilled_variables s) (fp_variable_to_reg_map s) (fp_variable_reg_lru_order s) m lru
    (active_pool s).

(** [registers.at(reg)], [registers[reg] = info] and [registers[reg].field = ...] *)
Definition at_register (reg : string) : M RegisterInfo := fun g =>
  (g, match registers (manager g) !! reg with
      | Some i => Done i
      | None => Raised out_of_range
      end).
Definition put_register (reg : string) (i : RegisterInfo) : M unit :=
  modify (fun s => set_registers (<[reg := i]> (registers s)) s).
Definition alter_register (reg : string) (f : RegisterInfo -> RegisterInfo) : M unit :=
  modify (fun s => set_registers
    (<[reg := f (default free_info (registers s !! reg))]> (registers s)) s).

Definition bind_register (st : RegisterStatus) (name : string) (i : RegisterInfo) : RegisterInfo :=
  mkInfo st name (dirty i).

(** [lst.remove(x)], and [lst.back(); lst.pop_back()], which is undefined on an empty list. *)
Definition list_remove (x : string) (l : list string) : list string := filter (.≠ x) l.

Definition pop_back (l : list string) : M (string * list string) := fun g =>
  (g, match rev l with [] => Undefined | x :: rest => Done (x, rev rest) end).

Definition pop_lru : M string :=
  lru ← get variable_reg_lru_order;
  '(victim, rest) ← pop_back lru;
  modify (fun s => set_variables (variable_to_reg_map s) rest (spilled_variables s) s);;
  mret victim.

Definition push_lru (reg : string) : M unit :=
  modify (fun s => set_variables (variable_to_reg_map s) (reg :: variable_reg_lru_order s)
                     (spilled_variables s) s).

(** ** Initialisation *)

Definition fill (i : RegisterInfo) (regs : list string) (m : gmap string RegisterInfo)
    : gmap string RegisterInfo := foldl (fun m r => <[r := i]> m) m regs.

Definition initial_registers : gmap string RegisterInfo :=
  fill free_info VEC_SCRATCH_REGS (fill free_info VEC_VARIABLE_REGS
  (fill free_info FP_SCRATCH_REGS (fill free_info FP_VARIABLE_REGS
  (fill (mkInfo IN_USE_DATA_BASE "data_base" false) RESERVED_REGS
  (fill free_info SCRATCH_REGS (fill free_info EXTENDED_VARIABLE_REGS ∅)))))).

Definition initialize_registers (s : RegisterManager) : RegisterManager :=
  mkRegisters initial_registers ∅ [] ∅ ∅ [] ∅ [] (active_pool s).

Definition RegisterManager_new : RegisterManager :=
  initialize_registers (mkRegisters ∅ ∅ [] ∅ ∅ [] ∅ [] VARIABLE_REGS).

Definition reset_for_new_function (accesses_globals : bool) : M unit :=
  modify (fun s => let s := initialize_registers s in
    mkRegisters (registers s) (variable_to_reg_map s) (variable_reg_lru_order s)
      (spilled_variables s) (fp_variable_to_reg_map s) (fp_variable_reg_lru_order s)
      (vec_variable_to_reg_map s) (vec_variable_reg_lru_order s)
      (if accesses_globals then VARIABLE_REGS else EXTENDED_VARIABLE_REGS)).

(** ** Queries *)

Definition is_variable_spilled (s : RegisterManager) (variable_name : string) : bool :=
  bool_decide (variable_name ∈ spilled_variables s).
Definition is_scratch_register (register_name : string) : bool :=
  bool_decide (register_name ∈ SCRATCH_REGS).
Definition is_fp_register (reg_name : string) : bool :=
  bool_decide (reg_name ∈ FP_VARIABLE_REGS) || bool_decide (reg_name ∈ FP_SCRATCH_REGS).
Definition is_dirty (s : RegisterManager) (reg_name : string) : bool :=
  match registers s !! reg_name with Some i => dirty i | None => false end.

Definition in_use (s : RegisterManager) (reg : string) : bool :=
  match registers s !! reg with Some i => negb (bool_decide (status i = FREE)) | None => false end.
Definition get_in_use_callee_saved_registers (s : RegisterManager) : list string :=
  List.filter (in_use s) EXTENDED_VARIABLE_REGS.
Definition get_in_use_caller_saved_registers (s : RegisterManager) : list string :=
  List.filter (in_use s) SCRATCH_REGS.
Definition get_in_use_fp_caller_saved_registers (s : RegisterManager) : list string :=
  List.filter (in_use s) FP_SCRATCH_REGS.

Fixpoint get_in_use_fp_callee_saved (s : RegisterManager) (regs : list string)
    : result (list string) :=
  match regs with
  | [] => Ok []
  | reg :: regs =>
      match registers s !! reg with
      | None => Throw out_of_range
      | Some i =>
          used ← get_in_use_fp_callee_saved s regs;
          Ok (if decide (status i = IN_USE_VARIABLE) then reg :: used else used)
      end
  end.
Definition get_in_use_fp_callee_saved_registers (s : RegisterManager) : result (list string) :=
  get_in_use_fp_callee_saved s FP_VARIABLE_REGS.

(** Register to variable; the C++ code lists these pairs in an unspecified order. *)
Definition get_dirty_variable_registers (s : RegisterManager) : gmap string string :=
  bound_to <$> filter (fun p => status p.2 = IN_USE_VARIABLE /\ dirty p.2 = true) (registers s).

(** The first free register of a pool, [""] when there is none. *)
Fixpoint find_free_register (pool : list string) : M string :=
  match pool with
  | [] => mret ""%string
  | reg :: pool =>
      i ← at_register reg;
      if decide (status i = FREE) then mret reg else find_free_register pool
  end.

(** ** Spilling *)

Definition generate_spill_code (reg_name variable_name : string) : M Instruction :=
  d ← get (fun s => is_dirty s reg_name);
  if negb d then
    mret (Instruction_new 0 ("// Skipping spill for clean register " ++ reg_name ++ " ("
                             ++ variable_name ++ ")"))
  else
    offset ← with_frame (fun fr => get_spill_offset fr variable_name);
    lift (create_str_imm reg_name "X29" offset variable_name).

(** [if (registers.at(victim).dirty) emit(generate_spill_code(...))] *)
Definition spill_if_dirty (victim_reg spilled_var : string) : M unit :=
  i ← at_register victim_reg;
  if dirty i then
    spill_instr ← generate_spill_code victim_reg spilled_var;
    emit spill_instr
  else mret tt.

Definition forget_variable (spilled_var : string) : M unit :=
  modify (fun s => set_variables (delete spilled_var (variable_to_reg_map s))
    (variable_reg_lru_order s) ({[spilled_var]} ∪ spilled_variables s) s).

(** The least recently used variable register, taken from its variable; the three places
    that evict a register do this before they bind it again. *)
Definition take_victim : M string :=
  victim_reg ← pop_lru;
  i ← at_register victim_reg;
  let spilled_var := bound_to i in
  spill_if_dirty victim_reg spilled_var;;
  forget_variable spilled_var;;
  mret victim_reg.

(** ** General registers *)

Definition acquire_scratch_reg : M string :=
  reg ← find_free_register SCRATCH_REGS;
  if negb (string_empty reg) then
    put_register reg (mkInfo IN_USE_SCRATCH "scratch" false);; mret reg
  else
    reg ← find_free_register VARIABLE_REGS;
    if negb (string_empty reg) then
      put_register reg (mkInfo IN_USE_SCRATCH "scratch_from_vars" false);; mret reg
    else
      lru ← get variable_reg_lru_order;
      match lru with
      | [] => throw runtime_error
      | _ =>
          victim_reg ← take_victim;
          put_register victim_reg (mkInfo IN_USE_SCRATCH "scratch_from_spill" false);;
          mret victim_reg
      end.

Definition get_free_register : M string := acquire_scratch_reg.

Definition release_scratch_reg (reg_name : string) : M unit := fun g =>
  match registers (manager g) !! reg_name with
  | Some i => if decide (status i = IN_USE_SCRATCH) then put_register reg_name free_info g
              else (g, Done tt)
  | None => (g, Done tt)
  end.

Definition acquire_callee_saved_temp_reg : M string :=
  reg ← find_free_register VARIABLE_REGS;
  if string_empty reg then throw runtime_error
  else
    alter_register reg (bind_register IN_USE_SCRATCH "_persistent_temp_");;
    ((fun g => match force_save_register (frame g) reg with
               | Ok fr => (mkGenerator (manager g) fr (emitted g), Done reg)
               | Throw e => (g, Raised e)
               end) : M string).

(** [if (registers.count(reg)) registers[reg].... = ...] *)
Definition alter_present (reg_name : string) (f : RegisterInfo -> RegisterInfo) : M unit :=
  fun g => match registers (manager g) !! reg_name with
           | Some _ => alter_register reg_name f g
           | None => (g, Done tt)
           end.

Definition release_callee_saved_temp_reg (reg_name : string) : M unit :=
  alter_present reg_name (bind_register FREE "").

Definition mark_dirty (reg_name : string) (is_dirty : bool) : M unit :=
  alter_present reg_name (fun i => mkInfo (status i) (bound_to i) is_dirty).

(** The register and whether the variable was already in it. *)
Definition acquire_reg_for_variable (variable_name : string) : M (string * bool) :=
  hit ← get (fun s => variable_to_reg_map s !! variable_name);
  match hit with
  | Some reg =>
      modify (fun s => set_variables (variable_to_reg_map s)
        (reg :: list_remove reg (variable_reg_lru_order s)) (spilled_variables s) s);;
      mret (reg, true)
  | None =>
      reg ← find_free_register VARIABLE_REGS;
      if negb (string_empty reg) then
        put_register reg (mkInfo IN_USE_VARIABLE variable_name false);;
        modify (fun s => set_variables (<[variable_name := reg]> (variable_to_reg_map s))
          (reg :: variable_reg_lru_order s) (spilled_variables s) s);;
        mret (reg, false)
      else
        victim_reg ← take_victim;
        put_register victim_reg (mkInfo IN_USE_VARIABLE variable_name false);;
        modify (fun s => set_variables (<[variable_name := victim_reg]> (variable_to_reg_map s))
          (victim_reg :: variable_reg_lru_order s)
          (spilled_variables s ∖ {[variable_name]}) s);;
        mret (victim_reg, false)
  end.

Definition release_reg_for_variable (variable_name : string) : M unit := fun g =>
  match variable_to_reg_map (manager g) !! variable_name with
  | None => (g, Done tt)
  | Some reg =>
      match registers (manager g) !! reg with
      | None => (g, Done tt)
      | Some _ =>
          (put_register reg free_info;;
           modify (fun s => set_variables (delete variable_name (variable_to_reg_map s))
             (list_remove reg (variable_reg_lru_order s)) (spilled_variables s) s)) g
      end
  end.

Definition acquire_spillable_temp_reg : M string :=
  reg ← find_free_register VARIABLE_REGS;
  if negb (string_empty reg) then
    put_register reg (mkInfo IN_USE_VARIABLE "_temp_" false);;
    push_lru reg;;
    mret reg
  else
    victim_reg ← take_victim;
    put_register victim_reg (mkInfo IN_USE_VARIABLE "_temp_" false);;
    push_lru victim_reg;;
    mret victim_reg.

Definition CALLER_SAVED_GP : list string :=
  ["X0"; "X1"; "X2"; "X3"; "X4"; "X5"; "X6"; "X7"; "X8"; "X9"; "X10"; "X11"; "X12"; "X13";
   "X14"; "X15"; "X16"; "X17"]%string.

Definition invalidate_register (s : RegisterManager) (reg_name : string) : RegisterManager :=
  match registers s !! reg_name with
  | Some i =>
      if decide (status i = IN_USE_VARIABLE) then
        set_registers (<[reg_name := free_info]> (registers s))
          (set_variables (delete (bound_to i) (variable_to_reg_map s))
             (list_remove reg_name (variable_reg_lru_order s)) (spilled_variables s) s)
      else s
  | None => s
  end.
Definition invalidate_caller_saved_registers : M unit :=
  modify (fun s => foldl invalidate_register s CALLER_SAVED_GP).

(** The variables found in a scratch register are dropped; it is their names that are
    removed from the list of registers. *)
Definition reset_scratch_register (s : RegisterManager) (reg_name : string) : RegisterManager :=
  match registers s !! reg_name with
  | Some _ =>
      let gone := filter (fun p : string * string => p.2 = reg_name) (variable_to_reg_map s) in
      set_registers (<[reg_name := free_info]> (registers s))
        (set_variables (filter (fun p : string * string => p.2 <> reg_name) (variable_to_reg_map s))
           (filter (fun r => gone !! r = None) (variable_reg_lru_order s))
           (spilled_variables s) s)
  | None => s
  end.
Definition reset_caller_saved_registers : M unit :=
  modify (fun s => foldl reset_scratch_register s SCRATCH_REGS).

(** ** Floating-point registers *)

Definition free_in (s : RegisterManager) (reg : string) : bool :=
  bool_decide (status (default free_info (registers s !! reg)) = FREE).

Definition acquire_fp_reg_for_variable (variable_name : string) : M string :=
  hit ← get (fun s => fp_variable_to_reg_map s !! variable_name);
  match hit with
  | Some reg => mret reg
  | None =>
      found ← get (fun s => List.find (free_in s) FP_VARIABLE_REGS);
      match found with
      | Some reg =>
          alter_register reg (bind_register IN_USE_VARIABLE variable_name);;
          modify (fun s => set_fp_variables (<[variable_name := reg]> (fp_variable_to_reg_map s))
            (variable_name :: fp_variable_reg_lru_order s) s);;
          mret reg
      | None =>
          lru ← get fp_variable_reg_lru_order;
          match lru with
          | [] => throw runtime_error
          | _ =>
              '(victim_var, rest) ← pop_back lru;
              modify (fun s => set_fp_variables (fp_variable_to_reg_map s) rest s);;
              victim_reg ← get (fun s => default ""%string (fp_variable_to_reg_map s !! victim_var));
              offset ← with_frame (fun fr => get_spill_offset fr victim_var);
              spill_instr ← lift (create_str_fp_imm victim_reg "X29" offset);
              emit spill_instr;;
              modify (fun s => set_fp_variables (delete victim_var (fp_variable_to_reg_map s))
                (fp_variable_reg_lru_order s) s);;
              alter_register victim_reg (bind_register IN_USE_VARIABLE variable_name);;
              modify (fun s => set_fp_variables
                (<[variable_name := victim_reg]> (fp_variable_to_reg_map s))
                (variable_name :: fp_variable_reg_lru_order s) s);;
              mret victim_reg
          end
      end
  end.

Definition acquire_spillable_fp_temp_reg : M string :=
  found ← get (fun s => List.find (free_in s) FP_VARIABLE_REGS);
  match found with
  | Some reg => alter_register reg (bind_register IN_USE_VARIABLE "");; mret reg
  | None =>
      lru ← get fp_variable_reg_lru_order;
      match lru with
      | [] => throw runtime_error
      | _ =>
          '(victim_var, rest) ← pop_back lru;
          modify (fun s => set_fp_variables (fp_variable_to_reg_map s) rest s);;
          victim_reg ← get (fun s => default ""%string (fp_variable_to_reg_map s !! victim_var));
          offset ← with_frame (fun fr => get_spill_offset fr victim_var);
          spill_instr ← lift (create_str_fp_imm victim_reg "X29" offset);
          emit spill_instr;;
          modify (fun s => set_fp_variables (delete victim_var (fp_variable_to_reg_map s))
            (fp_variable_reg_lru_order s) s);;
          alter_register victim_reg (bind_register IN_USE_VARIABLE "");;
          mret victim_reg
      end
  end.

Definition acquire_fp_scratch_reg : M string :=
  found ← get (fun s => List.find (free_in s) FP_SCRATCH_REGS);
  match found with
  | Some reg => alter_register reg (bind_register IN_USE_SCRATCH "");; mret reg
  | None => throw runtime_error
  end.

Definition get_free_float_register : M string := acquire_fp_scratch_reg.

Definition release_fp_register (reg_name : string) : M unit :=
  alter_present reg_name (bind_register FREE "").

Definition release_register (reg_name : string) : M unit :=
  if is_fp_register reg_name then release_fp_register reg_name
  else release_scratch_reg reg_name.

(** ** Vector registers *)

Definition acquire_vec_scratch_reg : M string :=
  reg ← find_free_register VEC_SCRATCH_REGS;
  if negb (string_empty reg) then
    put_register reg (mkInfo IN_USE_SCRATCH "vec_scratch" false);; mret reg
  else throw runtime_error.

Definition release_vec_scratch_reg := release_scratch_reg.

(** The victim is not stored: only the existence of its slot is checked. *)
Definition acquire_vec_variable_reg (variable_name : string) : M string :=
  hit ← get (fun s => vec_variable_to_reg_map s !! variable_name);
  match hit with
  | Some reg =>
      modify (fun s => set_vec_variables (vec_variable_to_reg_map s)
        (variable_name :: list_remove variable_name (vec_variable_reg_lru_order s)) s);;
      mret reg
  | None =>
      reg ← find_free_register VEC_VARIABLE_REGS;
      if negb (string_empty reg) then
        put_register reg (mkInfo IN_USE_VARIABLE variable_name false);;
        modify (fun s => set_vec_variables (<[variable_name := reg]> (vec_variable_to_reg_map s))
          (variable_name :: vec_variable_reg_lru_order s) s);;
        mret reg
      else
        lru ← get vec_variable_reg_lru_order;
        '(victim_var, rest) ← pop_back lru;
        modify (fun s => set_vec_variables (vec_variable_to_reg_map s) rest s);;
        victim_reg ← get (fun s => default ""%string (vec_variable_to_reg_map s !! victim_var));
        _ ← ((fun g => lift (get_offset (frame g) victim_var) g) : M Z);
        modify (fun s => set_vec_variables (delete victim_var (vec_variable_to_reg_map s))
          (vec_variable_reg_lru_order s) s);;
        put_register victim_reg (mkInfo IN_USE_VARIABLE variable_name false);;
        modify (fun s => set_vec_variables
          (<[variable_name := victim_reg]> (vec_variable_to_reg_map s))
          (variable_name :: vec_variable_reg_lru_order s) s);;
        mret victim_reg
  end.
