(* ===== verification/RegisterProof.v ===== *)
(** * The register manager never gives one register to two variables

    Invariants of [Registers]: a weakest-precondition calculus for its operations, the
    ownership invariant of the three register files, and the functional behaviour of the
    allocation of a general register. *)

From S2P Require Import Prelude Words A64 Instr EncReg EncSpec EncMem CallFrame Registers.
Local Open Scope Z_scope.

(** ** Weakest preconditions

    A thrown exception ends the compilation: nothing is asked of the state it leaves. *)

Definition wp {A} (m : M A) (Q : A -> generator -> Prop) (g : generator) : Prop :=
  match m g with
  | (g', Done a) => Q a g'
  | (_, Raised _) => True
  | (_, Undefined) => False
  end.

Lemma wp_bind {A B} (m : M A) (f : A -> M B) Q g :
  wp m (fun a g' => wp (f a) Q g') g -> wp (m ≫= f) Q g.
Proof. unfold wp, mbind, M_bind. by destruct (m g) as [g' []]. Qed.

Lemma wp_mono {A} (m : M A) (Q Q' : A -> generator -> Prop) g :
  wp m Q g -> (forall a g', Q a g' -> Q' a g') -> wp m Q' g.
Proof. unfold wp. destruct (m g) as [g' []]; auto. Qed.

Lemma wp_ret {A} (a : A) (Q : A -> generator -> Prop) g : Q a g -> wp (mret a) Q g.
Proof. done. Qed.
Lemma wp_get {A} (f : RegisterManager -> A) Q g : Q (f (manager g)) g -> wp (get f) Q g.
Proof. done. Qed.
Lemma wp_modify f (Q : unit -> generator -> Prop) g :
  Q tt (mkGenerator (f (manager g)) (frame g) (emitted g)) -> wp (modify f) Q g.
Proof. done. Qed.
Lemma wp_throw {A} e (Q : A -> generator -> Prop) g : wp (throw e) Q g.
Proof. done. Qed.
Lemma wp_lift {A} (r : result A) (Q : A -> generator -> Prop) g :
  (forall a, r = Ok a -> Q a g) -> wp (lift r) Q g.
Proof. unfold wp, lift. destruct r; auto. Qed.

(** Operations that leave the manager alone. *)
Lemma wp_spill victim var (Q : unit -> generator -> Prop) g :
  (forall fr code, Q tt (mkGenerator (manager g) fr code)) -> wp (spill_if_dirty victim var) Q g.
Proof.
  intros H. assert (Hg : Q tt g) by (destruct g; apply H).
  unfold spill_if_dirty. apply wp_bind. unfold wp at 1, at_register.
  destruct (registers (manager g) !! victim) as [i|]; [|done].
  destruct (dirty i); [|exact Hg]. apply wp_bind.
  unfold generate_spill_code. apply wp_bind, wp_get.
  destruct (negb _); [apply wp_ret; apply H|].
  apply wp_bind. unfold wp at 1, with_frame. destruct (get_spill_offset _ _) as [o fr].
  apply wp_lift. intros a _. apply H.
Qed.

Lemma wp_pop_back l (Q : string * list string -> generator -> Prop) g :
  l <> [] -> (forall x rest, l = rest ++ [x] -> Q (x, rest) g) -> wp (pop_back l) Q g.
Proof.
  intros Hl H. unfold wp, pop_back. destruct (rev l) as [|x r] eqn:E.
  - apply Hl. by rewrite <-(rev_involutive l), E.
  - apply H. rewrite <-(rev_involutive l), E. reflexivity.
Qed.

Lemma find_free_spec pool g :
  (forall r, r ∈ pool -> is_Some (registers (manager g) !! r)) ->
  find_free_register pool g
  = (g, Done (default ""%string (List.find (free_in (manager g)) pool))).
Proof.
  induction pool as [|r pool IH]; intros H; [done|]. cbn [find_free_register List.find].
  destruct (H r) as [i Hi]; [left|].
  assert (Hf : free_in (manager g) r = bool_decide (status i = FREE))
    by (unfold free_in; by rewrite Hi).
  rewrite Hf. unfold mbind, M_bind, at_register. rewrite Hi.
  destruct (decide (status i = FREE)) as [E|E].
  - by rewrite bool_decide_true.
  - rewrite bool_decide_false by done. apply IH. intros r' Hr'. apply H. by right.
Qed.

Lemma find_free_cases (s : RegisterManager) pool :
  (exists r, List.find (free_in s) pool = Some r /\ r ∈ pool
     /\ status (default free_info (registers s !! r)) = FREE)
  \/ List.find (free_in s) pool = None
     /\ forall r, r ∈ pool -> status (default free_info (registers s !! r)) <> FREE.
Proof.
  destruct (List.find _ pool) as [r|] eqn:E.
  - left. exists r. apply List.find_some in E as [Hin Hf]. unfold free_in in Hf.
    apply bool_decide_eq_true in Hf. by rewrite list_elem_of_In.
  - right. split; [done|]. intros r Hr Hf. rewrite list_elem_of_In in Hr.
    apply (List.find_none _ _ E) in Hr. unfold free_in in Hr.
    by rewrite bool_decide_true in Hr.
Qed.

(** A register missing from the table makes the search throw. *)
Lemma wp_find_free pool (Q : string -> generator -> Prop) g :
  (forall r i, r ∈ pool -> registers (manager g) !! r = Some i -> status i = FREE -> Q r g) ->
  ((forall r, r ∈ pool -> status (default free_info (registers (manager g) !! r)) <> FREE) ->
     Q ""%string g) ->
  wp (find_free_register pool) Q g.
Proof.
  induction pool as [|r pool IH]; intros Hfree Hnone.
  { apply wp_ret, Hnone. intros r Hr. by apply not_elem_of_nil in Hr. }
  cbn [find_free_register]. apply wp_bind. unfold wp at 1, at_register.
  destruct (registers (manager g) !! r) as [i|] eqn:Hi; [|done].
  destruct (decide (status i = FREE)) as [Hf|Hf].
  { apply wp_ret. apply (Hfree r i); [left | done | done]. }
  apply IH.
  - intros r' i' Hr'. apply Hfree. by right.
  - intros Hn. apply Hnone. intros r' [-> | Hr']%elem_of_cons; [by rewrite Hi | by apply Hn].
Qed.

(** ** The invariants *)

(** Ownership: a mapped variable has a register of the pool, marked with its name. *)
Definition owned (pool : list string) (regs : gmap string RegisterInfo)
    (m : gmap string string) : Prop :=
  forall v r, m !! v = Some r -> r ∈ pool /\ exists d, regs !! r = Some (mkInfo IN_USE_VARIABLE v d).

Lemma owned_injective pool regs m v1 v2 r :
  owned pool regs m -> m !! v1 = Some r -> m !! v2 = Some r -> v1 = v2.
Proof. intros H H1%H H2%H. destruct H1 as (_ & d1 & E1), H2 as (_ & d2 & E2). congruence. Qed.

(** The registers that hold no mapped variable may change. *)
Lemma owned_put pool regs m r i :
  owned pool regs m -> (forall v, m !! v <> Some r) -> owned pool (<[r := i]> regs) m.
Proof.
  intros H Hr v r' Hv. destruct (H v r' Hv) as (Hp & d & E). split; [done|].
  exists d. rewrite lookup_insert_ne; [done|]. intros ->. by apply (Hr v).
Qed.

Lemma owned_delete pool regs m v : owned pool regs m -> owned pool regs (delete v m).
Proof. intros H v' r Hv. apply lookup_delete_Some in Hv as [_ Hv]. by apply H. Qed.

Lemma owned_assign pool regs m r v d :
  owned pool regs m -> (forall v', m !! v' <> Some r) -> r ∈ pool ->
  owned pool (<[r := mkInfo IN_USE_VARIABLE v d]> regs) (<[v := r]> m).
Proof.
  intros H Hr Hp v' r' Hv. apply lookup_insert_Some in Hv as [[<- <-] | [Hne Hv]].
  - split; [done|]. exists d. apply lookup_insert_eq.
  - exact (owned_put _ _ _ r _ H Hr v' r' Hv).
Qed.

Lemma owned_dirty pool regs m r i b :
  owned pool regs m -> regs !! r = Some i ->
  owned pool (<[r := mkInfo (status i) (bound_to i) b]> regs) m.
Proof.
  intros H Hi v r' Hv. destruct (H v r' Hv) as (Hp & d & E). split; [done|].
  destruct (decide (r' = r)) as [-> | Hne].
  - exists b. rewrite lookup_insert_eq. rewrite E in Hi. by injection Hi as <-.
  - exists d. by rewrite lookup_insert_ne.
Qed.

(** A register that is not marked as a variable's holds none. *)
Lemma owned_status pool regs m r i :
  owned pool regs m -> regs !! r = Some i -> status i <> IN_USE_VARIABLE ->
  forall v, m !! v <> Some r.
Proof. intros H Hi Hs v Hv. destruct (H v r Hv) as (_ & d & E). rewrite E in Hi. by injection Hi as <-. Qed.

Lemma owned_outside pool regs m r :
  owned pool regs m -> r ∉ pool -> forall v, m !! v <> Some r.
Proof. intros H Hr v Hv. by destruct (H v r Hv). Qed.

(** The general registers, with their list of registers to evict. *)
Record gp_inv (s : RegisterManager) : Prop := {
  gp_present r : r ∈ (VARIABLE_REGS ++ SCRATCH_REGS) -> is_Some (registers s !! r);
  gp_owned : owned VARIABLE_REGS (registers s) (variable_to_reg_map s);
  gp_lru_NoDup : NoDup (variable_reg_lru_order s);
  gp_lru r : r ∈ variable_reg_lru_order s <->
    r ∈ VARIABLE_REGS /\ exists i, registers s !! r = Some i /\ status i = IN_USE_VARIABLE;
  gp_scratch r i : r ∈ SCRATCH_REGS -> registers s !! r = Some i -> status i <> IN_USE_VARIABLE
}.

(** A file of floating-point or vector registers, with its list of variables to evict. *)
Record file_inv (pool : list string) (regs : gmap string RegisterInfo)
    (m : gmap string string) (lru : list string) : Prop := {
  file_present r : r ∈ pool -> is_Some (regs !! r);
  file_owned : owned pool regs m;
  file_NoDup : NoDup lru;
  file_lru v : v ∈ lru <-> is_Some (m !! v)
}.

Definition rm_inv (s : RegisterManager) : Prop :=
  gp_inv s
  /\ file_inv FP_VARIABLE_REGS (registers s) (fp_variable_to_reg_map s) (fp_variable_reg_lru_order s)
  /\ file_inv VEC_VARIABLE_REGS (registers s) (vec_variable_to_reg_map s)
       (vec_variable_reg_lru_order s).

Lemma file_put pool regs m lru r i :
  file_inv pool regs m lru -> (forall v, m !! v <> Some r) -> file_inv pool (<[r := i]> regs) m lru.
Proof.
  intros [Hp Ho Hn Hl] Hr. split; [|by apply owned_put | done | done].
  intros r' Hr'. destruct (decide (r' = r)) as [-> | Hne].
  - rewrite lookup_insert_eq. by eexists.
  - rewrite lookup_insert_ne by done. by apply Hp.
Qed.

Lemma file_dirty pool regs m lru r i b :
  file_inv pool regs m lru -> regs !! r = Some i ->
  file_inv pool (<[r := mkInfo (status i) (bound_to i) b]> regs) m lru.
Proof.
  intros [Hp Ho Hn Hl] Hi. split; [|by apply owned_dirty | done | done].
  intros r' Hr'. destruct (decide (r' = r)) as [-> | Hne].
  - rewrite lookup_insert_eq. by eexists.
  - rewrite lookup_insert_ne by done. by apply Hp.
Qed.

Lemma file_assign pool regs m lru r v d :
  file_inv pool regs m lru -> (forall v', m !! v' <> Some r) -> r ∈ pool -> m !! v = None ->
  file_inv pool (<[r := mkInfo IN_USE_VARIABLE v d]> regs) (<[v := r]> m) (v :: lru).
Proof.
  intros H Hr Hp Hv. pose proof (file_put _ _ _ _ r (mkInfo IN_USE_VARIABLE v d) H Hr) as [Hp' _ Hn Hl].
  split; [done | apply owned_assign; [apply H | done | done] | |].
  - apply list.NoDup_cons. split; [|done]. rewrite Hl, Hv. by intros [].
  - intros v'. rewrite elem_of_cons, Hl. destruct (decide (v' = v)) as [-> | Hne].
    + rewrite lookup_insert_eq. split; [by eexists | by left].
    + rewrite lookup_insert_ne by done. tauto.
Qed.

(** Dropping the last variable of the list of a file. *)
Lemma file_evict pool regs m lru v :
  file_inv pool regs m (lru ++ [v]) -> file_inv pool regs (delete v m) lru.
Proof.
  intros [Hp Ho Hn Hl]. apply list.NoDup_app in Hn as (Hn & Hd & _).
  split; [done | by apply owned_delete | done |].
  intros v'. specialize (Hl v'). rewrite elem_of_app, list_elem_of_singleton in Hl.
  destruct (decide (v' = v)) as [-> | Hne].
  - rewrite lookup_delete_eq. split; [|by intros []]. intros Hv.
    destruct (Hd v Hv). by left.
  - rewrite lookup_delete_ne by done. rewrite <-Hl. split; [by left | intros [|]; done].
Qed.

(** *** Steps of the general registers *)

(** A register that is not marked as a variable's gets another such mark. *)
Lemma gp_put s r i j :
  gp_inv s -> registers s !! r = Some i ->
  (status i <> IN_USE_VARIABLE \/ r ∉ (VARIABLE_REGS ++ SCRATCH_REGS)) ->
  (status j <> IN_USE_VARIABLE \/ r ∉ (VARIABLE_REGS ++ SCRATCH_REGS)) ->
  gp_inv (set_registers (<[r := j]> (registers s)) s).
Proof.
  intros [Hp Ho Hn Hl Hs] Hi Hold Hnew. rewrite not_elem_of_app in *. split; cbn; try done.
  - intros r' Hr'. destruct (decide (r' = r)) as [-> | Hne].
    + rewrite lookup_insert_eq. by eexists.
    + rewrite lookup_insert_ne by done. by apply Hp.
  - apply owned_put; [done|]. destruct Hold as [Hold | [Hold _]].
    + by eapply owned_status.
    + by eapply owned_outside.
  - intros r'. rewrite Hl. destruct (decide (r' = r)) as [-> | Hne].
    + rewrite lookup_insert_eq. split; intros (Hv & i' & Hi' & Hst).
      * rewrite Hi in Hi'. injection Hi' as <-. by destruct Hold as [?|[? _]].
      * injection Hi' as <-. by destruct Hnew as [?|[? _]].
    + by rewrite lookup_insert_ne.
  - intros r' i' Hr'. destruct (decide (r' = r)) as [-> | Hne].
    + rewrite lookup_insert_eq. intros E. injection E as <-. by destruct Hnew as [?|[_ ?]].
    + rewrite lookup_insert_ne by done. by apply Hs.
Qed.

Lemma scratch_not_variable r : r ∈ SCRATCH_REGS -> r ∉ VARIABLE_REGS.
Proof.
  revert r. rewrite <-list.Forall_forall. apply (bool_decide_unpack _). vm_compute. exact I.
Qed.

(** A free or scratch register of the pool is given to a variable that has none, or to a
    temporary. *)
Lemma gp_assign s r i v m :
  gp_inv s -> r ∈ VARIABLE_REGS -> registers s !! r = Some i -> status i <> IN_USE_VARIABLE ->
  (m = variable_to_reg_map s
   \/ m = <[v := r]> (variable_to_reg_map s) /\ variable_to_reg_map s !! v = None) ->
  forall sp, gp_inv (set_registers (<[r := mkInfo IN_USE_VARIABLE v false]> (registers s))
            (set_variables m (r :: variable_reg_lru_order s) sp s)).
Proof.
  intros [Hp Ho Hn Hl Hs] Hr Hi Hst Hm sp.
  pose proof (owned_status _ _ _ _ _ Ho Hi Hst) as Hunmapped. split; cbn.
  - intros r' Hr'. destruct (decide (r' = r)) as [-> | Hne].
    + rewrite lookup_insert_eq. by eexists.
    + rewrite lookup_insert_ne by done. by apply Hp.
  - destruct Hm as [-> | [-> _]]; [by apply owned_put | by apply owned_assign].
  - apply list.NoDup_cons. split; [|done]. rewrite Hl. intros (_ & i' & Hi' & Hst').
    rewrite Hi in Hi'. by injection Hi' as <-.
  - intros r'. rewrite elem_of_cons, Hl. destruct (decide (r' = r)) as [-> | Hne].
    + rewrite lookup_insert_eq. split; [intros _; split; [done|]; by eexists | by left].
    + rewrite lookup_insert_ne by done. tauto.
  - intros r' i' Hr'. destruct (decide (r' = r)) as [-> | Hne].
    + by destruct (scratch_not_variable r Hr').
    + rewrite lookup_insert_ne by done. by apply Hs.
Qed.

(** The last register of the list is taken from its variable. *)
Lemma gp_evict s r lru i :
  gp_inv s -> variable_reg_lru_order s = lru ++ [r] -> registers s !! r = Some i ->
  forall sp, gp_inv (set_registers (<[r := free_info]> (registers s))
            (set_variables (delete (bound_to i) (variable_to_reg_map s)) lru sp s)).
Proof.
  intros [Hp Ho Hn Hl Hs] E Hi sp. rewrite E in Hn, Hl.
  apply list.NoDup_app in Hn as (Hn & Hd & _).
  assert (Hgone : forall v, delete (bound_to i) (variable_to_reg_map s) !! v <> Some r).
  { intros v Hv. apply lookup_delete_Some in Hv as [Hne Hv].
    destruct (Ho v r Hv) as (_ & d & E'). rewrite Hi in E'. by injection E' as ->. }
  split; cbn.
  - intros r' Hr'. destruct (decide (r' = r)) as [-> | Hne].
    + rewrite lookup_insert_eq. by eexists.
    + rewrite lookup_insert_ne by done. by apply Hp.
  - apply owned_put; [by apply owned_delete | done].
  - done.
  - intros r'. specialize (Hl r'). rewrite elem_of_app, list_elem_of_singleton in Hl.
    destruct (decide (r' = r)) as [-> | Hne].
    + rewrite lookup_insert_eq. split.
      * intros Hin. destruct (Hd r Hin). by left.
      * intros (_ & i' & Hi' & Hst). by injection Hi' as <-.
    + rewrite lookup_insert_ne by done. rewrite <-Hl. split; [by left | intros [|]; done].
  - intros r' i' Hr'. destruct (decide (r' = r)) as [-> | Hne].
    + rewrite lookup_insert_eq. by intros [= <-].
    + rewrite lookup_insert_ne by done. by apply Hs.
Qed.

(** Some variable register can be evicted, or is free. *)
Definition has_victim (s : RegisterManager) : Prop :=
  exists r i, r ∈ VARIABLE_REGS /\ registers s !! r = Some i
    /\ (status i = FREE \/ status i = IN_USE_VARIABLE).

Lemma victim_lru s :
  gp_inv s -> has_victim s ->
  (forall r, r ∈ VARIABLE_REGS -> status (default free_info (registers s !! r)) <> FREE) ->
  variable_reg_lru_order s <> [].
Proof.
  intros [_ _ _ Hl _] (r & i & Hr & Hi & [Hst | Hst]) Hnone E.
  - apply (Hnone r Hr). by rewrite Hi.
  - specialize (Hl r). rewrite E in Hl.
    apply (not_elem_of_nil r), Hl. split; [done | by eexists].
Qed.

(** Reads the fields of a manager that has just been changed. *)
Ltac manager_fields :=
  cbn [registers variable_to_reg_map variable_reg_lru_order spilled_variables
       fp_variable_to_reg_map fp_variable_reg_lru_order vec_variable_to_reg_map
       vec_variable_reg_lru_order set_registers set_variables set_fp_variables
       set_vec_variables manager frame emitted].

(** ** The operations keep the invariant *)

Lemma general_outside r :
  r ∈ (VARIABLE_REGS ++ SCRATCH_REGS) -> (r ∉ FP_VARIABLE_REGS) /\ (r ∉ VEC_VARIABLE_REGS).
Proof.
  intros Hr. assert (H : Forall (fun r => (r ∉ FP_VARIABLE_REGS) /\ (r ∉ VEC_VARIABLE_REGS))
    (VARIABLE_REGS ++ SCRATCH_REGS)) by (apply (bool_decide_unpack _); vm_compute; exact I).
  rewrite list.Forall_forall in H. by apply H.
Qed.

Lemma fp_outside r :
  r ∈ (FP_VARIABLE_REGS ++ FP_SCRATCH_REGS) ->
  (r ∉ (VARIABLE_REGS ++ SCRATCH_REGS)) /\ (r ∉ VEC_VARIABLE_REGS).
Proof.
  intros Hr. assert (H : Forall (fun r => (r ∉ (VARIABLE_REGS ++ SCRATCH_REGS)) /\ (r ∉ VEC_VARIABLE_REGS))
    (FP_VARIABLE_REGS ++ FP_SCRATCH_REGS)) by (apply (bool_decide_unpack _); vm_compute; exact I).
  rewrite list.Forall_forall in H. by apply H.
Qed.

Lemma vec_outside r :
  r ∈ (VEC_VARIABLE_REGS ++ VEC_SCRATCH_REGS) ->
  (r ∉ (VARIABLE_REGS ++ SCRATCH_REGS)) /\ (r ∉ FP_VARIABLE_REGS).
Proof.
  intros Hr. assert (H : Forall (fun r => (r ∉ (VARIABLE_REGS ++ SCRATCH_REGS)) /\ (r ∉ FP_VARIABLE_REGS))
    (VEC_VARIABLE_REGS ++ VEC_SCRATCH_REGS)) by (apply (bool_decide_unpack _); vm_compute; exact I).
  rewrite list.Forall_forall in H. by apply H.
Qed.

(** A step of the general registers leaves the two other files alone. *)
Lemma rm_general s r j m lru sp :
  rm_inv s -> r ∈ (VARIABLE_REGS ++ SCRATCH_REGS) ->
  gp_inv (set_registers (<[r := j]> (registers s)) (set_variables m lru sp s)) ->
  rm_inv (set_registers (<[r := j]> (registers s)) (set_variables m lru sp s)).
Proof.
  intros (_ & Hf & Hv) Hr Hg. destruct (general_outside r Hr) as [H1 H2].
  split; [exact Hg|]. split; cbn.
  - apply file_put; [done|]. apply (owned_outside _ _ _ _ (file_owned _ _ _ _ Hf) H1).
  - apply file_put; [done|]. apply (owned_outside _ _ _ _ (file_owned _ _ _ _ Hv) H2).
Qed.

Lemma set_same_variables s :
  set_variables (variable_to_reg_map s) (variable_reg_lru_order s) (spilled_variables s) s = s.
Proof. by destruct s. Qed.

(** A register that holds no variable is marked otherwise. *)
Lemma rm_put s r i j :
  rm_inv s -> registers s !! r = Some i ->
  status i <> IN_USE_VARIABLE -> status j <> IN_USE_VARIABLE ->
  rm_inv (set_registers (<[r := j]> (registers s)) s).
Proof.
  intros (Hg & Hf & Hv) Hi Hold Hnew. split; [|split]; cbn.
  - apply (gp_put _ _ i); [done | done | by left | by left].
  - apply file_put; [done|]. by eapply owned_status; [apply Hf | |].
  - apply file_put; [done|]. by eapply owned_status; [apply Hv | |].
Qed.

(** Mappings may be forgotten. *)
Lemma rm_submap s m sp :
  rm_inv s -> m ⊆ variable_to_reg_map s ->
  rm_inv (set_variables m (variable_reg_lru_order s) sp s).
Proof.
  intros ([Hp Ho Hn Hl Hs] & Hf & Hv) Hm. split; [|done]. split; cbn; try done.
  intros v r Hvr. apply Ho. by eapply lookup_weaken.
Qed.

Lemma rm_dirty s r i b :
  rm_inv s -> registers s !! r = Some i ->
  rm_inv (set_registers (<[r := mkInfo (status i) (bound_to i) b]> (registers s)) s).
Proof.
  intros ([Hp Ho Hn Hl Hs] & Hf & Hv) Hi. split; [|split]; cbn; try by apply file_dirty.
  split; cbn; [| by apply owned_dirty | done | |].
  - intros r' Hr'. destruct (decide (r' = r)) as [-> | Hne].
    + rewrite lookup_insert_eq. by eexists.
    + rewrite lookup_insert_ne by done. by apply Hp.
  - intros r'. rewrite Hl. destruct (decide (r' = r)) as [-> | Hne].
    + rewrite lookup_insert_eq. split; intros (Hr' & i' & Hi' & Hst); (split; [done|]).
      * rewrite Hi in Hi'. injection Hi' as <-. by eexists.
      * injection Hi' as <-. by eexists.
    + by rewrite lookup_insert_ne.
  - intros r' i' Hr'. destruct (decide (r' = r)) as [-> | Hne].
    + rewrite lookup_insert_eq. intros [= <-]. by apply (Hs r i).
    + rewrite lookup_insert_ne by done. by apply Hs.
Qed.

Lemma wp_take_victim (Q : string -> generator -> Prop) g :
  gp_inv (manager g) -> variable_reg_lru_order (manager g) <> [] ->
  (forall r i lru fr code, variable_reg_lru_order (manager g) = lru ++ [r] ->
     registers (manager g) !! r = Some i -> r ∈ VARIABLE_REGS ->
     Q r (mkGenerator (set_variables (delete (bound_to i) (variable_to_reg_map (manager g))) lru
            ({[bound_to i]} ∪ spilled_variables (manager g)) (manager g)) fr code)) ->
  wp take_victim Q g.
Proof.
  intros Hg Hne H. unfold take_victim, pop_lru.
  apply wp_bind, wp_bind, wp_get, wp_bind, wp_pop_back; [done|]. intros r lru E.
  apply wp_bind, wp_modify, wp_ret, wp_bind. unfold wp at 1, at_register. cbn [manager registers set_variables].
  destruct (gp_lru _ Hg r) as [Hin _].
  destruct Hin as (Hr & i & Hi & _); [rewrite E; apply elem_of_app; right; left|].
  rewrite Hi. apply wp_bind, wp_spill. intros fr code.
  apply wp_bind, wp_modify, wp_ret. cbn. by apply H.
Qed.

(** What remains of an eviction: the register is bound again. *)
Lemma rm_evict_put s r lru i j sp :
  rm_inv s -> variable_reg_lru_order s = lru ++ [r] -> registers s !! r = Some i ->
  r ∈ VARIABLE_REGS -> status j <> IN_USE_VARIABLE ->
  rm_inv (set_registers (<[r := j]> (registers s))
            (set_variables (delete (bound_to i) (variable_to_reg_map s)) lru sp s)).
Proof.
  intros H E Hi Hr Hj. assert (Hr' : r ∈ (VARIABLE_REGS ++ SCRATCH_REGS)) by (apply elem_of_app; by left).
  apply rm_general; [done | done |].
  pose proof (gp_evict s r lru i (proj1 H) E Hi sp) as He.
  assert (Hfree : status free_info <> IN_USE_VARIABLE) by done.
  pose proof (gp_put _ r free_info j He (lookup_insert_eq _ _ _)
    (or_introl Hfree) (or_introl Hj)) as Hp.
  cbn in Hp. by rewrite insert_insert_eq in Hp.
Qed.

Lemma rm_evict_assign s r lru i v m (sp : gset string) :
  rm_inv s -> variable_reg_lru_order s = lru ++ [r] -> registers s !! r = Some i ->
  r ∈ VARIABLE_REGS ->
  (m = delete (bound_to i) (variable_to_reg_map s)
   \/ m = <[v := r]> (delete (bound_to i) (variable_to_reg_map s))
      /\ variable_to_reg_map s !! v = None) ->
  rm_inv (set_registers (<[r := mkInfo IN_USE_VARIABLE v false]> (registers s))
            (set_variables m (r :: lru) sp s)).
Proof.
  intros H E Hi Hr Hm. assert (Hr' : r ∈ (VARIABLE_REGS ++ SCRATCH_REGS)) by (apply elem_of_app; by left).
  apply rm_general; [done | done |].
  pose proof (gp_evict s r lru i (proj1 H) E Hi sp) as He.
  assert (Hfree : status free_info <> IN_USE_VARIABLE) by done.
  pose proof (gp_assign _ r free_info v m He Hr (lookup_insert_eq _ _ _) Hfree) as Ha.
  cbn in Ha. rewrite insert_insert_eq in Ha. apply Ha.
  destruct Hm as [-> | [-> Hv]]; [by left | right]. split; [done|].
  apply lookup_delete_None. by right.
Qed.

Lemma rm_assign s r i v m sp :
  rm_inv s -> registers s !! r = Some i -> r ∈ VARIABLE_REGS -> status i <> IN_USE_VARIABLE ->
  (m = variable_to_reg_map s
   \/ m = <[v := r]> (variable_to_reg_map s) /\ variable_to_reg_map s !! v = None) ->
  rm_inv (set_registers (<[r := mkInfo IN_USE_VARIABLE v false]> (registers s))
            (set_variables m (r :: variable_reg_lru_order s) sp s)).
Proof.
  intros H Hi Hr Hst Hm. apply rm_general; [done | apply elem_of_app; by left |].
  by apply gp_assign with i; [apply H|..].
Qed.

Definition keeps {A} (m : M A) (pre : RegisterManager -> Prop) : Prop :=
  forall g, rm_inv (manager g) -> pre (manager g) -> wp m (fun _ g' => rm_inv (manager g')) g.

(** The names of the registers of a pool are not empty. *)
Lemma pool_names r pool (Q : Prop) :
  Forall (fun r => string_empty r = false) pool -> r ∈ pool ->
  (string_empty r = false -> Q) -> Q.
Proof. rewrite list.Forall_forall. auto. Qed.

Ltac pool_name r :=
  match goal with
  | H : r ∈ ?pool |- _ =>
      apply (pool_names r pool); [repeat constructor | exact H |]; intros ->; cbn [negb]
  end.

Lemma keeps_acquire_scratch_reg : keeps acquire_scratch_reg (fun _ => True).
Proof.
  intros g H _. unfold acquire_scratch_reg. apply wp_bind, wp_find_free.
  { intros r i Hr Hi Hf. pool_name r. apply wp_bind, wp_modify, wp_ret.
    by apply rm_put with i; [..| rewrite Hf |]. }
  intros _. apply wp_bind, wp_find_free.
  { intros r i Hr Hi Hf. pool_name r. apply wp_bind, wp_modify, wp_ret.
    by apply rm_put with i; [..| rewrite Hf |]. }
  intros _. apply wp_bind, wp_get.
  destruct (variable_reg_lru_order (manager g)) as [|x l] eqn:E; [apply wp_throw|].
  apply wp_bind, wp_take_victim; [apply H | by rewrite E |].
  intros r i lru fr code El Hi Hr. apply wp_bind, wp_modify, wp_ret.
  apply (rm_evict_put (manager g) r lru i); done.
Qed.

Lemma keeps_acquire_reg_for_variable v : keeps (acquire_reg_for_variable v) has_victim.
Proof.
  intros g H Hvic. unfold acquire_reg_for_variable. apply wp_bind, wp_get.
  destruct (variable_to_reg_map (manager g) !! v) as [r|] eqn:Ev.
  { apply wp_bind, wp_modify, wp_ret. cbn. destruct H as ([Hp Ho Hn Hl Hs] & Hf & Hvec).
    split; [|done]. destruct (Ho v r Ev) as (Hr & d & Hi). split; cbn; try done.
    - apply list.NoDup_cons. split; [|by apply list.NoDup_filter].
      unfold list_remove. rewrite list_elem_of_filter. tauto.
    - intros r'. rewrite elem_of_cons. unfold list_remove. rewrite list_elem_of_filter, Hl.
      destruct (decide (r' = r)) as [-> | Hne]; [|tauto].
      split; [intros _; split; [done | by eexists] | by left]. }
  apply wp_bind, wp_find_free.
  { intros r i Hr Hi Hf. pool_name r. apply wp_bind, wp_modify, wp_bind, wp_modify, wp_ret.
    assert (Hs : status i <> IN_USE_VARIABLE) by (by rewrite Hf).
    apply (rm_assign (manager g) r i v); [done | done | done | done | by right]. }
  intros Hnone. apply wp_bind, wp_take_victim; [apply H | by apply victim_lru; [apply H|..] |].
  intros r i lru fr code El Hi Hr. apply wp_bind, wp_modify, wp_bind, wp_modify, wp_ret.
  apply (rm_evict_assign (manager g) r lru i v); [done..|]. by right.
Qed.

Lemma keeps_acquire_spillable_temp_reg : keeps acquire_spillable_temp_reg has_victim.
Proof.
  intros g H Hvic. unfold acquire_spillable_temp_reg. apply wp_bind, wp_find_free.
  { intros r i Hr Hi Hf. pool_name r. apply wp_bind, wp_modify, wp_bind, wp_modify, wp_ret.
    assert (Hs : status i <> IN_USE_VARIABLE) by (by rewrite Hf).
    apply (rm_assign (manager g) r i "_temp_"%string); [done | done | done | done | by left]. }
  intros Hnone. apply wp_bind, wp_take_victim; [apply H | by apply victim_lru; [apply H|..] |].
  intros r i lru fr code El Hi Hr. apply wp_bind, wp_modify, wp_bind, wp_modify, wp_ret.
  apply (rm_evict_assign (manager g) r lru i "_temp_"%string); [done..|]. by left.
Qed.

Lemma keeps_acquire_callee_saved_temp_reg : keeps acquire_callee_saved_temp_reg (fun _ => True).
Proof.
  intros g H _. unfold acquire_callee_saved_temp_reg. apply wp_bind, wp_find_free.
  { intros r i Hr Hi Hf. pool_name r. apply wp_bind, wp_modify. unfold wp. cbn.
    destruct (force_save_register _ _); [|done]. cbn. rewrite Hi.
    by apply rm_put with i; [..| rewrite Hf |]. }
  intros _. apply wp_throw.
Qed.

Lemma keeps_release_scratch_reg r : keeps (release_scratch_reg r) (fun _ => True).
Proof.
  intros g H _. unfold wp, release_scratch_reg.
  destruct (registers (manager g) !! r) as [i|] eqn:Hi; [|done].
  destruct (decide (status i = IN_USE_SCRATCH)) as [Es|]; [|done].
  cbn. apply rm_put with i; [done | done | by rewrite Es | done].
Qed.

Lemma keeps_release_reg_for_variable v : keeps (release_reg_for_variable v) (fun _ => True).
Proof.
  intros g H _. unfold wp, release_reg_for_variable.
  destruct (variable_to_reg_map (manager g) !! v) as [r|] eqn:Ev; [|done].
  destruct (registers (manager g) !! r) as [i|] eqn:Hi; [|done].
  change (rm_inv (set_registers (<[r := free_info]> (registers (manager g)))
    (set_variables (delete v (variable_to_reg_map (manager g)))
       (list_remove r (variable_reg_lru_order (manager g))) (spilled_variables (manager g))
       (manager g)))).
  destruct (gp_owned _ (proj1 H) v r Ev) as (Hr & d & Hi').
  rewrite Hi in Hi'. injection Hi' as ->.
  apply rm_general; [done | apply elem_of_app; by left |].
  destruct H as ([Hp Ho Hn Hl Hs] & _). split; manager_fields.
  - intros r' Hr'. destruct (decide (r' = r)) as [-> | Hne].
    + rewrite lookup_insert_eq. by eexists.
    + rewrite lookup_insert_ne by done. by apply Hp.
  - apply owned_put; [by apply owned_delete|]. intros v' Hv'.
    apply lookup_delete_Some in Hv' as [Hne Hv']. apply Hne.
    by apply (owned_injective _ _ _ v v' r Ho).
  - by apply list.NoDup_filter.
  - intros r'. unfold list_remove. rewrite list_elem_of_filter, Hl.
    destruct (decide (r' = r)) as [-> | Hne].
    + rewrite lookup_insert_eq. split; [by intros [] |]. intros (_ & i' & [= <-] & Hst). done.
    + rewrite lookup_insert_ne by done. tauto.
  - intros r' i' Hr'. destruct (decide (r' = r)) as [-> | Hne].
    + rewrite lookup_insert_eq. by intros [= <-].
    + rewrite lookup_insert_ne by done. by apply Hs.
Qed.

(** A register that no variable of any file is mapped to is marked free or scratch, or as a
    variable's when it is not a general register. *)
Lemma rm_put_unmapped s r j :
  rm_inv s -> r ∈ (FP_VARIABLE_REGS ++ FP_SCRATCH_REGS) ->
  (forall v, fp_variable_to_reg_map s !! v <> Some r) ->
  rm_inv (set_registers (<[r := j]> (registers s)) s).
Proof.
  intros (Hg & Hf & Hv) Hr Hm. destruct (fp_outside r Hr) as [H1 H2]. split; [|split]; cbn.
  - destruct Hg as [Hp Ho Hn Hl Hs]. rewrite not_elem_of_app in H1. split; manager_fields.
    + intros r' Hr'. destruct (decide (r' = r)) as [-> | Hne].
      * rewrite lookup_insert_eq. by eexists.
      * rewrite lookup_insert_ne by done. by apply Hp.
    + apply owned_put; [done|]. apply (owned_outside _ _ _ _ Ho), H1.
    + done.
    + intros r'. rewrite Hl. destruct (decide (r' = r)) as [-> | Hne]; [tauto|].
      by rewrite lookup_insert_ne.
    + intros r' i' Hr'. rewrite lookup_insert_ne by (intros ->; tauto). by apply Hs.
  - by apply file_put.
  - apply file_put; [done|]. by apply (owned_outside _ _ _ _ (file_owned _ _ _ _ Hv)).
Qed.

Lemma keeps_alter_present r f (pre : RegisterManager -> Prop) :
  (forall s i, rm_inv s -> pre s -> registers s !! r = Some i ->
     rm_inv (set_registers (<[r := f i]> (registers s)) s)) ->
  keeps (alter_present r f) pre.
Proof.
  intros H g Hi Hp. unfold wp, alter_present.
  destruct (registers (manager g) !! r) as [i|] eqn:E; [|done].
  cbn. rewrite E. by apply H.
Qed.

Definition not_variable (r : string) (s : RegisterManager) : Prop :=
  status (default free_info (registers s !! r)) <> IN_USE_VARIABLE.

Lemma keeps_release_callee_saved_temp_reg r :
  keeps (release_callee_saved_temp_reg r) (not_variable r).
Proof.
  apply keeps_alter_present. intros s i H Hn Hi. unfold not_variable in Hn. rewrite Hi in Hn.
  by apply rm_put with i.
Qed.

Lemma keeps_mark_dirty r b : keeps (mark_dirty r b) (fun _ => True).
Proof. apply keeps_alter_present. intros s i H _ Hi. by apply rm_dirty. Qed.

(** No floating-point variable lives in the register. *)
Definition fp_unmapped (r : string) (s : RegisterManager) : Prop :=
  forall v, fp_variable_to_reg_map s !! v <> Some r.

Lemma is_fp_register_pool r :
  is_fp_register r = true <-> r ∈ (FP_VARIABLE_REGS ++ FP_SCRATCH_REGS).
Proof.
  unfold is_fp_register. by rewrite orb_true_iff, !bool_decide_eq_true, elem_of_app.
Qed.

Lemma keeps_release_register r : keeps (release_register r) (fp_unmapped r).
Proof.
  unfold release_register. destruct (is_fp_register r) eqn:E.
  - apply keeps_alter_present. intros s i H Hm Hi. apply is_fp_register_pool in E.
    by apply rm_put_unmapped.
  - intros g H _. by apply keeps_release_scratch_reg.
Qed.

(** ** Floating-point registers *)

Lemma free_unmapped pool regs m lru r :
  file_inv pool regs m lru -> r ∈ pool -> status (default free_info (regs !! r)) = FREE ->
  forall v, m !! v <> Some r.
Proof.
  intros H Hr Hf. destruct (file_present _ _ _ _ H r Hr) as [i Hi]. rewrite Hi in Hf. cbn in Hf.
  apply (owned_status _ _ _ _ _ (file_owned _ _ _ _ H) Hi). by rewrite Hf.
Qed.

Lemma fp_pool_app r : r ∈ FP_VARIABLE_REGS -> r ∈ (FP_VARIABLE_REGS ++ FP_SCRATCH_REGS).
Proof. intros H. apply elem_of_app. by left. Qed.

(** A register of the file is given to a variable that has none. *)
Lemma rm_fp_assign s r v b m lru d :
  rm_inv (set_fp_variables m lru s) -> r ∈ FP_VARIABLE_REGS -> m !! v = None ->
  (forall v', m !! v' <> Some r) ->
  b = mkInfo IN_USE_VARIABLE v d ->
  rm_inv (set_registers (<[r := b]> (registers s)) (set_fp_variables (<[v := r]> m) (v :: lru) s)).
Proof.
  intros H Hr Hv Hfree ->.
  pose proof (rm_put_unmapped _ r (mkInfo IN_USE_VARIABLE v d) H (fp_pool_app r Hr) Hfree) as H'.
  destruct H as (_ & Hf & _), H' as (Hg & _ & Hvec). split; [|split; [|exact Hvec]].
  - destruct Hg as [? ? ? ? ?]; by split.
  - by apply file_assign.
Qed.

(** The eviction of a floating-point variable, as far as its mapping is concerned. *)
Lemma rm_fp_evict s lru v :
  rm_inv s -> fp_variable_reg_lru_order s = lru ++ [v] ->
  exists r, fp_variable_to_reg_map s !! v = Some r /\ r ∈ FP_VARIABLE_REGS
    /\ rm_inv (set_fp_variables (delete v (fp_variable_to_reg_map s)) lru s)
    /\ forall v', delete v (fp_variable_to_reg_map s) !! v' <> Some r.
Proof.
  intros (Hg & Hf & Hv) E. pose proof (file_lru _ _ _ _ Hf v) as [Hin _].
  destruct Hin as [r Hr]; [rewrite E; apply elem_of_app; right; left|].
  exists r. split; [done|]. split; [by apply (file_owned _ _ _ _ Hf v r)|]. split.
  - split; [destruct Hg as [? ? ? ? ?]; by split|]. split; [|exact Hv].
    rewrite E in Hf. by apply file_evict.
  - intros v' Hv'. apply lookup_delete_Some in Hv' as [Hne Hv']. apply Hne.
    by apply (owned_injective _ _ _ v v' r (file_owned _ _ _ _ Hf)).
Qed.

(** The common end of the two operations that evict a floating-point variable. *)
Lemma wp_fp_evict {B} (k : string -> M B) (Q : B -> generator -> Prop) g :
  rm_inv (manager g) -> fp_variable_reg_lru_order (manager g) <> [] ->
  (forall r m lru fr code, r ∈ FP_VARIABLE_REGS -> (forall v, m !! v <> Some r) ->
     m ⊆ fp_variable_to_reg_map (manager g) -> rm_inv (set_fp_variables m lru (manager g)) ->
     wp (k r) Q (mkGenerator (set_fp_variables m lru (manager g)) fr code)) ->
  wp ('(victim_var, rest) ← pop_back (fp_variable_reg_lru_order (manager g));
      modify (fun s => set_fp_variables (fp_variable_to_reg_map s) rest s);;
      victim_reg ← get (fun s => default ""%string (fp_variable_to_reg_map s !! victim_var));
      offset ← with_frame (fun fr => get_spill_offset fr victim_var);
      spill_instr ← lift (create_str_fp_imm victim_reg "X29" offset);
      emit spill_instr;;
      modify (fun s => set_fp_variables (delete victim_var (fp_variable_to_reg_map s))
                         (fp_variable_reg_lru_order s) s);;
      k victim_reg) Q g.
Proof.
  intros H Hne Hk. apply wp_bind, wp_pop_back; [done|]. intros v lru E.
  destruct (rm_fp_evict _ lru v H E) as (r & Hr & Hp & Hi & Hm).
  apply wp_bind, wp_modify, wp_bind, wp_get. manager_fields. rewrite Hr. cbn [default].
  apply wp_bind. unfold wp at 1, with_frame. destruct (get_spill_offset _ _) as [o fr].
  apply wp_bind, wp_lift. intros i _. apply wp_bind. unfold wp at 1, emit.
  apply wp_bind, wp_modify. manager_fields.
  apply (Hk r (delete v (fp_variable_to_reg_map (manager g))) lru); [done | done | | done].
  apply delete_subseteq.
Qed.

Lemma keeps_acquire_fp_reg_for_variable v : keeps (acquire_fp_reg_for_variable v) (fun _ => True).
Proof.
  intros g H _. unfold acquire_fp_reg_for_variable. apply wp_bind, wp_get.
  destruct (fp_variable_to_reg_map (manager g) !! v) as [r|] eqn:Ev; [by apply wp_ret|].
  apply wp_bind, wp_get.
  destruct (find_free_cases (manager g) FP_VARIABLE_REGS) as [(r & -> & Hr & Hf) | [-> _]].
  - apply wp_bind, wp_modify, wp_bind, wp_modify, wp_ret.
    destruct (file_present _ _ _ _ (proj1 (proj2 H)) r Hr) as [i Hi].
    manager_fields. rewrite Hi.
    apply (rm_fp_assign (manager g) r v (bind_register IN_USE_VARIABLE v i)
      (fp_variable_to_reg_map (manager g)) (fp_variable_reg_lru_order (manager g)) (dirty i));
      [by destruct (manager g) | done | done | | done].
    by apply (free_unmapped _ _ _ _ _ (proj1 (proj2 H))).
  - apply wp_bind, wp_get.
    destruct (fp_variable_reg_lru_order (manager g)) as [|x l] eqn:E; [apply wp_throw|].
    rewrite <-E.
    apply (wp_fp_evict (fun victim_reg =>
      alter_register victim_reg (bind_register IN_USE_VARIABLE v);;
      modify (fun s => set_fp_variables (<[v := victim_reg]> (fp_variable_to_reg_map s))
                         (v :: fp_variable_reg_lru_order s) s);;
      mret victim_reg)); [done | by rewrite E |].
    intros r m lru fr code Hr Hm Hsub Hi. apply wp_bind, wp_modify, wp_bind, wp_modify, wp_ret.
    apply (rm_fp_assign (manager g) r v _ m lru
      (dirty (default free_info (registers (manager g) !! r)))); [done | done | | done | done].
    eapply lookup_weaken_None; [exact Ev | done].
Qed.

Lemma keeps_acquire_spillable_fp_temp_reg : keeps acquire_spillable_fp_temp_reg (fun _ => True).
Proof.
  intros g H _. unfold acquire_spillable_fp_temp_reg. apply wp_bind, wp_get.
  destruct (find_free_cases (manager g) FP_VARIABLE_REGS) as [(r & -> & Hr & Hf) | [-> _]].
  - apply wp_bind, wp_modify, wp_ret. apply rm_put_unmapped; [done | by apply fp_pool_app |].
    by apply (free_unmapped _ _ _ _ _ (proj1 (proj2 H))).
  - apply wp_bind, wp_get.
    destruct (fp_variable_reg_lru_order (manager g)) as [|x l] eqn:E; [apply wp_throw|].
    rewrite <-E.
    apply (wp_fp_evict (fun victim_reg =>
      alter_register victim_reg (bind_register IN_USE_VARIABLE "");; mret victim_reg));
      [done | by rewrite E |].
    intros r m lru fr code Hr Hm _ Hi. apply wp_bind, wp_modify, wp_ret.
    apply (rm_put_unmapped _ r _ Hi); [by apply fp_pool_app | exact Hm].
Qed.

Lemma fp_scratch_outside r : r ∈ FP_SCRATCH_REGS -> r ∉ FP_VARIABLE_REGS.
Proof.
  revert r. rewrite <-list.Forall_forall. apply (bool_decide_unpack _). vm_compute. exact I.
Qed.

Lemma keeps_acquire_fp_scratch_reg : keeps acquire_fp_scratch_reg (fun _ => True).
Proof.
  intros g H _. unfold acquire_fp_scratch_reg. apply wp_bind, wp_get.
  destruct (find_free_cases (manager g) FP_SCRATCH_REGS) as [(r & -> & Hr & Hf) | [-> _]];
    [|apply wp_throw].
  apply wp_bind, wp_modify, wp_ret. apply rm_put_unmapped; [done | apply elem_of_app; by right |].
  apply (owned_outside _ _ _ _ (file_owned _ _ _ _ (proj1 (proj2 H)))).
  by apply fp_scratch_outside.
Qed.

(** ** Vector registers *)

Lemma rm_put_vec s r j :
  rm_inv s -> r ∈ (VEC_VARIABLE_REGS ++ VEC_SCRATCH_REGS) ->
  (forall v, vec_variable_to_reg_map s !! v <> Some r) ->
  rm_inv (set_registers (<[r := j]> (registers s)) s).
Proof.
  intros (Hg & Hf & Hv) Hr Hm. destruct (vec_outside r Hr) as [H1 H2]. split; [|split]; cbn.
  - destruct Hg as [Hp Ho Hn Hl Hs]. rewrite not_elem_of_app in H1. split; manager_fields.
    + intros r' Hr'. destruct (decide (r' = r)) as [-> | Hne].
      * rewrite lookup_insert_eq. by eexists.
      * rewrite lookup_insert_ne by done. by apply Hp.
    + apply owned_put; [done|]. apply (owned_outside _ _ _ _ Ho), H1.
    + done.
    + intros r'. rewrite Hl. destruct (decide (r' = r)) as [-> | Hne]; [tauto|].
      by rewrite lookup_insert_ne.
    + intros r' i' Hr'. rewrite lookup_insert_ne by (intros ->; tauto). by apply Hs.
  - apply file_put; [done|]. by apply (owned_outside _ _ _ _ (file_owned _ _ _ _ Hf)).
  - by apply file_put.
Qed.

Lemma vec_scratch_outside r : r ∈ VEC_SCRATCH_REGS -> r ∉ VEC_VARIABLE_REGS.
Proof.
  revert r. rewrite <-list.Forall_forall. apply (bool_decide_unpack _). vm_compute. exact I.
Qed.

Lemma keeps_acquire_vec_scratch_reg : keeps acquire_vec_scratch_reg (fun _ => True).
Proof.
  intros g H Hp. unfold acquire_vec_scratch_reg. apply wp_bind, wp_find_free.
  - intros r i Hr Hi Hf. pool_name r. apply wp_bind, wp_modify, wp_ret.
    apply rm_put_vec; [done | apply elem_of_app; by right |].
    apply (owned_outside _ _ _ _ (file_owned _ _ _ _ (proj2 (proj2 H)))).
    by apply vec_scratch_outside.
  - intros _. apply wp_throw.
Qed.

Lemma rm_vec_assign s r v m lru d :
  rm_inv (set_vec_variables m lru s) -> r ∈ VEC_VARIABLE_REGS -> m !! v = None ->
  (forall v', m !! v' <> Some r) ->
  rm_inv (set_registers (<[r := mkInfo IN_USE_VARIABLE v d]> (registers s))
            (set_vec_variables (<[v := r]> m) (v :: lru) s)).
Proof.
  intros H Hr Hv Hfree.
  assert (Hr' : r ∈ (VEC_VARIABLE_REGS ++ VEC_SCRATCH_REGS)) by (apply elem_of_app; by left).
  pose proof (rm_put_vec _ r (mkInfo IN_USE_VARIABLE v d) H Hr' Hfree) as H'.
  destruct H as (_ & _ & Hvec), H' as (Hg & Hf & _). split; [|split; [exact Hf|]].
  - destruct Hg as [? ? ? ? ?]; by split.
  - by apply file_assign.
Qed.

Definition vec_has_victim (s : RegisterManager) : Prop :=
  vec_variable_reg_lru_order s <> []
  \/ exists r, r ∈ VEC_VARIABLE_REGS /\ status (default free_info (registers s !! r)) = FREE.

Lemma keeps_acquire_vec_variable_reg v : keeps (acquire_vec_variable_reg v) vec_has_victim.
Proof.
  intros g H Hvic. unfold acquire_vec_variable_reg. apply wp_bind, wp_get.
  pose proof (proj2 (proj2 H)) as Hvec.
  destruct (vec_variable_to_reg_map (manager g) !! v) as [r|] eqn:Ev.
  { apply wp_bind, wp_modify, wp_ret. destruct H as ([? ? ? ? ?] & Hf & _).
    split; [by split|]. split; [done|]. destruct Hvec as [Hp Ho Hn Hl].
    split; manager_fields; [done | done | |].
    - apply list.NoDup_cons. split; [|by apply list.NoDup_filter].
      unfold list_remove. rewrite list_elem_of_filter. tauto.
    - intros v'. rewrite elem_of_cons. unfold list_remove. rewrite list_elem_of_filter, Hl.
      destruct (decide (v' = v)) as [-> | Hne]; [|tauto]. rewrite Ev.
      split; [by eexists | by left]. }
  apply wp_bind, wp_find_free.
  { intros r i Hr Hi Hf. pool_name r. apply wp_bind, wp_modify, wp_bind, wp_modify, wp_ret.
    apply (rm_vec_assign (manager g) r v _ _ false); [by destruct (manager g) | done | done |].
    apply (free_unmapped _ _ _ _ _ Hvec Hr). by rewrite Hi. }
  intros Hnone. apply wp_bind, wp_get, wp_bind, wp_pop_back.
  { destruct Hvic as [?|(r & Hr & Hf)]; [done|]. by destruct (Hnone r Hr). }
  intros victim lru E.
  destruct (file_lru _ _ _ _ Hvec victim) as [Hin _].
  destruct Hin as [r Hr]; [rewrite E; apply elem_of_app; right; left|].
  apply wp_bind, wp_modify, wp_bind, wp_get. manager_fields. rewrite Hr. cbn [default].
  apply wp_bind. unfold wp at 1, lift. destruct (get_offset _ _) as [o|e]; [|done].
  apply wp_bind, wp_modify, wp_bind, wp_modify, wp_bind, wp_modify, wp_ret.
  apply (rm_vec_assign (manager g) r v (delete victim (vec_variable_to_reg_map (manager g))) lru false).
  - destruct H as ([? ? ? ? ?] & Hf & _). split; [by split|]. split; [done|].
    rewrite E in Hvec. by apply file_evict.
  - by apply (file_owned _ _ _ _ Hvec victim r).
  - apply lookup_delete_None. by right.
  - intros v' Hv'. apply lookup_delete_Some in Hv' as [Hne Hv']. apply Hne.
    by apply (owned_injective _ _ _ victim v' r (file_owned _ _ _ _ Hvec)).
Qed.

(** ** Operations on all caller-saved registers, and the reset *)

Lemma foldl_keeps {A} (f : RegisterManager -> A -> RegisterManager) l :
  (forall s a, a ∈ l -> rm_inv s -> rm_inv (f s a)) ->
  forall s, rm_inv s -> rm_inv (foldl f s l).
Proof.
  induction l as [|a l IH]; intros Hf s H; [done|]. cbn. apply IH.
  - intros s' a' Ha'. apply Hf. by right.
  - apply Hf; [left | done].
Qed.

Lemma list_remove_none r l : r ∉ l -> list_remove r l = l.
Proof.
  unfold list_remove. induction l as [|x l IH]; intros Hr; [done|].
  rewrite not_elem_of_cons in Hr. rewrite filter_cons_True by (intros ->; tauto).
  destruct Hr as [_ Hr]. f_equal. exact (IH Hr).
Qed.

Lemma list_filter_true {A} (P : A -> Prop) `{forall x, Decision (P x)} (l : list A) :
  (forall x, P x) -> filter P l = l.
Proof.
  intros H'. induction l as [|x l IH]; [done|]. rewrite filter_cons_True by apply H'.
  by rewrite IH.
Qed.

Lemma caller_saved_outside r :
  r ∈ CALLER_SAVED_GP -> (r ∉ VARIABLE_REGS) /\ (r ∉ FP_VARIABLE_REGS) /\ r ∉ VEC_VARIABLE_REGS.
Proof.
  intros Hr. assert (H : Forall (fun r => (r ∉ VARIABLE_REGS) /\ (r ∉ FP_VARIABLE_REGS)
    /\ (r ∉ VEC_VARIABLE_REGS)) CALLER_SAVED_GP) by (apply (bool_decide_unpack _); vm_compute; exact I).
  rewrite list.Forall_forall in H. by apply H.
Qed.

Lemma keeps_invalidate : keeps invalidate_caller_saved_registers (fun _ => True).
Proof.
  intros g H _. apply wp_modify, foldl_keeps; [|done]. clear g H. intros s r Hr H.
  unfold invalidate_register. destruct (registers s !! r) as [i|] eqn:Hi; [|done].
  destruct (decide (status i = IN_USE_VARIABLE)) as [Hst|]; [|done].
  destruct (caller_saved_outside r Hr) as (Hv & Hf & Hx). destruct H as (Hg & Hfp & Hvec).
  assert (Hnot : r ∉ variable_reg_lru_order s) by (rewrite (gp_lru _ Hg); tauto).
  rewrite (list_remove_none r _ Hnot).
  assert (Hnew : r ∉ (VARIABLE_REGS ++ SCRATCH_REGS)).
  { rewrite not_elem_of_app. split; [done|]. intros Hs. by apply (gp_scratch _ Hg r i). }
  pose proof (gp_put s r i free_info Hg Hi (or_intror Hnew) (or_intror Hnew)) as [Hp Ho Hn Hl Hs].
  split; [|split]; manager_fields.
  - split; manager_fields; [exact Hp | | exact Hn | exact Hl | exact Hs].
    exact (owned_delete _ _ _ _ Ho).
  - apply file_put; [done|]. by apply (owned_outside _ _ _ _ (file_owned _ _ _ _ Hfp)).
  - apply file_put; [done|]. by apply (owned_outside _ _ _ _ (file_owned _ _ _ _ Hvec)).
Qed.

Lemma keeps_reset_caller_saved : keeps reset_caller_saved_registers (fun _ => True).
Proof.
  intros g H _. apply wp_modify, foldl_keeps; [|done]. clear g H. intros s r Hr H.
  unfold reset_scratch_register. destruct (registers s !! r) as [i|] eqn:Hi; [|done].
  pose proof (proj1 H) as Hg.
  assert (Hnone : filter (fun p : string * string => p.2 = r) (variable_to_reg_map s) = ∅).
  { apply map_empty_filter_2. intros v r' Hv. cbn. intros ->.
    apply (scratch_not_variable r Hr). by apply (gp_owned _ Hg v). }
  rewrite (list_filter_true _ (variable_reg_lru_order s))
    by (intros r'; rewrite Hnone; apply lookup_empty).
  assert (H' : rm_inv (set_variables
    (filter (fun p : string * string => p.2 <> r) (variable_to_reg_map s))
    (variable_reg_lru_order s) (spilled_variables s) s)).
  { apply rm_submap; [done|]. apply map_filter_subseteq. }
  apply (rm_put _ r i free_info) in H'; [exact H' | done | by apply (gp_scratch _ Hg r) | done].
Qed.
