(* ===== verification/Functions.v ===== *)
(** * The start of a function

    [generate_function_like_code] (src/NewCodeGenerator.cpp) up to the prologue: how the
    register manager, the call frame and the analysis results meet.  The types of the
    parameters and the variables the analyzer counted, with its estimate of the register
    pressure, are arguments. *)

From S2P Require Import Prelude Words A64 Instr EncReg EncSpec EncMem CallFrame Registers.
Local Open Scope Z_scope.

Definition on_frame (f : CallFrameManager -> CallFrameManager) : M unit :=
  with_frame (fun fr => (tt, f fr)).

Definition try_frame (f : CallFrameManager -> result CallFrameManager) : M unit := fun g =>
  match f (frame g) with
  | Ok fr => (mkGenerator (manager g) fr (emitted g), Done tt)
  | Throw e => (g, Raised e)
  end.

Fixpoint for_each {A} (l : list A) (f : A -> M unit) : M unit :=
  match l with
  | [] => mret tt
  | a :: l => f a;; for_each l f
  end.

(** A counted variable is added unless it is a parameter or already there. *)
Definition register_local (parameters : list (string * VarType)) (v : string * VarType) : M unit :=
  on_frame (fun fr =>
    if existsb (fun p => String.eqb (fst p) (fst v)) parameters || has_local fr (fst v) then fr
    else add_local fr (fst v) (snd v)).

Definition emit_prologue (canaries : bool) : M unit := fun g =>
  match generate_prologue canaries (frame g) with
  | (fr, Ok code) => (mkGenerator (manager g) fr (emitted g ++ code), Done tt)
  | (fr, Throw e) => (mkGenerator (manager g) fr (emitted g), Raised e)
  end.

Definition prepare_function (canaries : bool) (name : string) (accesses_globals : bool)
    (parameters variables : list (string * VarType)) (max_live : Z) : M unit :=
  on_frame (fun _ => CallFrameManager_new canaries name);;
  reset_for_new_function accesses_globals;;
  on_frame (fun fr => set_active_register_pool fr (negb accesses_globals));;
  (if accesses_globals then on_frame (fun fr => setUsesGlobalPointers fr true) else mret tt);;
  for_each parameters (fun p => on_frame (fun fr => add_parameter fr (fst p) (snd p)));;
  for_each variables (register_local parameters);;
  let available_regs := Z.of_nat (length VARIABLE_REGS) in
  (if available_regs <? max_live
   then on_frame (fun fr => preallocate_spill_slots fr (max_live - available_regs))
   else mret tt);;
  try_frame (fun fr => reserve_registers_based_on_pressure fr max_live);;
  (if negb accesses_globals then
     used_callee_regs ← get get_in_use_callee_saved_registers;
     for_each used_callee_regs (fun reg => try_frame (fun fr => force_save_register fr reg))
   else mret tt);;
  emit_prologue canaries.
