(* ===== verification/RegisterSpec.v ===== *)
(** * What the register manager promises

    The operations of [Registers] as a transition system with the ownership invariant of its
    reachable states; the behaviour of the allocation of a variable's register, evictions
    included; and how the registers of temporaries relate to those the prologue saves. *)

From S2P Require Import Prelude Words A64 Instr EncReg EncSpec EncMem Machine CallFrame FrameLayout CallFrameProof Registers RegisterProof Functions.
Local Open Scope Z_scope.

(** ** Reachable states *)

Inductive rm_op : Type :=
  | AcquireVariable (v : string)
  | ReleaseVariable (v : string)
  | AcquireScratch
  | AcquireTemp
  | AcquireCalleeSaved
  | ReleaseCalleeSaved (r : string)
  | MarkDirty (r : string) (b : bool)
  | Invalidate
  | ResetCallerSaved
  | AcquireFpVariable (v : string)
  | AcquireFpTemp
  | AcquireFpScratch
  | Release (r : string)
  | AcquireVecVariable (v : string)
  | AcquireVecScratch
  | ReleaseVecScratch (r : string).

Definition ignore {A} (m : M A) : M unit := m ≫= fun _ => mret tt.

Definition run_op (op : rm_op) : M unit :=
  match op with
  | AcquireVariable v => ignore (acquire_reg_for_variable v)
  | ReleaseVariable v => release_reg_for_variable v
  | AcquireScratch => ignore acquire_scratch_reg
  | AcquireTemp => ignore acquire_spillable_temp_reg
  | AcquireCalleeSaved => ignore acquire_callee_saved_temp_reg
  | ReleaseCalleeSaved r => release_callee_saved_temp_reg r
  | MarkDirty r b => mark_dirty r b
  | Invalidate => invalidate_caller_saved_registers
  | ResetCallerSaved => reset_caller_saved_registers
  | AcquireFpVariable v => ignore (acquire_fp_reg_for_variable v)
  | AcquireFpTemp => ignore acquire_spillable_fp_temp_reg
  | AcquireFpScratch => ignore acquire_fp_scratch_reg
  | Release r => release_register r
  | AcquireVecVariable v => ignore (acquire_vec_variable_reg v)
  | AcquireVecScratch => ignore acquire_vec_scratch_reg
  | ReleaseVecScratch r => release_vec_scratch_reg r
  end.

(** What the callers have to respect: a register released as a temporary or as a
    floating-point register holds no variable; and a variable is only requested when some
    register of the pool is free or holds a variable that can be evicted. *)
Definition allowed (op : rm_op) (s : RegisterManager) : Prop :=
  match op with
  | AcquireVariable _ | AcquireTemp => has_victim s
  | AcquireVecVariable _ => vec_has_victim s
  | ReleaseCalleeSaved r => not_variable r s
  | Release r => fp_unmapped r s
  | _ => True
  end.

(** The states between the operations of one function. *)
Inductive reached : generator -> Prop :=
  | reached_reset b g0 g : reset_for_new_function b g0 = (g, Done tt) -> reached g
  | reached_op op g g' :
      reached g -> allowed op (manager g) -> run_op op g = (g', Done tt) -> reached g'
  | reached_frame g fr code : reached g -> reached (mkGenerator (manager g) fr code).

Lemma keeps_ignore {A} (m : M A) pre : keeps m pre -> keeps (ignore m) pre.
Proof. intros H g Hi Hp. unfold ignore. apply wp_bind. by apply H. Qed.

Lemma run_op_keeps op : keeps (run_op op) (allowed op).
Proof.
  destruct op; cbn [run_op allowed]; try apply keeps_ignore;
    eauto using keeps_acquire_reg_for_variable, keeps_release_reg_for_variable,
      keeps_acquire_scratch_reg, keeps_acquire_spillable_temp_reg,
      keeps_acquire_callee_saved_temp_reg, keeps_release_callee_saved_temp_reg,
      keeps_mark_dirty, keeps_invalidate, keeps_reset_caller_saved,
      keeps_acquire_fp_reg_for_variable, keeps_acquire_spillable_fp_temp_reg,
      keeps_acquire_fp_scratch_reg, keeps_release_register, keeps_acquire_vec_variable_reg,
      keeps_acquire_vec_scratch_reg, keeps_release_scratch_reg.
Qed.

(** The initial table. *)
Lemma initial_info r i : initial_registers !! r = Some i -> status i <> IN_USE_VARIABLE.
Proof.
  assert (H : map_Forall (fun _ i => status i <> IN_USE_VARIABLE) initial_registers)
    by (apply (bool_decide_unpack _); vm_compute; exact I).
  intros Hi. exact (H r i Hi).
Qed.

Lemma initial_present r :
  r ∈ (VARIABLE_REGS ++ SCRATCH_REGS) ++ FP_VARIABLE_REGS ++ VEC_VARIABLE_REGS ->
  is_Some (initial_registers !! r).
Proof.
  revert r. rewrite <-list.Forall_forall. apply (bool_decide_unpack _). vm_compute. exact I.
Qed.

Lemma initial_file pool : (forall r, r ∈ pool -> is_Some (initial_registers !! r)) ->
  file_inv pool initial_registers ∅ [].
Proof.
  intros H. split; [done | by intros ? ? | constructor |].
  intros v. rewrite lookup_empty. split; [by intros ?%not_elem_of_nil | by intros []].
Qed.

Lemma initial_inv b g : rm_inv (manager (reset_for_new_function b g).1).
Proof.
  split; [|split]; cbn [fst reset_for_new_function manager modify].
  - split; manager_fields; [| by intros ? ? | constructor | |].
    + intros r Hr. apply initial_present, elem_of_app. by left.
    + intros r. split; [by intros ?%not_elem_of_nil|].
      intros (_ & i & Hi & Hs). by destruct (initial_info r i Hi).
    + intros r i _. apply initial_info.
  - apply initial_file. intros r Hr. apply initial_present. rewrite !elem_of_app. tauto.
  - apply initial_file. intros r Hr. apply initial_present. rewrite !elem_of_app. tauto.
Qed.

Lemma reached_inv g : reached g -> rm_inv (manager g).
Proof.
  induction 1 as [b g0 g E | op g g' Hg IH Ha E | g fr code Hg IH].
  - replace g with (reset_for_new_function b g0).1 by (by rewrite E). apply initial_inv.
  - pose proof (run_op_keeps op g IH Ha) as H. unfold wp in H. by rewrite E in H.
  - exact IH.
Qed.

(** Without a victim the list of registers to evict is empty, and [back()] is called on it. *)
Lemma no_victim_undefined g v :
  gp_inv (manager g) -> variable_to_reg_map (manager g) !! v = None -> ~ has_victim (manager g) ->
  acquire_reg_for_variable v g = (g, Undefined).
Proof.
  intros [Hp Ho Hn Hl Hs] Hv Hno.
  assert (Hlru : variable_reg_lru_order (manager g) = []).
  { destruct (variable_reg_lru_order (manager g)) as [|r l] eqn:E; [done|].
    destruct (Hl r) as [Hin _]. destruct Hin as (Hr & i & Hi & Hst); [rewrite ?E; left|].
    destruct Hno. exists r, i. by auto. }
  assert (Hfind : find_free_register VARIABLE_REGS g = (g, Done ""%string)).
  { rewrite find_free_spec.
    - destruct (find_free_cases (manager g) VARIABLE_REGS) as [(r & _ & Hr & Hf) | [-> _]]; [|done].
      destruct (Hp r) as [i Hi]; [apply elem_of_app; by left|]. rewrite Hi in Hf.
      destruct Hno. exists r, i. by auto.
    - intros r Hr. apply Hp, elem_of_app. by left. }
  unfold acquire_reg_for_variable. unfold mbind at 1, M_bind at 1, get at 1. rewrite Hv.
  unfold mbind at 1, M_bind at 1. rewrite Hfind. cbn [string_empty negb].
  unfold take_victim, pop_lru. unfold mbind, M_bind, get at 1, pop_back. rewrite Hlru. reflexivity.
Qed.

(** C26: in every state reached between the operations of a function, two
    variables never share a register, general, floating-point or vector; the register of a
    variable belongs to its pool and is marked as that variable's (so no scratch or
    temporary request is given it while it is mapped); and no permitted operation runs into
    undefined behaviour, while a request for a new variable does when all eight registers of
    the pool hold scratch values. *)
Theorem registers_owned g :
  reached g ->
  (forall pool m,
     (pool, m) ∈ [(VARIABLE_REGS, variable_to_reg_map (manager g));
                  (FP_VARIABLE_REGS, fp_variable_to_reg_map (manager g));
                  (VEC_VARIABLE_REGS, vec_variable_to_reg_map (manager g))] ->
     (forall v r, m !! v = Some r -> r ∈ pool
        /\ exists d, registers (manager g) !! r = Some (mkInfo IN_USE_VARIABLE v d))
     /\ (forall v1 v2 r, m !! v1 = Some r -> m !! v2 = Some r -> v1 = v2))
  /\ (forall op, allowed op (manager g) -> (run_op op g).2 <> Undefined)
  /\ (forall v, variable_to_reg_map (manager g) !! v = None -> ~ has_victim (manager g) ->
       (acquire_reg_for_variable v g).2 = Undefined).
Proof.
  intros Hr. apply reached_inv in Hr as H. split; [|split].
  - assert (Hall : forall pool m, owned pool (registers (manager g)) m ->
      (forall v r, m !! v = Some r -> r ∈ pool
         /\ exists d, registers (manager g) !! r = Some (mkInfo IN_USE_VARIABLE v d))
      /\ (forall v1 v2 r, m !! v1 = Some r -> m !! v2 = Some r -> v1 = v2))
      by (intros pool m Ho; split; [exact Ho | intros *; by apply (owned_injective pool (registers (manager g)) m)]).
    intros pool m Hin. apply Hall. destruct H as (Hg & Hf & Hv).
    rewrite !elem_of_cons in Hin. destruct Hin as [[= -> ->] | [[= -> ->] | [[= -> ->] | Hin]]].
    + apply Hg.
    + apply Hf.
    + apply Hv.
    + by apply not_elem_of_nil in Hin.
  - intros op Ha E. pose proof (run_op_keeps op g H Ha) as Hk. unfold wp in Hk.
    destruct (run_op op g) as [g' [| |]]; done.
  - intros v Hv Hno. by rewrite (no_victim_undefined g v (proj1 H) Hv Hno).
Qed.

(** A generator before its first function, and its state after a variable has been given a
    register. *)
Definition sample_generator : generator :=
  mkGenerator RegisterManager_new (CallFrameManager_new false "") [].

Lemma registers_owned_witness :
  exists g, reached g /\ variable_to_reg_map (manager g) !! "x"%string = Some "X20"%string
    /\ "X20"%string ∈ VARIABLE_REGS.
Proof.
  set (g0 := (reset_for_new_function true sample_generator).1).
  set (g1 := (run_op (AcquireVariable "x") g0).1).
  assert (H0 : reached g0) by (apply (reached_reset true sample_generator); reflexivity).
  assert (H1 : reached g1).
  { apply (reached_op (AcquireVariable "x") g0); [exact H0 | | reflexivity].
    exists "X20"%string, free_info. split; [by left|]. split; [reflexivity | by left]. }
  exists g1. split; [exact H1|]. split; [reflexivity|].
  destruct (registers_owned g1 H1) as (H & _).
  destruct (H VARIABLE_REGS (variable_to_reg_map (manager g1)) ltac:(by left)) as [Ho _].
  apply (Ho "x"%string "X20"%string). reflexivity.
Defined.

(** ** Allocation of a variable's register *)

Lemma take_victim_unfold g rest r i :
  variable_reg_lru_order (manager g) = rest ++ [r] -> registers (manager g) !! r = Some i ->
  let w := bound_to i in
  let popped := set_variables (variable_to_reg_map (manager g)) rest
                  (spilled_variables (manager g)) (manager g) in
  let s := set_variables (delete w (variable_to_reg_map (manager g))) rest
             ({[w]} ∪ spilled_variables (manager g)) (manager g) in
  take_victim g =
    if dirty i then
      let '(o, fr) := get_spill_offset (frame g) w in
      match create_str_imm r "X29" o w with
      | Ok store => (mkGenerator s fr (emitted g ++ [store]), Done r)
      | Throw e => (mkGenerator popped fr (emitted g), Raised e)
      end
    else (mkGenerator s (frame g) (emitted g), Done r).
Proof.
  intros E Hi w popped s. unfold take_victim, pop_lru, spill_if_dirty, generate_spill_code.
  unfold mbind, M_bind, get, pop_back, modify, mret, M_ret, at_register, with_frame, lift, emit.
  rewrite E, rev_app_distr. cbn [rev app manager registers set_variables frame emitted].
  rewrite rev_involutive. rewrite Hi. unfold is_dirty.
  destruct (dirty i) eqn:Hd; [|reflexivity]. cbv beta. cbn [manager registers set_variables].
  rewrite Hi, Hd. cbn [negb frame].
  fold w. destruct (get_spill_offset (frame g) w) as [o fr].
  by destruct (create_str_imm r "X29" o w).
Qed.

(** A store that is encoded at all stores the whole register at its offset from X29. *)
Lemma spill_store_runs r o w store :
  saveable r -> create_str_imm r "X29" o w = Ok store ->
  forall m, slot_ok 29 o m ->
    run_instrs m [store] = Next (set_mem m (rget_sp m 29 + o) (rget m (regnum r))).
Proof.
  intros Hr E. pose proof (create_str_imm_ok w r "X29" o) as H. cbv beta in H.
  rewrite (saveable_parse r Hr), parse_X29 in H.
  destruct (valid_uoffset true o) eqn:Hv; [|rewrite E in H; done].
  assert (Ho : 0 <= o <= 32760 /\ o mod 8 = 0) by (unfold valid_uoffset, access_size in Hv; lia).
  destruct (str_runs r "X29" w (regnum r) 29 o (saveable_parse r Hr) parse_X29
    (proj1 Ho) (proj2 Ho)) as (i & Hi & Hrun).
  rewrite E in Hi. by injection Hi as <-.
Qed.

Lemma variable_register_saveable r : r ∈ VARIABLE_REGS -> saveable r.
Proof.
  revert r. rewrite <-list.Forall_forall. apply (bool_decide_unpack _). vm_compute. exact I.
Qed.

(** What evicting a register does to the code: the value of a dirty register is stored in
    the spill slot of the variable that loses it. *)
Definition saves_victim (g g' : generator) (code : list Instruction) (r : string)
    (i : RegisterInfo) : Prop :=
  if dirty i then
    let '(o, fr) := get_spill_offset (frame g) (bound_to i) in
    frame g' = fr /\ forall m, slot_ok 29 o m ->
      run_instrs m code = Next (set_mem m (rget_sp m 29 + o) (rget m (regnum r)))
  else frame g' = frame g /\ code = [].

(** C27: a request for the register of a variable finds the register the
    variable has, else the first free one, else takes the least recently used one from its
    variable: that variable loses its register, is noted as spilled and, when the register
    is dirty, is stored in its spill slot by one instruction; no other variable moves, and
    the register becomes the most recently used. *)
Theorem variable_register g v g' r hit :
  reached g -> acquire_reg_for_variable v g = (g', Done (r, hit)) ->
  let s := manager g in let s' := manager g' in
  r ∈ VARIABLE_REGS /\ variable_to_reg_map s' !! v = Some r
  /\ head (variable_reg_lru_order s') = Some r
  /\ exists code, emitted g' = emitted g ++ code /\
  match variable_to_reg_map s !! v, List.find (free_in s) VARIABLE_REGS with
  | Some r0, _ => r = r0 /\ hit = true /\ code = [] /\ frame g' = frame g
      /\ variable_to_reg_map s' = variable_to_reg_map s
  | None, Some r0 => r = r0 /\ hit = false /\ code = [] /\ frame g' = frame g
      /\ variable_to_reg_map s' = <[v := r]> (variable_to_reg_map s)
  | None, None => hit = false /\ exists rest i, variable_reg_lru_order s = rest ++ [r]
         /\ registers s !! r = Some i
         /\ variable_to_reg_map s' = <[v := r]> (delete (bound_to i) (variable_to_reg_map s))
         /\ (bound_to i <> v -> bound_to i ∈ spilled_variables s')
         /\ saves_victim g g' code r i
  end.
Proof.
  intros Hr%reached_inv E s s'. destruct Hr as (Hg & _ & _).
  unfold acquire_reg_for_variable in E. unfold mbind at 1, M_bind at 1, get at 1 in E.
  fold s in E. destruct (variable_to_reg_map s !! v) as [r0|] eqn:Hv.
  { injection E as <- <- <-. destruct (gp_owned _ Hg v r0 Hv) as [Hin _].
    split; [done|]. split; [done|]. split; [done|]. exists []. by rewrite app_nil_r. }
  unfold mbind at 1, M_bind at 1 in E. rewrite find_free_spec in E
    by (intros r0 H0; apply (gp_present _ Hg), elem_of_app; by left).
  fold s in E. destruct (find_free_cases s VARIABLE_REGS) as [(r0 & Hf & Hin & _) | [Hf _]];
    rewrite Hf in E |- *; cbn [default from_option id] in E.
  { revert E. pool_name r0. intros E. injection E as <- <- <-. split; [done|].
    split; [apply lookup_insert_eq|]. split; [done|]. exists []. by rewrite app_nil_r. }
  cbn [string_empty negb] in E. unfold mbind at 1, M_bind at 1 in E.
  destruct (rev (variable_reg_lru_order s)) as [|x l] eqn:El.
  { unfold take_victim, pop_lru, mbind, M_bind, get, pop_back in E. fold s in E. by rewrite El in E. }
  assert (El' : variable_reg_lru_order s = rev l ++ [x])
    by (rewrite <-(rev_involutive (variable_reg_lru_order s)), El; reflexivity).
  destruct (gp_lru _ Hg x) as [Hx _]. destruct Hx as (Hx & i & Hi & _).
  { fold s. rewrite El'. apply elem_of_app. right. by left. }
  unfold mbind at 1, M_bind at 1 in E. rewrite (take_victim_unfold g (rev l) x i El' Hi) in E.
  assert (Hsp : forall w (sp : gset string), w <> v -> w ∈ (({[w]} ∪ sp) ∖ {[v]})).
  { intros w sp Hne. apply elem_of_difference. split.
    - apply elem_of_union. left. by apply elem_of_singleton.
    - by intros ->%elem_of_singleton. }
  unfold saves_victim. destruct (dirty i) eqn:Hd.
  - destruct (get_spill_offset (frame g) (bound_to i)) as [o fr] eqn:Eo.
    destruct (create_str_imm x "X29" o (bound_to i)) as [store|] eqn:Es; [|discriminate].
    injection E as <- <- <-. split; [done|]. split; [apply lookup_insert_eq|]. split; [done|].
    exists [store]. split; [done|]. split; [done|]. exists (rev l), i. rewrite Hd, Eo.
    split; [done|]. split; [done|]. split; [done|]. split; [apply Hsp|]. split; [done|].
    exact (spill_store_runs x o _ store (variable_register_saveable x Hx) Es).
  - injection E as <- <- <-. split; [done|]. split; [apply lookup_insert_eq|]. split; [done|].
    exists []. rewrite app_nil_r. split; [done|]. split; [done|]. exists (rev l), i. rewrite Hd.
    split; [done|]. split; [done|]. split; [done|]. split; [apply Hsp | done].
Qed.

(** Eight variables and a ninth: the first one, dirty, is stored. *)
Definition acquire_all (vs : list string) (g : generator) : generator :=
  foldl (fun g v => (run_op (AcquireVariable v) g).1) g vs.

Definition nine_variables : list string := ["a"; "b"; "c"; "d"; "e"; "f"; "g"; "h"; "i"]%string.

Definition victim_b (s : RegisterManager) : bool :=
  existsb (fun r => match registers s !! r with
                    | Some i => bool_decide (status i = FREE) || bool_decide (status i = IN_USE_VARIABLE)
                    | None => false end) VARIABLE_REGS.

Lemma victim_b_spec s : victim_b s = true -> has_victim s.
Proof.
  intros H. apply List.existsb_exists in H as (r & Hr & Hi).
  destruct (registers s !! r) as [i|] eqn:E; [|discriminate].
  exists r, i. split; [by apply list_elem_of_In|]. split; [done|].
  apply orb_true_iff in Hi as [H|H]; apply bool_decide_eq_true in H; auto.
Qed.

Fixpoint acquires_ok (vs : list string) (g : generator) : bool :=
  match vs with
  | [] => true
  | v :: vs => victim_b (manager g)
      && match (run_op (AcquireVariable v) g).2 with Done _ => true | _ => false end
      && acquires_ok vs (run_op (AcquireVariable v) g).1
  end.

Lemma acquire_all_reached vs g :
  reached g -> acquires_ok vs g = true -> reached (acquire_all vs g).
Proof.
  revert g. induction vs as [|v vs IH]; intros g Hg H; [done|].
  cbn [acquires_ok] in H. apply andb_true_iff in H as [[Hv Hd]%andb_true_iff Hok].
  apply IH; [|exact Hok]. apply (reached_op (AcquireVariable v) g); [done | by apply victim_b_spec |].
  destruct (run_op (AcquireVariable v) g) as [g' [[]| |]]; done.
Qed.

Lemma variable_register_witness :
  exists g g' o code, reached g
    /\ acquire_reg_for_variable "i" g = (g', Done ("X20"%string, false))
    /\ emitted g' = emitted g ++ code
    /\ forall m, slot_ok 29 o m -> run_instrs m code = Next (set_mem m (rget_sp m 29 + o) (rget m 20)).
Proof.
  set (g0 := (reset_for_new_function true sample_generator).1).
  set (g1 := acquire_all (take 8 nine_variables) g0).
  set (g2 := (run_op (MarkDirty "X20" true) g1).1).
  assert (H2 : reached g2).
  { apply (reached_op (MarkDirty "X20" true) g1); [|exact I | vm_compute; reflexivity].
    apply acquire_all_reached; [|vm_compute; reflexivity].
    apply (reached_reset true sample_generator). reflexivity. }
  set (g3 := (acquire_reg_for_variable "i" g2).1).
  assert (E : acquire_reg_for_variable "i" g2 = (g3, Done ("X20"%string, false)))
    by (vm_compute; reflexivity).
  destruct (variable_register g2 "i" g3 "X20" false H2 E) as (_ & _ & _ & code & Hc & H).
  assert (Hv : variable_to_reg_map (manager g2) !! "i"%string = None) by (vm_compute; reflexivity).
  assert (Hf : List.find (free_in (manager g2)) VARIABLE_REGS = None) by (vm_compute; reflexivity).
  rewrite Hv, Hf in H. destruct H as (_ & rest & i & _ & Hi & _ & _ & Hsave).
  assert (Hi' : registers (manager g2) !! "X20"%string = Some (mkInfo IN_USE_VARIABLE "a" true))
    by (vm_compute; reflexivity).
  rewrite Hi' in Hi. injection Hi as <-. unfold saves_victim in Hsave. cbn [dirty bound_to] in Hsave.
  destruct (get_spill_offset (frame g2) "a") as [o fr].
  exists g2, g3, o, code. split; [exact H2|]. split; [exact E|]. split; [exact Hc|]. apply Hsave.
Defined.
