(* ===== verification/FunctionSpec.v ===== *)
(** * Function entry

    What [Functions.prepare_function] does: the frame it builds is one of [FrameLayout], so
    its prologue runs; which registers the function saves; and how these relate to the
    registers [acquire_spillable_temp_reg] hands out in its body. *)

From S2P Require Import Prelude Words A64 Instr EncReg EncSpec EncMem Machine CallFrame FrameLayout CallFrameProof Registers RegisterProof Functions RegisterSpec.
Local Open Scope Z_scope.

(** ** The frame of a function *)

Definition add_locals (l : list (string * VarType)) : list frame_op :=
  (fun v : string * VarType => AddLocal v.1 v.2) <$> l.

Definition is_parameter (parameters : list (string * VarType)) (v : string * VarType) : bool :=
  existsb (fun p => String.eqb (fst p) (fst v)) parameters.

(** The operations on the frame between its construction and the prologue. *)
Definition entry_ops (accesses_globals : bool) (parameters variables : list (string * VarType))
    (max_live : Z) : list frame_op :=
  (SetPool (negb accesses_globals) :: (if accesses_globals then [UsesGlobals true] else []))
  ++ add_locals parameters
  ++ add_locals (List.filter (fun v => negb (is_parameter parameters v)) variables)
  ++ (if 8 <? max_live then [Preallocate (Z.to_nat (max_live - 8))] else [])
  ++ [Reserve max_live] ++ (if accesses_globals then [] else [ForceSave "X28"]).

Definition at_frame (g : generator) (fr : CallFrameManager) : generator :=
  mkGenerator (manager g) fr (emitted g).

Lemma for_each_frame {A} (l : list A) (f : A -> M unit) (step : CallFrameManager -> A -> CallFrameManager)
    (P : CallFrameManager -> Prop) :
  (forall a fr, P fr -> P (step fr a)) ->
  (forall a g, P (frame g) -> f a g = (at_frame g (step (frame g) a), Done tt)) ->
  forall g, P (frame g) -> for_each l f g = (at_frame g (foldl step (frame g) l), Done tt).
Proof.
  intros Hp Hf. induction l as [|a l IH]; intros g Hg; [by destruct g|].
  cbn [for_each]. unfold mbind, M_bind. rewrite Hf by done. rewrite IH by (cbn; by apply Hp). done.
Qed.

Definition plain (canaries : bool) (fr : CallFrameManager) : Prop :=
  frame_inv canaries fr /\ callee_saved fr = [].

Lemma plain_add_local canaries fr n t : plain canaries fr -> plain canaries (add_local fr n t).
Proof.
  intros [H Hc]. split; [by apply add_local_inv|]. unfold add_local. by case_match.
Qed.

Lemma has_local_add canaries fr n t :
  plain canaries fr -> has_local fr n = true -> add_local fr n t = fr.
Proof.
  intros [H Hc] Hl. unfold has_local in Hl. rewrite Hc in Hl. cbn [existsb] in Hl.
  rewrite orb_false_r in Hl. apply List.existsb_exists in Hl as ([n' s] & Hin & E).
  apply String.eqb_eq in E. cbn [fst] in E. subst n'.
  unfold add_local. destruct (variable_offsets fr !! n) as [o|] eqn:E; [done|].
  apply (fi_dom _ _ H) in E. destruct E. apply list_elem_of_fmap. exists (n, s).
  split; [done|]. by apply list_elem_of_In.
Qed.

Lemma foldl_add_locals l fr :
  foldl (fun fr v => add_local fr v.1 v.2) fr l = foldl frame_step fr (add_locals l).
Proof. revert fr. induction l as [|[n t] l IH]; intros fr; [done|]. apply IH. Qed.

Definition register_step (parameters : list (string * VarType)) (fr : CallFrameManager)
    (v : string * VarType) : CallFrameManager :=
  if is_parameter parameters v then fr else add_local fr v.1 v.2.

Lemma foldl_register_step parameters l : forall fr,
  foldl (register_step parameters) fr l
  = foldl frame_step fr (add_locals (List.filter (fun v => negb (is_parameter parameters v)) l)).
Proof.
  induction l as [|v l IH]; intros fr; [done|]. cbn [foldl List.filter]. rewrite IH.
  unfold register_step at 1. by destruct (is_parameter parameters v).
Qed.

Lemma register_local_step canaries parameters v g :
  plain canaries (frame g) ->
  register_local parameters v g = (at_frame g (register_step parameters (frame g) v), Done tt).
Proof.
  intros H. unfold register_local, on_frame, with_frame, register_step. fold (is_parameter parameters v).
  destruct (is_parameter parameters v); [done|]. cbn [orb].
  destruct (has_local (frame g) v.1) eqn:Hl; [|done].
  by rewrite (has_local_add canaries _ _ _ H Hl).
Qed.

Lemma foldl_plain {A} canaries (step : CallFrameManager -> A -> CallFrameManager) l :
  (forall a fr, plain canaries fr -> plain canaries (step fr a)) ->
  forall fr, plain canaries fr -> plain canaries (foldl step fr l).
Proof. intros H. induction l as [|a l IH]; intros fr Hf; [done|]. cbn. by apply IH, H. Qed.

Lemma plain_register_step canaries parameters v fr :
  plain canaries fr -> plain canaries (register_step parameters fr v).
Proof.
  intros H. unfold register_step. destruct (is_parameter parameters v); [exact H|].
  by apply plain_add_local.
Qed.

(** The operations that can refuse do not before the prologue. *)
Lemma try_reserve canaries k g :
  frame_inv canaries (frame g) ->
  try_frame (fun fr => reserve_registers_based_on_pressure fr k) g
  = (at_frame g (frame_step (frame g) (Reserve k)), Done tt).
Proof.
  intros H. unfold try_frame, frame_step, reserve_registers_based_on_pressure.
  by rewrite (fi_pending _ _ H).
Qed.

Lemma try_force_save canaries r g :
  frame_inv canaries (frame g) ->
  try_frame (fun fr => force_save_register fr r) g
  = (at_frame g (frame_step (frame g) (ForceSave r)), Done tt).
Proof.
  intros H. unfold try_frame, frame_step, force_save_register. by rewrite (fi_pending _ _ H).
Qed.

Lemma in_use_after_reset ag g :
  get_in_use_callee_saved_registers (manager (reset_for_new_function ag g).1) = ["X28"%string].
Proof. vm_compute. reflexivity. Qed.

Lemma frame_inv_steps canaries fr ops : frame_inv canaries fr -> frame_inv canaries (foldl frame_step fr ops).
Proof.
  revert fr. induction ops as [|op ops IH]; intros fr H; [done|]. cbn. by apply IH, frame_step_inv.
Qed.

(** Up to the prologue the function builds the frame of [entry_ops]. *)
Lemma prepare_function_frame canaries name ag parameters variables k g :
  let st := build_frame canaries name (entry_ops ag parameters variables k) in
  prepare_function canaries name ag parameters variables k g
  = emit_prologue canaries
      (mkGenerator (manager (reset_for_new_function ag g).1) st (emitted g)).
Proof.
  intros st. unfold prepare_function. unfold mbind at 1, M_bind at 1, on_frame at 1, with_frame at 1.
  unfold mbind at 1, M_bind at 1, reset_for_new_function at 1, modify at 1.
  cbn [manager frame emitted].
  set (s := manager (reset_for_new_function ag g).1).
  change (mkRegisters _ _ _ _ _ _ _ _ _) with s.
  unfold mbind at 1, M_bind at 1, on_frame at 1, with_frame at 1. cbn [manager frame emitted].
  set (fr0 := set_active_register_pool _ _).
  set (fr1 := if ag then setUsesGlobalPointers fr0 true else fr0).
  assert (H1 : plain canaries fr1).
  { split; [|by destruct ag]. unfold fr1, fr0.
    pose proof (frame_inv_new canaries name) as H. destruct ag; by destruct H; split. }
  assert (E1 : forall B (f : unit -> M B) e,
    ((if ag then on_frame (fun fr => setUsesGlobalPointers fr true) else mret tt) ≫= f)
      (mkGenerator s fr0 e) = f tt (mkGenerator s fr1 e)) by (intros; unfold fr1; by destruct ag).
  rewrite E1. unfold mbind at 1, M_bind at 1.
  rewrite (for_each_frame _ _ (fun fr v => add_local fr v.1 v.2) (plain canaries));
    [|intros; by apply plain_add_local | done | exact H1].
  set (fr2 := foldl (fun fr v => add_local fr v.1 v.2) fr1 parameters).
  assert (H2 : plain canaries fr2) by (apply foldl_plain; [intros; by apply plain_add_local | done]).
  unfold at_frame at 1. cbn [manager frame emitted]. unfold mbind at 1, M_bind at 1.
  rewrite (for_each_frame _ _ (register_step parameters) (plain canaries));
    [| intros; by apply plain_register_step | intros a g0 H0; by apply (register_local_step canaries) | exact H2].
  set (fr3 := foldl (register_step parameters) fr2 variables).
  assert (H3 : plain canaries fr3).
  { apply foldl_plain; [|done]. intros. by apply plain_register_step. }
  unfold at_frame at 1. cbn [manager frame emitted].
  change (Z.of_nat (length VARIABLE_REGS)) with 8. fold fr2. fold fr3.
  set (fr4 := foldl frame_step fr3 (if 8 <? k then [Preallocate (Z.to_nat (k - 8))] else [])).
  assert (E4 : forall B (f : unit -> M B) e,
    ((if 8 <? k then on_frame (fun fr => preallocate_spill_slots fr (k - 8)) else mret tt) ≫= f)
      (mkGenerator s fr3 e) = f tt (mkGenerator s fr4 e)).
  { intros. unfold fr4. destruct (Z.ltb_spec 8 k); [|done]. cbn [foldl frame_step].
    by replace (Z.of_nat (Z.to_nat (k - 8))) with (k - 8) by lia. }
  rewrite E4. assert (H4 : frame_inv canaries fr4) by (apply frame_inv_steps, H3).
  unfold mbind at 1, M_bind at 1. rewrite (try_reserve canaries) by exact H4.
  unfold at_frame at 1. cbn [manager frame emitted].
  set (fr5 := frame_step fr4 (Reserve k)).
  assert (H5 : frame_inv canaries fr5) by (by apply frame_step_inv).
  assert (Est : st = foldl frame_step fr5 (if ag then [] else [ForceSave "X28"%string])).
  { unfold st, build_frame, entry_ops, fr5, fr4, fr3. rewrite !foldl_app.
    rewrite foldl_register_step. unfold fr2. rewrite foldl_add_locals. unfold fr1, fr0. by destruct ag. }
  rewrite Est. destruct ag; cbn [negb foldl]; [reflexivity|].
  unfold mbind at 1, M_bind at 1, mbind at 1, M_bind at 1, get at 1. cbn [manager].
  unfold s at 1. rewrite in_use_after_reset. cbn [for_each].
  unfold mbind at 1, M_bind at 1. rewrite (try_force_save canaries) by exact H5.
  reflexivity.
Qed.

(** ** The registers it saves *)

Definition save_pool (accesses_globals : bool) : list string :=
  if accesses_globals then VARIABLE_REGS else EXTENDED_VARIABLE_REGS.

Lemma add_locals_keep l fr :
  let fr' := foldl frame_step fr (add_locals l) in
  callee_saved fr' = callee_saved fr /\ uses_global_pointers fr' = uses_global_pointers fr
  /\ active_variable_regs fr' = active_variable_regs fr.
Proof.
  revert fr. induction l as [|[n t] l IH]; intros fr; [done|].
  change (add_locals ((n, t) :: l)) with (AddLocal n t :: add_locals l). cbn zeta. cbn [foldl].
  destruct (IH (frame_step fr (AddLocal n t))) as (-> & -> & ->).
  cbn [frame_step]. unfold add_local. by case_match.
Qed.

Lemma elem_of_push_all r l l' :
  r ∈ foldl (fun l r => push_new r l) l l' <-> r ∈ l \/ r ∈ l'.
Proof.
  revert l. induction l' as [|x l' IH]; intros l; cbn.
  - rewrite elem_of_nil. tauto.
  - rewrite IH, elem_of_push_new, elem_of_cons. tauto.
Qed.

Lemma saved_registers_entry canaries name ag parameters variables k r :
  r ∈ saved_registers (build_frame canaries name (entry_ops ag parameters variables k))
  <-> r ∈ take (Z.to_nat k) (save_pool ag) \/ r = "X28"%string \/ ag = true /\ r = "X19"%string.
Proof.
  set (st := build_frame _ _ _). 
  assert (Est : exists fr, st = foldl frame_step fr ([Reserve k] ++ (if ag then [] else [ForceSave "X28"%string]))
    /\ frame_inv canaries fr /\ callee_saved fr = [] /\ uses_global_pointers fr = ag
    /\ active_variable_regs fr = save_pool ag).
  { unfold st, build_frame, entry_ops. rewrite !(foldl_app frame_step). rewrite <-(foldl_app frame_step).
    eexists. split; [reflexivity|]. split.
    { repeat apply frame_inv_steps. apply frame_inv_new. }
    set (fr2 := foldl frame_step (foldl frame_step _ (add_locals parameters)) _).
    assert (H : callee_saved fr2 = [] /\ uses_global_pointers fr2 = ag
      /\ active_variable_regs fr2 = save_pool ag).
    { unfold fr2. destruct (add_locals_keep (List.filter (fun v => negb (is_parameter parameters v)) variables)
        (foldl frame_step (foldl frame_step (CallFrameManager_new canaries name)
           (SetPool (negb ag) :: (if ag then [UsesGlobals true] else []))) (add_locals parameters)))
        as (-> & -> & ->).
      edestruct (add_locals_keep parameters) as (-> & -> & ->). by destruct ag. }
    destruct (8 <? k); [|exact H]. cbn [foldl frame_step]. unfold preallocate_spill_slots.
    by destruct (is_prologue_generated fr2). }
  destruct Est as (fr & -> & Hinv & Hc & Hu & Ha). cbn [app foldl frame_step].
  unfold reserve_registers_based_on_pressure. rewrite (fi_pending _ _ Hinv), Hc, Ha.
  unfold saved_registers. rewrite sort_strings_perm.
  destruct ag; cbn [foldl frame_step].
  - cbn [set_callee_saved uses_global_pointers callee_saved]. rewrite Hu.
    rewrite !elem_of_push_new, elem_of_push_all, elem_of_nil. tauto.
  - unfold force_save_register, set_callee_saved.
    cbn [is_prologue_generated uses_global_pointers callee_saved].
    rewrite (fi_pending _ _ Hinv). cbn [uses_global_pointers callee_saved]. rewrite Hu.
    rewrite elem_of_push_new, elem_of_push_all, elem_of_nil. intuition congruence.
Qed.

(** ** Temporaries *)

Definition temp_step (g : generator) : generator := (run_op AcquireTemp g).1.

(** The state after [n] requests for a temporary. *)
Definition after_temps (n : nat) (g : generator) : generator := Nat.iter n temp_step g.

Definition fresh (ag : bool) fr code : generator :=
  (reset_for_new_function ag (mkGenerator RegisterManager_new fr code)).1.

Lemma fresh_reset ag g : (reset_for_new_function ag g).1 = fresh ag (frame g) (emitted g).
Proof. by destruct g as [[] ? ?]. Qed.

Lemma temps_cycle ag fr code : after_temps 24 (fresh ag fr code) = after_temps 16 (fresh ag fr code).
Proof. destruct ag; vm_compute; reflexivity. Qed.

Lemma after_temps_add n k g : after_temps (n + k) g = after_temps n (after_temps k g).
Proof. apply Nat.iter_add. Qed.

Lemma temps_period ag fr code n :
  after_temps (n + 24) (fresh ag fr code) = after_temps (n + 16) (fresh ag fr code).
Proof.
  rewrite (after_temps_add n 24), (after_temps_add n 16).
  exact (f_equal (after_temps n) (temps_cycle ag fr code)).
Qed.

Definition nth_temp_ok (ag : bool) fr code (n : nat) : Prop :=
  let after := acquire_spillable_temp_reg (after_temps n (fresh ag fr code)) in
  after.2 = Done (nth (n mod 8) VARIABLE_REGS ""%string)
  /\ emitted after.1 = code /\ frame after.1 = fr.

Lemma first_temps ag fr code : Forall (nth_temp_ok ag fr code) (seq 0 24).
Proof.
  destruct ag; repeat (constructor; [split; [vm_compute; reflexivity | split; vm_compute; reflexivity]|]);
    constructor.
Qed.

Lemma nth_temp ag fr code n : nth_temp_ok ag fr code n.
Proof.
  induction n as [n IH] using lt_wf_ind. destruct (decide (n < 24)%nat) as [Hn | Hn].
  - pose proof (first_temps ag fr code) as H. rewrite list.Forall_forall in H.
    apply H, list_elem_of_In, in_seq. lia.
  - pose proof (IH (n - 24 + 16)%nat ltac:(lia)) as H. unfold nth_temp_ok in H |- *.
    rewrite <-temps_period in H. replace (n - 24 + 24)%nat with n in H by lia.
    replace (n mod 8)%nat with ((n - 24 + 16) mod 8)%nat; [exact H|].
    rewrite <-(Nat.Div0.mod_add (n - 24 + 16) 1 8). f_equal. lia.
Qed.

(** ** The properties *)

(** C28: a function whose frame is at most 512 bytes is given a prologue that
    runs: the register manager starts afresh, the code emitted builds the frame of its
    parameters and variables, and saves the first [max_live] registers of the active pool
    with X28 and, when it uses globals, X19. *)
Theorem function_entry canaries name ag parameters variables k g m :
  let st := build_frame canaries name (entry_ops ag parameters variables k) in
  no_clash st -> final_frame_size (layout_frame canaries st) <= 512 -> stack_ok canaries st m ->
  exists g' code m', prepare_function canaries name ag parameters variables k g = (g', Done tt)
    /\ emitted g' = emitted g ++ code
    /\ manager g' = manager (reset_for_new_function ag g).1
    /\ frame g' = set_prologue_generated (layout_frame canaries st)
    /\ run_instrs m code = Next m' /\ built canaries st m m'
    /\ forall r, r ∈ saved_registers st <->
         r ∈ take (Z.to_nat k) (save_pool ag) \/ r = "X28"%string \/ ag = true /\ r = "X19"%string.
Proof.
  intros st Hc Hsize Hm.
  assert (Hs : Forall saveable (saved_registers st)).
  { apply list.Forall_forall. intros r Hr. apply saved_registers_entry in Hr.
    assert (Hin : r ∈ save_pool ag -> saveable r).
    { destruct ag; [apply variable_register_saveable | done]. }
    destruct Hr as [Hr | [-> | [_ ->]]]; [| by apply (bool_decide_unpack _); vm_compute ..].
    apply Hin. rewrite <-(take_drop (Z.to_nat k)). apply elem_of_app. by left. }
  destruct (call_runs canaries st (build_frame_inv canaries name _) Hc Hs Hsize m Hm)
    as (code & _ & Hp & _ & m' & Hrun & Hb & _).
  eexists _, code, m'. rewrite prepare_function_frame. fold st. unfold emit_prologue.
  cbn [frame]. rewrite Hp. split; [reflexivity|]. cbn [emitted manager frame].
  split; [done|]. split; [done|]. split; [done|]. split; [done|]. split; [done|].
  intros r. apply saved_registers_entry.
Qed.

(** C29: the temporaries of a function that holds no variable in a
    register come from a cycle of eight registers: request [n] returns register [n mod 8] of
    the pool and emits nothing, so the ninth silently reuses the register of the first; and
    a function that uses no globals and whose pressure [k] is between 1 and 8 does not save
    the register of its [k]-th temporary, which its caller expects to find unchanged. *)
Theorem temporaries_recycled ag g n :
  let after := acquire_spillable_temp_reg (after_temps n (reset_for_new_function ag g).1) in
  after.2 = Done (nth (n mod 8) VARIABLE_REGS ""%string)
  /\ emitted after.1 = emitted g /\ frame after.1 = frame g
  /\ forall canaries name parameters variables k, ag = false -> 1 <= k <= 8 -> n = Z.to_nat (k - 1) ->
       let st := build_frame canaries name (entry_ops ag parameters variables k) in
       forall r, after.2 = Done r -> r ∉ saved_registers st.
Proof.
  intros after. unfold after. rewrite fresh_reset.
  destruct (nth_temp ag (frame g) (emitted g) n) as (E & He & Hf).
  split; [exact E|]. split; [exact He|]. split; [exact Hf|].
  intros canaries name parameters variables k -> Hk -> r Hr.
  rewrite E in Hr. injection Hr as <-. rewrite saved_registers_entry.
  assert (H : k = 1 \/ k = 2 \/ k = 3 \/ k = 4 \/ k = 5 \/ k = 6 \/ k = 7 \/ k = 8) by lia.
  destruct H as [-> | [-> | [-> | [-> | [-> | [-> | [-> | ->]]]]]]];
    (intros [Hin | [Hin | [Hin _]]]; [|discriminate..]);
    revert Hin; apply (bool_decide_unpack _); vm_compute; exact I.
Qed.

Lemma function_entry_witness :
  exists g' code m',
    prepare_function true "f" false [("n"%string, VT_INTEGER)] [("x"%string, VT_INTEGER)] 2
      sample_generator = (g', Done tt)
    /\ emitted g' = code /\ run_instrs sample_machine code = Next m'
    /\ mem m' (sp m' + 8) = 130.
Proof.
  destruct (function_entry true "f" false [("n"%string, VT_INTEGER)] [("x"%string, VT_INTEGER)] 2
    sample_generator sample_machine
    ltac:(apply (bool_decide_unpack _); vm_compute; exact I) ltac:(vm_compute; discriminate)
    ltac:(split; vm_compute; auto; by split)) as (g' & code & m' & E & Hc & _ & _ & Hr & Hb & _).
  exists g', code, m'. split; [exact E|]. split; [exact Hc|]. split; [exact Hr|].
  rewrite (built_old_lr _ _ _ _ Hb). reflexivity.
Defined.

(** The second temporary of a function of pressure 2 is X21, which is not saved. *)
Lemma temporaries_recycled_witness :
  "X21"%string ∉ saved_registers (build_frame false "f" (entry_ops false [] [] 2)).
Proof.
  destruct (temporaries_recycled false sample_generator 1) as (E & _ & _ & H).
  exact (H false "f"%string [] [] 2 eq_refl ltac:(lia) eq_refl "X21"%string E).
Defined.
