(* ===== verification/Ast.v ===== *)
(** * The abstract syntax tree

    The node classes of src/AST.h as mutually inductive types, one constructor per class with
    its fields, and the operations the classes implement themselves: [clone]
    (src/AST_Cloner.cpp, src/AST.cpp) and the variables a statement says it uses and defines.
    Pointers that the constructors default to null are options, the others are never null
    in a parsed tree.  A [double] is a value of the executable reference [spec_float] of
    IEEE 754. *)

From Stdlib Require Import SpecFloat.
From S2P Require Import Prelude CallFrame.
Local Open Scope Z_scope.

(** Induction over the trees goes through the lists and options of their children. *)
Scheme All for list.
Scheme All for option.

Inductive BinaryOperator : Type :=
  | Add | Subtract | Multiply | Divide | Remainder
  | Equal | NotEqual | Less | LessEqual | Greater | GreaterEqual
  | LogicalAnd | BitwiseAnd | LogicalOr | BitwiseOr | Equivalence | NotEquivalence
  | LeftShift | RightShift
  | FloatAdd | FloatSubtract | FloatMultiply | FloatDivide
  | FloatEqual | FloatNotEqual | FloatLess | FloatLessEqual | FloatGreater | FloatGreaterEqual.

Inductive UnaryOperator : Type :=
  | AddressOf | Indirection | LogicalNot | BitwiseNot | Negate
  | FloatConvert | FloatSqrt | FloatFloor | FloatTruncate
  | LengthOf | HeadOf | TailOf | TailOfNonDestructive | HeadOfAsFloat | TypeOf.

#[export] Instance BinaryOperator_eq_dec : EqDecision BinaryOperator.
Proof. solve_decision. Defined.
#[export] Instance UnaryOperator_eq_dec : EqDecision UnaryOperator.
Proof. solve_decision. Defined.

Inductive LoopType : Type := Repeat | RepeatWhile | RepeatUntil.

(** The value of a [NumberLiteral], by its [literal_type]. *)
Inductive number : Type :=
  | Integer (int_value : Z)
  | Float (float_value : spec_float).

Inductive Expression : Type :=
  | ListExpression (initializers : list Expression) (is_manifest : bool)
  | VecInitializerExpression (initializers : list Expression)
  | NumberLiteral (value : number)
  | StringLiteral (value : string)
  | CharLiteral (value : ascii)
  | BooleanLiteral (value : bool)
  | VariableAccess (name unique_name : string)
  | BinaryOp (op : BinaryOperator) (left right : Expression)
  | UnaryOp (op : UnaryOperator) (operand : Expression)
  | VectorAccess (vector_expr index_expr : Expression)
  | CharIndirection (string_expr index_expr : Expression)
  | FloatVectorIndirection (vector_expr index_expr : Expression)
  | BitfieldAccessExpression (base_expr start_bit_expr width_expr : Expression)
  | FunctionCall (function_expr : Expression) (arguments : list Expression)
  | SysCall (function_name : string) (syscall_number : Expression) (arguments : list Expression)
  | ConditionalExpression (condition true_expr false_expr : Expression)
  | ValofExpression (body : Statement)
  | FloatValofExpression (body : Statement)
  | VecAllocationExpression (size_expr : Expression) (variable_name : string)
  | StringAllocationExpression (size_expr : Expression)
  | FVecAllocationExpression (size_expr : Expression) (variable_name : string)
  | TableExpression (initializers : list Expression) (is_float_table : bool)
with Statement : Type :=
  | ForEachStatement (loop_variable_name type_variable_name : string)
      (collection_expression : Expression) (body : Statement)
      (filter_type inferred_element_type : VarType)
  | LetDeclaration (names : list string) (initializers : list Expression)
      (is_float_declaration : bool)
  | AssignmentStatement (lhs rhs : list Expression)
  | FreeStatement (list_expr : Expression)
  | RoutineCallStatement (routine_expr : Expression) (arguments : list Expression)
  | IfStatement (condition : Expression) (then_branch : Statement)
  | UnlessStatement (condition : Expression) (then_branch : Statement)
  | TestStatement (condition : Expression) (then_branch : Statement)
      (else_branch : option Statement)
  | WhileStatement (condition : Expression) (body : Statement)
  | UntilStatement (condition : Expression) (body : Statement)
  | RepeatStatement (loop_type : LoopType) (body : Statement) (condition : option Expression)
  | ForStatement (loop_variable unique_loop_variable_name unique_step_variable_name
      unique_end_variable_name : string) (start_expr end_expr : Expression)
      (step_expr : option Expression) (body : Statement)
  | CaseStatement (clause : CaseClause)
  | DefaultStatement (command : Statement)
  | SwitchonStatement (expression : Expression) (cases : list CaseClause)
      (default_case : option Statement)
  | GotoStatement (label_expr : Expression)
  | ReturnStatement
  | FinishStatement (syscall_number : option Expression) (arguments : list Expression)
  | BreakStatement
  | BrkStatement
  | LoopStatement
  | EndcaseStatement
  | ResultisStatement (expression : Expression)
  | CompoundStatement (statements : list Statement)
  | BlockStatement (declarations : list Declaration) (statements : list Statement)
  | StringStatement (size_expr : Expression)
  | LabelTargetStatement (labelName : string)
  | ConditionalBranchStatement (condition targetLabel : string)
      (condition_expr : option Expression)
with CaseClause : Type :=
  | mkCase (constant_expr : Expression) (command : Statement)
      (resolved_constant_value : option Z)
with Declaration : Type :=
  | ManifestDeclaration (name : string) (value : Z)
  | StaticDeclaration (name : string) (initializer : Expression) (is_float_declaration : bool)
  | GlobalDeclaration (globals : list (string * Z))
  | GlobalVariableDeclaration (names : list string) (initializers : list Expression)
      (is_float_declaration : bool)
  | FunctionDeclaration (name : string) (parameters : list string) (body : Expression)
  | RoutineDeclaration (name : string) (parameters : list string) (body : Statement)
  | LabelDeclaration (name : string) (command : Statement).

Record Program : Type := mkProgram {
  declarations : list Declaration;
  statements : list Statement
}.

(** ** Cloning *)

Fixpoint clone_expr (e : Expression) : Expression :=
  match e with
  | ListExpression l m => ListExpression (List.map clone_expr l) m
  | VecInitializerExpression l => VecInitializerExpression (List.map clone_expr l)
  | NumberLiteral n => NumberLiteral n
  | StringLiteral s => StringLiteral s
  | CharLiteral c => CharLiteral c
  | BooleanLiteral b => BooleanLiteral b
  | VariableAccess name _ => VariableAccess name ""
  | BinaryOp op l r => BinaryOp op (clone_expr l) (clone_expr r)
  | UnaryOp op a => UnaryOp op (clone_expr a)
  | VectorAccess v i => VectorAccess (clone_expr v) (clone_expr i)
  | CharIndirection s i => CharIndirection (clone_expr s) (clone_expr i)
  | FloatVectorIndirection v i => FloatVectorIndirection (clone_expr v) (clone_expr i)
  | BitfieldAccessExpression b s w =>
      BitfieldAccessExpression (clone_expr b) (clone_expr s) (clone_expr w)
  | FunctionCall f args => FunctionCall (clone_expr f) (List.map clone_expr args)
  | SysCall f n args => SysCall f (clone_expr n) (List.map clone_expr args)
  | ConditionalExpression c t f =>
      ConditionalExpression (clone_expr c) (clone_expr t) (clone_expr f)
  | ValofExpression s => ValofExpression (clone_stmt s)
  | FloatValofExpression s => FloatValofExpression (clone_stmt s)
  | VecAllocationExpression n _ => VecAllocationExpression (clone_expr n) ""
  | StringAllocationExpression n => StringAllocationExpression (clone_expr n)
  | FVecAllocationExpression n _ => FVecAllocationExpression (clone_expr n) ""
  | TableExpression l b => TableExpression (List.map clone_expr l) b
  end
with clone_stmt (s : Statement) : Statement :=
  match s with
  | ForEachStatement v t c b ft _ =>
      ForEachStatement v t (clone_expr c) (clone_stmt b) ft VT_UNKNOWN
  | LetDeclaration names l _ => LetDeclaration names (List.map clone_expr l) false
  | AssignmentStatement lhs rhs =>
      AssignmentStatement (List.map clone_expr lhs) (List.map clone_expr rhs)
  | FreeStatement e => FreeStatement (clone_expr e)
  | RoutineCallStatement f args =>
      RoutineCallStatement (clone_expr f) (List.map clone_expr args)
  | IfStatement c t => IfStatement (clone_expr c) (clone_stmt t)
  | UnlessStatement c t => UnlessStatement (clone_expr c) (clone_stmt t)
  | TestStatement c t e => TestStatement (clone_expr c) (clone_stmt t) (option_map clone_stmt e)
  | WhileStatement c b => WhileStatement (clone_expr c) (clone_stmt b)
  | UntilStatement c b => UntilStatement (clone_expr c) (clone_stmt b)
  | RepeatStatement t b c => RepeatStatement t (clone_stmt b) (option_map clone_expr c)
  | ForStatement v u us ue a b st body =>
      ForStatement v u us ue (clone_expr a) (clone_expr b) (option_map clone_expr st)
        (clone_stmt body)
  | CaseStatement c => CaseStatement (clone_case c)
  | DefaultStatement c => DefaultStatement (clone_stmt c)
  | SwitchonStatement e cases d =>
      SwitchonStatement (clone_expr e) (List.map clone_case cases) (option_map clone_stmt d)
  | GotoStatement e => GotoStatement (clone_expr e)
  | ReturnStatement => ReturnStatement
  | FinishStatement _ _ => FinishStatement None []
  | BreakStatement => BreakStatement
  | BrkStatement => BrkStatement
  | LoopStatement => LoopStatement
  | EndcaseStatement => EndcaseStatement
  | ResultisStatement e => ResultisStatement (clone_expr e)
  | CompoundStatement l => CompoundStatement (List.map clone_stmt l)
  | BlockStatement _ l => BlockStatement [] (List.map clone_stmt l)
  | StringStatement e => StringStatement (clone_expr e)
  | LabelTargetStatement l => LabelTargetStatement l
  | ConditionalBranchStatement c l e =>
      ConditionalBranchStatement c l (option_map clone_expr e)
  end
with clone_case (c : CaseClause) : CaseClause :=
  match c with mkCase e s r => mkCase (clone_expr e) (clone_stmt s) r end.

Definition clone_decl (d : Declaration) : Declaration :=
  match d with
  | ManifestDeclaration n v => ManifestDeclaration n v
  | StaticDeclaration n e b => StaticDeclaration n (clone_expr e) b
  | GlobalDeclaration g => GlobalDeclaration g
  | GlobalVariableDeclaration names l b =>
      GlobalVariableDeclaration names (List.map clone_expr l) b
  | FunctionDeclaration n ps e => FunctionDeclaration n ps (clone_expr e)
  | RoutineDeclaration n ps s => RoutineDeclaration n ps (clone_stmt s)
  | LabelDeclaration n s => LabelDeclaration n (clone_stmt s)
  end.

Definition clone_program (p : Program) : Program :=
  mkProgram (List.map clone_decl (declarations p)) (List.map clone_stmt (statements p)).

(** ** What a statement says of its variables *)

(** Only an operand that is itself a variable counts. *)
Definition variable_of (e : Expression) : list string :=
  match e with VariableAccess name _ => [name] | _ => [] end.
Definition variable_of_option (e : option Expression) : list string :=
  match e with Some e => variable_of e | None => [] end.

Fixpoint get_used_variables (s : Statement) : list string :=
  match s with
  | AssignmentStatement _ rhs => concat (List.map variable_of rhs)
  | RoutineCallStatement f args => variable_of f ++ concat (List.map variable_of args)
  | IfStatement c t | UnlessStatement c t => variable_of c ++ get_used_variables t
  | TestStatement c t e =>
      variable_of c ++ get_used_variables t
      ++ match e with Some e => get_used_variables e | None => [] end
  | WhileStatement c b | UntilStatement c b => variable_of c ++ get_used_variables b
  | RepeatStatement _ b c => get_used_variables b ++ variable_of_option c
  | ForStatement _ _ _ _ a b st body =>
      variable_of a ++ variable_of b ++ variable_of_option st ++ get_used_variables body
  | CaseStatement (mkCase e c _) => variable_of e ++ get_used_variables c
  | DefaultStatement c => get_used_variables c
  | SwitchonStatement e cases d =>
      variable_of e
      ++ concat (List.map (fun c => match c with mkCase e s _ => variable_of e ++ get_used_variables s end) cases)
      ++ match d with Some d => get_used_variables d | None => [] end
  | ResultisStatement e => variable_of e
  | CompoundStatement l | BlockStatement _ l => concat (List.map get_used_variables l)
  | _ => []
  end.

Fixpoint get_defined_variables (s : Statement) : list string :=
  match s with
  | ForStatement v _ _ _ _ _ _ _ => [v]
  | CompoundStatement l | BlockStatement _ l => concat (List.map get_defined_variables l)
  | _ => []
  end.

(** ** Cloning is not copying *)

Scheme Expression_mut := Induction for Expression Sort Prop
  with Statement_mut := Induction for Statement Sort Prop
  with CaseClause_mut := Induction for CaseClause Sort Prop
  with Declaration_mut := Induction for Declaration Sort Prop.
Combined Scheme ast_mutind from Expression_mut, Statement_mut, CaseClause_mut.

Definition option_allb {A} (f : A -> bool) (o : option A) : bool :=
  match o with Some a => f a | None => true end.

(** The trees none of whose nodes loses a field. *)
Fixpoint kept_expr (e : Expression) : bool :=
  match e with
  | ListExpression l _ | VecInitializerExpression l | TableExpression l _ =>
      forallb kept_expr l
  | NumberLiteral _ | StringLiteral _ | CharLiteral _ | BooleanLiteral _ => true
  | VariableAccess _ u => String.eqb u ""
  | BinaryOp _ l r => kept_expr l && kept_expr r
  | UnaryOp _ a | StringAllocationExpression a => kept_expr a
  | VectorAccess v i | CharIndirection v i | FloatVectorIndirection v i =>
      kept_expr v && kept_expr i
  | BitfieldAccessExpression a b c | ConditionalExpression a b c =>
      kept_expr a && kept_expr b && kept_expr c
  | FunctionCall f args | SysCall _ f args => kept_expr f && forallb kept_expr args
  | ValofExpression s | FloatValofExpression s => kept_stmt s
  | VecAllocationExpression n v | FVecAllocationExpression n v =>
      kept_expr n && String.eqb v ""
  end
with kept_stmt (s : Statement) : bool :=
  match s with
  | ForEachStatement _ _ c b _ it => kept_expr c && kept_stmt b && (it =? VT_UNKNOWN)
  | LetDeclaration _ l fl => forallb kept_expr l && negb fl
  | AssignmentStatement lhs rhs => forallb kept_expr lhs && forallb kept_expr rhs
  | FreeStatement e | GotoStatement e | ResultisStatement e | StringStatement e => kept_expr e
  | RoutineCallStatement f args => kept_expr f && forallb kept_expr args
  | IfStatement c b | UnlessStatement c b | WhileStatement c b | UntilStatement c b =>
      kept_expr c && kept_stmt b
  | TestStatement c t e => kept_expr c && kept_stmt t && option_allb kept_stmt e
  | RepeatStatement _ b c => kept_stmt b && option_allb kept_expr c
  | ForStatement _ _ _ _ a b st body =>
      kept_expr a && kept_expr b && option_allb kept_expr st && kept_stmt body
  | CaseStatement c => kept_case c
  | DefaultStatement c => kept_stmt c
  | SwitchonStatement e cases d =>
      kept_expr e && forallb kept_case cases && option_allb kept_stmt d
  | FinishStatement n args =>
      match n, args with None, [] => true | _, _ => false end
  | CompoundStatement l => forallb kept_stmt l
  | BlockStatement ds l => match ds with [] => forallb kept_stmt l | _ => false end
  | ConditionalBranchStatement _ _ e => option_allb kept_expr e
  | ReturnStatement | BreakStatement | BrkStatement | LoopStatement | EndcaseStatement
  | LabelTargetStatement _ => true
  end
with kept_case (c : CaseClause) : bool :=
  match c with mkCase e s _ => kept_expr e && kept_stmt s end.

(** [f] leaves exactly the trees of [k] alone, and makes such trees. *)
Definition copies {A} (f : A -> A) (k : A -> bool) (x : A) : Prop :=
  (k x = true <-> f x = x) /\ k (f x) = true.

Lemma copies_list {A} (f : A -> A) k l :
  list_all A (copies f k) l ->
  (forallb k l = true <-> List.map f l = l) /\ forallb k (List.map f l) = true.
Proof.
  induction 1 as [|x [Hx Hk] l _ [IH IHk]]; [by repeat split|]. cbn. rewrite Hk, IHk, andb_true_iff.
  split; [|done]. split; [intros [H1%Hx H2%IH]; by rewrite H1, H2|].
  intros [= H1 H2]. rewrite <-Hx, <-IH in *. auto.
Qed.

Lemma copies_option {A} (f : A -> A) k o :
  option_all A (copies f k) o ->
  (option_allb k o = true <-> option_map f o = o) /\ option_allb k (option_map f o) = true.
Proof.
  intros [x [Hx Hk]|]; cbn; [|by repeat split]. split; [|done]. rewrite Hx.
  split; [by intros ->|]. by intros [= E].
Qed.

Ltac children :=
  repeat match goal with
  | H : list_all _ _ _ |- _ => apply copies_list in H
  | H : option_all _ _ _ |- _ => apply copies_option in H
  end;
  repeat match goal with H : _ /\ _ |- _ => destruct H end.

Ltac copy_node :=
  unfold copies in *; cbn [kept_expr kept_stmt kept_case clone_expr clone_stmt clone_case];
  children; rewrite ?andb_true_iff, ?negb_true_iff, ?String.eqb_eq, ?Z.eqb_eq;
  split; [split; [intros; f_equal; intuition (subst; auto)
                 | intros E; injection E; intros; subst; intuition] | intuition].

Lemma clone_copies :
  (forall e, copies clone_expr kept_expr e) /\ (forall s, copies clone_stmt kept_stmt s)
  /\ (forall c, copies clone_case kept_case c).
Proof.
  apply (ast_mutind _ _ _ (fun _ => True)); intros; try exact I; try solve [copy_node];
    try (by repeat split).
  - split; [|done]. cbn. destruct syscall_number; [split; discriminate|].
    destruct arguments; [done | split; discriminate].
  - match goal with H : list_all _ _ ?l |- _ =>
      destruct (copies_list _ _ l H) as [Hl Hk] end.
    split; [|exact Hk].
    match goal with |- context [BlockStatement ?ds _] => destruct ds end;
      [|cbn; split; discriminate].
    cbn. rewrite Hl. split; [by intros -> | by intros [= ->]].
Qed.

(** C35: a clone equals the original exactly when the tree has none of the fields
    that cloning resets: the flag of a floating-point LET, the declarations of a block, the
    arguments of FINISH, the unique name of a variable, the name a vector is allocated for,
    the inferred element type of FOREACH; and cloning a clone changes nothing more. *)
Theorem clone_loses :
  (forall e, clone_expr e = e <-> kept_expr e = true)
  /\ (forall s, clone_stmt s = s <-> kept_stmt s = true)
  /\ (forall e, clone_expr (clone_expr e) = clone_expr e)
  /\ (forall s, clone_stmt (clone_stmt s) = clone_stmt s).
Proof.
  destruct clone_copies as (He & Hs & _).
  split; [intros e; symmetry; apply He|]. split; [intros s; symmetry; apply Hs|].
  split; [intros e; apply He, He | intros s; apply Hs, Hs].
Qed.
