(* ===== verification/SymbolTable.v ===== *)
(** * Symbols and scopes

    [Symbol], [SymbolLocation] (src/Symbol.h) and the scope stack of [SymbolTable]
    (src/SymbolTable.cpp), with the lookup discipline: the innermost definition of a name is
    the one that is found and changed, and leaving a scope forgets exactly its symbols. *)

From S2P Require Import Prelude CallFrame Labels.
Local Open Scope nat_scope.

(** ** Symbols *)

Inductive SymbolKind : Type :=
  | LOCAL_VAR | STATIC_VAR | GLOBAL_VAR | PARAMETER | FUNCTION | FLOAT_FUNCTION | ROUTINE | LABEL
  | MANIFEST | RUNTIME_FUNCTION | RUNTIME_FLOAT_FUNCTION | RUNTIME_ROUTINE | RUNTIME_FLOAT_ROUTINE.

#[export] Instance SymbolKind_eq_dec : EqDecision SymbolKind.
Proof. solve_decision. Defined.

(** The tag and the member of the union it selects. *)
Inductive SymbolLocation : Type :=
  | STACK (stack_offset : Z)
  | DATA (data_offset : Z)
  | ABSOLUTE (absolute_value : Z)
  | LABEL_LOCATION
  | UNKNOWN_LOCATION.

Record ParameterInfo : Type := mkParameterInfo { param_type : VarType; is_optional : bool }.

Record Symbol : Type := mkSymbol {
  symbol_name : string;
  kind : SymbolKind;
  type : VarType;
  scope_level : nat;
  location : SymbolLocation;
  size : Z;
  has_size : bool;
  symbol_parameters : list ParameterInfo
}.

Definition Symbol_new (name : string) (kind : SymbolKind) (type : VarType) (level : nat) : Symbol :=
  mkSymbol name kind type level UNKNOWN_LOCATION 0%Z false [].

Definition is_one_of (s : Symbol) (l : list SymbolKind) : bool := bool_decide (kind s ∈ l).

Definition is_local (s : Symbol) : bool := is_one_of s [LOCAL_VAR; PARAMETER].
Definition is_global (s : Symbol) : bool := is_one_of s [GLOBAL_VAR; STATIC_VAR].
Definition is_runtime (s : Symbol) : bool :=
  is_one_of s [RUNTIME_FUNCTION; RUNTIME_FLOAT_FUNCTION; RUNTIME_ROUTINE; RUNTIME_FLOAT_ROUTINE].
Definition is_function_like (s : Symbol) : bool :=
  is_one_of s [FUNCTION; FLOAT_FUNCTION; ROUTINE] || is_runtime s.
Definition is_integer_function (s : Symbol) : bool := is_one_of s [FUNCTION; RUNTIME_FUNCTION].
Definition is_float_function (s : Symbol) : bool :=
  is_one_of s [FLOAT_FUNCTION; RUNTIME_FLOAT_FUNCTION; RUNTIME_FLOAT_ROUTINE].
Definition get_function_type (s : Symbol) : FunctionType :=
  if is_float_function s then FLOAT else STANDARD.
Definition is_variable (s : Symbol) : bool :=
  is_one_of s [LOCAL_VAR; STATIC_VAR; GLOBAL_VAR; PARAMETER].
Definition is_runtime_function (s : Symbol) : bool :=
  is_one_of s [RUNTIME_FUNCTION; RUNTIME_FLOAT_FUNCTION].
Definition is_runtime_routine (s : Symbol) : bool :=
  is_one_of s [RUNTIME_ROUTINE; RUNTIME_FLOAT_ROUTINE].

Definition set_type (t : VarType) (s : Symbol) : Symbol :=
  mkSymbol (symbol_name s) (kind s) t (scope_level s) (location s) (size s) (has_size s)
    (symbol_parameters s).
Definition set_location (l : SymbolLocation) (s : Symbol) : Symbol :=
  mkSymbol (symbol_name s) (kind s) (type s) (scope_level s) l (size s) (has_size s)
    (symbol_parameters s).

(** ** The scope stack *)

Abbreviation scope := (gmap string Symbol).

(** The scopes from the global one inwards. *)
Record SymbolTable : Type := mkSymbolTable {
  scope_stack : list scope;
  current_scope_level : nat;
  current_function : string;
  function_parameters : gmap string (list string)
}.

Definition SymbolTable_new : SymbolTable := mkSymbolTable [∅] 0 "" ∅.

Definition set_scopes (l : list scope) (level : nat) (t : SymbolTable) : SymbolTable :=
  mkSymbolTable l level (current_function t) (function_parameters t).

Definition enterScope (t : SymbolTable) : SymbolTable :=
  set_scopes (scope_stack t ++ [∅]) (S (current_scope_level t)) t.

(** The global scope is not left. *)
Definition exitScope (t : SymbolTable) : SymbolTable :=
  match current_scope_level t with
  | O => t
  | S level => set_scopes (removelast (scope_stack t)) level t
  end.

(** [scope_stack_[level]]; the invariant below makes it always defined. *)
Definition scope_at (t : SymbolTable) (level : nat) : scope :=
  default ∅ (scope_stack t !! level).

Definition addSymbol (symbol : Symbol) (t : SymbolTable) : SymbolTable * bool :=
  let level := current_scope_level t in
  let current := scope_at t level in
  match current !! symbol_name symbol with
  | Some _ => (t, false)
  | None =>
      (set_scopes (<[level := <[symbol_name symbol := symbol]> current]> (scope_stack t)) level t,
       true)
  end.

Definition addSymbol_new (name : string) (kind : SymbolKind) (type : VarType) (t : SymbolTable)
    : SymbolTable * bool :=
  addSymbol (Symbol_new name kind type (current_scope_level t)) t.

(** The level of the innermost scope that has the name, searching from [level] outwards. *)
Fixpoint find_level (t : SymbolTable) (name : string) (level : nat) : option nat :=
  match scope_at t level !! name with
  | Some _ => Some level
  | None => match level with O => None | S level => find_level t name level end
  end.

Definition lookup (name : string) (t : SymbolTable) : option Symbol :=
  level ← find_level t name (current_scope_level t); scope_at t level !! name.

Definition lookupInCurrentScope (name : string) (t : SymbolTable) : option Symbol :=
  scope_at t (current_scope_level t) !! name.

(** The four setters: nothing happens when the name is not found. *)
Definition update_symbol (name : string) (f : Symbol -> Symbol) (t : SymbolTable) : SymbolTable :=
  match find_level t name (current_scope_level t) with
  | None => t
  | Some level =>
      set_scopes (<[level := alter f name (scope_at t level)]> (scope_stack t))
        (current_scope_level t) t
  end.

Definition setSymbolType (name : string) (type : VarType) := update_symbol name (set_type type).
Definition setSymbolStackLocation (name : string) (offset : Z) :=
  update_symbol name (set_location (STACK offset)).
Definition setSymbolDataLocation (name : string) (offset : Z) :=
  update_symbol name (set_location (DATA offset)).
Definition setSymbolAbsoluteValue (name : string) (value : Z) :=
  update_symbol name (set_location (ABSOLUTE value)).

Definition addParameter (function_name param_name : string) (type : VarType) (t : SymbolTable)
    : SymbolTable :=
  let ps := default [] (function_parameters t !! function_name) ++ [param_name] in
  let t := mkSymbolTable (scope_stack t) (current_scope_level t) (current_function t)
             (<[function_name := ps]> (function_parameters t)) in
  (addSymbol (Symbol_new param_name PARAMETER type (current_scope_level t)) t).1.

Definition getFunctionParameters (function_name : string) (t : SymbolTable) : list string :=
  default [] (function_parameters t !! function_name).

Definition setCurrentFunction (function_name : string) (t : SymbolTable) : SymbolTable :=
  mkSymbolTable (scope_stack t) (current_scope_level t) function_name (function_parameters t).

(** The order within a scope is that of a hash table: here, of the finite map. *)
Definition symbols_of (s : scope) : list Symbol := (map_to_list s).*2.
Definition getAllSymbols (t : SymbolTable) : list Symbol := concat (List.map symbols_of (scope_stack t)).
Definition getSymbolsInScope (t : SymbolTable) (level : nat) : list Symbol :=
  match scope_stack t !! level with Some s => symbols_of s | None => [] end.
Definition getGlobalSymbols (t : SymbolTable) : list Symbol := getSymbolsInScope t 0.
Definition getLocalSymbols (t : SymbolTable) : list Symbol :=
  concat (List.map (fun level => symbols_of (scope_at t level)) (seq 1 (current_scope_level t))).

(** ** Invariant *)

Definition table_inv (t : SymbolTable) : Prop :=
  length (scope_stack t) = S (current_scope_level t).

Inductive table_op : Type :=
  | Enter | Exit
  | AddSymbol (s : Symbol)
  | AddParameter (f p : string) (ty : VarType)
  | SetType (n : string) (ty : VarType)
  | SetLocation (n : string) (l : SymbolLocation)
  | SetCurrentFunction (f : string).

Definition table_step (t : SymbolTable) (op : table_op) : SymbolTable :=
  match op with
  | Enter => enterScope t
  | Exit => exitScope t
  | AddSymbol s => (addSymbol s t).1
  | AddParameter f p ty => addParameter f p ty t
  | SetType n ty => setSymbolType n ty t
  | SetLocation n l => update_symbol n (set_location l) t
  | SetCurrentFunction f => setCurrentFunction f t
  end.

Lemma addSymbol_inv s t : table_inv t -> table_inv (addSymbol s t).1.
Proof.
  unfold addSymbol, table_inv. intros H. case_match; [done|]. cbn. by rewrite length_insert.
Qed.

Lemma update_symbol_inv n f t : table_inv t -> table_inv (update_symbol n f t).
Proof.
  unfold update_symbol, table_inv. intros H. case_match; [|done]. cbn. by rewrite length_insert.
Qed.

Lemma table_step_inv t op : table_inv t -> table_inv (table_step t op).
Proof.
  intros H. destruct op; cbn [table_step]; try by apply addSymbol_inv.
  - unfold table_inv. cbn. rewrite length_app, H. cbn. lia.
  - unfold exitScope, table_inv in *. destruct (current_scope_level t) as [|k] eqn:E; [by rewrite E|].
    cbn. rewrite removelast_firstn_len, length_firstn. lia.
  - by apply update_symbol_inv.
  - by apply update_symbol_inv.
  - exact H.
Qed.

Definition build_table (ops : list table_op) : SymbolTable := foldl table_step SymbolTable_new ops.

Lemma build_table_inv ops : table_inv (build_table ops).
Proof.
  unfold build_table. assert (H : table_inv SymbolTable_new) by done. revert H.
  generalize SymbolTable_new. induction ops as [|op ops IH]; intros t H; [done|].
  cbn. by apply IH, table_step_inv.
Qed.

(** ** Lookup *)

Lemma scope_at_insert t level s k l :
  level < length (scope_stack t) ->
  scope_at (set_scopes (<[level := s]> (scope_stack t)) l t) k
  = if decide (k = level) then s else scope_at t k.
Proof.
  intros H. unfold scope_at. cbn. case_decide as E.
  - subst. rewrite list_lookup_insert_eq by lia. done.
  - by rewrite list_lookup_insert_ne by congruence.
Qed.

Lemma find_level_Some t n k level :
  find_level t n k = Some level ->
  level <= k /\ is_Some (scope_at t level !! n)
  /\ forall j, level < j <= k -> scope_at t j !! n = None.
Proof.
  revert level. induction k as [|k IH]; intros level E; cbn in E.
  - destruct (scope_at t 0 !! n) eqn:Hn; [|discriminate]. injection E as <-.
    split; [done|]. split; [by rewrite Hn | lia].
  - destruct (scope_at t (S k) !! n) eqn:Hn.
    + injection E as <-. split; [done|]. split; [by rewrite Hn | lia].
    + destruct (IH level E) as (Hle & Hs & Hj). split; [lia|]. split; [done|].
      intros j Hjk. destruct (decide (j = S k)) as [->|]; [done | apply Hj; lia].
Qed.

Lemma find_level_None t n k : find_level t n k = None -> forall j, j <= k -> scope_at t j !! n = None.
Proof.
  induction k as [|k IH]; cbn; intros E j Hj.
  - destruct (scope_at t 0 !! n) eqn:Hn; [discriminate|]. by replace j with 0%nat by lia.
  - destruct (scope_at t (S k) !! n) eqn:Hn; [discriminate|].
    destruct (decide (j = S k)) as [->|]; [done | apply IH; [done | lia]].
Qed.

Lemma find_level_intro t n k level :
  level <= k -> is_Some (scope_at t level !! n) ->
  (forall j, level < j <= k -> scope_at t j !! n = None) -> find_level t n k = Some level.
Proof.
  intros Hle [s Hs] Hj. induction k as [|k IH]; cbn.
  - replace level with 0%nat in * by lia. by rewrite Hs.
  - destruct (decide (level = S k)) as [-> | Hne]; [by rewrite Hs|].
    rewrite Hj by lia. apply IH; [lia|]. intros j Hjk. apply Hj. lia.
Qed.

Lemma find_level_ext t t' n k :
  (forall j, j <= k -> is_Some (scope_at t j !! n) <-> is_Some (scope_at t' j !! n)) ->
  find_level t n k = find_level t' n k.
Proof.
  induction k as [|k IH]; cbn; intros H.
  - specialize (H 0%nat). destruct (scope_at t 0 !! n), (scope_at t' 0 !! n); try done.
    + destruct H as [H _]; [done|]. by destruct H.
    + destruct H as [_ H]; [done|]. by destruct H.
  - rewrite IH by (intros; apply H; lia). specialize (H (S k)).
    destruct (scope_at t (S k) !! n), (scope_at t' (S k) !! n); try done.
    + destruct H as [H _]; [done|]. by destruct H.
    + destruct H as [_ H]; [done|]. by destruct H.
Qed.

Lemma lookup_ext t t' n :
  current_scope_level t = current_scope_level t' ->
  (forall j, scope_at t j !! n = scope_at t' j !! n) -> lookup n t = lookup n t'.
Proof.
  intros E H. unfold lookup. rewrite <-E.
  rewrite (find_level_ext t t') by (intros; by rewrite H).
  destruct (find_level t' n (current_scope_level t)); [apply H | done].
Qed.

Lemma lookup_add t s :
  table_inv t -> scope_at t (current_scope_level t) !! symbol_name s = None ->
  let t' := (addSymbol s t).1 in
  (addSymbol s t).2 = true /\ lookup (symbol_name s) t' = Some s
  /\ forall n, n <> symbol_name s -> lookup n t' = lookup n t.
Proof.
  intros Hi Hn. unfold addSymbol. rewrite Hn. cbn [fst snd]. unfold table_inv in Hi.
  assert (Hat : forall j n, scope_at (set_scopes
      (<[current_scope_level t := <[symbol_name s := s]> (scope_at t (current_scope_level t))]> (scope_stack t))
      (current_scope_level t) t) j !! n
    = if decide (j = current_scope_level t /\ n = symbol_name s) then Some s else scope_at t j !! n).
  { intros j n. rewrite scope_at_insert by lia. destruct (decide (j = current_scope_level t)) as [->|].
    - destruct (decide (n = symbol_name s)) as [->|].
      + rewrite lookup_insert_eq, decide_True by done. done.
      + rewrite lookup_insert_ne, decide_False by (congruence || (intros []; congruence)). done.
    - rewrite decide_False by (congruence || (intros []; congruence)). done. }
  split; [done|]. split.
  - unfold lookup. cbn [current_scope_level set_scopes].
    rewrite (find_level_intro _ _ _ (current_scope_level t)); [|done| |lia].
    + cbn. rewrite Hat, decide_True by done. done.
    + rewrite Hat, decide_True by done. done.
  - intros n Hne. apply lookup_ext; [done|]. intros j. rewrite Hat, decide_False by (congruence || (intros []; congruence)). done.
Qed.

Lemma lookup_update t n f :
  table_inv t ->
  lookup n (update_symbol n f t) = f <$> lookup n t
  /\ forall n', n' <> n -> lookup n' (update_symbol n f t) = lookup n' t.
Proof.
  intros Hi. unfold update_symbol. destruct (find_level t n (current_scope_level t)) as [level|] eqn:E.
  2: { split; [|done]. unfold lookup. by rewrite E. }
  apply find_level_Some in E as Hlev. destruct Hlev as (Hle & Hs & _). unfold table_inv in Hi.
  assert (Hat : forall j n', scope_at (set_scopes
      (<[level := alter f n (scope_at t level)]> (scope_stack t)) (current_scope_level t) t) j !! n'
    = if decide (j = level /\ n' = n) then f <$> (scope_at t j !! n') else scope_at t j !! n').
  { intros j n'. rewrite scope_at_insert by lia. destruct (decide (j = level)) as [->|].
    - destruct (decide (n' = n)) as [->|].
      + rewrite lookup_alter_eq, decide_True by done. done.
      + rewrite lookup_alter_ne, decide_False by (congruence || (intros []; congruence)). done.
    - rewrite decide_False by (congruence || (intros []; congruence)). done. }
  split.
  - unfold lookup. cbn [current_scope_level set_scopes].
    rewrite (find_level_ext _ t), E.
    + cbn. rewrite Hat, decide_True by done. done.
    + intros j _. rewrite Hat. case_decide; [by rewrite fmap_is_Some | done].
  - intros n' Hne. apply lookup_ext; [done|]. intros j. rewrite Hat, decide_False by (congruence || (intros []; congruence)). done.
Qed.

(** ** What a setter changes *)

(** The scope in which the name is found. *)
Definition innermost (n : string) (level : nat) (t : SymbolTable) : Prop :=
  level <= current_scope_level t /\ is_Some (scope_at t level !! n)
  /\ forall j, level < j <= current_scope_level t -> scope_at t j !! n = None.

Definition with_scopes (l : list scope) (t : SymbolTable) : SymbolTable :=
  set_scopes l (current_scope_level t) t.

Lemma insert_alter (l : list scope) level (f : scope -> scope) t : l = scope_stack t -> level < length l ->
  <[level := f (scope_at t level)]> l = alter f level l.
Proof.
  intros -> H. destruct (lookup_lt_is_Some_2 _ _ H) as [x Hx]. unfold scope_at. rewrite Hx. cbn.
  apply list_eq. intros i. destruct (decide (i = level)) as [->|].
  - by rewrite list_lookup_insert_eq, list_lookup_alter_eq, Hx.
  - by rewrite list_lookup_insert_ne, list_lookup_alter_ne.
Qed.

Lemma update_innermost n f level t : table_inv t -> innermost n level t ->
  update_symbol n f t = with_scopes (alter (alter f n) level (scope_stack t)) t.
Proof.
  intros Hi (Hle & Hs & Hj). unfold update_symbol, table_inv in *.
  rewrite (find_level_intro _ _ _ level Hle Hs Hj). unfold with_scopes. f_equal.
  apply insert_alter; [done | lia].
Qed.

Lemma update_missing n f t : (forall level, ~ innermost n level t) -> update_symbol n f t = t.
Proof.
  intros H. unfold update_symbol. destruct (find_level t n (current_scope_level t)) as [level|] eqn:E; [|done].
  by destruct (H level), (find_level_Some _ _ _ _ E).
Qed.

Lemma missing_or_innermost n t : (forall level, ~ innermost n level t) \/ exists level, innermost n level t.
Proof.
  destruct (find_level t n (current_scope_level t)) as [level|] eqn:E.
  - right. exists level. by apply find_level_Some.
  - left. intros level (Hle & [x Hx] & _). rewrite (find_level_None _ _ _ E level Hle) in Hx. discriminate.
Qed.

(** ** Scopes *)

(** Operations in scopes nested [depth] deep, which they do not leave; the depth they end
    at. *)
Fixpoint nested (depth : nat) (ops : list table_op) : option nat :=
  match ops with
  | [] => Some depth
  | Enter :: ops => nested (S depth) ops
  | Exit :: ops => match depth with O => None | S depth => nested depth ops end
  | _ :: ops => nested depth ops
  end.

Definition declare (n : string) (inner : list (gset string)) : list (gset string) :=
  match inner with top :: rest => ({[n]} ∪ top) :: rest | [] => [] end.

(** The setters that do not find their name in the scopes inside, whose names are [inner]. *)
Fixpoint escaping (inner : list (gset string)) (ops : list table_op) : list table_op :=
  match ops with
  | [] => []
  | Enter :: ops => escaping (∅ :: inner) ops
  | Exit :: ops => escaping (tail inner) ops
  | AddSymbol s :: ops => escaping (declare (symbol_name s) inner) ops
  | AddParameter _ p _ :: ops => escaping (declare p inner) ops
  | ((SetType n _ | SetLocation n _) as op) :: ops =>
      (if existsb (fun s => bool_decide (n ∈ s)) inner then [] else [op]) ++ escaping inner ops
  | SetCurrentFunction _ :: ops => escaping inner ops
  end.

(** The table [t] is [u] and the scopes [stack] inside. *)
Record inside (u : SymbolTable) (stack : list scope) (t : SymbolTable) : Prop := {
  inside_outer : table_inv u;
  inside_some : stack <> [];
  inside_level : current_scope_level t = current_scope_level u + length stack;
  inside_scopes : scope_stack t = scope_stack u ++ stack
}.

(** The names of the scopes, the innermost first. *)
Definition names_of (stack : list scope) : list (gset string) := rev (List.map dom stack).

Section inside.
Context (u t : SymbolTable) (stack : list scope) (I : inside u stack t).

Lemma inside_inv : table_inv t.
Proof.
  destruct I as [Hu _ Hl Hs]. unfold table_inv in *. rewrite Hs, Hl, length_app. lia.
Qed.

Lemma scope_at_outer j : j <= current_scope_level u -> scope_at t j = scope_at u j.
Proof.
  destruct I as [Hu _ _ Hs]. unfold table_inv, scope_at in *. intros H. rewrite Hs, lookup_app_l by lia. done.
Qed.

Lemma scope_at_inner i : scope_at t (S (current_scope_level u) + i) = default ∅ (stack !! i).
Proof.
  destruct I as [Hu _ _ Hs]. unfold table_inv, scope_at in *. rewrite Hs, lookup_app_r by lia.
  rewrite Hu. by replace (S (current_scope_level u) + i - S (current_scope_level u)) with i by lia.
Qed.

(** A name of a scope inside is found there; another is found where [u] finds it. *)
Lemma found_inside n : existsb (fun s => bool_decide (n ∈ s)) (names_of stack) = true ->
  exists i, innermost n (S (current_scope_level u) + i) t.
Proof.
  intros (x & Hx & Hn)%existsb_exists. apply bool_decide_eq_true_1 in Hn.
  unfold names_of in Hx. rewrite <-in_rev in Hx. apply in_map_iff in Hx as (sc & <- & Hx).
  apply list_elem_of_In, list_elem_of_lookup in Hx as [i Hi]. apply elem_of_dom in Hn.
  destruct (missing_or_innermost n t) as [Hno|[level Hl]].
  - exfalso. destruct (find_level t n (current_scope_level t)) as [level|] eqn:E.
    + by apply (Hno level), find_level_Some.
    + pose proof (lookup_lt_Some _ _ _ Hi) as Hlt. pose proof (inside_level _ _ _ I) as Hlev.
      pose proof (find_level_None _ _ _ E (S (current_scope_level u) + i) ltac:(lia)) as H.
      rewrite scope_at_inner, Hi in H. cbn in H. rewrite H in Hn. by destruct Hn.
  - destruct (decide (S (current_scope_level u) + i <= level)) as [Hle|Hgt].
    + exists (level - S (current_scope_level u)).
      by replace (S (current_scope_level u) + (level - S (current_scope_level u))) with level by lia.
    + exfalso. pose proof (lookup_lt_Some _ _ _ Hi) as Hlt. pose proof (inside_level _ _ _ I) as Hlev.
      destruct Hl as (_ & _ & Hj). specialize (Hj (S (current_scope_level u) + i) ltac:(lia)).
      rewrite scope_at_inner, Hi in Hj. cbn in Hj. rewrite Hj in Hn. by destruct Hn.
Qed.

Lemma not_inside n i : existsb (fun s => bool_decide (n ∈ s)) (names_of stack) = false ->
  scope_at t (S (current_scope_level u) + i) !! n = None.
Proof.
  intros H. rewrite scope_at_inner. destruct (stack !! i) as [sc|] eqn:Hi; [|done]. cbn.
  destruct (sc !! n) eqn:Hn; [|done]. rewrite <-not_true_iff_false in H. destruct H. apply existsb_exists.
  exists (dom sc). split; [|apply bool_decide_eq_true_2, elem_of_dom; by rewrite Hn].
  unfold names_of. rewrite <-in_rev. apply in_map_iff. exists sc. split; [done|].
  by apply list_elem_of_In, (list_elem_of_lookup_2 _ i).
Qed.

Lemma innermost_outer n level : existsb (fun s => bool_decide (n ∈ s)) (names_of stack) = false ->
  (innermost n level t <-> innermost n level u).
Proof.
  intros Hno. pose proof (inside_level _ _ _ I) as Hl. unfold innermost. split.
  - intros (Hle & Hs & Hj). destruct (decide (level <= current_scope_level u)) as [Ho|Hi].
    + rewrite scope_at_outer in Hs by done. split_and!; [done..|]. intros j Hjl.
      rewrite <-scope_at_outer by lia. apply Hj. lia.
    + exfalso. pose proof (not_inside n (level - S (current_scope_level u)) Hno) as H.
      replace (S (current_scope_level u) + (level - S (current_scope_level u))) with level in H by lia.
      rewrite H in Hs. by destruct Hs.
  - intros (Hle & Hs & Hj). split; [lia|]. split; [by rewrite scope_at_outer|]. intros j Hjl.
    destruct (decide (j <= current_scope_level u)) as [Ho|Hi].
    + rewrite scope_at_outer by done. apply Hj. lia.
    + replace j with (S (current_scope_level u) + (j - S (current_scope_level u))) by lia. by apply not_inside.
Qed.
End inside.

Lemma names_of_snoc stack top : names_of (stack ++ [top]) = dom top :: names_of stack.
Proof. unfold names_of. by rewrite List.map_app, rev_app_distr. Qed.

Lemma names_of_alter n f i stack : names_of (alter (alter f n) i stack) = names_of stack.
Proof.
  unfold names_of. f_equal. apply list_eq. intros j. rewrite !list_lookup_fmap.
  destruct (decide (j = i)) as [->|]; [|by rewrite list_lookup_alter_ne].
  rewrite list_lookup_alter_eq. destruct (stack !! i); cbn; [|done]. by rewrite dom_alter_L.
Qed.

Lemma inside_enter u stack t : inside u stack t -> inside u (stack ++ [∅]) (enterScope t).
Proof.
  intros [Hu Hn Hl Hs]. split; [done | by destruct stack | |]; cbn.
  - rewrite length_app. cbn. lia.
  - by rewrite Hs, app_assoc.
Qed.

Lemma inside_exit u stack top t : inside u (stack ++ [top]) t -> stack <> [] -> inside u stack (exitScope t).
Proof.
  intros [Hu _ Hl Hs] Hn. rewrite length_app in Hl. cbn in Hl. unfold exitScope. rewrite Hl.
  replace (current_scope_level u + (length stack + 1)) with (S (current_scope_level u + length stack)) by lia.
  split; [done | done | done |]. cbn. by rewrite Hs, app_assoc, removelast_last.
Qed.

Lemma inside_add u stack s t : inside u stack t -> exists stack', length stack' = length stack
  /\ inside u stack' (addSymbol s t).1 /\ names_of stack' = declare (symbol_name s) (names_of stack).
Proof.
  intros I. destruct stack as [|top pre _] using rev_ind; [by destruct (inside_some _ _ _ I)|].
  pose proof (inside_level _ _ _ I) as Hl. rewrite length_app in Hl. cbn in Hl.
  assert (Hat : scope_at t (current_scope_level t) = top).
  { replace (current_scope_level t) with (S (current_scope_level u) + length pre) by lia.
    by rewrite (scope_at_inner u t _ I), list_lookup_middle. }
  unfold addSymbol. rewrite Hat. destruct (top !! symbol_name s) eqn:E; cbn [fst].
  - exists (pre ++ [top]). split_and!; [done | done|]. rewrite names_of_snoc. cbn. f_equal.
    assert (symbol_name s ∈ dom top) by (apply elem_of_dom; by rewrite E). set_solver.
  - exists (pre ++ [<[symbol_name s := s]> top]). rewrite !names_of_snoc, !length_app.
    split_and!; [done | | cbn; by rewrite dom_insert_L]. destruct I as [Hu _ _ Hs].
    split; [done | by destruct pre | cbn; rewrite length_app; cbn; lia|]. cbn. rewrite Hs.
    unfold table_inv in Hu. rewrite Hl, (insert_app_r_alt (scope_stack u)) by lia.
    replace (current_scope_level u + (length pre + 1) - length (scope_stack u)) with (length pre + 0) by lia.
    by rewrite insert_app_r.
Qed.

Lemma inside_update_outer u stack n f t : inside u stack t ->
  existsb (fun s => bool_decide (n ∈ s)) (names_of stack) = false ->
  inside (update_symbol n f u) stack (update_symbol n f t).
Proof.
  intros I Hno. pose proof (inside_inv _ _ _ I) as Ht. destruct (missing_or_innermost n t) as [Hm|[level Hl]].
  - rewrite (update_missing n f t Hm), update_missing; [done|]. intros level Hl. apply (Hm level).
    by apply (innermost_outer u t stack I n level Hno).
  - pose proof Hl as Hl'. apply (innermost_outer u t stack I n level Hno) in Hl'. destruct I as [Hu Hn Hc Hs].
    rewrite (update_innermost n f level t Ht Hl), (update_innermost n f level u Hu Hl').
    split; cbn; [unfold table_inv in *; cbn; by rewrite length_alter | done | done |].
    unfold table_inv in Hu. destruct Hl' as [Hle _]. by rewrite Hs, alter_app_l by lia.
Qed.

Lemma inside_update_inner u stack n f t : inside u stack t ->
  existsb (fun s => bool_decide (n ∈ s)) (names_of stack) = true -> exists stack', length stack' = length stack
  /\ inside u stack' (update_symbol n f t) /\ names_of stack' = names_of stack.
Proof.
  intros I Hin. destruct (found_inside u t stack I n Hin) as [i Hi].
  exists (alter (alter f n) i stack). split_and!; [by rewrite length_alter | | apply names_of_alter].
  rewrite (update_innermost n f _ t (inside_inv _ _ _ I) Hi). destruct I as [Hu Hn Hc Hs].
  split; cbn; [done | | by rewrite length_alter|].
  - intros E. apply Hn, length_zero_iff_nil. by rewrite <-(length_alter (alter f n) stack i), E.
  - unfold table_inv in Hu. rewrite Hs, alter_app_r_alt by lia. do 2 f_equal. lia.
Qed.

Lemma inside_setter u stack n f t : inside u stack t -> exists stack', length stack' = length stack
  /\ inside (if existsb (fun s => bool_decide (n ∈ s)) (names_of stack) then u else update_symbol n f u)
       stack' (update_symbol n f t) /\ names_of stack' = names_of stack.
Proof.
  intros I. destruct (existsb _ _) eqn:E; [by apply inside_update_inner|].
  exists stack. split_and!; [done | by apply inside_update_outer | done].
Qed.

Lemma inside_run ops : forall u stack t d', inside u stack t -> nested (pred (length stack)) ops = Some d' ->
  exists stack', length stack' = S d'
    /\ inside (foldl table_step u (escaping (names_of stack) ops)) stack' (foldl table_step t ops).
Proof.
  induction ops as [|op ops IH]; intros u stack t d' I E.
  { injection E as <-. exists stack. split; [|done]. destruct stack; [by destruct (inside_some _ _ _ I) | done]. }
  destruct op; cbn [nested escaping foldl table_step] in *.
  - change (∅ :: names_of stack) with (dom (∅ : scope) :: names_of stack). rewrite <-names_of_snoc. apply IH; [by apply inside_enter|]. rewrite length_app. cbn.
    destruct stack; [by destruct (inside_some _ _ _ I)|]. cbn in *. by rewrite Nat.add_1_r.
  - destruct stack as [|top pre _] using rev_ind; [by destruct (inside_some _ _ _ I)|].
    rewrite length_app in E. cbn in E. rewrite Nat.add_1_r in E. cbn in E.
    destruct (length pre) as [|d] eqn:Hp; [discriminate|]. rewrite names_of_snoc. cbn [tail].
    apply IH; [|by rewrite Hp]. apply (inside_exit _ _ top); [done|]. by destruct pre.
  - destruct (inside_add u stack s t I) as (stack' & Hl & I' & <-). apply IH; [done | by rewrite Hl].
  - destruct (inside_add u stack (Symbol_new p PARAMETER ty (current_scope_level t))
      (mkSymbolTable (scope_stack t) (current_scope_level t) (current_function t)
         (<[f := default [] (function_parameters t !! f) ++ [p]]> (function_parameters t))))
      as (stack' & Hl & I' & Hn); [by destruct I|]. cbn in Hn. rewrite <-Hn. apply IH; [done | by rewrite Hl].
  - destruct (inside_setter u stack n (set_type ty) t I) as (stack' & Hl & I' & Hn). rewrite foldl_app, <-Hn.
    rewrite <-Hn in I'. destruct (existsb _ _); (apply IH; [exact I' | by rewrite Hl]).
  - destruct (inside_setter u stack n (set_location l) t I) as (stack' & Hl & I' & Hn). rewrite foldl_app, <-Hn.
    rewrite <-Hn in I'. destruct (existsb _ _); (apply IH; [exact I' | by rewrite Hl]).
  - apply IH; [by destruct I | done].
Qed.

(** What survives a scope besides the scopes outside it. *)
Definition added_parameters (f : string) (ops : list table_op) : list string :=
  omap (fun op => match op with AddParameter g p _ => if String.eqb g f then Some p else None | _ => None end) ops.
Definition last_function (name : string) (ops : list table_op) : string :=
  foldl (fun name op => match op with SetCurrentFunction f => f | _ => name end) name ops.
Definition sets_name (n : string) (op : table_op) : bool :=
  match op with SetType m _ | SetLocation m _ => String.eqb m n | _ => false end.

Lemma addSymbol_frame s t : current_function (addSymbol s t).1 = current_function t
  /\ function_parameters (addSymbol s t).1 = function_parameters t.
Proof. unfold addSymbol. by case_match. Qed.

Lemma update_symbol_frame n f t : current_function (update_symbol n f t) = current_function t
  /\ function_parameters (update_symbol n f t) = function_parameters t.
Proof. unfold update_symbol. by case_match. Qed.

Lemma exitScope_frame t : current_function (exitScope t) = current_function t
  /\ function_parameters (exitScope t) = function_parameters t.
Proof. unfold exitScope. by case_match. Qed.

Lemma parameters_run ops f t :
  getFunctionParameters f (foldl table_step t ops) = getFunctionParameters f t ++ added_parameters f ops.
Proof.
  unfold getFunctionParameters. revert t. induction ops as [|op ops IH]; intros t; [by rewrite app_nil_r|].
  cbn [foldl]. rewrite IH. destruct op; cbn [table_step added_parameters omap list_omap]; try done.
  - by rewrite (proj2 (exitScope_frame t)).
  - by rewrite (proj2 (addSymbol_frame s t)).
  - unfold addParameter. rewrite (proj2 (addSymbol_frame _ _)). cbn.
    destruct (String.eqb_spec f0 f) as [->|Hne].
    + rewrite lookup_insert_eq. cbn. by rewrite <-app_assoc.
    + by rewrite lookup_insert_ne.
  - unfold setSymbolType. by rewrite (proj2 (update_symbol_frame _ _ t)).
  - by rewrite (proj2 (update_symbol_frame _ _ t)).
Qed.

Lemma function_run ops t :
  current_function (foldl table_step t ops) = last_function (current_function t) ops.
Proof.
  revert t. induction ops as [|op ops IH]; intros t; [done|]. cbn [foldl last_function]. rewrite IH.
  unfold last_function. cbn [foldl]. f_equal. destruct op; cbn [table_step]; try done.
  - by rewrite (proj1 (exitScope_frame t)).
  - by rewrite (proj1 (addSymbol_frame s t)).
  - unfold addParameter. by rewrite (proj1 (addSymbol_frame _ _)).
  - unfold setSymbolType. by rewrite (proj1 (update_symbol_frame _ _ t)).
  - by rewrite (proj1 (update_symbol_frame _ _ t)).
Qed.

Lemma lookup_unset n inner ops t : table_inv t -> Forall (fun op => sets_name n op = false) ops ->
  lookup n (foldl table_step t (escaping inner ops)) = lookup n t.
Proof.
  intros Hi H. revert inner t Hi. induction H as [|op ops Hop _ IH]; intros inner t Hi; [done|].
  destruct op; cbn [escaping]; try by apply IH.
  all: rewrite foldl_app; destruct (existsb _ inner); cbn [foldl table_step]; [by apply IH|].
  all: rewrite IH by (by apply update_symbol_inv); apply (proj2 (lookup_update t _ _ Hi)).
  all: intros ->; cbn in Hop; by rewrite String.eqb_refl in Hop.
Qed.

(** C32: leaving a scope, after whatever was done in it and in the scopes inside it.  The
    scopes outside are what they would be had nothing happened but the setters of symbols
    that are not declared inside ([escaping]); so every name is found as before unless a
    setter was called for it, and the level is that of before.  The lists of parameters keep
    what was added and the current function stays the last that was set: leaving a scope
    undoes neither. *)
Theorem scopes_restored before ops :
  let t := build_table before in
  nested 0 ops = Some 0 ->
  let t' := exitScope (foldl table_step (enterScope t) ops) in
  let u := foldl table_step t (escaping [∅] ops) in
  scope_stack t' = scope_stack u /\ current_scope_level t' = current_scope_level t
  /\ (forall n, lookup n t' = lookup n u)
  /\ (forall n, Forall (fun op => sets_name n op = false) ops -> lookup n t' = lookup n t)
  /\ (forall f, getFunctionParameters f t' = getFunctionParameters f t ++ added_parameters f ops)
  /\ current_function t' = last_function (current_function t) ops.
Proof.
  intros t Hn t' u. pose proof (build_table_inv before : table_inv t) as Hi.
  assert (I0 : inside t [∅] (enterScope t)) by (split; cbn; [done | done | lia | done]).
  destruct (inside_run ops t [∅] _ 0 I0 Hn) as (stack & Hl & I).
  change (names_of [∅]) with [∅ : gset string] in I. fold u in I.
  destruct stack as [|top [|]]; try discriminate Hl. destruct I as [Hu _ Hc Hs].
  assert (Hs' : scope_stack t' = scope_stack u /\ current_scope_level t' = current_scope_level u).
  { unfold t', exitScope. rewrite Hc. cbn [length]. rewrite Nat.add_1_r. cbn. by rewrite Hs, removelast_last. }
  destruct Hs' as [Hs' Hc'].
  assert (Hlu : forall n, lookup n t' = lookup n u).
  { intros n. apply lookup_ext; [done|]. intros j. unfold scope_at. by rewrite Hs'. }
  assert (Hlev : forall inner ops v, table_inv v -> current_scope_level (foldl table_step v (escaping inner ops)) = current_scope_level v).
  { clear. intros inner ops. revert inner. induction ops as [|op ops IH]; intros inner v Hv; [done|].
    destruct op; cbn [escaping]; try by apply IH.
    all: rewrite foldl_app; destruct (existsb _ inner); cbn [foldl table_step]; [by apply IH|].
    all: rewrite IH by (by apply update_symbol_inv); unfold setSymbolType, update_symbol; by case_match. }
  split_and!; [done | rewrite Hc'; by apply Hlev | done | | |].
  - intros n Hf. rewrite Hlu. by apply lookup_unset.
  - intros f. unfold t', getFunctionParameters. rewrite (proj2 (exitScope_frame _)). apply (parameters_run ops f (enterScope t)).
  - unfold t'. rewrite (proj1 (exitScope_frame _)). apply (function_run ops (enterScope t)).
Qed.

(** C33: a new name of the current scope is added to that scope and found, hiding an outer
    symbol of that name and no other; a name the scope has already is refused and nothing
    changes.  The setters change one entry of the table: that of their name in the innermost
    scope that has it, and nothing when none has it. *)
Theorem symbol_found ops s n f :
  let t := build_table ops in
  (lookupInCurrentScope (symbol_name s) t = None ->
     addSymbol s t = (with_scopes (alter (insert (symbol_name s) s) (current_scope_level t) (scope_stack t)) t, true)
     /\ lookup (symbol_name s) (addSymbol s t).1 = Some s
     /\ forall n, n <> symbol_name s -> lookup n (addSymbol s t).1 = lookup n t)
  /\ (lookupInCurrentScope (symbol_name s) t <> None -> addSymbol s t = (t, false))
  /\ (forall level, innermost n level t ->
       update_symbol n f t = with_scopes (alter (alter f n) level (scope_stack t)) t)
  /\ ((forall level, ~ innermost n level t) -> update_symbol n f t = t)
  /\ lookup n (update_symbol n f t) = f <$> lookup n t
  /\ (forall n', n' <> n -> lookup n' (update_symbol n f t) = lookup n' t).
Proof.
  intros t. pose proof (build_table_inv ops : table_inv t) as Hi. split_and!.
  - intros Hn. destruct (lookup_add t s Hi Hn) as (_ & Hl & Ho). split; [|done].
    unfold addSymbol. unfold lookupInCurrentScope in Hn. rewrite Hn. unfold with_scopes. do 2 f_equal.
    apply (insert_alter _ _ (insert (symbol_name s) s)); [done|]. unfold table_inv in Hi. lia.
  - unfold lookupInCurrentScope, addSymbol. intros Hn. by case_match.
  - intros level. by apply update_innermost.
  - apply update_missing.
  - by apply lookup_update.
  - intros n' Hne. by apply (proj2 (lookup_update t n f Hi)).
Qed.

Definition sample_symbol (name : string) : Symbol := Symbol_new name LOCAL_VAR VT_INTEGER 0.

(** Inside, [y] is declared and set, and the type of the outer [x] is changed before an inner
    [x] hides it. *)
Lemma scopes_restored_witness :
  let before := [AddSymbol (sample_symbol "x"); AddSymbol (sample_symbol "z")] in
  let ops := [SetType "x" VT_FLOAT; AddSymbol (sample_symbol "x"); SetLocation "x" (STACK 8); Enter;
              AddSymbol (sample_symbol "y"); SetType "y" VT_FLOAT; Exit; AddParameter "f" "p" VT_INTEGER] in
  let t' := exitScope (foldl table_step (enterScope (build_table before)) ops) in
  lookup "x" t' = Some (set_type VT_FLOAT (sample_symbol "x")) /\ lookup "z" t' = Some (sample_symbol "z")
  /\ lookup "y" t' = None /\ getFunctionParameters "f" t' = ["p"].
Proof.
  intros before ops t'.
  destruct (scopes_restored before ops eq_refl) as (_ & _ & Hu & Hn & Hp & _).
  split_and!.
  - unfold t'. rewrite Hu. by vm_compute.
  - unfold t'. rewrite Hn by (repeat constructor). by vm_compute.
  - unfold t'. rewrite Hu. by vm_compute.
  - unfold t'. rewrite Hp. by vm_compute.
Defined.

(** The type of the inner [x] is changed, the outer one keeps its own. *)
Lemma symbol_found_witness :
  lookup "x" (addSymbol (sample_symbol "x") (build_table [Enter])).1 = Some (sample_symbol "x")
  /\ let t := build_table [AddSymbol (sample_symbol "x"); Enter; AddSymbol (sample_symbol "x")] in
     scope_at (update_symbol "x" (set_type VT_FLOAT) t) 0 !! "x" = Some (sample_symbol "x").
Proof.
  split.
  - destruct (symbol_found [Enter] (sample_symbol "x") "x" id) as (H & _).
    destruct (H eq_refl) as (_ & Hl & _). exact Hl.
  - intros t. destruct (symbol_found [AddSymbol (sample_symbol "x"); Enter; AddSymbol (sample_symbol "x")]
      (sample_symbol "x") "x" (set_type VT_FLOAT)) as (_ & _ & H & _). unfold t.
    rewrite (H 1); [by vm_compute|]. split_and!; [by vm_compute | by vm_compute; eexists|].
    intros j Hj. vm_compute in Hj. lia.
Defined.
