(* ===== verification/Analysis.v ===== *)
(** * Types of expressions

    [ASTAnalyzer::infer_expression_type], [evaluate_constant_expression] and
    [get_variable_type] (src/analysis/az_impl/ASTAnalyzer.cpp).  The tables the analyzer's
    traversal fills, the types of the variables of the current function and the types
    functions return, are variables of the section. *)

From S2P Require Import Prelude Words CallFrame Ast.
Local Open Scope Z_scope.

(** ** [VarType] (src/DataTypes.h), an [int64_t] of flags *)

Definition VT_STRING : VarType := 4.
Definition VT_ANY : VarType := 8.
Definition VT_LIST : VarType := 512.
Definition VT_TABLE : VarType := 1024.
Definition VT_CONST : VarType := 8192.
Definition pointer_to (t : VarType) : VarType := Z.lor VT_POINTER_TO t.
Definition list_of (t : VarType) : VarType := pointer_to (Z.lor VT_LIST t).
Definition POINTER_TO_INT_LIST : VarType := list_of VT_INTEGER.
Definition POINTER_TO_FLOAT_LIST : VarType := list_of VT_FLOAT.
Definition POINTER_TO_STRING_LIST : VarType := list_of VT_STRING.
Definition POINTER_TO_ANY_LIST : VarType := list_of VT_ANY.
Definition CONST_POINTER_TO_INT_LIST : VarType := Z.lor VT_CONST POINTER_TO_INT_LIST.
Definition CONST_POINTER_TO_FLOAT_LIST : VarType := Z.lor VT_CONST POINTER_TO_FLOAT_LIST.
Definition CONST_POINTER_TO_STRING_LIST : VarType := Z.lor VT_CONST POINTER_TO_STRING_LIST.
Definition CONST_POINTER_TO_ANY_LIST : VarType := Z.lor VT_CONST POINTER_TO_ANY_LIST.
Definition POINTER_TO_STRING : VarType := pointer_to VT_STRING.
Definition POINTER_TO_TABLE : VarType := pointer_to VT_TABLE.
Definition POINTER_TO_FLOAT : VarType := pointer_to VT_FLOAT.
Definition POINTER_TO_INT : VarType := pointer_to VT_INTEGER.
Definition POINTER_TO_LIST_NODE : VarType := pointer_to VT_LIST.

Definition is_const_list_type (t : VarType) : bool :=
  negb (Z.land t VT_CONST =? 0) && negb (Z.land t VT_LIST =? 0).

Definition one_of (t : VarType) (l : list VarType) : bool := existsb (Z.eqb t) l.

(** [FunctionMetrics] (src/DataTypes.h), without a member nothing uses. *)
Record FunctionMetrics : Type := mkMetrics {
  metrics_variable_types : gmap string VarType;
  metrics_parameter_types : gmap string VarType;
  num_variables : Z;
  accesses_globals : bool;
  max_live_variables : Z;
  num_parameters : Z;
  num_float_variables : Z;
  num_runtime_calls : Z;
  num_local_function_calls : Z;
  num_local_routine_calls : Z;
  has_vector_allocations : bool;
  parameter_indices : gmap string Z
}.

Definition FunctionMetrics_new : FunctionMetrics := mkMetrics ∅ ∅ 0 false 0 0 0 0 0 0 false ∅.

(** A variable gets a type; there is one more variable. *)
Definition note_type (name : string) (t : VarType) (m : FunctionMetrics) : FunctionMetrics :=
  mkMetrics (<[name := t]> (metrics_variable_types m)) (metrics_parameter_types m) (num_variables m)
    (accesses_globals m) (max_live_variables m) (num_parameters m) (num_float_variables m)
    (num_runtime_calls m) (num_local_function_calls m) (num_local_routine_calls m)
    (has_vector_allocations m) (parameter_indices m).
Definition count_variable (m : FunctionMetrics) : FunctionMetrics :=
  mkMetrics (metrics_variable_types m) (metrics_parameter_types m) (num_variables m + 1)
    (accesses_globals m) (max_live_variables m) (num_parameters m) (num_float_variables m)
    (num_runtime_calls m) (num_local_function_calls m) (num_local_routine_calls m)
    (has_vector_allocations m) (parameter_indices m).
Definition set_max_live (n : Z) (m : FunctionMetrics) : FunctionMetrics :=
  mkMetrics (metrics_variable_types m) (metrics_parameter_types m) (num_variables m)
    (accesses_globals m) n (num_parameters m) (num_float_variables m)
    (num_runtime_calls m) (num_local_function_calls m) (num_local_routine_calls m)
    (has_vector_allocations m) (parameter_indices m).

Section analyzer.
Context (variable_types function_return_types : gmap string VarType).

(** [get_variable_type(current_function_scope_, name)] *)
Definition variable_type (name : string) : VarType :=
  default VT_UNKNOWN (variable_types !! name).

(** The types of the built-in functions that are known by name. *)
Definition builtin_type (name : string) : option VarType :=
  let named := String.eqb name in
  if named "REVERSE" || named "APND" || named "FILTER" then Some POINTER_TO_ANY_LIST
  else if named "LIST" || named "COPYLIST" || named "DEEPCOPYLIST" || named "FIND" then Some POINTER_TO_ANY_LIST
  else if named "SPLIT" then Some POINTER_TO_STRING_LIST
  else if named "JOIN" then Some POINTER_TO_STRING
  else if named "AS_INT" then Some VT_INTEGER
  else if named "AS_FLOAT" then Some VT_FLOAT
  else if named "AS_STRING" then Some POINTER_TO_STRING
  else if named "AS_LIST" then Some POINTER_TO_ANY_LIST
  else None.

(** The type of a list whose elements agree on the type [first], when [all_match]. *)
Definition list_type (is_manifest all_match : bool) (first : VarType) : VarType :=
  let t := if all_match && (first =? VT_FLOAT) then POINTER_TO_FLOAT_LIST
           else if all_match && (first =? VT_INTEGER) then POINTER_TO_INT_LIST
           else if all_match && (first =? POINTER_TO_STRING) then POINTER_TO_STRING_LIST
           else POINTER_TO_ANY_LIST in
  if is_manifest then Z.lor VT_CONST t else t.

Definition unary_type (op : UnaryOperator) (operand : VarType) : VarType :=
  match op with
  | FloatConvert => VT_FLOAT
  | AddressOf =>
      if operand =? VT_FLOAT then POINTER_TO_FLOAT
      else if operand =? VT_INTEGER then POINTER_TO_INT else VT_UNKNOWN
  | Indirection =>
      if operand =? POINTER_TO_FLOAT then VT_FLOAT
      else if operand =? POINTER_TO_INT then VT_INTEGER
      else if operand =? POINTER_TO_FLOAT_VEC then VT_FLOAT else VT_UNKNOWN
  | TailOfNonDestructive => POINTER_TO_LIST_NODE
  | HeadOf =>
      if one_of operand [POINTER_TO_INT_LIST; POINTER_TO_LIST_NODE] then VT_INTEGER
      else if operand =? POINTER_TO_FLOAT_LIST then VT_FLOAT
      else if operand =? POINTER_TO_ANY_LIST then VT_ANY else VT_UNKNOWN
  | TailOf =>
      if one_of operand [POINTER_TO_INT_LIST; POINTER_TO_FLOAT_LIST; POINTER_TO_ANY_LIST]
      then operand else VT_UNKNOWN
  | LengthOf =>
      if one_of operand [POINTER_TO_INT_VEC; POINTER_TO_FLOAT_VEC; POINTER_TO_STRING;
           POINTER_TO_TABLE; POINTER_TO_INT_LIST; POINTER_TO_FLOAT_LIST; POINTER_TO_ANY_LIST]
      then VT_INTEGER else VT_UNKNOWN
  | _ => VT_UNKNOWN
  end.

Fixpoint infer_expression_type (expr : Expression) : VarType :=
  match expr with
  | NumberLiteral (Float _) => VT_FLOAT
  | NumberLiteral (Integer _) => VT_INTEGER
  | StringLiteral _ => POINTER_TO_STRING
  | VariableAccess name _ => variable_type name
  | FunctionCall (VariableAccess name _) args =>
      if String.eqb name "CONCAT" then
        match args with
        | [a; b] =>
            let t := infer_expression_type a in
            if t =? infer_expression_type b then t else POINTER_TO_ANY_LIST
        | _ => POINTER_TO_ANY_LIST
        end
      else match builtin_type name with
           | Some t => t
           | None => default VT_UNKNOWN (function_return_types !! name)
           end
  | BinaryOp _ l r =>
      if (infer_expression_type l =? VT_FLOAT) || (infer_expression_type r =? VT_FLOAT)
      then VT_FLOAT else VT_UNKNOWN
  | UnaryOp op a => unary_type op (infer_expression_type a)
  | BitfieldAccessExpression _ _ _ => VT_INTEGER
  | VecAllocationExpression _ _ => POINTER_TO_INT_VEC
  | FVecAllocationExpression _ _ => POINTER_TO_FLOAT_VEC
  | TableExpression _ is_float => if is_float then POINTER_TO_FLOAT_VEC else POINTER_TO_INT_VEC
  | StringAllocationExpression _ => POINTER_TO_STRING
  | ListExpression [] is_manifest =>
      if is_manifest then CONST_POINTER_TO_ANY_LIST else POINTER_TO_ANY_LIST
  | ListExpression (e :: l) is_manifest =>
      let first := infer_expression_type e in
      list_type is_manifest (forallb (fun e => infer_expression_type e =? first) l) first
  | VecInitializerExpression [] => POINTER_TO_INT_VEC
  | VecInitializerExpression (e :: l) =>
      let first := infer_expression_type e in
      if forallb (fun e => infer_expression_type e =? first) l then
        if first =? VT_FLOAT then POINTER_TO_FLOAT_VEC else POINTER_TO_INT_VEC
      else VT_UNKNOWN
  | _ => VT_UNKNOWN
  end.
End analyzer.

(** Only [|] and [LOGOR] are evaluated. *)
Fixpoint evaluate_constant_expression (expr : Expression) : option Z :=
  match expr with
  | NumberLiteral (Integer n) => Some n
  | BinaryOp op l r =>
      match evaluate_constant_expression l, evaluate_constant_expression r with
      | Some a, Some b =>
          match op with
          | BitwiseOr => Some (s64 (Z.lor (u64 a) (u64 b)))
          | LogicalOr => Some (if negb (a =? 0) || negb (b =? 0) then -1 else 0)
          | _ => None
          end
      | _, _ => None
      end
  | _ => None
  end.
