(* ===== verification/Data.v ===== *)
(** * The data of a program

    [DataGenerator] (src/DataGenerator.cpp): the literals collected during code generation,
    their labels, the read-only data they become in the instruction stream, and the word
    offsets of the global variables.  The hash tables keyed by strings are finite maps; the
    one keyed by [double], whose equality is that of IEEE 754, is an association list. *)

From Stdlib Require Import SpecFloat.
From S2P Require Import Prelude Words Instr Labels CallFrame Ast SymbolTable.
Local Open Scope Z_scope.

(** ** [double] *)

(** The bit pattern: sign, exponent biased by 1023, 52 bits of mantissa. *)
Definition float_bits (f : spec_float) : Z :=
  let signed (s : bool) (z : Z) := if s then 2 ^ 63 + z else z in
  match f with
  | S754_zero s => signed s 0
  | S754_infinity s => signed s (0x7FF * 2 ^ 52)
  | S754_nan => 0x7FF8 * 2 ^ 48
  | S754_finite s m e =>
      let m := Z.pos m in
      signed s (if m <? 2 ^ 52 then m else (e + 1075) * 2 ^ 52 + (m - 2 ^ 52))
  end.

(** [static_cast<double>] of a 64-bit integer. *)
Definition double_of_Z (z : Z) : spec_float := binary_normalize 53 1024 z 0 false.

Definition same_key (a b : spec_float) : bool := SFeqb a b.

(** The decimal exponent of [num / den], near the estimate [k]. *)
Fixpoint decimal_exponent (fuel : nat) (num den k : Z) : Z :=
  match fuel with
  | O => k
  | S fuel =>
      if 10 ^ Z.max k 0 * den <=? num * 10 ^ Z.max (- k) 0 then k
      else decimal_exponent fuel num den (k - 1)
  end.

Definition round_half_even (num den : Z) : Z :=
  let q := num / den in let r := 2 * (num mod den) in
  if (den <? r) || ((r =? den) && Z.odd q) then q + 1 else q.

Fixpoint trim_zeros (fuel : nat) (d : Z) (n : nat) : Z * nat :=
  match fuel with
  | O => (d, n)
  | S fuel => if (d mod 10 =? 0) && (Nat.ltb 0 n) then trim_zeros fuel (d / 10) (Nat.pred n) else (d, n)
  end.

Fixpoint zeros (n : nat) : string := match n with O => "" | S n => "0" ++ zeros n end.

(** [d] with its last [n] digits after the point. *)
Definition with_point (d : Z) (n : nat) : string :=
  let '(d, n) := trim_zeros 6 d n in
  match n with
  | O => to_string d
  | _ => let s := to_string d in
         let s := (zeros (S n - String.length s) ++ s)%string in
         let k := (String.length s - n)%nat in
         (String.substring 0 k s ++ "." ++ String.substring k n s)%string
  end.

(** [std::ostream << double] in its default format: six significant digits. *)
Definition print_double (f : spec_float) : string :=
  match f with
  | S754_zero s => if s then "-0" else "0"
  | S754_infinity s => if s then "-inf" else "inf"
  | S754_nan => "nan"
  | S754_finite s m e =>
      let num := Z.pos m * 2 ^ Z.max e 0 in
      let den := 2 ^ Z.max (- e) 0 in
      let k := decimal_exponent 5 num den ((Z.log2 num - Z.log2 den) * 30103 / 100000 + 2) in
      let d := round_half_even (num * 10 ^ Z.max (5 - k) 0) (den * 10 ^ Z.max (k - 5) 0) in
      let '(d, k) := if d =? 10 ^ 6 then (10 ^ 5, k + 1) else (d, k) in
      let text :=
        if (-4 <=? k) && (k <? 6) then with_point d (Z.to_nat (5 - k))
        else
          let x := to_string (Z.abs k) in
          (with_point d 5 ++ "e" ++ (if (k <? 0)%Z then "-" else "+")
           ++ (if (Z.abs k <? 10)%Z then "0" else "") ++ x)%string in
      ((if s then "-" else "") ++ text)%string
  end.

(** ** UTF-8 *)

Definition byte_of (c : Ascii.ascii) : Z := Z.of_nat (Ascii.nat_of_ascii c).
Definition bytes_of (s : string) : list Z := List.map byte_of (String.list_ascii_of_string s).

Inductive decoded : Type :=
  | Decoded (code_points : list Z)
  | Invalid
  | OutOfBounds.

Definition put_point (c : Z) (d : decoded) : decoded :=
  match d with Decoded l => Decoded (c :: l) | d => d end.

(** One byte past the end is the terminating zero of the [std::string]; further reads are
    undefined behaviour.  Continuation bytes are not checked. *)
Fixpoint utf8_to_utf32 (l : list Z) : decoded :=
  let low6 b := Z.land b 0x3F in
  match l with
  | [] => Decoded []
  | b0 :: l0 =>
      if b0 <=? 0x7F then put_point b0 (utf8_to_utf32 l0)
      else if Z.land b0 0xE0 =? 0xC0 then
        let lead := Z.shiftl (Z.land b0 0x1F) 6 in
        match l0 with
        | b1 :: l1 => put_point (Z.lor lead (low6 b1)) (utf8_to_utf32 l1)
        | [] => Decoded [lead]
        end
      else if Z.land b0 0xF0 =? 0xE0 then
        let lead := Z.shiftl (Z.land b0 0x0F) 12 in
        match l0 with
        | b1 :: b2 :: l2 =>
            put_point (Z.lor (Z.lor lead (Z.shiftl (low6 b1) 6)) (low6 b2)) (utf8_to_utf32 l2)
        | [b1] => Decoded [Z.lor lead (Z.shiftl (low6 b1) 6)]
        | [] => OutOfBounds
        end
      else if Z.land b0 0xF8 =? 0xF0 then
        let lead := Z.shiftl (Z.land b0 0x07) 18 in
        match l0 with
        | b1 :: b2 :: b3 :: l3 =>
            put_point (Z.lor (Z.lor (Z.lor lead (Z.shiftl (low6 b1) 12)) (Z.shiftl (low6 b2) 6))
                         (low6 b3)) (utf8_to_utf32 l3)
        | [b1; b2] =>
            Decoded [Z.lor (Z.lor lead (Z.shiftl (low6 b1) 12)) (Z.shiftl (low6 b2) 6)]
        | _ => OutOfBounds
        end
      else Invalid
  end.

(** ** State *)

Record ListLiteralNode : Type := mkListNode {
  node_label : string;
  type_tag : Z;
  value_bits : Z;
  value_ptr_label : string;
  value_is_ptr : bool;
  next_node_label : string
}.

Record ListLiteralInfo : Type := mkListInfo {
  header_label : string;
  nodes : list ListLiteralNode;
  list_length : Z
}.

Record DataGenerator : Type := mkDataGenerator {
  next_string_id : Z;
  string_literal_map : gmap string string;
  string_literals : list (string * list Z);
  next_float_id : Z;
  float_literal_map : list (spec_float * string);
  float_literals : list (string * spec_float);
  next_table_id : Z;
  table_literals : list (string * list Z);
  next_float_table_id : Z;
  float_table_literals : list (string * list spec_float);
  next_list_id : Z;
  list_literal_label_map : gmap string string;
  list_literals : list ListLiteralInfo;
  static_variables : list (string * option Expression);
  global_word_offsets : gmap string Z
}.

Definition DataGenerator_new : DataGenerator :=
  mkDataGenerator 0 ∅ [] 0 [] [] 0 [] 0 [] 0 ∅ [] [] ∅.

Definition set_strings (n : Z) (m : gmap string string) (l : list (string * list Z)) (d : DataGenerator)
    : DataGenerator :=
  mkDataGenerator n m l (next_float_id d) (float_literal_map d) (float_literals d) (next_table_id d)
    (table_literals d) (next_float_table_id d) (float_table_literals d) (next_list_id d)
    (list_literal_label_map d) (list_literals d) (static_variables d) (global_word_offsets d).
Definition set_floats (n : Z) (m : list (spec_float * string)) (l : list (string * spec_float))
    (d : DataGenerator) : DataGenerator :=
  mkDataGenerator (next_string_id d) (string_literal_map d) (string_literals d) n m l (next_table_id d)
    (table_literals d) (next_float_table_id d) (float_table_literals d) (next_list_id d)
    (list_literal_label_map d) (list_literals d) (static_variables d) (global_word_offsets d).
Definition set_tables (n : Z) (l : list (string * list Z)) (d : DataGenerator) : DataGenerator :=
  mkDataGenerator (next_string_id d) (string_literal_map d) (string_literals d) (next_float_id d)
    (float_literal_map d) (float_literals d) n l (next_float_table_id d) (float_table_literals d)
    (next_list_id d) (list_literal_label_map d) (list_literals d) (static_variables d)
    (global_word_offsets d).
Definition set_float_tables (n : Z) (l : list (string * list spec_float)) (d : DataGenerator)
    : DataGenerator :=
  mkDataGenerator (next_string_id d) (string_literal_map d) (string_literals d) (next_float_id d)
    (float_literal_map d) (float_literals d) (next_table_id d) (table_literals d) n l
    (next_list_id d) (list_literal_label_map d) (list_literals d) (static_variables d)
    (global_word_offsets d).
Definition set_lists (n : Z) (m : gmap string string) (l : list ListLiteralInfo) (d : DataGenerator)
    : DataGenerator :=
  mkDataGenerator (next_string_id d) (string_literal_map d) (string_literals d) (next_float_id d)
    (float_literal_map d) (float_literals d) (next_table_id d) (table_literals d)
    (next_float_table_id d) (float_table_literals d) n m l (static_variables d)
    (global_word_offsets d).
Definition set_globals (l : list (string * option Expression)) (m : gmap string Z) (d : DataGenerator)
    : DataGenerator :=
  mkDataGenerator (next_string_id d) (string_literal_map d) (string_literals d) (next_float_id d)
    (float_literal_map d) (float_literals d) (next_table_id d) (table_literals d)
    (next_float_table_id d) (float_table_literals d) (next_list_id d) (list_literal_label_map d)
    (list_literals d) l m.

(** ** Collecting literals *)

Definition D (A : Type) : Type := DataGenerator -> DataGenerator * outcome A.

Definition D_bind {A B} (m : D A) (f : A -> D B) : D B := fun d =>
  match m d with
  | (d, Done a) => f a d
  | (d, Raised e) => (d, Raised e)
  | (d, Undefined) => (d, Undefined)
  end.

Definition D_return {A} (a : A) : D A := fun d => (d, Done a).
Definition D_throw {A} (e : exn) : D A := fun d => (d, Raised e).

(** The map is updated before the text is converted: a text that is refused keeps a label. *)
Definition add_string_literal (value : string) : D string := fun d =>
  match string_literal_map d !! value with
  | Some label => (d, Done label)
  | None =>
      let label := ("L_str" ++ to_string (next_string_id d))%string in
      let d := set_strings (next_string_id d + 1) (<[value := label]> (string_literal_map d))
                 (string_literals d) d in
      match utf8_to_utf32 (bytes_of value) with
      | Decoded u32_value =>
          (set_strings (next_string_id d) (string_literal_map d)
             (string_literals d ++ [(label, u32_value ++ [0; 0])]) d, Done label)
      | Invalid => (d, Raised runtime_error)
      | OutOfBounds => (d, Undefined)
      end
  end.

Definition add_float_literal (value : spec_float) : D string := fun d =>
  match List.find (fun p => same_key p.1 value) (float_literal_map d) with
  | Some p => (d, Done p.2)
  | None =>
      let label := ("L_float" ++ to_string (next_float_id d))%string in
      (set_floats (next_float_id d + 1) ((value, label) :: float_literal_map d)
         (float_literals d ++ [(label, value)]) d, Done label)
  end.

Fixpoint table_values (initializers : list Expression) : result (list Z) :=
  match initializers with
  | [] => Ok []
  | NumberLiteral (Integer n) :: l => match table_values l with Ok r => Ok (n :: r) | Throw e => Throw e end
  | _ => Throw runtime_error
  end.

Definition add_table_literal (initializers : list Expression) : D string := fun d =>
  let label := ("L_tbl" ++ to_string (next_table_id d))%string in
  match table_values initializers with
  | Throw e => (set_tables (next_table_id d + 1) (table_literals d) d, Raised e)
  | Ok values => (set_tables (next_table_id d + 1) (table_literals d ++ [(label, values)]) d, Done label)
  end.

Definition number_value (n : number) : spec_float :=
  match n with Float f => f | Integer n => double_of_Z n end.

Fixpoint float_table_values (initializers : list Expression) : result (list spec_float) :=
  match initializers with
  | [] => Ok []
  | NumberLiteral n :: l =>
      match float_table_values l with Ok r => Ok (number_value n :: r) | Throw e => Throw e end
  | _ => Throw runtime_error
  end.

Definition add_float_table_literal (initializers : list Expression) : D string := fun d =>
  let label := ("L_ftbl" ++ to_string (next_float_table_id d))%string in
  match float_table_values initializers with
  | Throw e => (set_float_tables (next_float_table_id d + 1) (float_table_literals d) d, Raised e)
  | Ok values =>
      (set_float_tables (next_float_table_id d + 1) (float_table_literals d ++ [(label, values)]) d,
       Done label)
  end.

Fixpoint join (sep : string) (l : list string) : string :=
  match l with
  | [] => ""
  | [x] => x
  | x :: l => (x ++ sep ++ join sep l)%string
  end.

(** The key of an element; [generate_list_key] is its case for lists. *)
Fixpoint generate_list_key (node : Expression) : string :=
  match node with
  | NumberLiteral (Integer n) => ("int(" ++ to_string n ++ ")")%string
  | NumberLiteral (Float f) => ("float(" ++ print_double f ++ ")")%string
  | StringLiteral s => ("string(" ++ s ++ ")")%string
  | ListExpression l _ => ("list[" ++ join "," (List.map generate_list_key l) ++ "]")%string
  | _ => "unknown"
  end.

Definition ATOM_SENTINEL : Z := 0.

Definition node_name (base_label : string) (i : nat) : string :=
  (base_label ++ "_node_" ++ to_string (Z.of_nat i))%string.

Section add_nodes.
Context (add_list : Expression -> D string) (base_label : string).

(** The nodes of a list from the [i]-th on.  The [value_bits] of a pointer is never read. *)
Fixpoint add_nodes (i : nat) (initializers : list Expression) : D (list ListLiteralNode) :=
  match initializers with
  | [] => D_return []
  | e :: l =>
      let node tag bits ptr is_ptr :=
        mkListNode (node_name base_label i) tag bits ptr is_ptr
          (match l with [] => "" | _ => node_name base_label (S i) end) in
      let rest n := D_bind (add_nodes (S i) l) (fun ns => D_return (n :: ns)) in
      match e with
      | NumberLiteral (Integer n) => rest (node 1 (u64 n) "" false)
      | NumberLiteral (Float f) => rest (node 2 (float_bits f) "" false)
      | StringLiteral s => D_bind (add_string_literal s) (fun label => rest (node 3 0 label true))
      | ListExpression _ _ => D_bind (add_list e) (fun label => rest (node 4 0 label true))
      | _ => D_throw runtime_error
      end
  end.
End add_nodes.

Definition new_list : D Z := fun d =>
  (set_lists (next_list_id d + 1) (list_literal_label_map d) (list_literals d) d,
   Done (next_list_id d)).

Definition record_list (key : string) (info : ListLiteralInfo) : D string := fun d =>
  (set_lists (next_list_id d) (<[key := header_label info]> (list_literal_label_map d))
     (list_literals d ++ [info]) d, Done (header_label info)).

Definition list_name (id : Z) : string := ("L_list" ++ to_string id)%string.

Fixpoint add_list_literal (node : Expression) : D string :=
  match node with
  | ListExpression initializers _ => fun d =>
      let canonical_key := generate_list_key node in
      match list_literal_label_map d !! canonical_key with
      | Some label => (d, Done label)
      | None =>
          D_bind new_list (fun id =>
            D_bind (add_nodes add_list_literal (list_name id) O initializers) (fun nodes =>
              record_list canonical_key
                (mkListInfo (list_name id ++ "_header")%string nodes
                   (Z.of_nat (length initializers))))) d
      end
  | _ => fun d => (d, Undefined)
  end.

(** ** Global variables *)

Definition add_global_variable (name : string) (initializer : option Expression) (d : DataGenerator)
    : DataGenerator :=
  set_globals (static_variables d ++ [(name, initializer)]) (global_word_offsets d) d.

Fixpoint number_globals (l : list (string * option Expression)) (current_word_offset : Z)
    (offsets : gmap string Z) (t : SymbolTable) : gmap string Z * SymbolTable :=
  match l with
  | [] => (offsets, t)
  | (label, _) :: l =>
      number_globals l (current_word_offset + 1) (<[label := current_word_offset]> offsets)
        (setSymbolDataLocation label current_word_offset t)
  end.

Definition calculate_global_offsets (d : DataGenerator) (t : SymbolTable)
    : DataGenerator * SymbolTable :=
  let '(offsets, t) := number_globals (static_variables d) 0 ∅ t in
  (set_globals (static_variables d) offsets d, t).

Definition get_global_word_offset (name : string) (d : DataGenerator) : result Z :=
  match global_word_offsets d !! name with Some n => Ok n | None => Throw runtime_error end.

Definition is_global_variable (name : string) (d : DataGenerator) : bool :=
  existsb (fun v => String.eqb v.1 name) (static_variables d).

(** ** The sections *)

Definition emit_absolute_pointer (stream : InstructionStream) (label : string) (segment : SegmentType)
    : InstructionStream :=
  let half rel text :=
    set_relocation rel (set_target_label label (set_segment segment (set_is_data_value true
      (set_assembly_text text Instruction_default)))) in
  let stream := add stream (half ABSOLUTE_ADDRESS_LO32 (".quad " ++ label ++ " ; (lo32)")%string) in
  add stream (half ABSOLUTE_ADDRESS_HI32 "; (hi32)").

Definition emit_words (values : list Z) (stream : InstructionStream) : InstructionStream :=
  foldl (fun s v => add_data64 s v "" RODATA) stream values.

Definition emit_string (stream : InstructionStream) (info : string * list Z) : InstructionStream :=
  let stream := add stream (as_label info.1 RODATA) in
  let stream := add_data64 stream (u64 (Z.of_nat (length info.2) - 2)) "" RODATA in
  let stream := foldl (fun s ch => add_data32 s ch "" RODATA) stream info.2 in
  add_data_padding stream 8.

Definition emit_float (stream : InstructionStream) (info : string * spec_float) : InstructionStream :=
  emit_words [float_bits info.2] (add stream (as_label info.1 RODATA)).

Definition emit_table (stream : InstructionStream) (info : string * list Z) : InstructionStream :=
  emit_words (Z.of_nat (length info.2) :: List.map u64 info.2) (add stream (as_label info.1 RODATA)).

Definition emit_float_table (stream : InstructionStream) (info : string * list spec_float)
    : InstructionStream :=
  emit_words (Z.of_nat (length info.2) :: List.map float_bits info.2)
    (add stream (as_label info.1 RODATA)).

Definition emit_pointer_or_null (label : string) (stream : InstructionStream) : InstructionStream :=
  if string_empty label then add_data64 stream 0 "" RODATA
  else emit_absolute_pointer stream label RODATA.

Definition emit_node (stream : InstructionStream) (n : ListLiteralNode) : InstructionStream :=
  let stream := add stream (as_label (node_label n) RODATA) in
  let stream := add_data32 stream (type_tag n) "" RODATA in
  let stream := add_data32 stream 0 "" RODATA in
  let stream := if value_is_ptr n then emit_absolute_pointer stream (value_ptr_label n) RODATA
                else add_data64 stream (value_bits n) "" RODATA in
  emit_pointer_or_null (next_node_label n) stream.

Definition emit_list (stream : InstructionStream) (info : ListLiteralInfo) : InstructionStream :=
  let stream := add stream (as_label (header_label info) RODATA) in
  let stream := add_data32 stream ATOM_SENTINEL "" RODATA in
  let stream := add_data32 stream 0 "" RODATA in
  let back := List.last (List.map node_label (nodes info)) "" in
  let front := List.hd "" (List.map node_label (nodes info)) in
  let stream := emit_pointer_or_null back stream in
  let stream := emit_pointer_or_null front stream in
  let stream := add_data64 stream (list_length info) "" RODATA in
  foldl emit_node stream (nodes info).

Definition generate_rodata_section (d : DataGenerator) (stream : InstructionStream)
    : InstructionStream :=
  let stream := foldl emit_string stream (string_literals d) in
  let stream := foldl emit_float stream (float_literals d) in
  let stream := foldl emit_table stream (table_literals d) in
  let stream := foldl emit_float_table stream (float_table_literals d) in
  foldl emit_list stream (list_literals d).

(** The [int_value] of a float literal is 0. *)
Definition initial_value (initializer : option Expression) : Z :=
  match initializer with Some (NumberLiteral (Integer n)) => n | _ => 0 end.

Definition generate_data_section (d : DataGenerator) (t : SymbolTable) (stream : InstructionStream)
    : DataGenerator * SymbolTable * InstructionStream :=
  let '(d, t) := calculate_global_offsets d t in
  let stream := add stream (set_segment Instr.DATA (set_target_label "L__data_segment_base"
                  (set_is_label_definition true Instruction_default))) in
  (d, t, foldl (fun s v => add_data64 s (u64 (initial_value v.2)) "" Instr.DATA) stream
           (static_variables d)).
