(* ===== verification/DataProof.v ===== *)
(** * The read-only data is well formed

    Whatever literals a program has, the labels of the read-only section are pairwise distinct
    and every pointer in it refers to one of them; valid UTF-8 is decoded to the code points
    it encodes; lists are identified by their key; the global variables are numbered as they
    are laid out. *)

From Stdlib Require Import SpecFloat.
From S2P Require Import Prelude Words Instr Labels Linker CallFrame Ast SymbolTable Data.
Local Open Scope Z_scope.
Set Warnings "-clear-no-such-hyp".

(** ** Names made of a number *)

Definition plain (c : ascii) : Prop := c <> "_"%char.

Lemma pretty_char_plain n : plain (pretty_N_char n).
Proof. unfold plain, pretty_N_char. repeat case_match; discriminate. Qed.

Lemma pretty_go_plain n s :
  Forall plain (String.list_ascii_of_string s) ->
  Forall plain (String.list_ascii_of_string (pretty_N_go n s)).
Proof.
  revert s. induction (N.lt_wf_0 n) as [n _ IH]. intros s Hs.
  destruct (decide (n = 0)%N) as [->|Hn]; [by rewrite pretty_N_go_0|].
  rewrite pretty_N_go_step by lia. apply IH; [apply N.div_lt; lia|].
  cbn. constructor; [apply pretty_char_plain | exact Hs].
Qed.

Lemma to_string_plain z : 0 <= z -> Forall plain (String.list_ascii_of_string (to_string z)).
Proof.
  intros Hz. unfold to_string, pretty, pretty_Z, pretty, pretty_positive, pretty, pretty_N.
  destruct z as [|p|p]; [repeat constructor; discriminate | | lia].
  by apply pretty_go_plain.
Qed.

Lemma split_at_underscore s1 s2 r1 r2 :
  Forall plain (String.list_ascii_of_string s1) -> Forall plain (String.list_ascii_of_string s2) ->
  (s1 ++ String "_" r1 = s2 ++ String "_" r2)%string -> s1 = s2 /\ r1 = r2.
Proof.
  revert s2. induction s1 as [|c s1 IH]; intros [|c2 s2] H1 H2 E; cbn in *;
    apply list.Forall_cons in H1 || clear H1; apply list.Forall_cons in H2 || clear H2.
  - by injection E as ->.
  - injection E as <- _. by destruct H2.
  - injection E as -> _. by destruct H1.
  - destruct H1 as [_ H1], H2 as [_ H2]. injection E as -> E.
    by destruct (IH s2 H1 H2 E) as [-> ->].
Qed.

Inductive literal_id : Type :=
  | StringId (n : Z) | FloatId (n : Z) | TableId (n : Z) | FloatTableId (n : Z)
  | HeaderId (n : Z) | NodeId (n : Z) (i : nat).

Definition number_of (id : literal_id) : Z :=
  match id with
  | StringId n | FloatId n | TableId n | FloatTableId n | HeaderId n | NodeId n _ => n
  end.

Definition label_of (id : literal_id) : string :=
  match id with
  | StringId n => "L_str" ++ to_string n
  | FloatId n => "L_float" ++ to_string n
  | TableId n => "L_tbl" ++ to_string n
  | FloatTableId n => "L_ftbl" ++ to_string n
  | HeaderId n => list_name n ++ "_header"
  | NodeId n i => node_name (list_name n) i
  end%string.

Lemma label_of_inj a b :
  0 <= number_of a -> 0 <= number_of b -> label_of a = label_of b -> a = b.
Proof.
  intros Ha Hb E.
  destruct a as [n|n|n|n|n|n i], b as [m|m|m|m|m|m j];
    unfold label_of, node_name, list_name in E; rewrite ?string_app_assoc in E;
    try discriminate E; cbn in Ha, Hb; apply (inj (String.append _)) in E.
  1-4: by apply (inj (pretty (A := Z))) in E as ->.
  all: apply split_at_underscore in E as [En E]; [|by apply to_string_plain..];
    apply (inj (pretty (A := Z))) in En as ->; try discriminate E; try done.
  apply (inj (String.append "node_")), (inj (pretty (A := Z))) in E. f_equal. lia.
Qed.

(** ** How the tables of the generator grow *)

Section extends.
Context {A : Type} (R : Z -> A -> Prop).

(** [l'] is [l] and entries with numbers of their own in [lo .. hi - 1]. *)
Definition extends (lo hi : Z) (l l' : list A) : Prop :=
  lo <= hi /\ exists ns new, l' = l ++ new /\ Forall2 R ns new /\ NoDup ns
                             /\ Forall (fun n => lo <= n < hi) ns.

Lemma extends_refl lo hi l : lo <= hi -> extends lo hi l l.
Proof. intros H. split; [done|]. exists [], []. rewrite app_nil_r. repeat split; constructor. Qed.

Lemma extends_trans a b c l1 l2 l3 : extends a b l1 l2 -> extends b c l2 l3 -> extends a c l1 l3.
Proof.
  intros (Hab & ns & n1 & -> & H1 & Hn & Ha) (Hbc & ms & n2 & -> & H2 & Hm & Hb).
  split; [lia|]. exists (ns ++ ms), (n1 ++ n2). split; [by rewrite app_assoc|].
  split; [by apply Forall2_app|].
  rewrite list.Forall_forall in Ha, Hb. split.
  - apply list.NoDup_app. split; [done|]. split; [|done].
    intros x Hx Hx'. specialize (Ha x Hx). specialize (Hb x Hx'). lia.
  - rewrite list.Forall_forall. intros x [Hx|Hx]%elem_of_app;
      [specialize (Ha x Hx) | specialize (Hb x Hx)]; lia.
Qed.

Lemma extends_one n hi l x : R n x -> n < hi -> extends n hi l (l ++ [x]).
Proof.
  intros Hx Hn. split; [lia|]. exists [n], [x]. split; [done|]. split; [by constructor|].
  split; [apply NoDup_singleton|]. constructor; [lia | done].
Qed.

(** A number reserved before other entries are made. *)
Lemma extends_around n hi l l' x : extends (n + 1) hi l l' -> R n x -> extends n hi l (l' ++ [x]).
Proof.
  intros (Hle & ns & new & -> & H & Hn & Hr) Hx. split; [lia|].
  exists (ns ++ [n]), (new ++ [x]). split; [by rewrite app_assoc|].
  split; [apply Forall2_app; [done | by constructor]|].
  rewrite list.Forall_forall in Hr. split.
  - apply list.NoDup_app. split; [done|]. split; [|apply NoDup_singleton].
    intros y Hy ->%list_elem_of_singleton. specialize (Hr n Hy). lia.
  - apply list.Forall_app. rewrite list.Forall_forall. split; [|constructor; [lia | done]].
    intros y Hy. specialize (Hr y Hy). lia.
Qed.

Lemma extends_sub lo hi l l' x : extends lo hi l l' -> x ∈ l -> x ∈ l'.
Proof. intros (_ & ns & new & -> & _) Hx. apply elem_of_app. by left. Qed.
End extends.

Definition named {A} (id : Z -> literal_id) (n : Z) (p : string * A) : Prop := p.1 = label_of (id n).

Definition node_labels (n : Z) (k : nat) : list string :=
  List.map (fun i => label_of (NodeId n i)) (seq 0 k).

Record list_named (n : Z) (info : ListLiteralInfo) : Prop := {
  ln_header : header_label info = label_of (HeaderId n);
  ln_nodes : node_label <$> nodes info = node_labels n (length (nodes info));
  ln_next : forall nd, nd ∈ nodes info ->
              next_node_label nd = "" \/ next_node_label nd ∈ node_label <$> nodes info
}.

Record grows (d d' : DataGenerator) : Prop := {
  g_strings : extends (named StringId) (next_string_id d) (next_string_id d')
                (string_literals d) (string_literals d');
  g_floats : extends (named FloatId) (next_float_id d) (next_float_id d')
               (float_literals d) (float_literals d');
  g_tables : extends (named TableId) (next_table_id d) (next_table_id d')
               (table_literals d) (table_literals d');
  g_float_tables : extends (named FloatTableId) (next_float_table_id d) (next_float_table_id d')
                     (float_table_literals d) (float_table_literals d');
  g_lists : extends list_named (next_list_id d) (next_list_id d')
              (list_literals d) (list_literals d')
}.

Lemma grows_refl d : grows d d.
Proof. split; by apply extends_refl. Qed.

Lemma grows_trans d1 d2 d3 : grows d1 d2 -> grows d2 d3 -> grows d1 d3.
Proof. intros [] []. split; by eapply extends_trans. Qed.

(** The labels pointers may refer to. *)
Definition refs (d : DataGenerator) : list string :=
  (string_literals d).*1 ++ (header_label <$> list_literals d).

Lemma grows_refs d d' l : grows d d' -> l ∈ refs d -> l ∈ refs d'.
Proof.
  intros G. unfold refs. rewrite !elem_of_app, !list_elem_of_fmap.
  intros [(x & -> & Hx)|(x & -> & Hx)]; [left|right]; exists x; (split; [done|]);
    [eapply extends_sub, Hx; apply G | eapply extends_sub, Hx; apply G].
Qed.

Record closed (d : DataGenerator) : Prop := {
  c_strings : forall v l, string_literal_map d !! v = Some l ->
                exists cs, utf8_to_utf32 (bytes_of v) = Decoded cs /\ (l, cs ++ [0; 0]) ∈ string_literals d;
  c_floats : forall p, p ∈ float_literal_map d -> (p.2, p.1) ∈ float_literals d;
  c_lists : forall k l, list_literal_label_map d !! k = Some l -> l ∈ header_label <$> list_literals d;
  c_pointers : forall info n, info ∈ list_literals d -> n ∈ nodes info ->
                 value_is_ptr n = true -> value_ptr_label n ∈ refs d
}.

(** What a successful operation that returns a label does. *)
Definition adds (d d' : DataGenerator) (l : string) : Prop :=
  grows d d' /\ (closed d -> closed d' /\ l ∈ refs d').

Lemma add_string_adds s d d' l : add_string_literal s d = (d', Done l) -> adds d d' l.
Proof.
  unfold add_string_literal. destruct (string_literal_map d !! s) as [l'|] eqn:E.
  - intros [= <- <-]. split; [apply grows_refl|]. intros C. split; [done|].
    apply elem_of_app. left. destruct (c_strings d C _ _ E) as (cs & _ & Hin).
    apply list_elem_of_fmap. by exists (l', cs ++ [0; 0]).
  - destruct (utf8_to_utf32 (bytes_of s)) as [cs| |] eqn:Es; [|done..]. intros [= <- <-].
    assert (G : grows d (set_strings (next_string_id d + 1)
                  (<[s := ("L_str" ++ to_string (next_string_id d))%string]> (string_literal_map d))
                  (string_literals d
                   ++ [(("L_str" ++ to_string (next_string_id d))%string, cs ++ [0; 0])]) d)).
    { split; cbn; try by apply extends_refl. apply extends_one; [done | lia]. }
    split; [exact G|]. intros [C1 Cf C2 C3]. split; [split|]; cbn.
    + intros v l [[<- <-]|[_ H]]%lookup_insert_Some.
      * exists cs. rewrite elem_of_app. split; [done|]. right. by left.
      * destruct (C1 v l H) as (cs' & ? & ?). exists cs'. rewrite elem_of_app. auto.
    + exact Cf.
    + exact C2.
    + intros info n Hi Hn Hp. apply (grows_refs _ _ _ G). by eapply C3.
    + unfold refs. cbn. rewrite fmap_app, !elem_of_app. left. right. by left.
Qed.

(** What the nodes [i], [i + 1], ... of the list [id] made from [d] to [d'] satisfy. *)
Record nodes_made (id : Z) (i k : nat) (d d' : DataGenerator) (ns : list ListLiteralNode) : Prop := {
  nm_grows : grows d d';
  nm_length : length ns = k;
  nm_labels : node_label <$> ns = List.map (fun i => label_of (NodeId id i)) (seq i k);
  nm_next : forall nd, nd ∈ ns -> next_node_label nd = "" \/ next_node_label nd ∈ node_label <$> ns;
  nm_closed : closed d -> closed d' /\ forall nd, nd ∈ ns -> value_is_ptr nd = true ->
                                       value_ptr_label nd ∈ refs d'
}.

Lemma nodes_made_nil id i d : nodes_made id i 0 d d [].
Proof.
  split; cbn; [apply grows_refl | done | done | |]; [by intros nd ?%not_elem_of_nil|].
  intros C. split; [done|]. by intros nd ?%not_elem_of_nil.
Qed.

Lemma nodes_made_cons id i k d d1 d' nd ns :
  grows d d1 ->
  (closed d -> closed d1 /\ (value_is_ptr nd = true -> value_ptr_label nd ∈ refs d1)) ->
  node_label nd = label_of (NodeId id i) ->
  next_node_label nd = match k with O => ""%string | S _ => label_of (NodeId id (S i)) end ->
  nodes_made id (S i) k d1 d' ns -> nodes_made id i (S k) d d' (nd :: ns).
Proof.
  intros G C Hl Hn [G' Hk Hls Hns Hc]. split.
  - by eapply grows_trans.
  - cbn. by f_equal.
  - cbn. by rewrite Hl, Hls.
  - intros x [->|Hx]%elem_of_cons.
    + rewrite Hn. destruct k; [by left|]. right. cbn. rewrite elem_of_cons, Hls. right. by left.
    + destruct (Hns x Hx) as [?|?]; [by left|]. right. cbn. rewrite elem_of_cons. by right.
  - intros C0. destruct (C C0) as [C1 Hp]. destruct (Hc C1) as [C2 Hps]. split; [done|].
    intros x [->|Hx]%elem_of_cons Hx'; [|by apply Hps].
    eapply grows_refs; [exact G' | auto].
Qed.

Lemma D_bind_Done {A B} (m : D A) (f : A -> D B) d d' b :
  D_bind m f d = (d', Done b) -> exists d1 a, m d = (d1, Done a) /\ f a d1 = (d', Done b).
Proof. unfold D_bind. destruct (m d) as [d1 [a|e|]] eqn:E; [eauto | done..]. Qed.

Lemma add_nodes_made (rec : Expression -> D string) id l :
  list_all Expression (fun e => forall d d' lb, rec e d = (d', Done lb) -> adds d d' lb) l ->
  forall i d d' ns, add_nodes rec (list_name id) i l d = (d', Done ns) ->
                    nodes_made id i (length l) d d' ns.
Proof.
  induction 1 as [|e He l _ IH]; intros i d d' ns.
  { intros [= <- <-]. apply nodes_made_nil. }
  cbn [add_nodes length].
  assert (Hnext : (match l with [] => "" | _ => node_name (list_name id) (S i) end)%string
                  = match length l with O => ""%string | S _ => label_of (NodeId id (S i)) end)
    by (by destruct l).
  rewrite Hnext. clear Hnext.
  assert (Hrest : forall nd d1,
    node_label nd = label_of (NodeId id i) ->
    next_node_label nd = match length l with O => ""%string | S _ => label_of (NodeId id (S i)) end ->
    grows d d1 ->
    (closed d -> closed d1 /\ (value_is_ptr nd = true -> value_ptr_label nd ∈ refs d1)) ->
    D_bind (add_nodes rec (list_name id) (S i) l) (fun ns => D_return (nd :: ns)) d1 = (d', Done ns) ->
    nodes_made id i (S (length l)) d d' ns).
  { intros nd d1 Hl Hn G C E. apply D_bind_Done in E as (d2 & ns' & E & [= <- <-]).
    eapply nodes_made_cons; try done. by apply IH. }
  destruct e; try discriminate.
  - intros E. apply D_bind_Done in E as (d1 & lb & E1 & E). apply He in E1 as [G C].
    eapply Hrest; [| | exact G | | exact E]; [done..|]. intros [C1 Cl]%C. by split.
  - destruct value; (eapply Hrest; [done | done | apply grows_refl | by intros C; split]).
  - intros E. apply D_bind_Done in E as (d1 & lb & E1 & E). apply add_string_adds in E1 as [G C].
    eapply Hrest; [| | exact G | | exact E]; [done..|]. intros [C1 Cl]%C. by split.
Qed.

Lemma add_list_adds e d d' l : add_list_literal e d = (d', Done l) -> adds d d' l.
Proof.
  revert d d' l. revert e.
  enough (H : (forall e d d' l, add_list_literal e d = (d', Done l) -> adds d d' l)
              /\ (forall s : Statement, True) /\ (forall c : CaseClause, True)) by apply H.
  apply (ast_mutind _ _ _ (fun _ => True)); try done.
  intros l IH m d d' lb. cbn [add_list_literal].
  set (key := generate_list_key (ListExpression l m)). clearbody key.
  destruct (list_literal_label_map d !! key) as [lb'|] eqn:E.
  { intros [= <- <-]. split; [apply grows_refl|]. intros C. split; [done|].
    apply elem_of_app. right. by eapply c_lists. }
  intros H. apply D_bind_Done in H as (d1 & id & [= <- <-] & H).
  apply D_bind_Done in H as (d2 & ns & Hn & [= <- <-]).
  apply add_nodes_made in Hn as [G Hk Hls Hns Hc]; [|exact IH].
  set (info := mkListInfo (list_name (next_list_id d) ++ "_header") ns (Z.of_nat (length l))).
  assert (Hinfo : list_named (next_list_id d) info)
    by (split; cbn; [done | rewrite Hk; exact Hls | exact Hns]).
  assert (G' : grows d (set_lists (next_list_id d2) (<[key := header_label info]>
                          (list_literal_label_map d2)) (list_literals d2 ++ [info]) d2)).
  { destruct G as [G1 G2 G3 G4 G5]. cbn in *. split; cbn; try done. by apply extends_around. }
  split; [exact G'|]. intros [C1 Cf C2 C3].
  destruct Hc as [[D1 Df D2 D3] Hp]; [by split|].
  assert (Hsub : forall x, x ∈ refs d2 ->
            x ∈ refs (set_lists (next_list_id d2) (<[key := header_label info]>
                        (list_literal_label_map d2)) (list_literals d2 ++ [info]) d2)).
  { intros x. unfold refs. cbn. rewrite fmap_app, !elem_of_app. tauto. }
  split; [split|]; cbn.
  - exact D1.
  - exact Df.
  - intros k x [[_ <-]|[_ H]]%lookup_insert_Some; rewrite fmap_app, elem_of_app;
      [right; by left | left; by eapply D2].
  - intros i n [Hi|Hi]%elem_of_app Hn Hx; apply Hsub; [by eapply D3|].
    apply list_elem_of_singleton in Hi as ->. by apply Hp.
  - unfold refs. cbn. rewrite fmap_app, !elem_of_app. right. right. by left.
Qed.

(** ** The read-only section *)

Inductive data_op : Type :=
  | AddString (s : string)
  | AddFloat (f : spec_float)
  | AddTable (l : list Expression)
  | AddFloatTable (l : list Expression)
  | AddList (e : Expression)
  | AddGlobal (name : string) (e : option Expression).

Definition data_step (op : data_op) : D string :=
  match op with
  | AddString s => add_string_literal s
  | AddFloat f => add_float_literal f
  | AddTable l => add_table_literal l
  | AddFloatTable l => add_float_table_literal l
  | AddList e => add_list_literal e
  | AddGlobal n e => fun d => (add_global_variable n e d, Done n)
  end.

(** The state after the operations, when all succeed. *)
Fixpoint run_data (ops : list data_op) (d : DataGenerator) : option DataGenerator :=
  match ops with
  | [] => Some d
  | op :: ops => match data_step op d with (d, Done _) => run_data ops d | _ => None end
  end.

(** The expressions of a table, and the literal a label stands for. *)
Definition integers (l : list Expression) (vs : list Z) : Prop :=
  l = List.map (fun n => NumberLiteral (Integer n)) vs.
Definition numbers (l : list Expression) (vs : list spec_float) : Prop :=
  Forall2 (fun e v => exists n, e = NumberLiteral n /\ v = number_value n) l vs.

Definition collected (op : data_op) (l : string) (d : DataGenerator) : Prop :=
  match op with
  | AddString v => exists cs, utf8_to_utf32 (bytes_of v) = Decoded cs /\ (l, cs ++ [0; 0]) ∈ string_literals d
  | AddFloat f => exists g, (g = f \/ same_key g f = true) /\ (l, g) ∈ float_literals d
  | AddTable es => exists vs, integers es vs /\ (l, vs) ∈ table_literals d
  | AddFloatTable es => exists vs, numbers es vs /\ (l, vs) ∈ float_table_literals d
  | AddList _ => l ∈ refs d
  | AddGlobal _ _ => True
  end.

Lemma collected_grows op l d d' : grows d d' -> collected op l d -> collected op l d'.
Proof.
  intros G. pose proof G as [G1 G2 G3 G4 _].
  destruct op; cbn; [..|by apply grows_refs | done]; intros (x & Hx & Hin); exists x; (split; [done|]);
    by eapply extends_sub.
Qed.

Lemma table_values_integers l vs : table_values l = Ok vs -> integers l vs.
Proof.
  unfold integers. revert vs. induction l as [|e l IH]; cbn; intros vs H; [by injection H as <-|].
  repeat case_match; simplify_eq. cbn. f_equal. by apply IH.
Qed.

Lemma float_table_values_numbers l vs : float_table_values l = Ok vs -> numbers l vs.
Proof.
  revert vs. induction l as [|e l IH]; cbn; intros vs H; [injection H as <-; constructor|].
  repeat case_match; simplify_eq. constructor; [by eexists | by apply IH].
Qed.

Lemma closed_same d d' :
  string_literal_map d' = string_literal_map d -> string_literals d' = string_literals d ->
  float_literal_map d' = float_literal_map d -> float_literals d' = float_literals d ->
  list_literal_label_map d' = list_literal_label_map d -> list_literals d' = list_literals d ->
  closed d -> closed d'.
Proof.
  intros E1 E2 E3 E4 E5 E6 [C1 Cf C2 C3]. split; unfold refs in *; rewrite ?E1, ?E2, ?E3, ?E4, ?E5, ?E6; done.
Qed.

Lemma data_step_grows op d d' l :
  data_step op d = (d', Done l) -> grows d d' /\ (closed d -> closed d' /\ collected op l d').
Proof.
  destruct op as [v|f|es|es|e|name e]; cbn [data_step].
  - intros H. pose proof (add_string_adds _ _ _ _ H) as [G C]. split; [exact G|]. intros C0.
    destruct (C C0) as [C1 _]. split; [exact C1|]. unfold add_string_literal in H.
    destruct (string_literal_map d !! v) as [l'|] eqn:E; [injection H as <- <-; by apply (c_strings d C0)|].
    destruct (utf8_to_utf32 (bytes_of v)) as [cs| |] eqn:Ev; simplify_eq. cbn. exists cs.
    rewrite elem_of_app. split; [done|]. right. by left.
  - unfold add_float_literal. destruct (List.find _ _) as [p|] eqn:E; intros [= <- <-].
    + split; [apply grows_refl|]. intros C. split; [done|]. apply List.find_some in E as [Hp Hk].
      exists p.1. split; [by right|]. by apply (c_floats d C), list_elem_of_In.
    + split.
      * split; cbn; try by apply extends_refl. apply extends_one; [done | lia].
      * intros [C1 Cf C2 C3]. split; [split; cbn; try done|].
        -- intros p [->|Hp]%elem_of_cons; rewrite elem_of_app; [right; by left | left; by apply Cf].
        -- exists f. cbn. rewrite elem_of_app. split; [by left|]. right. by left.
  - unfold add_table_literal. destruct (table_values es) as [vs|] eqn:E; [|done]. intros [= <- <-]. split.
    + split; cbn; try by apply extends_refl. apply extends_one; [done | lia].
    + intros C. split; [by apply (closed_same d)|]. exists vs. cbn. rewrite elem_of_app.
      split; [by apply table_values_integers|]. right. by left.
  - unfold add_float_table_literal. destruct (float_table_values es) as [vs|] eqn:E; [|done]. intros [= <- <-]. split.
    + split; cbn; try by apply extends_refl. apply extends_one; [done | lia].
    + intros C. split; [by apply (closed_same d)|]. exists vs. cbn. rewrite elem_of_app.
      split; [by apply float_table_values_numbers|]. right. by left.
  - intros [G C]%add_list_adds. split; [exact G | exact C].
  - intros [= <- <-]. split; [split; cbn; by apply extends_refl|]. intros C. split; [by apply (closed_same d) | done].
Qed.

Lemma run_data_grows ops d d' : run_data ops d = Some d' -> grows d d' /\ (closed d -> closed d').
Proof.
  revert d. induction ops as [|op ops IH]; intros d; cbn.
  { intros [= <-]. split; [apply grows_refl | done]. }
  destruct (data_step op d) as [d1 [l|e|]] eqn:E; [|done..]. intros H.
  apply data_step_grows in E as [G C]. apply IH in H as [G' C'].
  split; [by eapply grows_trans|]. intros C0. by apply C', C.
Qed.

(** The literals in their order, with the labels that are handed out for them. *)
Fixpoint handed (ops : list data_op) (d : DataGenerator) : list (data_op * string) :=
  match ops with
  | [] => []
  | op :: ops => match data_step op d with (d, Done l) => (op, l) :: handed ops d | _ => [] end
  end.

Lemma handed_collected ops d d' op l : run_data ops d = Some d' -> closed d ->
  (op, l) ∈ handed ops d -> collected op l d'.
Proof.
  revert d. induction ops as [|op1 ops IH]; intros d; cbn; [by intros _ _ ?%not_elem_of_nil|].
  destruct (data_step op1 d) as [d1 [l1|e|]] eqn:E; [|done..]. intros H C [[= -> ->]|Hin]%elem_of_cons.
  - apply data_step_grows in E as [_ C1]. eapply collected_grows; [|by apply C1]. by eapply run_data_grows.
  - eapply (IH d1); [done | by eapply data_step_grows | done].
Qed.

Definition info_labels (info : ListLiteralInfo) : list string :=
  header_label info :: (node_label <$> nodes info).

Definition rodata_labels (d : DataGenerator) : list string :=
  (string_literals d).*1 ++ (float_literals d).*1 ++ (table_literals d).*1
  ++ (float_table_literals d).*1 ++ concat (info_labels <$> list_literals d).

(** The numbered names of a table that started empty. *)
Lemma extends_names {A} (id : Z -> literal_id) hi (l : list (string * A)) :
  extends (named id) 0 hi [] l -> exists ns, l.*1 = label_of ∘ id <$> ns /\ NoDup ns /\ Forall (fun n => 0 <= n) ns.
Proof.
  intros (_ & ns & new & E & H & Hn & Hr). cbn in E. subst new. exists ns. split; [|split; [done|]].
  - clear Hn Hr. induction H as [|n p ns l Hp _ IH]; [done|]. cbn. by rewrite IH, Hp.
  - rewrite list.Forall_forall in *. intros n Hx. specialize (Hr n Hx). lia.
Qed.

Definition list_ids (n : Z) (k : nat) : list literal_id := HeaderId n :: (NodeId n <$> seq 0 k).

Definition of_list (id : literal_id) : Prop :=
  match id with HeaderId _ | NodeId _ _ => True | _ => False end.

Lemma list_ids_of n k id : id ∈ list_ids n k -> number_of id = n /\ of_list id.
Proof.
  intros [->|H]%elem_of_cons; [done|]. by apply list_elem_of_fmap in H as (i & -> & _).
Qed.

Lemma list_ids_NoDup n k : NoDup (list_ids n k).
Proof.
  apply list.NoDup_cons. split.
  - intros H. by apply list_elem_of_fmap in H as (i & ? & _).
  - apply NoDup_fmap_2; [by intros i j [= ->] | apply NoDup_seq].
Qed.

Lemma all_ids_of ns ks id :
  id ∈ concat (zip_with list_ids ns ks) -> number_of id ∈ ns /\ of_list id.
Proof.
  revert ks. induction ns as [|n ns IH]; intros [|k ks]; cbn [zip_with concat];
    try by intros ?%not_elem_of_nil.
  rewrite elem_of_app. intros [[<- H]%list_ids_of|[H ?]%IH]; (split; [|done]);
    rewrite elem_of_cons; [by left | by right].
Qed.

Lemma all_ids_NoDup ns ks : NoDup ns -> NoDup (concat (zip_with list_ids ns ks)).
Proof.
  intros Hn. revert ks. induction Hn as [|n ns Hn _ IH]; [constructor|]. intros [|k ks]; cbn [zip_with concat];
    [constructor|].
  apply list.NoDup_app. split; [apply list_ids_NoDup|]. split; [|apply IH].
  intros id [E _]%list_ids_of [H _]%all_ids_of. by rewrite E in H.
Qed.

Lemma extends_lists hi (l : list ListLiteralInfo) :
  extends list_named 0 hi [] l ->
  exists ids, concat (info_labels <$> l) = label_of <$> ids /\ NoDup ids
    /\ Forall (fun id => 0 <= number_of id /\ of_list id) ids.
Proof.
  intros (_ & ns & new & E & H & Hn & Hr). cbn in E. subst new.
  exists (concat (zip_with list_ids ns ((length ∘ nodes) <$> l))). split; [|split].
  - clear Hn Hr. induction H as [|n p ns l [H1 H2 _] _ IH]; [done|]. cbn in *.
    rewrite IH, fmap_app, H1, H2. unfold node_labels. by rewrite <-list_fmap_compose.
  - by apply all_ids_NoDup.
  - rewrite list.Forall_forall in Hr. apply list.Forall_forall. intros id [H1 H2]%all_ids_of.
    specialize (Hr _ H1). split; [lia | done].
Qed.

Lemma rodata_labels_NoDup ops d : run_data ops DataGenerator_new = Some d -> NoDup (rodata_labels d).
Proof.
  intros [[G1 G2 G3 G4 G5] _]%run_data_grows. cbn in *.
  apply extends_names in G1 as (n1 & E1 & H1 & P1), G2 as (n2 & E2 & H2 & P2),
    G3 as (n3 & E3 & H3 & P3), G4 as (n4 & E4 & H4 & P4).
  apply extends_lists in G5 as (ids & E5 & H5 & P5).
  unfold rodata_labels. rewrite E1, E2, E3, E4, E5, !list_fmap_compose, <-!fmap_app.
  rewrite list.Forall_forall in P1, P2, P3, P4. rewrite list.Forall_forall in P5.
  assert (Hpos : forall id, id ∈ (StringId <$> n1) ++ (FloatId <$> n2) ++ (TableId <$> n3)
                               ++ (FloatTableId <$> n4) ++ ids -> 0 <= number_of id).
  { intros id. rewrite !elem_of_app, !list_elem_of_fmap. naive_solver. }
  apply NoDup_fmap_2_strong.
  { intros a b Ha Hb. apply label_of_inj; by apply Hpos. }
  repeat (apply list.NoDup_app; split; [apply NoDup_fmap_2; [by intros ?? [= ->] | done]|split]);
    try done; intros id; rewrite ?elem_of_app, !list_elem_of_fmap; intros (n & -> & _); naive_solver.
Qed.

(** *** The stream *)

(** The labels a stream defines and the labels its entries are relocated against. *)
Definition stream_labels (s : InstructionStream) : list string := labels (instructions s).
Definition targets (s : InstructionStream) : list string :=
  target_label <$> filter (fun i => relocation i <> NONE) (instructions s).

(** [f] adds the labels [ls] and the targets [ts]. *)
Definition writes (f : InstructionStream -> InstructionStream) (ls ts : list string) : Prop :=
  forall s, stream_labels (f s) = stream_labels s ++ ls /\ targets (f s) = targets s ++ ts.

Lemma writes_comp f g l1 l2 t1 t2 :
  writes f l1 t1 -> writes g l2 t2 -> writes (fun s => g (f s)) (l1 ++ l2) (t1 ++ t2).
Proof.
  intros F G s. destruct (F s) as [F1 F2], (G (f s)) as [G1 G2].
  by rewrite G1, G2, F1, F2, !app_assoc.
Qed.

Lemma writes_foldl {A} (f : InstructionStream -> A -> InstructionStream) (lf tf : A -> list string) l :
  (forall x, x ∈ l -> writes (fun s => f s x) (lf x) (tf x)) ->
  writes (fun s => foldl f s l) (concat (lf <$> l)) (concat (tf <$> l)).
Proof.
  induction l as [|x l IH]; cbn; intros H.
  - intros s. by rewrite !app_nil_r.
  - apply (writes_comp (fun s => f s x) (fun s => foldl f s l)).
    + apply H. by left.
    + apply IH. intros y Hy. apply H. by right.
Qed.

Lemma writes_add i :
  writes (fun s => add s i) (if is_label_definition i then [target_label i] else [])
    (if decide (relocation i = NONE) then [] else [target_label i]).
Proof.
  intros s. unfold stream_labels, targets, labels, add. cbn. rewrite !list_basics.list.filter_app, !fmap_app.
  split; f_equal; unfold filter; cbn.
  - destruct (is_label_definition i) eqn:E; by case_decide.
  - destruct (decide (relocation i = NONE)) as [E|E]; by case_decide.
Qed.

Lemma writes_label l seg : writes (fun s => add s (as_label l seg)) [l] [].
Proof. apply writes_add. Qed.

Lemma writes_data32 v seg : writes (fun s => add_data32 s v "" seg) [] [].
Proof. apply writes_add. Qed.

Lemma writes_data64 v seg : writes (fun s => add_data64 s v "" seg) [] [].
Proof. intros s. unfold add_data64. cbn [negb string_empty set_label_if].
  match goal with |- context [add (add s ?i) ?j] => apply (writes_comp (fun s => add s i) (fun s => add s j) [] [] [] []) end;
    apply writes_add.
Qed.

Lemma writes_id : writes (fun s => s) [] [].
Proof. intros s. by rewrite !app_nil_r. Qed.

Lemma concat_nils {A B} (l : list A) : concat ((fun _ => []) <$> l) = @nil B.
Proof. by induction l. Qed.

Lemma writes_fold_nil {A} (f : InstructionStream -> A -> InstructionStream) l :
  (forall x, writes (fun s => f s x) [] []) -> writes (fun s => foldl f s l) [] [].
Proof.
  intros H. pose proof (writes_foldl f (fun _ => []) (fun _ => []) l (fun x _ => H x)) as W.
  by rewrite !concat_nils in W.
Qed.

Lemma writes_zeros k : writes (repeat_add k (fun s => add_data32 s 0 "" Instr.DATA)) [] [].
Proof.
  induction k as [|k IH]; [apply writes_id|].
  exact (writes_comp _ (repeat_add k _) [] [] [] [] (writes_data32 0 Instr.DATA) IH).
Qed.

Lemma writes_padding a : writes (fun s => add_data_padding s a) [] [].
Proof.
  intros s. unfold add_data_padding. repeat case_match; try apply writes_id. apply writes_zeros.
Qed.

Lemma writes_pointer l seg : writes (fun s => emit_absolute_pointer s l seg) [] [l; l].
Proof.
  intros s. unfold emit_absolute_pointer.
  match goal with |- context [add (add s ?i) ?j] =>
    apply (writes_comp (fun s => add s i) (fun s => add s j) [] [] [l] [l]) end; apply writes_add.
Qed.

Lemma writes_words l : writes (emit_words l) [] [].
Proof. apply writes_fold_nil. intros v. apply writes_data64. Qed.

Definition pointer_targets (l : string) : list string := if string_empty l then [] else [l; l].

Lemma writes_pointer_or_null l : writes (emit_pointer_or_null l) [] (pointer_targets l).
Proof.
  unfold emit_pointer_or_null, pointer_targets.
  destruct (string_empty l); [apply writes_data64 | apply writes_pointer].
Qed.

Lemma writes_string info : writes (fun s => emit_string s info) [info.1] [].
Proof.
  apply (writes_comp (fun s => foldl _ (add_data64 (add s _) _ _ _) _) (fun s => add_data_padding s 8)
           [_] [] [] []); [|apply writes_padding].
  apply (writes_comp (fun s => add_data64 (add s _) _ _ _) (fun s => foldl _ s _) [_] [] [] []);
    [|apply writes_fold_nil; intros; apply writes_data32].
  apply (writes_comp (fun s => add s _) (fun s => add_data64 s _ _ _) [_] [] [] []);
    [apply writes_label | apply writes_data64].
Qed.

Lemma writes_labelled l ws : writes (fun s => emit_words ws (add s (as_label l RODATA))) [l] [].
Proof.
  apply (writes_comp (fun s => add s _) (emit_words ws) [_] [] [] []);
    [apply writes_label | apply writes_words].
Qed.

Definition node_targets (n : ListLiteralNode) : list string :=
  (if value_is_ptr n then [value_ptr_label n; value_ptr_label n] else [])
  ++ pointer_targets (next_node_label n).

Lemma writes_node n : writes (fun s => emit_node s n) [node_label n] (node_targets n).
Proof.
  unfold emit_node, node_targets.
  apply (writes_comp (fun s => if value_is_ptr n then _ else _) (emit_pointer_or_null _) [_] []);
    [|apply writes_pointer_or_null].
  assert (W : writes (fun s => add_data32 (add_data32 (add s (as_label (node_label n) RODATA)) (type_tag n) "" RODATA)
                0 "" RODATA) [node_label n] []).
  { apply (writes_comp (fun s => add_data32 (add s _) _ _ _) (fun s => add_data32 s _ _ _) [_] [] [] []);
      [|apply writes_data32].
    apply (writes_comp (fun s => add s _) (fun s => add_data32 s _ _ _) [_] [] [] []);
      [apply writes_label | apply writes_data32]. }
  destruct (value_is_ptr n).
  - exact (writes_comp _ _ _ [] [] _ W (writes_pointer _ _)).
  - exact (writes_comp _ _ _ [] [] [] W (writes_data64 _ _)).
Qed.

Definition list_targets (info : ListLiteralInfo) : list string :=
  pointer_targets (List.last (List.map node_label (nodes info)) "")
  ++ pointer_targets (List.hd "" (List.map node_label (nodes info)))
  ++ concat (node_targets <$> nodes info).

Lemma writes_list info : writes (fun s => emit_list s info) (info_labels info) (list_targets info).
Proof.
  unfold emit_list, info_labels, list_targets.
  pose proof (writes_label (header_label info) RODATA) as W.
  pose proof (writes_comp _ _ _ _ _ _ W (writes_data32 ATOM_SENTINEL RODATA)) as W1.
  pose proof (writes_comp _ _ _ _ _ _ W1 (writes_data32 0 RODATA)) as W2.
  pose proof (writes_comp _ _ _ _ _ _ W2
    (writes_pointer_or_null (List.last (List.map node_label (nodes info)) ""))) as W3.
  pose proof (writes_comp _ _ _ _ _ _ W3
    (writes_pointer_or_null (List.hd "" (List.map node_label (nodes info))))) as W4.
  pose proof (writes_comp _ _ _ _ _ _ W4 (writes_data64 (list_length info) RODATA)) as W5.
  pose proof (writes_comp _ _ _ _ _ _ W5
    (writes_foldl emit_node (fun n => [node_label n]) node_targets (nodes info)
       (fun n _ => writes_node n))) as W6.
  intros s. destruct (W6 s) as [H1 H2]. split.
  - rewrite H1. cbn [app]. f_equal. f_equal.
    clear. by induction (nodes info) as [|n l IH]; [|cbn; f_equal].
  - rewrite H2. by rewrite <-!app_assoc.
Qed.

Lemma writes_rodata d :
  writes (generate_rodata_section d) (rodata_labels d) (concat (list_targets <$> list_literals d)).
Proof.
  assert (Hone : forall A (f : InstructionStream -> string * A -> InstructionStream) l,
    (forall x, writes (fun s => f s x) [x.1] []) -> writes (fun s => foldl f s l) l.*1 []).
  { intros A f l H. pose proof (writes_foldl f (fun x => [x.1]) (fun _ => []) l (fun x _ => H x)) as W.
    rewrite concat_nils in W. replace (concat ((fun x => [x.1]) <$> l)) with l.*1 in W; [exact W|].
    clear. by induction l as [|x l IH]; [|cbn; f_equal]. }
  unfold generate_rodata_section, rodata_labels.
  exact (writes_comp _ _ _ _ [] _ (Hone _ emit_string _ writes_string)
    (writes_comp _ _ _ _ [] _ (Hone _ emit_float _ (fun x => writes_labelled x.1 _))
    (writes_comp _ _ _ _ [] _ (Hone _ emit_table _ (fun x => writes_labelled x.1 _))
    (writes_comp _ _ _ _ [] _ (Hone _ emit_float_table _ (fun x => writes_labelled x.1 _))
      (writes_foldl emit_list info_labels list_targets _ (fun x _ => writes_list x)))))).
Qed.

Lemma pointer_targets_in l x : x ∈ pointer_targets l -> x = l /\ l <> ""%string.
Proof.
  unfold pointer_targets. destruct l; cbn; [by intros ?%not_elem_of_nil|].
  intros [->|[->|[]%not_elem_of_nil]%elem_of_cons]%elem_of_cons; done.
Qed.

Lemma refs_rodata d l : l ∈ refs d -> l ∈ rodata_labels d.
Proof.
  unfold refs, rodata_labels. rewrite !elem_of_app. intros [H|H]; [by left|]. do 4 right.
  apply list_elem_of_fmap in H as (i & -> & Hi). apply list_elem_of_In, in_concat.
  exists (info_labels i). split; [|by left]. apply list_elem_of_In, list_elem_of_fmap. eauto.
Qed.

Lemma list_targets_in d info l n :
  closed d -> list_named n info -> info ∈ list_literals d -> l ∈ list_targets info ->
  l ∈ rodata_labels d.
Proof.
  intros [_ _ _ Cp] [_ _ Hnext] Hi Hl.
  assert (Hnode : forall x, x ∈ node_label <$> nodes info -> x ∈ rodata_labels d).
  { intros x Hx. unfold rodata_labels. rewrite !elem_of_app. do 4 right.
    apply list_elem_of_In, in_concat. exists (info_labels info). split.
    - apply list_elem_of_In, list_elem_of_fmap. eauto.
    - right. by apply list_elem_of_In. }
  unfold list_targets in Hl. rewrite !elem_of_app in Hl. destruct Hl as [Hl|[Hl|Hl]].
  - apply pointer_targets_in in Hl as [-> Hne]. apply Hnode.
    destruct (nodes info) as [|nd ns] using rev_ind; [done|].
    rewrite map_app. cbn [List.map]. rewrite List.last_last, fmap_app, elem_of_app. right. by left.
  - apply pointer_targets_in in Hl as [-> Hne]. apply Hnode.
    destruct (nodes info); [done|]. by left.
  - apply list_elem_of_In, in_concat in Hl as (ts & Hts & Hl).
    apply list_elem_of_In, list_elem_of_fmap in Hts as (nd & -> & Hnd).
    apply list_elem_of_In in Hl. unfold node_targets in Hl. apply elem_of_app in Hl as [Hl|Hl].
    + destruct (value_is_ptr nd) eqn:E; [|by apply not_elem_of_nil in Hl].
      apply refs_rodata. specialize (Cp info nd Hi Hnd E).
      by apply elem_of_cons in Hl as [->|[->|[]%not_elem_of_nil]%elem_of_cons].
    + apply pointer_targets_in in Hl as [-> Hne]. destruct (Hnext nd Hnd); [done | auto].
Qed.

Lemma extends_named {A} (R : Z -> A -> Prop) lo hi l x : extends R lo hi [] l -> x ∈ l -> exists n, R n x.
Proof.
  intros (_ & ns & new & -> & H & _). cbn. induction H as [|n y ns l Hy _ IH]; [by intros ?%not_elem_of_nil|].
  intros [->|Hx]%elem_of_cons; eauto.
Qed.

Lemma closed_new : closed DataGenerator_new.
Proof.
  split; cbn; [by intros v l ?%lookup_empty_Some | by intros p ?%not_elem_of_nil
              | by intros v l ?%lookup_empty_Some | by intros info n ?%not_elem_of_nil].
Qed.

(** *** The words of the literals *)

(** A 64-bit value as two words, the lower half first. *)
Definition halves (v : Z) : list Z := [v mod 2 ^ 32; v / 2 ^ 32 mod 2 ^ 32].

(** The section has the label and, right after it, the words, as read-only data. *)
Definition holds_words (l : string) (ws : list Z) (s : list Instruction) : Prop :=
  exists before i entry after, s = before ++ i :: entry ++ after
    /\ is_label_definition i = true /\ target_label i = l /\ segment i = RODATA
    /\ encoding <$> entry = ws
    /\ Forall (fun j => segment j = RODATA /\ is_data_value j = true /\ relocation j = NONE) entry.

(** What stands at the label of a literal. *)
Definition holds (op : data_op) (l : string) (s : list Instruction) : Prop :=
  match op with
  | AddString v => exists cs, utf8_to_utf32 (bytes_of v) = Decoded cs
      /\ holds_words l (halves (u64 (Z.of_nat (length cs))) ++ cs ++ [0; 0]) s
  | AddFloat f => exists g, (g = f \/ same_key g f = true) /\ holds_words l (halves (float_bits g)) s
  | AddTable es => exists vs, integers es vs
      /\ holds_words l (halves (Z.of_nat (length vs)) ++ concat (List.map (fun v => halves (u64 v)) vs)) s
  | AddFloatTable es => exists vs, numbers es vs
      /\ holds_words l (halves (Z.of_nat (length vs)) ++ concat (List.map (fun v => halves (float_bits v)) vs)) s
  | AddList _ => l ∈ labels s
  | AddGlobal _ _ => True
  end.

(** [f] appends the words, and perhaps more. *)
Definition appends (f : InstructionStream -> InstructionStream) (ws : list Z) : Prop := forall s,
  exists entry after, instructions (f s) = instructions s ++ entry ++ after /\ encoding <$> entry = ws
    /\ Forall (fun j => segment j = RODATA /\ is_data_value j = true /\ relocation j = NONE) entry.
(** ... and nothing more. *)
Definition appends_only (f : InstructionStream -> InstructionStream) (ws : list Z) : Prop := forall s,
  exists entry, instructions (f s) = instructions s ++ entry /\ encoding <$> entry = ws
    /\ Forall (fun j => segment j = RODATA /\ is_data_value j = true /\ relocation j = NONE) entry.
Definition prolongs (f : InstructionStream -> InstructionStream) : Prop := forall s,
  exists after, instructions (f s) = instructions s ++ after.

Lemma appends_both f g ws ws' : appends_only f ws -> appends_only g ws' -> appends_only (fun s => g (f s)) (ws ++ ws').
Proof.
  intros F G s. destruct (F s) as (e & E & W & R), (G (f s)) as (e' & E' & W' & R').
  exists (e ++ e'). by rewrite E', E, app_assoc, fmap_app, W, W', list.Forall_app.
Qed.

Lemma prolongs_both f g : prolongs f -> prolongs g -> prolongs (fun s => g (f s)).
Proof.
  intros F G s. destruct (F s) as [t E], (G (f s)) as [t' E']. exists (t ++ t'). by rewrite E', E, app_assoc.
Qed.

Lemma prolongs_fold {A} (f : InstructionStream -> A -> InstructionStream) l :
  (forall x, prolongs (fun s => f s x)) -> prolongs (fun s => foldl f s l).
Proof.
  intros H. induction l as [|x l IH]; [intros s; exists []; by rewrite app_nil_r|].
  exact (prolongs_both _ _ (H x) IH).
Qed.

Lemma appends_data32 v : appends_only (fun s => add_data32 s v "" RODATA) [v].
Proof. intros s. eexists [_]. split_and!; [reflexivity | reflexivity |]. by repeat constructor. Qed.

Lemma appends_data64 v : appends_only (fun s => add_data64 s v "" RODATA) (halves v).
Proof.
  intros s. unfold add_data64, add. cbn [instructions]. rewrite <-app_assoc. eexists [_; _].
  split_and!; [reflexivity | |by repeat constructor]. cbn. unfold halves, u32.
  change 0xFFFFFFFF with (Z.ones 32). by rewrite Z.land_ones, Z.shiftr_div_pow2 by lia.
Qed.

Lemma appends_fold {A} (f : InstructionStream -> A -> InstructionStream) (ws : A -> list Z) l :
  (forall x, appends_only (fun s => f s x) (ws x)) -> appends_only (fun s => foldl f s l) (concat (List.map ws l)).
Proof.
  intros H. induction l as [|x l IH]; [intros s; exists []; rewrite app_nil_r; by repeat constructor|].
  exact (appends_both _ _ _ _ (H x) IH).
Qed.

Lemma appends_words l : appends_only (emit_words l) (concat (List.map halves l)).
Proof. apply (appends_fold (fun s v => add_data64 s v "" RODATA)), appends_data64. Qed.

(** The data after a label, with what the generator writes after it. *)
Lemma label_holds l f ws s : appends f ws -> holds_words l ws (instructions (f (add s (as_label l RODATA)))).
Proof.
  intros F. destruct (F (add s (as_label l RODATA))) as (entry & after & -> & W & R).
  unfold add. cbn [instructions]. rewrite <-app_assoc. by exists (instructions s), (as_label l RODATA), entry, after.
Qed.

Lemma appends_weaken f ws : appends_only f ws -> appends f ws.
Proof. intros F s. destruct (F s) as (e & E & H). exists e, []. by rewrite app_nil_r. Qed.

Lemma holds_words_longer l ws s t : holds_words l ws s -> holds_words l ws (s ++ t).
Proof.
  intros (b & i & e & a & -> & H). exists b, i, e, (a ++ t). split; [|exact H].
  by rewrite <-app_assoc, <-app_comm_cons, <-app_assoc.
Qed.

Lemma holds_prolonged l ws f s : prolongs f -> holds_words l ws (instructions s) -> holds_words l ws (instructions (f s)).
Proof. intros F H. destruct (F s) as [t ->]. by apply holds_words_longer. Qed.

(** A literal of a table is written when the table is. *)
Lemma fold_holds {A} (f : InstructionStream -> string * A -> InstructionStream) l x ws s :
  (forall y, prolongs (fun s => f s y)) ->
  (forall s, holds_words x.1 ws (instructions (f s x))) ->
  x ∈ l -> holds_words x.1 ws (instructions (foldl f s l)).
Proof.
  intros P W. revert s. induction l as [|y l IH]; intros s; [by intros ?%not_elem_of_nil|]. cbn [foldl].
  intros [->|Hx]%elem_of_cons; [|by apply IH]. by apply (holds_prolonged _ _ (fun s => foldl f s l)); [apply prolongs_fold|].
Qed.

Lemma prolongs_add i : prolongs (fun s => add s i).
Proof. intros s. by exists [set_address 0 i]. Qed.

Lemma prolongs_appends f ws : appends f ws -> prolongs f.
Proof. intros F s. destruct (F s) as (e & t & -> & _). by eexists. Qed.

Lemma prolongs_padding a : prolongs (fun s => add_data_padding s a).
Proof.
  assert (R : forall k, prolongs (repeat_add k (fun s => add_data32 s 0 "" Instr.DATA))).
  { induction k as [|k IH]; [intros s; exists []; by rewrite app_nil_r|].
    exact (prolongs_both _ _ (prolongs_add _) IH). }
  intros s. unfold add_data_padding. repeat case_match; try apply R; exists []; by rewrite app_nil_r.
Qed.

Lemma prolongs_pointer l : prolongs (emit_pointer_or_null l).
Proof.
  unfold emit_pointer_or_null. destruct (string_empty l).
  - apply (prolongs_appends _ (halves 0)), appends_weaken, appends_data64.
  - exact (prolongs_both _ _ (prolongs_add _) (prolongs_add _)).
Qed.

Lemma prolongs_data32 v : prolongs (fun s => add_data32 s v "" RODATA).
Proof. apply prolongs_add. Qed.
Lemma prolongs_data64 v : prolongs (fun s => add_data64 s v "" RODATA).
Proof. exact (prolongs_both _ _ (prolongs_add _) (prolongs_add _)). Qed.
Lemma prolongs_absolute l : prolongs (fun s => emit_absolute_pointer s l RODATA).
Proof. exact (prolongs_both _ _ (prolongs_add _) (prolongs_add _)). Qed.

Lemma prolongs_node n : prolongs (fun s => emit_node s n).
Proof.
  unfold emit_node. apply (prolongs_both _ (emit_pointer_or_null _)); [|apply prolongs_pointer].
  destruct (value_is_ptr n);
    [apply (prolongs_both _ (fun s => emit_absolute_pointer s _ RODATA)); [|apply prolongs_absolute]
    |apply (prolongs_both _ (fun s => add_data64 s _ "" RODATA)); [|apply prolongs_data64]];
    exact (prolongs_both _ _ (prolongs_both _ _ (prolongs_add _) (prolongs_data32 _)) (prolongs_data32 _)).
Qed.

Lemma prolongs_list info : prolongs (fun s => emit_list s info).
Proof.
  pose proof (prolongs_both _ _ (prolongs_add (as_label (header_label info) RODATA)) (prolongs_data32 ATOM_SENTINEL)) as P.
  pose proof (prolongs_both _ _ P (prolongs_data32 0)) as P1.
  pose proof (prolongs_both _ _ P1 (prolongs_pointer (List.last (List.map node_label (nodes info)) ""))) as P2.
  pose proof (prolongs_both _ _ P2 (prolongs_pointer (List.hd "" (List.map node_label (nodes info))))) as P3.
  pose proof (prolongs_both _ _ P3 (prolongs_data64 (list_length info))) as P4.
  exact (prolongs_both _ _ P4 (prolongs_fold emit_node (nodes info) prolongs_node)).
Qed.

(** The words of the four kinds of literals. *)
Lemma string_holds x cs s : x.2 = cs ++ [0; 0] ->
  holds_words x.1 (halves (u64 (Z.of_nat (length cs))) ++ cs ++ [0; 0]) (instructions (emit_string s x)).
Proof.
  intros E. unfold emit_string.
  apply (label_holds x.1 (fun s => add_data_padding (foldl (fun s ch => add_data32 s ch "" RODATA)
    (add_data64 s (u64 (Z.of_nat (length x.2) - 2)) "" RODATA) x.2) 8)).
  pose proof (appends_both _ _ _ _ (appends_data64 (u64 (Z.of_nat (length x.2) - 2)))
    (appends_fold (fun s ch => add_data32 s ch "" RODATA) (fun ch => [ch]) x.2 appends_data32)) as A.
  replace (concat (List.map (fun ch => [ch]) x.2)) with (cs ++ [0; 0]) in A.
  2: { rewrite E. generalize (cs ++ [0; 0]) as l. induction l as [|c l IH]; [done|]. cbn. by f_equal. }
  replace (Z.of_nat (length x.2) - 2) with (Z.of_nat (length cs)) in A by (rewrite E, length_app; cbn; lia).
  replace (Z.of_nat (length x.2) - 2) with (Z.of_nat (length cs)) by (rewrite E, length_app; cbn; lia).
  intros s'. destruct (A s') as (e & E1 & W & R).
  match goal with |- context [add_data_padding ?s 8] => destruct (prolongs_padding 8 s) as [t E2] end.
  exists e, t. rewrite E2, E1, <-app_assoc. auto.
Qed.

Lemma words_hold l vs s : holds_words l (concat (List.map halves vs)) (instructions (emit_words vs (add s (as_label l RODATA)))).
Proof. apply label_holds, appends_weaken, appends_words. Qed.

Lemma prolongs_words l vs : prolongs (fun s => emit_words vs (add s (as_label l RODATA))).
Proof.
  apply (prolongs_both _ (emit_words vs)); [apply prolongs_add|].
  apply (prolongs_appends _ (concat (List.map halves vs))), appends_weaken, appends_words.
Qed.

Lemma prolongs_string x : prolongs (fun s => emit_string s x).
Proof.
  unfold emit_string. apply (prolongs_both _ (fun s => add_data_padding s 8)); [|apply prolongs_padding].
  apply (prolongs_both _ (fun s => foldl _ s x.2)); [|apply prolongs_fold; intros; apply prolongs_data32].
  exact (prolongs_both _ _ (prolongs_add _) (prolongs_data64 _)).
Qed.

Lemma prolongs_float x : prolongs (fun s => emit_float s x).
Proof. apply prolongs_words. Qed.
Lemma prolongs_table x : prolongs (fun s => emit_table s x).
Proof. apply prolongs_words. Qed.
Lemma prolongs_float_table x : prolongs (fun s => emit_float_table s x).
Proof. apply prolongs_words. Qed.

(** What is collected is written. *)
Lemma collected_holds op l d s : collected op l d ->
  holds op l (instructions (generate_rodata_section d s))
  \/ exists e, op = AddList e.
Proof.
  intros H. unfold generate_rodata_section. destruct op as [v|f|es|es|e|name e]; [| | | |right; by eexists|by left]; left.
  all: destruct H as (x & Hx & Hin); exists x; (split; [exact Hx|]).
  - do 4 (match goal with |- holds_words _ _ (instructions (foldl ?f _ ?k)) =>
      apply (holds_prolonged _ _ (fun s => foldl f s k)); [apply prolongs_fold;
        first [apply prolongs_list | apply prolongs_float_table | apply prolongs_table | apply prolongs_float]|] end).
    apply (fold_holds emit_string _ (l, x ++ [0; 0])); [apply prolongs_string | | exact Hin].
    intros s'. by apply string_holds.
  - do 3 (match goal with |- holds_words _ _ (instructions (foldl ?f _ ?k)) =>
      apply (holds_prolonged _ _ (fun s => foldl f s k)); [apply prolongs_fold;
        first [apply prolongs_list | apply prolongs_float_table | apply prolongs_table]|] end).
    apply (fold_holds emit_float _ (l, x)); [apply prolongs_float | | exact Hin].
    intros s'. unfold emit_float. pose proof (words_hold l [float_bits x] s') as W. cbn in W. exact W.
  - do 2 (match goal with |- holds_words _ _ (instructions (foldl ?f _ ?k)) =>
      apply (holds_prolonged _ _ (fun s => foldl f s k)); [apply prolongs_fold;
        first [apply prolongs_list | apply prolongs_float_table]|] end).
    apply (fold_holds emit_table _ (l, x)); [apply prolongs_table | | exact Hin].
    intros s'. unfold emit_table. pose proof (words_hold l (Z.of_nat (length x) :: List.map u64 x) s') as W.
    cbn [List.map concat] in W. rewrite List.map_map in W. exact W.
  - match goal with |- holds_words _ _ (instructions (foldl ?f _ ?k)) =>
      apply (holds_prolonged _ _ (fun s => foldl f s k)); [apply prolongs_fold; apply prolongs_list|] end.
    apply (fold_holds emit_float_table _ (l, x)); [apply prolongs_float_table | | exact Hin].
    intros s'. unfold emit_float_table.
    pose proof (words_hold l (Z.of_nat (length x) :: List.map float_bits x) s') as W.
    cbn [List.map concat] in W. rewrite List.map_map in W. exact W.
Qed.

(** *** The labels come from the literals *)

Definition adds_list (op : data_op) : bool := match op with AddList _ => true | _ => false end.

Lemma step_labels op d d' l x : data_step op d = (d', Done l) -> adds_list op = false ->
  x ∈ rodata_labels d' -> x ∈ rodata_labels d \/ (x = l /\ match op with AddGlobal _ _ => False | _ => True end).
Proof.
  intros H Hop. unfold rodata_labels.
  destruct op as [v|f|es|es|e|name e]; try discriminate Hop; cbn [data_step] in H.
  - unfold add_string_literal in H. repeat case_match; simplify_eq; cbn; rewrite ?fmap_app, !elem_of_app; set_solver.
  - unfold add_float_literal in H. repeat case_match; simplify_eq; cbn; rewrite ?fmap_app, !elem_of_app; set_solver.
  - unfold add_table_literal in H. repeat case_match; simplify_eq; cbn; rewrite ?fmap_app, !elem_of_app; set_solver.
  - unfold add_float_table_literal in H. repeat case_match; simplify_eq; cbn; rewrite ?fmap_app, !elem_of_app; set_solver.
  - injection H as <- <-. cbn. auto.
Qed.

Lemma labels_handed ops d d' x : run_data ops d = Some d' -> Forall (fun op => adds_list op = false) ops ->
  x ∈ rodata_labels d' -> x ∈ rodata_labels d \/ x ∈ (handed ops d).*2.
Proof.
  intros H Hl. revert d H. induction Hl as [|op ops Hop _ IH]; intros d; cbn; [intros [= ->]; by left|].
  destruct (data_step op d) as [d1 [l|e|]] eqn:E; [|done..]. intros H Hx.
  destruct (IH d1 H Hx) as [Hd|Hd]; [|right; cbn; rewrite elem_of_cons; by right].
  destruct (step_labels _ _ _ _ _ E Hop Hd) as [?|[-> _]]; [by left|]. right. by left.
Qed.

(** C30: after any successful sequence of literals (strings, floating-point numbers, tables,
    nested lists) the read-only section written to an empty stream has, for every literal, the
    label that was handed out for it, followed by the words of the literal: the length, the
    code points and two zeros of a string, the bits of a floating-point number, the length
    and the elements of a table (of a list, here, only the label).  No label is defined twice;
    without lists every label was handed out; and every entry that is relocated refers to a
    label of the section, so that the address pass of the linker accepts it. *)
Theorem rodata_well_formed ops d :
  run_data ops DataGenerator_new = Some d ->
  let s := instructions (generate_rodata_section d (mkInstructionStream [])) in
  (forall op l, (op, l) ∈ handed ops DataGenerator_new -> holds op l s)
  /\ (Forall (fun op => adds_list op = false) ops -> forall l, l ∈ labels s -> l ∈ (handed ops DataGenerator_new).*2)
  /\ NoDup (labels s)
  /\ (forall i, i ∈ s -> relocation i <> NONE -> target_label i ∈ labels s)
  /\ (forall base data, is_ok (assignAddressesAndResolveLabels s LabelManager_empty base data) = true).
Proof.
  intros H s. destruct (writes_rodata d (mkInstructionStream [])) as [Hl Ht].
  fold s in Ht. unfold stream_labels in Hl. fold s in Hl. change (labels s = rodata_labels d) in Hl.
  pose proof (rodata_labels_NoDup ops d H) as Hn. pose proof (run_data_grows _ _ _ H) as [G C].
  split; [|split; [|split; [by rewrite Hl|split]]].
  - intros op l Hin. pose proof (handed_collected _ _ _ _ _ H closed_new Hin) as Hc.
    destruct (collected_holds op l d (mkInstructionStream []) Hc) as [|[e ->]]; [done|].
    cbn [holds]. rewrite Hl. by apply refs_rodata.
  - intros Hf l Hin. rewrite Hl in Hin. destruct (labels_handed _ _ _ _ H Hf Hin) as [Hx|]; [|done].
    by apply not_elem_of_nil in Hx.
  - intros i Hi Hr. rewrite Hl.
    assert (Hin : target_label i ∈ targets (generate_rodata_section d (mkInstructionStream []))).
    { unfold targets. apply list_elem_of_fmap. exists i. split; [done|]. by apply list_elem_of_filter. }
    rewrite Ht in Hin. cbn [app targets] in Hin.
    change (target_label i ∈ concat (list_targets <$> list_literals d)) in Hin.
    apply list_elem_of_In, in_concat in Hin as (ts & Hts & Hin).
    apply list_elem_of_In, list_elem_of_fmap in Hts as (info & -> & Hinfo).
    destruct (extends_named _ _ _ _ _ (g_lists _ _ G) Hinfo) as (n & Hnm).
    apply list_elem_of_In in Hin. eapply list_targets_in; try done. apply C, closed_new.
  - intros base data. unfold assignAddressesAndResolveLabels. apply assign_loop_Ok_iff.
    rewrite Hl. split; [done|]. intros l _. apply lookup_empty.
Qed.

Definition sample_list : Expression :=
  ListExpression [NumberLiteral (Integer 7); StringLiteral "abc";
                  ListExpression [StringLiteral "abc"] true] true.

(** Two tables; the words of the second stand at the label that was handed out for it. *)
Lemma rodata_well_formed_witness :
  let table v := AddTable [NumberLiteral (Integer v)] in
  exists d, run_data [table 5; AddList sample_list; table (-1)] DataGenerator_new = Some d
            /\ let s := instructions (generate_rodata_section d (mkInstructionStream [])) in
               NoDup (labels s) /\ holds_words "L_tbl1" [1; 0; 0xFFFFFFFF; 0xFFFFFFFF] s.
Proof.
  intros table. eexists. split; [vm_compute; reflexivity|]. intros s.
  destruct (rodata_well_formed [table 5; AddList sample_list; table (-1)] _ ltac:(vm_compute; reflexivity))
    as (Hh & _ & Hn & _). split; [exact Hn|].
  destruct (Hh (table (-1)) "L_tbl1") as (vs & Hv & Hw).
  - vm_compute. do 2 right. left.
  - destruct vs as [|v [|]]; try discriminate Hv. injection Hv as <-. exact Hw.
Defined.

(** ** UTF-8 *)

(** The encoding of a code point, from the standard. *)
Definition utf8_encode (c : Z) : list Z :=
  let tail k := 0x80 + (c / 64 ^ k) mod 64 in
  if c <? 0x80 then [c]
  else if c <? 0x800 then [0xC0 + c / 64; tail 0]
  else if c <? 0x10000 then [0xE0 + c / 64 ^ 2; tail 1; tail 0]
  else [0xF0 + c / 64 ^ 3; tail 2; tail 1; tail 0].

Lemma lor_shiftl a b n : 0 <= n -> 0 <= b < 2 ^ n -> Z.lor (Z.shiftl a n) b = a * 2 ^ n + b.
Proof.
  intros Hn Hb. rewrite <-Z.shiftl_mul_pow2 by done. symmetry. apply Z.add_nocarry_lor.
  apply Z.bits_inj'. intros i Hi. rewrite Z.land_spec, Z.bits_0.
  destruct (decide (i < n)) as [H|H].
  - by rewrite Z.shiftl_spec_low.
  - replace (Z.testbit b i) with false; [apply andb_false_r|]. symmetry.
    destruct (decide (b = 0)) as [->|Hb0]; [apply Z.bits_0|].
    apply Z.bits_above_log2; [lia|]. apply Z.lt_le_trans with n; [|lia]. apply Z.log2_lt_pow2; lia.
Qed.

(** A byte that starts with the bits of [k 2^n] and ends with [x]. *)
Lemma low_bits k n x : 0 <= n -> 0 <= x < 2 ^ n -> Z.land (k * 2 ^ n + x) (Z.ones n) = x.
Proof. intros Hn Hx. rewrite Z.land_ones by done. rewrite Z.add_comm, Z_mod_plus_full. by apply Z.mod_small. Qed.

Lemma continuation_bits x : 0 <= x < 64 -> Z.land (0x80 + x) 0x3F = x.
Proof. intros H. exact (low_bits 2 6 x ltac:(lia) H). Qed.

(** The tests on the first byte, decided on all bytes. *)
Lemma byte_cases (P : Z -> bool) lo n x :
  forallb (fun k => P (lo + Z.of_nat k)) (seq 0 n) = true -> lo <= x < lo + Z.of_nat n -> P x = true.
Proof.
  intros H Hx. rewrite forallb_forall in H. specialize (H (Z.to_nat (x - lo))).
  rewrite in_seq in H. replace (lo + Z.of_nat (Z.to_nat (x - lo))) with x in H by lia. apply H. lia.
Qed.

Lemma lead_2 b : 0xC0 <= b < 0xE0 ->
  (b <=? 0x7F) = false /\ (Z.land b 0xE0 =? 0xC0) = true /\ Z.land b 0x1F = b - 0xC0.
Proof.
  intros H. split; [lia|].
  pose proof (byte_cases (fun b => (Z.land b 0xE0 =? 0xC0) && (Z.land b 0x1F =? b - 0xC0)) 0xC0 32 b
    eq_refl ltac:(lia)) as E. cbv beta in E. bool_to_prop. split; [by apply Z.eqb_eq | done].
Qed.

Lemma lead_3 b : 0xE0 <= b < 0xF0 ->
  (b <=? 0x7F) = false /\ (Z.land b 0xE0 =? 0xC0) = false /\ (Z.land b 0xF0 =? 0xE0) = true
  /\ Z.land b 0x0F = b - 0xE0.
Proof.
  intros H. split; [lia|].
  pose proof (byte_cases (fun b => negb (Z.land b 0xE0 =? 0xC0) && (Z.land b 0xF0 =? 0xE0)
    && (Z.land b 0x0F =? b - 0xE0)) 0xE0 16 b eq_refl ltac:(lia)) as E. cbv beta in E. bool_to_prop.
  split; [by apply Z.eqb_neq|]. split; [by apply Z.eqb_eq | done].
Qed.

Lemma lead_4 b : 0xF0 <= b < 0xF8 ->
  (b <=? 0x7F) = false /\ (Z.land b 0xE0 =? 0xC0) = false /\ (Z.land b 0xF0 =? 0xE0) = false
  /\ (Z.land b 0xF8 =? 0xF0) = true /\ Z.land b 0x07 = b - 0xF0.
Proof.
  intros H. split; [lia|].
  pose proof (byte_cases (fun b => negb (Z.land b 0xE0 =? 0xC0) && negb (Z.land b 0xF0 =? 0xE0)
    && (Z.land b 0xF8 =? 0xF0) && (Z.land b 0x07 =? b - 0xF0)) 0xF0 8 b eq_refl ltac:(lia)) as E.
  cbv beta in E. bool_to_prop.
  repeat split; first [by apply Z.eqb_neq | by apply Z.eqb_eq | done].
Qed.

Lemma decode_one c rest : 0 <= c < 0x110000 ->
  utf8_to_utf32 (utf8_encode c ++ rest) = put_point c (utf8_to_utf32 rest).
Proof.
  intros Hc. unfold utf8_encode.
  assert (Ht : forall k, Z.land (0x80 + (c / 64 ^ k) mod 64) 0x3F = (c / 64 ^ k) mod 64)
    by (intros k; apply continuation_bits, Z.mod_pos_bound; lia).
  destruct (c <? 0x80) eqn:E1; [cbn [app utf8_to_utf32]; by replace (c <=? 0x7F) with true by lia|].
  destruct (c <? 0x800) eqn:E2; [|destruct (c <? 0x10000) eqn:E3]; bool_to_prop;
    cbn [app utf8_to_utf32].
  - destruct (lead_2 (0xC0 + c / 64)) as (-> & -> & ->); [elia|].
    rewrite Ht, lor_shiftl by elia. f_equal. elia.
  - destruct (lead_3 (0xE0 + c / 64 ^ 2)) as (-> & -> & -> & ->); [elia|].
    rewrite !Ht. rewrite <-Z.lor_assoc, (lor_shiftl _ _ 6), lor_shiftl by elia. f_equal. elia.
  - destruct (lead_4 (0xF0 + c / 64 ^ 3)) as (-> & -> & -> & -> & ->); [elia|].
    rewrite !Ht. rewrite <-!Z.lor_assoc, (lor_shiftl _ _ 6), (lor_shiftl _ _ 12), lor_shiftl by elia.
    f_equal. elia.
Qed.

(** C31: the conversion of string literals returns the code points of every text
    that is valid UTF-8. *)
Theorem utf8_roundtrip cs :
  Forall (fun c => 0 <= c < 0x110000) cs ->
  utf8_to_utf32 (concat (List.map utf8_encode cs)) = Decoded cs.
Proof.
  induction 1 as [|c cs Hc _ IH]; [done|]. cbn [List.map concat]. rewrite decode_one by done.
  by rewrite IH.
Qed.

Lemma utf8_roundtrip_witness :
  utf8_to_utf32 (concat (List.map utf8_encode [0x41; 0xE9; 0x20AC; 0x1F600]))
  = Decoded [0x41; 0xE9; 0x20AC; 0x1F600].
Proof. apply utf8_roundtrip. repeat constructor; lia. Defined.

(** ** Lists are identified by their key *)

Lemma add_list_recorded a d d' l :
  add_list_literal a d = (d', Done l) -> list_literal_label_map d' !! generate_list_key a = Some l.
Proof.
  destruct a; try discriminate. cbn [add_list_literal].
  set (key := generate_list_key _). clearbody key.
  destruct (list_literal_label_map d !! key) eqn:E; [by intros [= <- <-]|].
  intros H. apply D_bind_Done in H as (d1 & id & _ & H).
  apply D_bind_Done in H as (d2 & ns & _ & [= <- <-]). cbn. apply lookup_insert_eq.
Qed.

Definition is_list (e : Expression) : bool := match e with ListExpression _ _ => true | _ => false end.

(** A list literal whose key was seen before gets the label, hence
    the data, of the earlier list, and nothing is added.  The key does not determine the list:
    a string that contains the text of further elements has the key of the longer list, so the
    two share their data. *)
Theorem lists_identified_by_key :
  (forall a b d d' l, is_list b = true -> generate_list_key a = generate_list_key b ->
     add_list_literal a d = (d', Done l) -> add_list_literal b d' = (d', Done l))
  /\ (forall s n m, generate_list_key (ListExpression [StringLiteral (s ++ "),int(" ++ to_string n)] m)
                    = generate_list_key (ListExpression [StringLiteral s; NumberLiteral (Integer n)] m)).
Proof.
  split.
  - intros a b d d' l Hb Hk Ha%add_list_recorded. rewrite Hk in Ha.
    destruct b; try discriminate. cbn [add_list_literal]. by rewrite Ha.
  - intros s n m. cbn [generate_list_key List.map join]. by rewrite !string_app_assoc.
Qed.

(** ** Global variables *)

Lemma number_globals_other l k offsets t x :
  x ∉ l.*1 -> (number_globals l k offsets t).1 !! x = offsets !! x.
Proof.
  revert k offsets t. induction l as [|[y e] l IH]; intros k offsets t; [done|]. cbn.
  rewrite not_elem_of_cons. intros [Hne Hx]. rewrite IH by done. by apply lookup_insert_ne.
Qed.

Lemma number_globals_at l k offsets t i x :
  NoDup l.*1 -> l.*1 !! i = Some x ->
  (number_globals l k offsets t).1 !! x = Some (k + Z.of_nat i).
Proof.
  revert k offsets t i. induction l as [|[y e] l IH]; intros k offsets t i; [done|]. cbn.
  intros [Hy Hl]%list.NoDup_cons. destruct i as [|i]; cbn.
  - intros [= ->]. rewrite number_globals_other, lookup_insert_eq by done. f_equal. lia.
  - intros Hi. rewrite (IH _ _ _ i) by done. f_equal. lia.
Qed.

Lemma data_words {A} (f : A -> Z) l s k v :
  l !! k = Some v ->
  let s' := foldl (fun s v => add_data64 s (f v) "" Instr.DATA) s l in
  encoding <$> (instructions s' !! (length (instructions s) + 2 * k)%nat) = Some (Z.land (f v) 0xFFFFFFFF)
  /\ encoding <$> (instructions s' !! (length (instructions s) + 2 * k + 1)%nat)
     = Some (u32 (Z.shiftr (f v) 32)).
Proof.
  revert s k. induction l as [|x l IH] using rev_ind; intros s k Hk; [done|]. cbv zeta.
  rewrite foldl_app. cbn [foldl].
  assert (Hlen : length (instructions (foldl (fun s v => add_data64 s (f v) "" Instr.DATA) s l))
                 = (length (instructions s) + 2 * length l)%nat).
  { clear. induction l as [|x l IH] using rev_ind; [cbn; lia|]. rewrite foldl_app, length_app. cbn.
    rewrite !length_app, IH. cbn. lia. }
  cbn [add_data64 add instructions]. rewrite <-!app_assoc. cbn [app].
  apply lookup_app_Some in Hk as [Hk|[Hge Hk]].
  - destruct (IH s k Hk) as [H1 H2]. apply lookup_lt_Some in Hk.
    rewrite !lookup_app_l by lia. done.
  - destruct (k - length l)%nat eqn:E; [|done]. injection Hk as ->.
    rewrite !lookup_app_r by lia. rewrite Hlen.
    replace (_ - _)%nat with 0%nat by lia.
    replace (length (instructions s) + 2 * k + 1 - _)%nat with 1%nat by lia. done.
Qed.

(** C34: when the global variables have pairwise distinct names, the [k]-th declared has word
    offset [k], and the two words of the data section at that offset, after its label, are
    those of its initializer when that is an integer literal.  They are zero for every other
    initializer, a floating-point literal among them: LET x = 1.5 starts with 0. *)
Theorem globals_laid_out d t s k x e :
  NoDup (static_variables d).*1 -> static_variables d !! k = Some (x, e) ->
  let '(d', t', s') := generate_data_section d t s in
  get_global_word_offset x d' = Ok (Z.of_nat k)
  /\ is_global_variable x d' = true
  /\ let word i := encoding <$> (instructions s' !! (S (length (instructions s)) + 2 * k + i)%nat) in
     match e with
     | Some (NumberLiteral (Integer n)) =>
         word 0%nat = Some (n mod 2 ^ 32) /\ word 1%nat = Some (n / 2 ^ 32 mod 2 ^ 32)
     | _ => word 0%nat = Some 0 /\ word 1%nat = Some 0
     end.
Proof.
  intros Hn Hk. unfold generate_data_section, calculate_global_offsets.
  destruct (number_globals (static_variables d) 0 ∅ t) as [offsets t'] eqn:E.
  split; [|split].
  - unfold get_global_word_offset. cbn.
    replace offsets with (number_globals (static_variables d) 0 ∅ t).1 by (by rewrite E).
    rewrite (number_globals_at _ _ _ _ k x); [done.. |]. by rewrite list_lookup_fmap, Hk.
  - unfold is_global_variable. cbn. apply existsb_exists. exists (x, e).
    split; [by apply list_elem_of_In, list_elem_of_lookup_2 with k | apply String.eqb_refl].
  - cbn [static_variables set_globals].
    set (base := add s _).
    assert (Hb : length (instructions base) = S (length (instructions s)))
      by (cbn; rewrite length_app; cbn; lia).
    rewrite <-Hb. clearbody base.
    destruct (data_words (fun v => u64 (initial_value v.2)) (static_variables d) base k (x, e) Hk)
      as [W1 W2].
    cbn [snd] in W1, W2. cbv zeta. rewrite Nat.add_0_r, W1, W2. change 0xFFFFFFFF with (Z.ones 32).
    rewrite Z.land_ones, Z.shiftr_div_pow2 by lia.
    destruct e as [[]|]; try done. destruct value as [n|f]; [|done]. cbn [initial_value]. unfold u64, u32.
    split; f_equal; change (2 ^ 64) with (2 ^ 32 * 2 ^ 32); rewrite Z.rem_mul_r by lia;
      generalize (n / 2 ^ 32) as q; intros q.
    + rewrite (Z.mul_comm (2 ^ 32)), Z_mod_plus_full. apply Z.mod_mod. lia.
    + rewrite (Z.mul_comm (2 ^ 32)), Z.div_add by lia.
      rewrite (Z.div_small (n mod 2 ^ 32)) by (apply Z.mod_pos_bound; lia). apply Z.mod_mod. lia.
Qed.

Lemma globals_laid_out_witness :
  let d := add_global_variable "g" (Some (NumberLiteral (Integer (-1))))
             (add_global_variable "f" (Some (NumberLiteral (Float (S754_finite false 3 (-1))))) DataGenerator_new) in
  let '(d', _, s') := generate_data_section d SymbolTable_new (mkInstructionStream []) in
  get_global_word_offset "g" d' = Ok 1
  /\ is_global_variable "g" d' = true
  /\ encoding <$> (instructions s' !! 3%nat) = Some 0xFFFFFFFF
     /\ encoding <$> (instructions s' !! 4%nat) = Some 0xFFFFFFFF.
Proof.
  apply (globals_laid_out
    (add_global_variable "g" (Some (NumberLiteral (Integer (-1))))
       (add_global_variable "f" (Some (NumberLiteral (Float (S754_finite false 3 (-1))))) DataGenerator_new))
    SymbolTable_new (mkInstructionStream []) 1 "g" (Some (NumberLiteral (Integer (-1))))); [|done].
  cbn. repeat constructor; set_solver.
Defined.
