(* ===== verification/State.v ===== *)
(** * Passes with mutable state

    A pass of the compiler is an object whose methods read and write its members, and may
    throw.  [ST S A] is such a method on members [S]: it returns the members and the outcome.
    [ends m Q s] says that a method neither throws nor is undefined, and what holds after it. *)

From S2P Require Import Prelude.

Definition ST (S A : Type) : Type := S -> S * outcome A.

#[export] Instance ST_ret {S} : MRet (ST S) := fun A a s => (s, Done a).
#[export] Instance ST_bind {S} : MBind (ST S) := fun A B f m s =>
  match m s with
  | (s, Done a) => f a s
  | (s, Raised e) => (s, Raised e)
  | (s, Undefined) => (s, Undefined)
  end.

Section operations.
Context {S : Type}.

Definition st_get {A} (f : S -> A) : ST S A := fun s => (s, Done (f s)).
Definition st_modify (f : S -> S) : ST S unit := fun s => (f s, Done tt).
Definition st_throw {A} (e : exn) : ST S A := fun s => (s, Raised e).
Definition st_undefined {A} : ST S A := fun s => (s, Undefined).

(** Dereferencing a pointer that may be null or dangling. *)
Definition st_deref {A} (o : option A) : ST S A :=
  match o with Some a => mret a | None => st_undefined end.

(** [try { m } catch (...) { h; throw; }] *)
Definition st_on_throw {A} (m : ST S A) (h : S -> S) : ST S A := fun s =>
  match m s with
  | (s, Raised e) => (h s, Raised e)
  | r => r
  end.

(** Loops over vectors.  They are transparent to the guard checker: a traversal of a tree
    may call itself on the elements. *)
Definition st_each {A} (f : A -> ST S unit) : list A -> ST S unit :=
  fix go l := match l with [] => mret tt | a :: l => f a;; go l end.
Definition st_each2 {A B} (f : A -> B -> ST S unit) : list A -> list B -> ST S unit :=
  fix go l l' {struct l'} :=
    match l', l with
    | b :: l', a :: l => f a b;; go l l'
    | _, _ => mret tt
    end.
Definition st_map {A B} (f : A -> ST S B) : list A -> ST S (list B) :=
  fix go l := match l with [] => mret [] | a :: l => b ← f a; r ← go l; mret (b :: r) end.
Definition st_option {A} (f : A -> ST S unit) (o : option A) : ST S unit :=
  match o with Some a => f a | None => mret tt end.

(** ** Reasoning *)

Lemma st_bind_Done {A B} (m : ST S A) (f : A -> ST S B) s s' b :
  (m ≫= f) s = (s', Done b) <-> exists a t, m s = (t, Done a) /\ f a t = (s', Done b).
Proof.
  unfold mbind, ST_bind. destruct (m s) as [t [a|e|]]; split; try done.
  - intros H. by exists a, t.
  - by intros (? & ? & [= <- <-] & H).
  - by intros (? & ? & [=] & _).
  - by intros (? & ? & [=] & _).
Qed.

Lemma st_bind_then {A B} (m : ST S A) (f : A -> ST S B) s t a :
  m s = (t, Done a) -> (m ≫= f) s = f a t.
Proof. unfold mbind, ST_bind. by intros ->. Qed.

Lemma st_ret_Done {A} (a b : A) (s t : S) :
  (mret a : ST S A) s = (t, Done b) <-> s = t /\ a = b.
Proof. split; [by intros [= -> ->] | by intros [-> ->]]. Qed.

Lemma st_each_nil {A} (f : A -> ST S unit) s : st_each f [] s = (s, Done tt).
Proof. done. Qed.

Lemma st_each_cons {A} (f : A -> ST S unit) a l : st_each f (a :: l) = (f a;; st_each f l).
Proof. done. Qed.

Lemma st_each_app {A} (f : A -> ST S unit) l l' s :
  st_each f (l ++ l') s = (st_each f l;; st_each f l') s.
Proof.
  revert s. induction l as [|a l IH]; intros s; [done|]. cbn [app]. rewrite !st_each_cons.
  unfold mbind, ST_bind in *. destruct (f a s) as [t [[]|e|]]; [apply IH | done | done].
Qed.

(** An operation that does nothing. *)
Definition idle (m : ST S unit) : Prop := forall s, m s = (s, Done tt).

Lemma idle_ret : idle (mret tt).
Proof. done. Qed.

Lemma idle_bind m k : idle m -> idle k -> idle (m;; k).
Proof. intros Hm Hk s. rewrite (st_bind_then _ _ _ _ _ (Hm s)). apply Hk. Qed.

Lemma idle_each {A} (f : A -> ST S unit) l : Forall (fun a => idle (f a)) l -> idle (st_each f l).
Proof. induction 1; [apply idle_ret | by apply idle_bind]. Qed.

Lemma idle_option {A} (f : A -> ST S unit) (o : option A) :
  (forall a, o = Some a -> idle (f a)) -> idle (st_option f o).
Proof. destruct o as [a|]; intros H; [by apply H | apply idle_ret]. Qed.

(** ** Total correctness *)

(** [m] returns normally from [s], with a value and members that satisfy [Q]. *)
Definition ends {A} (m : ST S A) (Q : A -> S -> Prop) (s : S) : Prop :=
  match m s with (s', Done a) => Q a s' | _ => False end.

Lemma ends_intro {A} (m : ST S A) (Q : A -> S -> Prop) s s' a :
  m s = (s', Done a) -> Q a s' -> ends m Q s.
Proof. unfold ends. by intros ->. Qed.

Lemma ends_elim {A} (m : ST S A) (Q : A -> S -> Prop) s :
  ends m Q s -> exists s' a, m s = (s', Done a) /\ Q a s'.
Proof. unfold ends. destruct (m s) as [s' [a|e|]]; [by exists s', a | done | done]. Qed.

Lemma ends_mono {A} (m : ST S A) (Q Q' : A -> S -> Prop) s :
  ends m Q s -> (forall a s', Q a s' -> Q' a s') -> ends m Q' s.
Proof. unfold ends. destruct (m s) as [s' [a|e|]]; auto. Qed.

Lemma ends_bind {A B} (m : ST S A) (f : A -> ST S B) Q s :
  ends m (fun a => ends (f a) Q) s -> ends (m ≫= f) Q s.
Proof. unfold ends, mbind, ST_bind. by destruct (m s) as [s' [a|e|]]. Qed.

Lemma ends_ret {A} (a : A) (Q : A -> S -> Prop) s : Q a s -> ends (mret a) Q s.
Proof. done. Qed.

Lemma ends_get {A} (f : S -> A) (Q : A -> S -> Prop) s : Q (f s) s -> ends (st_get f) Q s.
Proof. done. Qed.

Lemma ends_modify f (Q : unit -> S -> Prop) s : Q tt (f s) -> ends (st_modify f) Q s.
Proof. done. Qed.

Lemma ends_deref {A} (o : option A) a (Q : A -> S -> Prop) s :
  o = Some a -> Q a s -> ends (st_deref o) Q s.
Proof. by intros ->. Qed.

Lemma ends_idle m (Q : unit -> S -> Prop) s : idle m -> Q tt s -> ends m Q s.
Proof. unfold ends. intros H. by rewrite H. Qed.

Lemma ends_on_throw {A} (m : ST S A) h (Q : A -> S -> Prop) s : ends m Q s -> ends (st_on_throw m h) Q s.
Proof. unfold ends, st_on_throw. by destruct (m s) as [s' [a|e|]]. Qed.

(** A loop keeps a relation to the first state that each round extends. *)
Lemma ends_each {A} (f : A -> ST S unit) (I : list A -> S -> Prop) l s :
  I l s -> (forall a l s, I (a :: l) s -> ends (f a) (fun _ s' => I l s') s) ->
  ends (st_each f l) (fun _ s' => I [] s') s.
Proof.
  revert s. induction l as [|a l IH]; intros s Hs Hf; [done|]. rewrite st_each_cons.
  apply ends_bind. eapply ends_mono; [by apply Hf|]. intros [] s' Hs'. by apply IH.
Qed.
End operations.

Create HintDb state.
#[export] Hint Resolve idle_ret idle_bind idle_each idle_option : state.

(** One step of a method that is known to return. *)
Ltac step := first [ apply ends_bind | apply ends_get | apply ends_ret | apply ends_modify ].
