(* ===== verification/Cfg.v ===== *)
(** * Control-flow graphs

    [BasicBlock], [ControlFlowGraph] and [CFGBuilderPass] (src/BasicBlock.cpp,
    src/ControlFlowGraph.cpp, src/CFGBuilderPass.cpp).  Blocks are objects: a block is
    reached by its address, graphs own the blocks under their identifiers, and creating a
    block under the identifier of another destroys the other one.  Reading a null or a
    dangling pointer is undefined.  The analyzer's metrics, which the pass extends with the
    variables it makes up, and its current scope are part of the state; the types that
    functions return are a parameter.  Trace output is left out. *)

From S2P Require Import Prelude State CallFrame Ast Analysis.
Local Open Scope Z_scope.

(** ** Blocks and graphs *)

Abbreviation address := nat (only parsing).

Record Block : Type := mkCfgBlock {
  id : string;
  statements : list Statement;
  successors : list address;
  predecessors : list address;
  is_entry : bool;
  is_exit : bool;
  label_name : string
}.

Definition Block_new (id : string) : Block := mkCfgBlock id [] [] [] false false "".

Definition push_statement (s : Statement) (b : Block) : Block :=
  mkCfgBlock (id b) (statements b ++ [s]) (successors b) (predecessors b) (is_entry b) (is_exit b)
    (label_name b).
Definition push_successor (p : address) (b : Block) : Block :=
  mkCfgBlock (id b) (statements b) (successors b ++ [p]) (predecessors b) (is_entry b) (is_exit b)
    (label_name b).
Definition push_predecessor (p : address) (b : Block) : Block :=
  mkCfgBlock (id b) (statements b) (successors b) (predecessors b ++ [p]) (is_entry b) (is_exit b)
    (label_name b).
Definition mark_entry (b : Block) : Block :=
  mkCfgBlock (id b) (statements b) (successors b) (predecessors b) true (is_exit b) (label_name b).
Definition mark_exit (b : Block) : Block :=
  mkCfgBlock (id b) (statements b) (successors b) (predecessors b) (is_entry b) true (label_name b).

Definition ends_with_control_flow (statements : list Statement) : bool :=
  match list.last statements with
  | Some (GotoStatement _) | Some ReturnStatement | Some (FinishStatement _ _) | Some BreakStatement
  | Some LoopStatement | Some EndcaseStatement | Some (ConditionalBranchStatement _ _ _)
  | Some (ResultisStatement _) => true
  | _ => false
  end.

Record ControlFlowGraph : Type := mkGraph {
  blocks : gmap string address;
  entry_block : option address;
  exit_block : option address;
  function_name : string;
  block_id_counter_ : Z
}.

Definition ControlFlowGraph_new (name : string) : ControlFlowGraph := mkGraph ∅ None None name 0.
Definition set_entry (p : address) (g : ControlFlowGraph) : ControlFlowGraph :=
  mkGraph (blocks g) (Some p) (exit_block g) (function_name g) (block_id_counter_ g).
Definition set_exit (p : address) (g : ControlFlowGraph) : ControlFlowGraph :=
  mkGraph (blocks g) (entry_block g) (Some p) (function_name g) (block_id_counter_ g).

(** ** The state of the pass *)

(** [current_cfg] points to the graph of the function it names. *)
Record builder : Type := mkBuilder {
  heap : gmap address Block;
  next_address : address;
  function_cfgs : gmap string ControlFlowGraph;
  current_cfg : option string;
  current_basic_block : option address;
  label_targets : gmap string address;
  block_id_counter : Z;
  break_targets : list address;
  loop_targets : list address;
  endcase_targets : list address;
  unresolved_gotos : list (Expression * address);
  metrics : gmap string FunctionMetrics;
  current_function_scope : string
}.

Definition set_heap (h : gmap address Block) (n : address) (s : builder) : builder :=
  mkBuilder h n (function_cfgs s) (current_cfg s) (current_basic_block s) (label_targets s)
    (block_id_counter s) (break_targets s) (loop_targets s) (endcase_targets s)
    (unresolved_gotos s) (metrics s) (current_function_scope s).
Definition set_cfgs (m : gmap string ControlFlowGraph) (s : builder) : builder :=
  mkBuilder (heap s) (next_address s) m (current_cfg s) (current_basic_block s) (label_targets s)
    (block_id_counter s) (break_targets s) (loop_targets s) (endcase_targets s)
    (unresolved_gotos s) (metrics s) (current_function_scope s).
Definition set_current_cfg (name : option string) (s : builder) : builder :=
  mkBuilder (heap s) (next_address s) (function_cfgs s) name (current_basic_block s) (label_targets s)
    (block_id_counter s) (break_targets s) (loop_targets s) (endcase_targets s)
    (unresolved_gotos s) (metrics s) (current_function_scope s).
Definition set_current (p : option address) (s : builder) : builder :=
  mkBuilder (heap s) (next_address s) (function_cfgs s) (current_cfg s) p (label_targets s)
    (block_id_counter s) (break_targets s) (loop_targets s) (endcase_targets s)
    (unresolved_gotos s) (metrics s) (current_function_scope s).
Definition set_labels (m : gmap string address) (s : builder) : builder :=
  mkBuilder (heap s) (next_address s) (function_cfgs s) (current_cfg s) (current_basic_block s) m
    (block_id_counter s) (break_targets s) (loop_targets s) (endcase_targets s)
    (unresolved_gotos s) (metrics s) (current_function_scope s).
Definition set_counter (n : Z) (s : builder) : builder :=
  mkBuilder (heap s) (next_address s) (function_cfgs s) (current_cfg s) (current_basic_block s)
    (label_targets s) n (break_targets s) (loop_targets s) (endcase_targets s)
    (unresolved_gotos s) (metrics s) (current_function_scope s).
Definition set_targets (b l e : list address) (s : builder) : builder :=
  mkBuilder (heap s) (next_address s) (function_cfgs s) (current_cfg s) (current_basic_block s)
    (label_targets s) (block_id_counter s) b l e
    (unresolved_gotos s) (metrics s) (current_function_scope s).
Definition set_gotos (l : list (Expression * address)) (s : builder) : builder :=
  mkBuilder (heap s) (next_address s) (function_cfgs s) (current_cfg s) (current_basic_block s)
    (label_targets s) (block_id_counter s) (break_targets s) (loop_targets s) (endcase_targets s)
    l (metrics s) (current_function_scope s).
Definition set_metrics (m : gmap string FunctionMetrics) (s : builder) : builder :=
  mkBuilder (heap s) (next_address s) (function_cfgs s) (current_cfg s) (current_basic_block s)
    (label_targets s) (block_id_counter s) (break_targets s) (loop_targets s) (endcase_targets s)
    (unresolved_gotos s) m (current_function_scope s).
Definition set_scope (name : string) (s : builder) : builder :=
  mkBuilder (heap s) (next_address s) (function_cfgs s) (current_cfg s) (current_basic_block s)
    (label_targets s) (block_id_counter s) (break_targets s) (loop_targets s) (endcase_targets s)
    (unresolved_gotos s) (metrics s) name.

(** [CFGBuilderPass::CFGBuilderPass], in a program the analyzer has measured. *)
Definition CFGBuilderPass_new (m : gmap string FunctionMetrics) (scope : string) : builder :=
  mkBuilder ∅ 0 ∅ None None ∅ 0 [] [] [] [] m scope.

Definition B (A : Type) : Type := ST builder A.

(** A method of the block at an address, of the current block, and of a graph. *)
Definition block_at (p : address) : B Block := b ← st_get (fun s => heap s !! p); st_deref b.
Definition on_block (p : address) (f : Block -> Block) : B unit :=
  b ← block_at p;
  st_modify (fun s => set_heap (<[p := f b]> (heap s)) (next_address s) s).
Definition current_block : B address := p ← st_get current_basic_block; st_deref p.
Definition the_graph : B ControlFlowGraph :=
  g ← st_get (fun s => name ← current_cfg s; function_cfgs s !! name); st_deref g.
Definition on_graph (f : ControlFlowGraph -> ControlFlowGraph) : B unit :=
  g ← the_graph;
  st_modify (fun s => set_cfgs (<[function_name g := f g]> (function_cfgs s)) s).

Definition add_statement (s : Statement) : B unit := p ← current_block; on_block p (push_statement s).

(** ** ControlFlowGraph.cpp *)

(** [blocks\[id\] = std::move(new_block)] destroys the block that had the identifier. *)
Definition create_block (id_prefix : string) : B address :=
  g ← the_graph;
  let id := (function_name g ++ "_" ++ id_prefix ++ to_string (block_id_counter_ g))%string in
  p ← st_get next_address;
  st_modify (fun s =>
    let h := match blocks g !! id with Some old => delete old (heap s) | None => heap s end in
    set_heap (<[p := Block_new id]> h) (S p) s);;
  on_graph (fun g => mkGraph (<[id := p]> (blocks g)) (entry_block g) (exit_block g) (function_name g)
    (block_id_counter_ g + 1));;
  mret p.

Definition add_edge (from to : address) : B unit :=
  _ ← the_graph;
  on_block from (push_successor to);;
  on_block to (push_predecessor from).

Definition get_block (block_id : string) (g : ControlFlowGraph) : option address := blocks g !! block_id.

(** ** Helpers of the pass *)

Definition create_new_basic_block (id_prefix : string) : B address :=
  cfg ← st_get current_cfg;
  match cfg with
  | None => st_throw runtime_error
  | Some _ => create_block id_prefix
  end.

Definition ends_block (p : address) : B bool :=
  b ← block_at p; mret (ends_with_control_flow (statements b)).

Definition set_current_block (p : option address) : B unit := st_modify (set_current p).

Definition end_current_block_and_start_new : B unit :=
  current ← st_get current_basic_block;
  match current with
  | Some p =>
      ended ← ends_block p;
      if (ended : bool) then mret tt
      else
        next_bb ← create_new_basic_block "BB_";
        add_edge p next_bb;;
        set_current_block (Some next_bb)
  | None => p ← create_new_basic_block "BB_"; set_current_block (Some p)
  end.

(** [if (!current_basic_block) end_current_block_and_start_new()] *)
Definition ensure_block : B unit :=
  current ← st_get current_basic_block;
  match current with Some _ => mret tt | None => end_current_block_and_start_new end.

(** [if (current_basic_block && !current_basic_block->ends_with_control_flow()) add_edge] *)
Definition fall_to (to : address) : B unit :=
  current ← st_get current_basic_block;
  match current with
  | None => mret tt
  | Some p => ended ← ends_block p; if (ended : bool) then mret tt else add_edge p to
  end.

Definition push_targets (break loop : address) : B unit :=
  st_modify (fun s => set_targets (break :: break_targets s) (loop :: loop_targets s) (endcase_targets s) s).

(** [pop_back] of an empty vector is undefined. *)
Definition pop_targets : B unit :=
  b ← st_get break_targets; l ← st_get loop_targets;
  match b, l with
  | _ :: b, _ :: l => st_modify (fun s => set_targets b l (endcase_targets s) s)
  | _, _ => st_undefined
  end.
Definition push_endcase (p : address) : B unit :=
  st_modify (fun s => set_targets (break_targets s) (loop_targets s) (p :: endcase_targets s) s).
Definition pop_endcase : B unit :=
  e ← st_get endcase_targets;
  match e with
  | _ :: e => st_modify (fun s => set_targets (break_targets s) (loop_targets s) e s)
  | [] => st_undefined
  end.

(** A GOTO whose label is not found is only reported. *)
Definition resolve_goto (g : Expression * address) : B unit :=
  match g.1 with
  | VariableAccess label_name _ =>
      to ← st_get (fun s => label_targets s !! label_name);
      match to with Some to => add_edge g.2 to | None => mret tt end
  | _ => mret tt
  end.
Definition resolve_gotos : B unit := l ← st_get unresolved_gotos; st_each resolve_goto l.

(** The exit block is made when it is first needed. *)
Definition exit_of_graph : B address :=
  g ← the_graph;
  match exit_block g with
  | Some p => mret p
  | None =>
      p ← create_new_basic_block "Exit_";
      on_graph (set_exit p);;
      on_block p mark_exit;;
      mret p
  end.

Definition infer_type (function_return_types : gmap string VarType) (e : Expression) : B VarType :=
  st_get (fun s => infer_expression_type
    (match metrics s !! current_function_scope s with Some m => metrics_variable_types m | None => ∅ end)
    function_return_types e).

(** [metrics.variable_types\[name\] = t], on the metrics of the current graph's function. *)
Definition new_variable (name : string) (t : VarType) (m : FunctionMetrics) : FunctionMetrics :=
  count_variable (note_type name t m).
Definition on_metrics (f : FunctionMetrics -> FunctionMetrics) : B unit :=
  g ← the_graph;
  m ← st_get (fun s => metrics s !! function_name g);
  match m with
  | None => st_throw out_of_range
  | Some m => st_modify (fun s => set_metrics (<[function_name g := f m]> (metrics s)) s)
  end.

(** [prefix + std::to_string(block_id_counter++)] *)
Definition fresh_name (prefix : string) : B string :=
  n ← st_get block_id_counter;
  st_modify (set_counter (n + 1));;
  mret (prefix ++ to_string n)%string.

Definition var (name : string) : Expression := VariableAccess name "".
Definition int_literal (n : Z) : Expression := NumberLiteral (Integer n).
Definition assign (name : string) (e : Expression) : Statement := AssignmentStatement [var name] [e].
Definition let_is (name : string) (e : Expression) : Statement := LetDeclaration [name] [e] false.

(** ** Visitors *)

Section visitors.
Context (function_return_types : gmap string VarType).

Let infer := infer_type function_return_types.

(** RETURN and RESULTIS. *)
Definition leave_function (s : Statement) : B unit :=
  ensure_block;;
  add_statement (clone_stmt s);;
  exit ← exit_of_graph;
  p ← current_block;
  add_edge p exit;;
  set_current_block None.

(** BREAK, LOOP and ENDCASE; outside of a loop or switch there is no edge. *)
Definition leave_to (targets : builder -> list address) (s : Statement) : B unit :=
  ensure_block;;
  add_statement (clone_stmt s);;
  l ← st_get targets;
  match l with
  | [] => mret tt
  | to :: _ => p ← current_block; add_edge p to
  end;;
  set_current_block None.

Definition is_list_type (t : VarType) : bool :=
  one_of t [POINTER_TO_ANY_LIST; CONST_POINTER_TO_ANY_LIST; POINTER_TO_INT_LIST;
            CONST_POINTER_TO_INT_LIST; POINTER_TO_FLOAT_LIST; CONST_POINTER_TO_FLOAT_LIST;
            POINTER_TO_STRING_LIST; CONST_POINTER_TO_STRING_LIST].

(** The element of the collection at the index, by the type of the collection. *)
Definition element_access (collection_type : VarType) (collection index : string) : Expression :=
  if collection_type =? POINTER_TO_STRING then CharIndirection (var collection) (var index)
  else if collection_type =? POINTER_TO_FLOAT_VEC then FloatVectorIndirection (var collection) (var index)
  else VectorAccess (var collection) (var index).

(** FOREACH over a vector or a string; [visit_body] visits the body. *)
Definition build_vector_foreach_cfg (loop_variable_name : string) (collection_expression : Expression)
    (visit_body : B unit) : B unit :=
  collection_name ← fresh_name "_forEach_vec_";
  len_name ← fresh_name "_forEach_len_";
  index_name ← fresh_name "_forEach_idx_";
  g ← the_graph;
  (if string_empty (function_name g) then mret tt
   else
     t ← infer collection_expression;
     on_metrics (fun m => new_variable index_name VT_INTEGER
       (new_variable len_name VT_INTEGER (new_variable collection_name t m))));;
  ensure_block;;
  add_statement (let_is collection_name (clone_expr collection_expression));;
  add_statement (let_is len_name (UnaryOp LengthOf (var collection_name)));;
  add_statement (let_is index_name (int_literal 0));;
  header_block ← create_new_basic_block "ForEachHeader_";
  body_block ← create_new_basic_block "ForEachBody_";
  increment_block ← create_new_basic_block "ForEachIncrement_";
  exit_block ← create_new_basic_block "ForEachExit_";
  pre_header ← current_block;
  add_edge pre_header header_block;;
  exit ← block_at exit_block;
  on_block header_block (push_statement (ConditionalBranchStatement "NE" (id exit)
    (Some (BinaryOp GreaterEqual (var index_name) (var len_name)))));;
  add_edge header_block body_block;;
  add_edge header_block exit_block;;
  set_current_block (Some body_block);;
  collection_type ← infer collection_expression;
  add_statement (assign loop_variable_name (element_access collection_type collection_name index_name));;
  push_targets exit_block increment_block;;
  visit_body;;
  fall_to increment_block;;
  set_current_block (Some increment_block);;
  on_block increment_block (push_statement
    (assign index_name (BinaryOp Add (var index_name) (int_literal 1))));;
  add_edge increment_block header_block;;
  set_current_block (Some exit_block);;
  pop_targets.

(** The first statements of the body of a FOREACH over a list. *)
Definition list_element_statements (loop_variable_name type_variable_name cursor_name : string)
    (inferred_element_type : VarType) : list Statement :=
  if negb (string_empty type_variable_name) then
    [let_is type_variable_name (UnaryOp TypeOf (var cursor_name));
     assign loop_variable_name (var cursor_name)]
  else
    assign loop_variable_name (UnaryOp
      (if inferred_element_type =? VT_FLOAT then HeadOfAsFloat else HeadOf) (var cursor_name))
    :: (if inferred_element_type =? POINTER_TO_STRING
        then [assign loop_variable_name (BinaryOp Add (var loop_variable_name) (int_literal 8))]
        else []).

Definition build_list_foreach_cfg (loop_variable_name type_variable_name : string)
    (collection_expression : Expression) (inferred_element_type : VarType) (visit_body : B unit)
    : B unit :=
  cursor_name ← fresh_name "_forEach_cursor_";
  on_metrics (new_variable cursor_name POINTER_TO_LIST_NODE);;
  add_statement (let_is cursor_name (UnaryOp Indirection
    (BinaryOp Add (clone_expr collection_expression) (int_literal 16))));;
  header_block ← create_new_basic_block "ForEachHeader_";
  body_block ← create_new_basic_block "ForEachBody_";
  exit_block ← create_new_basic_block "ForEachExit_";
  pre_header ← current_block;
  add_edge pre_header header_block;;
  exit ← block_at exit_block;
  on_block header_block (push_statement
    (ConditionalBranchStatement "EQ" (id exit) (Some (var cursor_name))));;
  add_edge header_block body_block;;
  add_edge header_block exit_block;;
  set_current_block (Some body_block);;
  st_each add_statement (list_element_statements loop_variable_name type_variable_name cursor_name
    inferred_element_type);;
  visit_body;;
  advance_block ← create_new_basic_block "ForEachAdvance_";
  fall_to advance_block;;
  set_current_block (Some advance_block);;
  add_statement (assign cursor_name (UnaryOp TailOfNonDestructive (var cursor_name)));;
  add_edge advance_block header_block;;
  set_current_block (Some exit_block);;
  push_targets exit_block header_block.

Definition visit_ForEach (loop_variable_name type_variable_name : string)
    (collection_expression : Expression) (inferred_element_type : VarType) (visit_body : B unit)
    : B unit :=
  ensure_block;;
  collection_type ← infer collection_expression;
  (if is_list_type collection_type
   then build_list_foreach_cfg loop_variable_name type_variable_name collection_expression
          inferred_element_type visit_body
   else build_vector_foreach_cfg loop_variable_name collection_expression visit_body);;
  st_modify (fun s => set_targets (tail (break_targets s)) (tail (loop_targets s)) (endcase_targets s) s).

Definition visit_If (s : Statement) (visit_condition visit_then : B unit) : B unit :=
  visit_condition;;
  ensure_block;;
  add_statement (clone_stmt s);;
  condition_block ← current_block;
  then_block ← create_new_basic_block "Then_";
  join_block ← create_new_basic_block "Join_";
  add_edge condition_block then_block;;
  add_edge condition_block join_block;;
  set_current_block (Some then_block);;
  visit_then;;
  fall_to join_block;;
  set_current_block (Some join_block).

Definition visit_For (s : Statement) (unique_loop_variable_name : string)
    (start_expr : Expression) (step_expr : option Expression) (visit_start visit_body : B unit)
    : B unit :=
  ensure_block;;
  visit_start;;
  add_statement (assign unique_loop_variable_name (clone_expr start_expr));;
  init_block ← current_block;
  header_block ← create_new_basic_block "ForHeader_";
  add_edge init_block header_block;;
  body_block ← create_new_basic_block "ForBody_";
  increment_block ← create_new_basic_block "ForIncrement_";
  exit_block ← create_new_basic_block "ForExit_";
  push_targets exit_block increment_block;;
  on_block header_block (push_statement (clone_stmt s));;
  add_edge header_block body_block;;
  add_edge header_block exit_block;;
  set_current_block (Some body_block);;
  visit_body;;
  current ← st_get current_basic_block;
  match current with Some p => add_edge p increment_block | None => mret tt end;;
  set_current_block (Some increment_block);;
  on_block increment_block (push_statement (assign unique_loop_variable_name
    (BinaryOp Add (var unique_loop_variable_name)
       (match step_expr with Some e => clone_expr e | None => int_literal 1 end))));;
  add_edge increment_block header_block;;
  set_current_block (Some exit_block);;
  pop_targets.

Definition case_prefix (i : nat) : string := ("Case_" ++ to_string (Z.of_nat i) ++ "_")%string.

Definition visit_branch (visit_command : B unit) (join_block : address) (block : address) : B unit :=
  set_current_block (Some block);;
  visit_command;;
  fall_to join_block.

(** [visit_cases] visits the commands of the cases, given their blocks and the join block. *)
Definition visit_Switchon (s : Statement) (n_cases : nat) (default_case : option (B unit))
    (visit_cases : list address -> address -> B unit) : B unit :=
  end_current_block_and_start_new;;
  add_statement (clone_stmt s);;
  switch_header_block ← current_block;
  join_block ← create_new_basic_block "SwitchJoin_";
  push_endcase join_block;;
  case_blocks ← st_map (fun i => create_new_basic_block (case_prefix i)) (seq 0 n_cases);
  default_block ← match default_case with
                  | Some _ => p ← create_new_basic_block "DefaultCase_"; mret (Some p)
                  | None => mret None
                  end;
  st_each (add_edge switch_header_block) case_blocks;;
  st_option (add_edge switch_header_block) default_block;;
  add_edge switch_header_block join_block;;
  visit_cases case_blocks join_block;;
  match default_case, default_block with
  | Some visit_command, Some block => visit_branch visit_command join_block block
  | _, _ => mret tt
  end;;
  set_current_block (Some join_block);;
  pop_endcase.

Definition visit_LabelTarget (labelName : string) : B unit :=
  predecessor_block ← st_get current_basic_block;
  label_block ← create_new_basic_block ("Label_" ++ labelName);
  st_modify (fun s => set_labels (<[labelName := label_block]> (label_targets s)) s);;
  match predecessor_block with
  | None => mret tt
  | Some p => ended ← ends_block p; if (ended : bool) then mret tt else add_edge p label_block
  end;;
  set_current_block (Some label_block);;
  add_statement (LabelTargetStatement labelName).

(** [function_cfgs\[name\].reset(new ControlFlowGraph(name))] destroys the graph the name had. *)
Definition start_graph (name : string) : B unit := st_modify (fun s =>
  let h := match function_cfgs s !! name with
           | Some old => foldr delete (heap s) (List.map snd (map_to_list (blocks old)))
           | None => heap s
           end in
  set_gotos [] (set_labels ∅ (set_counter 0 (set_current_cfg (Some name)
    (set_cfgs (<[name := ControlFlowGraph_new name]> (function_cfgs s))
      (set_heap h (next_address s) s)))))).

(** Functions and routines; only for a function is the scope restored when the body throws. *)
Definition visit_function (name : string) (restores : bool) (visit_body : B unit) : B unit :=
  previous_scope ← st_get current_function_scope;
  st_modify (set_scope name);;
  start_graph name;;
  entry ← create_new_basic_block "Entry_";
  set_current_block (Some entry);;
  on_block entry mark_entry;;
  on_graph (set_entry entry);;
  (if restores then st_on_throw visit_body (set_scope previous_scope) else visit_body);;
  current ← st_get current_basic_block;
  match current with
  | None => mret tt
  | Some p =>
      ended ← ends_block p;
      if (ended : bool) then mret tt
      else exit ← exit_of_graph; p ← current_block; add_edge p exit
  end;;
  resolve_gotos;;
  st_modify (set_current_cfg None);;
  set_current_block None;;
  st_modify (set_scope previous_scope).

(** A statement of a compound: a new block when the last one was left. *)
Definition next_statement (visit : B unit) : B unit :=
  current ← st_get current_basic_block;
  match current with
  | None => p ← create_new_basic_block "BB_"; set_current_block (Some p)
  | Some _ => mret tt
  end;;
  visit.

Fixpoint accept_expr (e : Expression) : B unit :=
  match e with
  | BinaryOp _ l r => accept_expr l;; accept_expr r
  | UnaryOp _ a => accept_expr a
  | VectorAccess v i | CharIndirection v i | FloatVectorIndirection v i =>
      accept_expr v;; accept_expr i
  | FunctionCall f args => accept_expr f;; st_each accept_expr args
  | ConditionalExpression c t f => accept_expr c;; accept_expr t;; accept_expr f
  | ValofExpression body | FloatValofExpression body => accept_stmt body
  | NumberLiteral _ | StringLiteral _ | CharLiteral _ | BooleanLiteral _ | VariableAccess _ _
  | BitfieldAccessExpression _ _ _ | SysCall _ _ _ | VecAllocationExpression _ _
  | VecInitializerExpression _ | FVecAllocationExpression _ _ | StringAllocationExpression _
  | TableExpression _ _ | ListExpression _ _ => mret tt
  end
with accept_stmt (s : Statement) : B unit :=
  match s with
  | LetDeclaration names initializers _ =>
      ensure_block;;
      st_each2 (fun name e => accept_expr e;; add_statement (assign name (clone_expr e)))
        names initializers
  | AssignmentStatement lhs rhs =>
      ensure_block;; add_statement (clone_stmt s);; st_each accept_expr lhs;; st_each accept_expr rhs
  | RoutineCallStatement f args =>
      ensure_block;; add_statement (clone_stmt s);; accept_expr f;; st_each accept_expr args
  | IfStatement c t => visit_If s (accept_expr c) (accept_stmt t)
  | ForStatement _ unique_name _ _ start_expr _ step_expr body =>
      visit_For s unique_name start_expr step_expr (accept_expr start_expr) (accept_stmt body)
  | ForEachStatement v t collection body _ element_type =>
      visit_ForEach v t collection element_type (accept_stmt body)
  | ReturnStatement | ResultisStatement _ => leave_function s
  | CompoundStatement l => st_each (fun s => next_statement (accept_stmt s)) l
  | BlockStatement declarations l =>
      st_each (fun d => next_statement (accept_decl d)) declarations;;
      st_each (fun s => next_statement (accept_stmt s)) l
  | LabelTargetStatement labelName => visit_LabelTarget labelName
  | SwitchonStatement _ cases default_case =>
      visit_Switchon s (length cases)
        (match default_case with Some d => Some (accept_stmt d) | None => None end)
        (fun case_blocks join_block =>
           st_each2 (fun block c => visit_branch (accept_case c) join_block block) case_blocks cases)
  | GotoStatement label_expr =>
      ensure_block;;
      add_statement (clone_stmt s);;
      p ← current_block;
      st_modify (fun s => set_gotos (unresolved_gotos s ++ [(label_expr, p)]) s);;
      set_current_block None
  | FinishStatement _ _ => ensure_block;; add_statement (clone_stmt s);; set_current_block None
  | BreakStatement => leave_to break_targets s
  | LoopStatement => leave_to loop_targets s
  | EndcaseStatement => leave_to endcase_targets s
  | StringStatement e => ensure_block;; add_statement (clone_stmt s);; accept_expr e
  | BrkStatement => ensure_block;; add_statement (clone_stmt s)
  | UnlessStatement _ _ | TestStatement _ _ _ | WhileStatement _ _ | UntilStatement _ _
  | RepeatStatement _ _ _ | CaseStatement _ | DefaultStatement _ | FreeStatement _
  | ConditionalBranchStatement _ _ _ => mret tt
  end
with accept_case (c : CaseClause) : B unit :=
  match c with mkCase _ command _ => accept_stmt command end
with accept_decl (d : Declaration) : B unit :=
  match d with
  | FunctionDeclaration name _ body => visit_function name true (accept_expr body)
  | RoutineDeclaration name _ body => visit_function name false (accept_stmt body)
  | StaticDeclaration _ initializer _ => accept_expr initializer
  | ManifestDeclaration _ _ | GlobalDeclaration _ | GlobalVariableDeclaration _ _ _
  | LabelDeclaration _ _ => mret tt
  end.

(** Only the functions and routines of a program are visited. *)
Definition visit_program (p : Program) : B unit :=
  st_each (fun d => match d with
                    | FunctionDeclaration _ _ _ | RoutineDeclaration _ _ _ => accept_decl d
                    | _ => mret tt
                    end) (declarations p).

(** The graphs of an earlier program are destroyed first. *)
Definition build (p : Program) : B unit :=
  st_modify (fun s => set_targets [] [] [] (set_counter 0 (set_labels ∅ (set_current None
    (set_current_cfg None (set_cfgs ∅ (set_heap ∅ (next_address s) s)))))));;
  visit_program p.
End visitors.
