(* ===== verification/CfgSpec.v ===== *)
(** * What the executions of a function are, and what the paths of a graph are

    [exec s] says in which orders the statements of [s] are executed, independently of any
    graph: from the start of [s] or from a label in it, which sequence of statements, and how
    [s] is left.  A test and the statement it belongs to is one element of the sequence, so
    both ways of a test are executions.  [reach] says which statements lie on the paths
    between two points of the blocks. *)

From S2P Require Import Prelude State Ast Cfg.

(** ** Executions *)

(** [Jumps] to a label, or to a computed address. *)
Inductive ending : Type :=
  | Falls | Breaks | Loops | Endcases | Returns | Finishes
  | Jumps (label : option string).

Abbreviation trace := (list Statement) (only parsing).

(** From the start or from a label, which statements, and then what. *)
Definition behaviour : Type := option string -> trace -> ending -> Prop.

Definition once (s : Statement) : behaviour := fun o t k => o = None /\ t = [s] /\ k = Falls.
Definition leaves (s : Statement) (e : ending) : behaviour :=
  fun o t k => o = None /\ t = [s] /\ k = e.
Definition skip : behaviour := fun o t k => o = None /\ t = [] /\ k = Falls.
Definition labelled (l : string) (s : Statement) : behaviour :=
  fun o t k => (o = None \/ o = Some l) /\ t = [s] /\ k = Falls.

Definition alt (b b' : behaviour) : behaviour := fun o t k => b o t k \/ b' o t k.

(** [b], then [b'] unless [b] was left; a label can be in either. *)
Definition followed_by (b b' : behaviour) : behaviour := fun o t k =>
  (exists t1 t2, b o t1 Falls /\ b' None t2 k /\ t = t1 ++ t2)
  \/ (b o t k /\ k <> Falls)
  \/ (exists l, o = Some l /\ b' o t k).

(** What BREAK and LOOP mean to the loop around them. *)
Definition continues (k : ending) : bool := match k with Falls | Loops => true | _ => false end.
Definition outside_loop (k : ending) : ending := match k with Breaks => Falls | k => k end.
Definition outside_switch (k : ending) : ending := match k with Endcases => Falls | k => k end.

(** From the test at the head of a loop; after the body, from the increment. *)
Inductive iterate (body : behaviour) (header increment : Statement) : trace -> ending -> Prop :=
  | iterate_done : iterate body header increment [header] Falls
  | iterate_again t1 k1 t2 k2 : body None t1 k1 -> continues k1 = true ->
      iterate body header increment t2 k2 ->
      iterate body header increment (header :: t1 ++ increment :: t2) k2
  | iterate_left t1 k1 : body None t1 k1 -> continues k1 = false ->
      iterate body header increment (header :: t1) (outside_loop k1).

(** A loop, entered at its head or at a label in its body. *)
Definition loop (body : behaviour) (header increment : Statement) : behaviour := fun o t k =>
  (o = None /\ iterate body header increment t k)
  \/ (exists l t1 k1, o = Some l /\ body o t1 k1 /\
        ((continues k1 = true /\ exists t2, iterate body header increment t2 k /\ t = t1 ++ increment :: t2)
         \/ (continues k1 = false /\ t = t1 /\ k = outside_loop k1))).

Definition switch (body : behaviour) : behaviour := fun o t k =>
  exists k', body o t k' /\ k = outside_switch k'.

Definition sequence (l : list behaviour) : behaviour := foldr followed_by skip l.
(** One of a list, or none of them when [none]. *)
Definition one_of_them (none : behaviour) (l : list behaviour) : behaviour := foldr alt none l.

Fixpoint let_statements (names : list string) (initializers : list Expression) : list Statement :=
  match initializers, names with
  | e :: initializers, name :: names => assign name (clone_expr e) :: let_statements names initializers
  | _, _ => []
  end.

Definition for_increment (name : string) (step : option Expression) : Statement :=
  assign name (BinaryOp Add (var name) (match step with Some e => clone_expr e | None => int_literal 1 end)).

Definition goto_label (e : Expression) : option string :=
  match e with VariableAccess l _ => Some l | _ => None end.

Fixpoint exec (s : Statement) : behaviour :=
  match s with
  | LetDeclaration names initializers _ => sequence (List.map once (let_statements names initializers))
  | AssignmentStatement _ _ | RoutineCallStatement _ _ | StringStatement _ | BrkStatement =>
      once (clone_stmt s)
  | IfStatement _ then_branch => followed_by (once (clone_stmt s)) (alt skip (exec then_branch))
  | ForStatement _ name _ _ start_expr _ step_expr body =>
      followed_by (once (assign name (clone_expr start_expr)))
        (loop (exec body) (clone_stmt s) (for_increment name step_expr))
  | CompoundStatement l => sequence (List.map exec l)
  | BlockStatement _ l => sequence (List.map exec l)
  | SwitchonStatement _ cases default_case =>
      followed_by (once (clone_stmt s))
        (switch (one_of_them (match default_case with Some d => exec d | None => skip end)
                   (List.map exec_case cases)))
  | LabelTargetStatement l => labelled l s
  | GotoStatement e => leaves (clone_stmt s) (Jumps (goto_label e))
  | ReturnStatement | ResultisStatement _ => leaves (clone_stmt s) Returns
  | FinishStatement _ _ => leaves (clone_stmt s) Finishes
  | BreakStatement => leaves (clone_stmt s) Breaks
  | LoopStatement => leaves (clone_stmt s) Loops
  | EndcaseStatement => leaves (clone_stmt s) Endcases
  | _ => skip
  end
with exec_case (c : CaseClause) : behaviour :=
  match c with mkCase _ command _ => exec command end.

(** An execution of a body: it goes on at the label it jumps to. *)
Inductive run_from (body : behaviour) : option string -> trace -> ending -> Prop :=
  | run_ends o t k : body o t k -> run_from body o t k
  | run_jumps o t1 l t2 k : body o t1 (Jumps (Some l)) -> run_from body (Some l) t2 k ->
      run_from body o (t1 ++ t2) k.

(** ** The statements that graphs are built from *)

(** No VALOF where the pass looks for one. *)
Fixpoint plain_expr (e : Expression) : bool :=
  match e with
  | BinaryOp _ l r => plain_expr l && plain_expr r
  | UnaryOp _ a => plain_expr a
  | VectorAccess v i | CharIndirection v i | FloatVectorIndirection v i => plain_expr v && plain_expr i
  | FunctionCall f args => plain_expr f && forallb plain_expr args
  | ConditionalExpression c t f => plain_expr c && plain_expr t && plain_expr f
  | ValofExpression _ | FloatValofExpression _ => false
  | _ => true
  end.

Definition plain_decl (d : Declaration) : bool :=
  match d with
  | FunctionDeclaration _ _ _ | RoutineDeclaration _ _ _ => false
  | StaticDeclaration _ e _ => plain_expr e
  | _ => true
  end.

(** Identifiers of blocks end with the number of the block. *)
Definition ends_in_digit (s : string) : bool :=
  match list.last (String.list_ascii_of_string s) with Some c => isdigit c | None => false end.

(** Statements the pass makes blocks for. *)
Fixpoint structured (s : Statement) : bool :=
  match s with
  | LetDeclaration _ initializers _ => forallb plain_expr initializers
  | AssignmentStatement lhs rhs => forallb plain_expr lhs && forallb plain_expr rhs
  | RoutineCallStatement f args => plain_expr f && forallb plain_expr args
  | StringStatement e => plain_expr e
  | IfStatement c t => plain_expr c && structured t
  | ForStatement _ _ _ _ a _ _ body => plain_expr a && structured body
  | CompoundStatement l => forallb structured l
  | BlockStatement ds l => forallb plain_decl ds && forallb structured l
  | SwitchonStatement _ cases d => forallb structured_case cases && option_allb structured d
  | LabelTargetStatement l => negb (ends_in_digit l)
  | GotoStatement _ | ReturnStatement | ResultisStatement _ | FinishStatement _ _ | BreakStatement
  | LoopStatement | EndcaseStatement | BrkStatement => true
  | _ => false
  end
with structured_case (c : CaseClause) : bool :=
  match c with mkCase _ command _ => structured command end.

Fixpoint labels (s : Statement) : list string :=
  match s with
  | IfStatement _ t => labels t
  | ForStatement _ _ _ _ _ _ _ body => labels body
  | CompoundStatement l | BlockStatement _ l => concat (List.map labels l)
  | SwitchonStatement _ cases d =>
      concat (List.map labels_case cases) ++ match d with Some d => labels d | None => [] end
  | LabelTargetStatement l => [l]
  | _ => []
  end
with labels_case (c : CaseClause) : list string :=
  match c with mkCase _ command _ => labels command end.

(** *** Functions *)

Definition declared_function (d : Declaration) : option string :=
  match d with
  | FunctionDeclaration name _ _ | RoutineDeclaration name _ _ => Some name
  | _ => None
  end.

(** The statement that a function executes, if it is one. *)
Definition body_statement (d : Declaration) : option Statement :=
  match d with
  | FunctionDeclaration _ _ (ValofExpression body | FloatValofExpression body)
  | RoutineDeclaration _ _ body => Some body
  | _ => None
  end.
Definition body_exec (d : Declaration) : behaviour :=
  match body_statement d with Some body => exec body | None => skip end.
Definition body_labels (d : Declaration) : list string :=
  match body_statement d with Some body => labels body | None => [] end.
Definition body_structured (d : Declaration) : bool :=
  match body_statement d with
  | Some body => structured body
  | None => match d with FunctionDeclaration _ _ e => plain_expr e | _ => true end
  end.

(** Structured functions with names and labels of their own. *)
Definition structured_program (p : Program) : Prop :=
  Forall (fun d => body_structured d = true /\ NoDup (body_labels d)) (declarations p)
  /\ NoDup (omap declared_function (declarations p)).

(** ** Paths *)

Definition point : Type := nat * nat.

Inductive reach (h : gmap nat Block) : point -> trace -> point -> Prop :=
  | reach_here p : reach h p [] p
  | reach_statement p i b s t q : h !! p = Some b -> statements b !! i = Some s ->
      reach h (p, S i) t q -> reach h (p, i) (s :: t) q
  | reach_edge p b p' t q : h !! p = Some b -> p' ∈ successors b ->
      reach h (p', 0) t q -> reach h (p, length (statements b)) t q.

Lemma reach_trans h x t1 y t2 z : reach h x t1 y -> reach h y t2 z -> reach h x (t1 ++ t2) z.
Proof.
  intros H1 H2. induction H1; [done| |].
  - cbn. eapply reach_statement; eauto.
  - eapply reach_edge; eauto.
Qed.

(** ** Graphs *)

(** Edges lead to blocks of the graph, which are alive and have the identifiers they are
    listed under, as are entry and exit. *)
Record well_formed (h : gmap nat Block) (g : ControlFlowGraph) : Prop := {
  graph_blocks i p : blocks g !! i = Some p -> exists b, h !! p = Some b /\ id b = i;
  graph_edges i p b q : blocks g !! i = Some p -> h !! p = Some b -> q ∈ successors b ++ predecessors b ->
    exists j, blocks g !! j = Some q;
  graph_entry : exists i p, entry_block g = Some p /\ blocks g !! i = Some p;
  graph_exit p : exit_block g = Some p -> exists i, blocks g !! i = Some p
}.

(** Every execution of [b] is a path from the entry; it ends at the exit when it falls out of
    the body or returns, and at the end of a block otherwise. *)
Definition follows (h : gmap nat Block) (g : ControlFlowGraph) (b : behaviour) : Prop :=
  exists entry, entry_block g = Some entry /\ forall t k, run_from b None t k ->
    exists y, reach h (entry, 0) t y
      /\ match k with
         | Falls | Returns => exit_block g = Some y.1 /\ y.2 = 0
         | _ => exists c, h !! y.1 = Some c /\ y.2 = length (statements c)
         end.
