(* ===== verification/CfgProof.v ===== *)
(** * Building control-flow graphs

    The primitive operations of the builder on a state that satisfies its invariant [good]:
    every block that was made is alive, the current graph owns the blocks made for it under
    identifiers of their own, edges stay inside the graph and are mirrored.  [grows] is what
    visiting a statement may do to blocks that exist. *)

From S2P Require Import Prelude State CallFrame Ast Analysis Cfg CfgSpec.

(** ** Identifiers of blocks *)

Definition block_name (f pre : string) (n : Z) : string := (f ++ "_" ++ pre ++ to_string n)%string.

Lemma list_ascii_app (a b : string) :
  String.list_ascii_of_string (a ++ b) = String.list_ascii_of_string a ++ String.list_ascii_of_string b.
Proof. induction a as [|c a IH]; [done|]. exact (f_equal (cons c) IH). Qed.

Lemma pretty_char_digit n : isdigit (pretty_N_char n) = true.
Proof. unfold pretty_N_char. repeat case_match; reflexivity. Qed.

Lemma pretty_go_digits n s :
  Forall (fun c => isdigit c = true) (String.list_ascii_of_string s) ->
  Forall (fun c => isdigit c = true) (String.list_ascii_of_string (pretty_N_go n s)).
Proof.
  revert s. induction (N.lt_wf_0 n) as [n _ IH]. intros s Hs.
  destruct (decide (n = 0)%N) as [->|Hn]; [by rewrite pretty_N_go_0|].
  rewrite pretty_N_go_step by lia. apply IH; [apply N.div_lt; lia|].
  cbn. constructor; [apply pretty_char_digit | exact Hs].
Qed.

Lemma to_string_digits z : (0 <= z)%Z ->
  Forall (fun c => isdigit c = true) (String.list_ascii_of_string (to_string z)).
Proof.
  intros Hz. unfold to_string, pretty, pretty_Z, pretty, pretty_positive, pretty, pretty_N.
  destruct z as [|p|p]; [repeat constructor | | lia]. by apply pretty_go_digits.
Qed.

(** Where the trailing digits of a list begin is determined. *)
Lemma split_digits (d1 d2 r1 r2 : list ascii) :
  Forall (fun c => isdigit c = true) d1 -> Forall (fun c => isdigit c = true) d2 ->
  (forall c, head r1 = Some c -> isdigit c = false) -> (forall c, head r2 = Some c -> isdigit c = false) ->
  d1 ++ r1 = d2 ++ r2 -> d1 = d2 /\ r1 = r2.
Proof.
  revert d2. induction d1 as [|c d1 IH]; intros [|c2 d2] H1 H2 Hr1 Hr2 E; cbn in E; subst.
  - done.
  - apply list.Forall_cons in H2 as [H2 _]. rewrite (Hr1 c2) in H2; done.
  - apply list.Forall_cons in H1 as [H1 _]. rewrite (Hr2 c) in H1; done.
  - injection E as -> E. apply list.Forall_cons in H1 as [_ H1], H2 as [_ H2].
    destruct (IH d2 H1 H2 Hr1 Hr2 E) as [-> ->]. done.
Qed.

Lemma ascii_string_inj (a b : string) :
  String.list_ascii_of_string a = String.list_ascii_of_string b -> a = b.
Proof. intros E. by rewrite <-(String.string_of_list_ascii_of_string a), E, String.string_of_list_ascii_of_string. Qed.

Lemma head_reverse_last {A} (l : list A) : head (reverse l) = list.last l.
Proof. induction l as [|x l _] using rev_ind; [done|]. by rewrite reverse_snoc, last_snoc. Qed.

Lemma block_name_inj f pre1 pre2 n1 n2 : (0 <= n1)%Z -> (0 <= n2)%Z ->
  ends_in_digit pre1 = false -> ends_in_digit pre2 = false ->
  block_name f pre1 n1 = block_name f pre2 n2 -> pre1 = pre2 /\ n1 = n2.
Proof.
  intros H1 H2 D1 D2 E. unfold block_name in E. do 2 apply (inj (String.append _)) in E.
  apply (f_equal String.list_ascii_of_string) in E. rewrite !list_ascii_app in E.
  apply (f_equal reverse) in E. rewrite !reverse_app in E.
  apply split_digits in E as [Ed Er]; [| by apply Forall_reverse, to_string_digits..| |].
  - apply (inj reverse) in Ed, Er. apply ascii_string_inj in Ed, Er.
    split; [done|]. by apply (inj (pretty (A := Z))) in Ed.
  - intros c Hc. rewrite head_reverse_last in Hc. unfold ends_in_digit in D1. by rewrite Hc in D1.
  - intros c Hc. rewrite head_reverse_last in Hc. unfold ends_in_digit in D2. by rewrite Hc in D2.
Qed.

Lemma ends_in_digit_app a c s : ends_in_digit (a ++ String c s) = ends_in_digit (String c s).
Proof.
  unfold ends_in_digit. rewrite list_ascii_app. cbn [String.list_ascii_of_string].
  by rewrite last_app_cons.
Qed.

Lemma label_prefix l : ends_in_digit l = false -> ends_in_digit ("Label_" ++ l) = false.
Proof. destruct l as [|c l]; [done|]. intros H. by rewrite (ends_in_digit_app "Label_"). Qed.

Lemma case_prefix_ok i : ends_in_digit (case_prefix i) = false.
Proof. unfold case_prefix. by rewrite <-string_app_assoc, (ends_in_digit_app _ "_"). Qed.

(** ** Views of the state *)

Definition stm (s : builder) (q : nat) : list Statement :=
  match heap s !! q with Some b => statements b | None => [] end.
Definition suc (s : builder) (q : nat) : list nat :=
  match heap s !! q with Some b => successors b | None => [] end.
Definition pred (s : builder) (q : nat) : list nat :=
  match heap s !! q with Some b => predecessors b | None => [] end.
Definition exit_of (s : builder) : option nat :=
  match current_cfg s with
  | Some f => match function_cfgs s !! f with Some g => exit_block g | None => None end
  | None => None
  end.
(** What only BREAK, loops, switches, labels and GOTO change. *)
Definition control (s : builder) :=
  ((break_targets s, loop_targets s, endcase_targets s), (label_targets s, unresolved_gotos s)).

Definition entry_of (s : builder) : option nat :=
  match current_cfg s with
  | Some f => match function_cfgs s !! f with Some g => entry_block g | None => None end
  | None => None
  end.
(** Which function is visited, the entry of its graph, and the graphs of the others. *)
Definition owner (s : builder) :=
  (current_cfg s, entry_of s,
   match current_cfg s with Some f => delete f (function_cfgs s) | None => function_cfgs s end).

(** The blocks from [base] on are those of the current graph. *)
Definition in_range (base : nat) (s : builder) (q : nat) : Prop := base <= q < next_address s.

Record good (base : nat) (s : builder) : Prop := {
  good_alive q : q < next_address s <-> is_Some (heap s !! q);
  good_graph : exists f g, current_cfg s = Some f /\ function_cfgs s !! f = Some g
    /\ function_name g = f /\ (0 <= block_id_counter_ g)%Z
    /\ (forall i p, blocks g !! i = Some p ->
          base <= p /\ (exists b, heap s !! p = Some b /\ id b = i)
          /\ exists pre n, i = block_name f pre n /\ ends_in_digit pre = false
               /\ (0 <= n < block_id_counter_ g)%Z)
    /\ (forall p b, base <= p -> heap s !! p = Some b -> blocks g !! id b = Some p);
  good_exit e : exit_of s = Some e -> in_range base s e;
  good_targets : Forall (in_range base s) (break_targets s ++ loop_targets s ++ endcase_targets s);
  good_labels l q : label_targets s !! l = Some q -> in_range base s q;
  good_gotos x : x ∈ unresolved_gotos s -> in_range base s x.2;
  good_edges q : base <= q -> Forall (in_range base s) (suc s q);
  good_below q : q < base -> Forall (fun x => x < base) (suc s q);
  good_mirror p q : q ∈ suc s p <-> p ∈ pred s q;
  good_named f g i p : function_cfgs s !! f = Some g -> blocks g !! i = Some p ->
    exists b, heap s !! p = Some b /\ id b = i
}.

Lemma alive base s q : good base s -> q < next_address s -> exists b, heap s !! q = Some b.
Proof. intros H Hq. by apply (good_alive _ _ H) in Hq as [b Hb]; exists b. Qed.

(** The effect of a primitive operation. *)
Record change (base : nat) (stm' : nat -> list Statement) (suc' : nat -> list nat)
    (next' : nat) (current' exit' : option nat)
    (control' : (list nat * list nat * list nat) * (gmap string nat * list (Expression * nat)))
    (owner' : option string * option nat * gmap string ControlFlowGraph) (s' : builder) : Prop := {
  change_good : good base s';
  change_stm q : stm s' q = stm' q;
  change_suc q : suc s' q = suc' q;
  change_next : next_address s' = next';
  change_current : current_basic_block s' = current';
  change_exit : exit_of s' = exit';
  change_control : control s' = control';
  change_owner : owner s' = owner'
}.

Lemma stm_insert s h n p b q : h = heap s ->
  stm (set_heap (<[p := b]> h) n s) q = if decide (q = p) then statements b else stm s q.
Proof.
  intros ->. unfold stm. cbn. case_decide as Hq; [subst; by rewrite lookup_insert_eq|].
  by rewrite lookup_insert_ne.
Qed.
Lemma suc_insert s h n p b q : h = heap s ->
  suc (set_heap (<[p := b]> h) n s) q = if decide (q = p) then successors b else suc s q.
Proof.
  intros ->. unfold suc. cbn. case_decide as Hq; [subst; by rewrite lookup_insert_eq|].
  by rewrite lookup_insert_ne.
Qed.

Lemma stm_lookup s p b : heap s !! p = Some b -> stm s p = statements b.
Proof. unfold stm. by intros ->. Qed.
Lemma suc_lookup s p b : heap s !! p = Some b -> suc s p = successors b.
Proof. unfold suc. by intros ->. Qed.

Lemma ends_block_at base s p (Q : Block -> builder -> Prop) : good base s -> p < next_address s ->
  (forall b, heap s !! p = Some b -> Q b s) -> ends (block_at p) Q s.
Proof.
  intros H Hp HQ. destruct (alive _ _ _ H Hp) as [b Hb]. apply ends_bind, ends_get.
  rewrite Hb. by apply HQ.
Qed.

Lemma in_range_later base s s' q : next_address s <= next_address s' -> in_range base s q -> in_range base s' q.
Proof. unfold in_range. lia. Qed.

(** Changing a block, but not its identifier and edges, keeps the invariant. *)
Lemma good_put base s p b b' : good base s -> heap s !! p = Some b -> id b' = id b ->
  successors b' = successors b -> predecessors b' = predecessors b ->
  good base (set_heap (<[p := b']> (heap s)) (next_address s) s).
Proof.
  intros H Hp Hid Hs Hr. set (s' := set_heap _ _ _).
  assert (Hlt : p < next_address s) by (by apply (good_alive _ _ H); rewrite Hp).
  assert (Hh : forall q, heap s' !! q = if decide (q = p) then Some b' else heap s !! q).
  { intros q. cbn. case_decide as E; [subst; by rewrite lookup_insert_eq | by rewrite lookup_insert_ne]. }
  assert (Hsu : forall q, suc s' q = suc s q).
  { intros q. unfold suc. rewrite Hh. case_decide as E; [subst; by rewrite Hp|done]. }
  assert (Hpr : forall q, pred s' q = pred s q).
  { intros q. unfold pred. rewrite Hh. case_decide as E; [subst; by rewrite Hp|done]. }
  destruct (good_graph _ _ H) as (f & g & H1 & H2 & H3 & H4 & H5 & H6).
  split; try apply H.
  - intros q. cbn [next_address s' set_heap]. rewrite (good_alive _ _ H q), Hh. case_decide as E; [|done].
    subst. rewrite Hp. by split; eexists.
  - exists f, g. split_and!; try done.
    + intros i q Hi. destruct (H5 i q Hi) as (Hb & (bq & Hbq & Hid') & Hn). split_and!; try done.
      rewrite Hh. case_decide as E; [|by exists bq]. exists b'. split; [done|]. rewrite Hid.
      subst. rewrite Hp in Hbq. by injection Hbq as <-.
    + intros q bq Hq. rewrite Hh. case_decide as E; [|by apply H6]. intros [= <-]. rewrite Hid.
      subst. by apply H6.
  - intros q. rewrite Hsu. apply (good_edges _ _ H).
  - intros q. rewrite Hsu. apply (good_below _ _ H).
  - intros q1 q2. rewrite Hsu, Hpr. apply (good_mirror _ _ H).
  - intros f' g' i q Hf Hi. destruct (good_named _ _ H f' g' i q Hf Hi) as (bq & Hbq & Hid').
    rewrite Hh. case_decide as E; [|by exists bq]. exists b'. split; [done|]. rewrite Hid.
    subst. rewrite Hp in Hbq. by injection Hbq as <-.
Qed.

(** ** The primitive operations *)

Lemma ends_push base p x s : good base s -> in_range base s p ->
  ends (on_block p (push_statement x)) (fun _ =>
    change base (fun q => if decide (q = p) then stm s p ++ [x] else stm s q) (suc s) (next_address s)
      (current_basic_block s) (exit_of s) (control s) (owner s)) s.
Proof.
  intros H Hp. apply ends_bind, (ends_block_at base); [done | apply Hp|]. intros b Hb. apply ends_modify.
  split; try done.
  - by apply (good_put base s p b).
  - intros q. rewrite stm_insert by done. by rewrite (stm_lookup _ _ _ Hb).
  - intros q. rewrite suc_insert by done. case_decide; [subst|done]. by rewrite (suc_lookup _ _ _ Hb).
Qed.

Lemma ends_mark base p f s : good base s -> in_range base s p ->
  (forall b, id (f b) = id b /\ statements (f b) = statements b /\ successors (f b) = successors b
     /\ predecessors (f b) = predecessors b) ->
  ends (on_block p f) (fun _ =>
    change base (stm s) (suc s) (next_address s) (current_basic_block s) (exit_of s) (control s)
      (owner s)) s.
Proof.
  intros H Hp Hf. apply ends_bind, (ends_block_at base); [done | apply Hp|]. intros b Hb. apply ends_modify.
  destruct (Hf b) as (Hid & Hst & Hsu & Hpr). split; try done.
  - by apply (good_put base s p b).
  - intros q. rewrite stm_insert by done. case_decide; [subst|done]. by rewrite Hst, (stm_lookup _ _ _ Hb).
  - intros q. rewrite suc_insert by done. case_decide; [subst|done]. by rewrite Hsu, (suc_lookup _ _ _ Hb).
Qed.

Lemma the_graph_ends base s (Q : ControlFlowGraph -> builder -> Prop) : good base s ->
  (forall f g, current_cfg s = Some f -> function_cfgs s !! f = Some g -> function_name g = f -> Q g s) ->
  ends the_graph Q s.
Proof.
  intros H HQ. destruct (good_graph _ _ H) as (f & g & H1 & H2 & H3 & _).
  apply ends_bind, ends_get. rewrite H1. cbn. rewrite H2. by apply (HQ f g).
Qed.

Definition put (p : nat) (b : Block) (s : builder) : builder :=
  set_heap (<[p := b]> (heap s)) (next_address s) s.

Lemma ends_on_block base p f s (Q : unit -> builder -> Prop) : good base s -> in_range base s p ->
  (forall b, heap s !! p = Some b -> Q tt (put p (f b) s)) -> ends (on_block p f) Q s.
Proof.
  intros H Hp HQ. apply ends_bind, (ends_block_at base); [done | apply Hp|]. intros b Hb.
  by apply ends_modify, HQ.
Qed.

Lemma elem_of_snoc {A} (l : list A) x y : y ∈ l ++ [x] <-> y ∈ l \/ y = x.
Proof. rewrite elem_of_app, list_elem_of_singleton. done. Qed.

(** An edge adds a successor to one block and a predecessor to the other. *)
Definition with_edge (p q : nat) (s : builder) : builder :=
  let s1 := match heap s !! p with Some b => put p (push_successor q b) s | None => s end in
  match heap s1 !! q with Some b => put q (push_predecessor p b) s1 | None => s1 end.

Lemma heap_with_edge p q s x bp bq : heap s !! p = Some bp -> heap s !! q = Some bq ->
  heap (with_edge p q s) !! x =
    b ← heap s !! x;
    Some (mkCfgBlock (id b) (statements b) (if decide (x = p) then successors b ++ [q] else successors b)
      (if decide (x = q) then predecessors b ++ [p] else predecessors b) (is_entry b) (is_exit b) (label_name b)).
Proof.
  intros Hp Hq. unfold with_edge. rewrite Hp. cbn [heap put set_heap].
  destruct (decide (q = p)) as [->|Hqp].
  - rewrite lookup_insert_eq. cbn. rewrite insert_insert_eq. destruct (decide (x = p)) as [->|Hx].
    + rewrite lookup_insert_eq, Hp. cbn. by rewrite Hp in Hq; injection Hq as <-.
    + rewrite lookup_insert_ne by done. destruct (heap s !! x) as [[]|]; done.
  - rewrite lookup_insert_ne by done. rewrite Hq. cbn.
    destruct (decide (x = q)) as [->|Hxq].
    + rewrite lookup_insert_eq, Hq. cbn. by rewrite decide_False by done.
    + rewrite lookup_insert_ne by done. destruct (decide (x = p)) as [->|Hxp].
      * rewrite lookup_insert_eq, Hp. done.
      * rewrite lookup_insert_ne by done. destruct (heap s !! x) as [[]|]; done.
Qed.

Lemma with_edge_other p q s :
  next_address (with_edge p q s) = next_address s /\ function_cfgs (with_edge p q s) = function_cfgs s
  /\ current_cfg (with_edge p q s) = current_cfg s
  /\ current_basic_block (with_edge p q s) = current_basic_block s
  /\ break_targets (with_edge p q s) = break_targets s /\ loop_targets (with_edge p q s) = loop_targets s
  /\ endcase_targets (with_edge p q s) = endcase_targets s
  /\ label_targets (with_edge p q s) = label_targets s
  /\ unresolved_gotos (with_edge p q s) = unresolved_gotos s.
Proof. unfold with_edge. by repeat case_match. Qed.

Lemma good_with_edge base p q s : good base s -> in_range base s p -> in_range base s q ->
  good base (with_edge p q s)
  /\ (forall x, stm (with_edge p q s) x = stm s x)
  /\ (forall x, suc (with_edge p q s) x = if decide (x = p) then suc s p ++ [q] else suc s x).
Proof.
  intros H Hp Hq. destruct (alive _ _ p H) as [bp Hbp]; [apply Hp|].
  destruct (alive _ _ q H) as [bq Hbq]; [apply Hq|].
  pose proof (fun x => heap_with_edge p q s x bp bq Hbp Hbq) as Hh.
  destruct (with_edge_other p q s) as (E1 & E2 & E3 & E4 & E5 & E6 & E7 & E8 & E9).
  set (s' := with_edge p q s) in *.
  assert (Hst : forall x, stm s' x = stm s x).
  { intros x. unfold stm. rewrite Hh. by destruct (heap s !! x). }
  assert (Hsu : forall x, suc s' x = if decide (x = p) then suc s p ++ [q] else suc s x).
  { intros x. unfold suc. rewrite Hh. case_decide as Hx; [subst; by rewrite Hbp|]. by destruct (heap s !! x). }
  assert (Hpr : forall x, pred s' x = if decide (x = q) then pred s q ++ [p] else pred s x).
  { intros x. unfold pred. rewrite Hh. destruct (decide (x = q)) as [->|Hx]; [by rewrite Hbq|].
    by destruct (heap s !! x). }
  assert (Hr : forall x, in_range base s' x <-> in_range base s x) by (unfold in_range; by rewrite E1).
  split; [|done]. destruct (good_graph _ _ H) as (f & g & H1 & H2 & H3 & H4 & H5 & H6).
  assert (Hex : exit_of s' = exit_of s) by (unfold exit_of; by rewrite E2, E3).
  split.
  - intros x. rewrite E1, (good_alive _ _ H x), Hh. destruct (heap s !! x); cbn; [by split; eexists|].
    by split; intros [].
  - exists f, g. rewrite E2, E3. split_and!; try done.
    + intros i x Hi. destruct (H5 i x Hi) as (? & (b & Hb & Hid) & ?). split_and!; try done.
      rewrite Hh, Hb. cbn. by eexists.
    + intros x b Hx. rewrite Hh. destruct (heap s !! x) as [b'|] eqn:Hb'; [|done].
      intros [= <-]. cbn. by apply H6.
  - intros e. rewrite Hex. intros He. by apply Hr, (good_exit _ _ H).
  - rewrite E5, E6, E7. eapply List.Forall_impl; [|apply (good_targets _ _ H)]. intros x. apply Hr.
  - intros l x. rewrite E8. intros Hl. apply Hr. by eapply good_labels.
  - intros x. rewrite E9. intros Hl. apply Hr. by eapply good_gotos.
  - intros x Hx. rewrite Hsu. eapply List.Forall_impl; [intros y; apply Hr|].
    case_decide as Hxp; [|by apply (good_edges _ _ H)].
    apply list.Forall_app. split; [|by apply Forall_singleton]. apply (good_edges _ _ H), Hp.
  - intros x Hx. rewrite Hsu, decide_False; [by apply (good_below _ _ H)|]. intros ->. unfold in_range in Hp. lia.
  - intros x y. rewrite Hsu, Hpr. pose proof (good_mirror _ _ H x y) as Hm.
    destruct (decide (x = p)) as [->|N1], (decide (y = q)) as [->|N2];
      rewrite ?elem_of_snoc, ?Hm; intuition (subst; tauto).
  - intros f' g' i x. rewrite E2. intros Hf Hi. destruct (good_named _ _ H f' g' i x Hf Hi) as (b & Hb & Hid).
    rewrite Hh, Hb. cbn. by eexists.
Qed.

Lemma on_block_alive p f s b : heap s !! p = Some b -> on_block p f s = (put p (f b) s, Done tt).
Proof. intros Hb. unfold on_block, block_at, mbind, ST_bind, st_get, st_deref. by rewrite Hb. Qed.

Lemma edge_runs p q s bp bq : heap s !! p = Some bp -> heap s !! q = Some bq ->
  (on_block p (push_successor q);; on_block q (push_predecessor p)) s = (with_edge p q s, Done tt).
Proof.
  intros Hp Hq. rewrite (st_bind_then _ _ _ _ _ (on_block_alive p _ s bp Hp)).
  unfold with_edge. rewrite Hp. cbn [put heap set_heap]. destruct (decide (q = p)) as [->|Hqp].
  - rewrite lookup_insert_eq. apply on_block_alive. cbn. by rewrite lookup_insert_eq.
  - rewrite lookup_insert_ne, Hq by done. apply on_block_alive. cbn. by rewrite lookup_insert_ne.
Qed.

Lemma ends_edge base p q s : good base s -> in_range base s p -> in_range base s q ->
  ends (add_edge p q) (fun _ =>
    change base (stm s) (fun x => if decide (x = p) then suc s p ++ [q] else suc s x) (next_address s)
      (current_basic_block s) (exit_of s) (control s) (owner s)) s.
Proof.
  intros H Hp Hq. apply ends_bind, (the_graph_ends base); [done|]. intros _ _ _ _ _.
  destruct (alive _ _ p H) as [bp Hbp]; [apply Hp|]. destruct (alive _ _ q H) as [bq Hbq]; [apply Hq|].
  eapply ends_intro; [by eapply edge_runs|].
  destruct (good_with_edge base p q s H Hp Hq) as (Hg & Hst & Hsu).
  destruct (with_edge_other p q s) as (E1 & E2 & E3 & E4 & E5 & E6 & E7 & E8 & E9).
  split; try done; [unfold exit_of; by rewrite E2, E3 | unfold control; congruence |
    unfold owner, entry_of; by rewrite E2, E3].
Qed.

Lemma in_range_S base s q : in_range base s q -> base <= q < S (next_address s).
Proof. unfold in_range. lia. Qed.

(** A new block: empty, with an identifier no block of the graph has. *)
Lemma ends_create base pre s : good base s -> base <= next_address s -> ends_in_digit pre = false ->
  ends (create_new_basic_block pre) (fun p s' => p = next_address s /\
    change base (stm s) (suc s) (S (next_address s)) (current_basic_block s) (exit_of s) (control s)
      (owner s) s') s.
Proof.
  intros H Hbase Hpre. destruct (good_graph _ _ H) as (f & g & H1 & H2 & H3 & H4 & H5 & H6).
  apply ends_bind, ends_get. rewrite H1. apply ends_bind, (the_graph_ends base); [done|].
  intros f' g' E1 E2 _. rewrite H1 in E1. injection E1 as <-. rewrite H2 in E2. injection E2 as <-. rewrite H3.
  change (f ++ "_" ++ pre ++ to_string (block_id_counter_ g))%string with (block_name f pre (block_id_counter_ g)).
  set (i := block_name f pre (block_id_counter_ g)). set (p := next_address s).
  assert (Hfree : blocks g !! i = None).
  { destruct (blocks g !! i) as [q|] eqn:Hq; [|done]. destruct (H5 _ _ Hq) as (_ & _ & pre' & n & E & Hd & Hn).
    apply block_name_inj in E as [_ En]; [lia | lia.. | done | done]. }
  assert (Hnone : heap s !! p = None).
  { destruct (heap s !! p) eqn:E; [|done]. assert (p < next_address s) by (apply (good_alive _ _ H); by rewrite E). lia. }
  apply ends_bind, ends_get, ends_bind, ends_modify. rewrite Hfree. apply ends_bind.
  unfold on_graph. apply ends_bind, ends_bind, ends_get. cbn. rewrite H1. cbn. rewrite H2.
  apply ends_modify, ends_ret. split; [done|].
  set (s' := set_cfgs _ _).
  assert (Hh : forall q, heap s' !! q = if decide (q = p) then Some (Block_new i) else heap s !! q).
  { intros q. cbn. case_decide as E; [subst q; by rewrite lookup_insert_eq | by rewrite lookup_insert_ne]. }
  assert (Hst : forall q, stm s' q = stm s q).
  { intros q. unfold stm. rewrite Hh. case_decide as E; [subst q; by rewrite Hnone | done]. }
  assert (Hsu : forall q, suc s' q = suc s q).
  { intros q. unfold suc. rewrite Hh. case_decide as E; [subst q; by rewrite Hnone | done]. }
  assert (Hpr : forall q, pred s' q = pred s q).
  { intros q. unfold pred. rewrite Hh. case_decide as E; [subst q; by rewrite Hnone | done]. }
  assert (Hex : exit_of s' = exit_of s).
  { unfold exit_of. cbn. rewrite H1, H3, lookup_insert_eq, H2. done. }
  assert (Hr : forall q, in_range base s q -> in_range base s' q) by (intros q; apply in_range_S).
  assert (Hown : owner s' = owner s).
  { unfold owner, entry_of. cbn. by rewrite H1, H3, delete_insert_eq, lookup_insert_eq, H2. }
  split; try done. split.
  - intros q. rewrite Hh. cbn [next_address s' set_cfgs set_heap]. case_decide as E.
    + subst q. split; [by eexists | unfold p; lia].
    + rewrite <-(good_alive _ _ H q). fold p. lia.
  - exists f, (mkGraph (<[i:=p]> (blocks g)) (entry_block g) (exit_block g) (function_name g) (block_id_counter_ g + 1)).
    cbn [function_cfgs s' set_cfgs set_heap current_cfg blocks block_id_counter_ function_name].
    split_and!; try done; [by rewrite <-H3, lookup_insert_eq | lia | |].
    + intros j q. destruct (decide (j = i)) as [->|Hj].
      * rewrite lookup_insert_eq. intros [= <-]. split_and!; [done | | exists pre, (block_id_counter_ g); split_and!; [done|done|lia..]].
        exists (Block_new i). rewrite Hh, decide_True by done. done.
      * rewrite lookup_insert_ne by done. intros Hq. destruct (H5 _ _ Hq) as (? & (b & Hb & ?) & pre' & n & ? & ? & ?).
        split_and!; [done | | exists pre', n; split_and!; [done|done|lia..]].
        exists b. rewrite Hh. case_decide as E; [subst q; by rewrite Hnone in Hb | done].
    + intros q b Hq. rewrite Hh. case_decide as E; [subst q; intros [= <-]; cbn; by rewrite lookup_insert_eq|].
      intros Hb. rewrite lookup_insert_ne; [by apply H6|]. intros Ei. apply H6 in Hb; [|done].
      rewrite <-Ei, Hfree in Hb. done.
  - intros e. rewrite Hex. intros He. by apply Hr, (good_exit _ _ H).
  - eapply List.Forall_impl; [apply Hr | apply (good_targets _ _ H)].
  - intros l q Hl. by eapply Hr, good_labels.
  - intros x Hx. by eapply Hr, good_gotos.
  - intros q Hq. rewrite Hsu. eapply List.Forall_impl; [apply Hr | by apply (good_edges _ _ H)].
  - intros q Hq. rewrite Hsu. by apply (good_below _ _ H).
  - intros x y. rewrite Hsu, Hpr. apply (good_mirror _ _ H).
  - assert (Keep : forall j q, (exists b, heap s !! q = Some b /\ id b = j) ->
      exists b, heap s' !! q = Some b /\ id b = j).
    { intros j q (b & Hb & Hid). exists b. rewrite Hh. case_decide as E; [subst q; by rewrite Hnone in Hb | done]. }
    intros f' g' j q. cbn [function_cfgs s' set_cfgs set_heap]. rewrite H3.
    destruct (decide (f' = f)) as [->|Hf].
    + rewrite lookup_insert_eq. intros [= <-]. cbn [blocks]. destruct (decide (j = i)) as [->|Hj].
      * rewrite lookup_insert_eq. intros [= <-]. exists (Block_new i). by rewrite Hh, decide_True.
      * rewrite lookup_insert_ne by done. intros Hq. by eapply Keep, good_named.
    + rewrite lookup_insert_ne by done. intros Hg Hq. by eapply Keep, good_named.
Qed.

(** Operations that change no block and no graph. *)
Lemma good_same_heap base s s' : good base s -> heap s' = heap s -> next_address s' = next_address s ->
  function_cfgs s' = function_cfgs s -> current_cfg s' = current_cfg s ->
  Forall (in_range base s) (break_targets s' ++ loop_targets s' ++ endcase_targets s') ->
  (forall l q, label_targets s' !! l = Some q -> in_range base s q) ->
  (forall x, x ∈ unresolved_gotos s' -> in_range base s x.2) -> good base s'.
Proof.
  intros H E1 E2 E3 E4 Ht Hl Hg.
  assert (Hr : forall q, in_range base s q -> in_range base s' q) by (unfold in_range; by rewrite E2).
  assert (Hex : exit_of s' = exit_of s) by (unfold exit_of; by rewrite E3, E4).
  split.
  - intros q. rewrite E1, E2. apply (good_alive _ _ H).
  - destruct (good_graph _ _ H) as (f & g & Hg'). exists f, g. by rewrite E1, E3, E4.
  - intros e. rewrite Hex. intros He. by apply Hr, (good_exit _ _ H).
  - eapply List.Forall_impl; [apply Hr | exact Ht].
  - intros l q Hq. by eapply Hr, Hl.
  - intros x Hx. by apply Hr, Hg.
  - intros q Hq. unfold suc. rewrite E1. eapply List.Forall_impl; [apply Hr | by apply (good_edges _ _ H)].
  - intros q Hq. unfold suc. rewrite E1. by apply (good_below _ _ H).
  - intros p q. unfold suc, pred. rewrite E1. apply (good_mirror _ _ H).
  - intros f g i p. rewrite E1, E3. apply (good_named _ _ H).
Qed.

Lemma good_set_current base s o : good base s -> good base (set_current o s).
Proof. intros H. by apply (good_same_heap base s); try done; apply H. Qed.

Lemma good_set_targets base s b l e : good base s -> Forall (in_range base s) (b ++ l ++ e) ->
  good base (set_targets b l e s).
Proof. intros H Ht. by apply (good_same_heap base s); try done; apply H. Qed.

Lemma good_set_label base s l q : good base s -> in_range base s q ->
  good base (set_labels (<[l := q]> (label_targets s)) s).
Proof.
  intros H Hq. apply (good_same_heap base s); try done; try apply H. cbn. intros l' q'.
  destruct (decide (l' = l)) as [->|Hl]; [rewrite lookup_insert_eq; by intros [= <-]|].
  rewrite lookup_insert_ne by done. apply (good_labels _ _ H).
Qed.

Lemma good_add_goto base s e q : good base s -> in_range base s q ->
  good base (set_gotos (unresolved_gotos s ++ [(e, q)]) s).
Proof.
  intros H Hq. apply (good_same_heap base s); try done; try apply H. cbn. intros x.
  rewrite elem_of_snoc. intros [Hx | ->]; [by apply (good_gotos _ _ H) | done].
Qed.

(** The exit block of the graph, made when there is none. *)
Lemma ends_exit base s : good base s -> base <= next_address s ->
  ends exit_of_graph (fun e s' =>
    (exit_of s = Some e /\ s' = s)
    \/ (exit_of s = None /\ e = next_address s /\
        change base (stm s) (suc s) (S (next_address s)) (current_basic_block s) (Some e) (control s)
          (owner s) s')) s.
Proof.
  intros H Hb. apply ends_bind, (the_graph_ends base); [done|]. intros f g H1 H2 H3.
  assert (Hex : exit_of s = exit_block g) by (unfold exit_of; by rewrite H1, H2).
  destruct (exit_block g) as [e|] eqn:He; [by left|].
  apply ends_bind. eapply ends_mono; [by apply (ends_create base)|].
  intros p s1 [Hp C1]. apply ends_bind. unfold on_graph.
  apply ends_bind, (the_graph_ends base); [apply C1|]. intros f' g' H1' H2' H3'. apply ends_modify.
  set (s2 := set_cfgs _ _).
  assert (Hex2 : exit_of s2 = Some p).
  { unfold exit_of. cbn. rewrite H1', H3', lookup_insert_eq. done. }
  assert (Hp1 : in_range base s1 p) by (unfold in_range; rewrite (change_next _ _ _ _ _ _ _ _ _ C1); lia).
  assert (G2 : good base s2).
  { pose proof (change_good _ _ _ _ _ _ _ _ _ C1) as G1. split; try apply G1.
    - destruct (good_graph _ _ G1) as (f1 & g1 & F1 & F2 & F3 & F4 & F5 & F6).
      rewrite F1 in H1'. injection H1' as ->. rewrite F2 in H2'. injection H2' as ->.
      exists f', (set_exit p g'). cbn. by rewrite H3', lookup_insert_eq.
    - intros e. rewrite Hex2. by intros [= <-].
    - intros f1 g1 i q. cbn. destruct (decide (f1 = function_name g')) as [->|Hf].
      + rewrite lookup_insert_eq. intros [= <-]. cbn. by apply (good_named _ _ G1 f' g').
      + rewrite lookup_insert_ne by done. apply (good_named _ _ G1). }
  apply ends_bind. eapply ends_mono; [apply (ends_mark base p mark_exit); [done | done | by intros []]|].
  intros [] s3 C3. apply ends_ret. right. split_and!; [done | done |].
  split; [apply C3 | intros q | intros q | | | | |]; (etransitivity; [apply C3|]); try apply C1.
  - exact Hex2.
  - rewrite <-(change_owner _ _ _ _ _ _ _ _ _ C1). unfold owner, entry_of. cbn. by rewrite H1', H3', delete_insert_eq, lookup_insert_eq, H2'.
Qed.
