(* ===== verification/CfgVisit.v ===== *)
(** * Graphs follow executions: the method

    [visited L b p s s'] says that a visit which found the open block [p] in the state [s] and
    left the state [s'] added to the graph the executions [b] of a statement with the labels
    [L]: every execution is a path, and blocks that were there before are only changed by
    edges that arrive.  The lemmas compose such visits as [CfgSpec] composes executions. *)

From S2P Require Import Prelude State CallFrame Ast Analysis Cfg CfgSpec CfgProof.

(** ** What a visit does to the blocks that exist *)

(** Only [p] and the blocks from [n] on get statements and successors, and only as long as a
    block has no successors does it get statements. *)
Record grows (p n : nat) (s s' : builder) : Prop := {
  grows_next : next_address s <= next_address s';
  grows_same q : q < n -> q <> p -> stm s' q = stm s q /\ suc s' q = suc s q;
  grows_stm q : stm s q `prefix_of` stm s' q;
  grows_fixed q : suc s q <> [] -> stm s' q = stm s q;
  grows_suc q x : x ∈ suc s q -> x ∈ suc s' q
}.

Lemma growth_refl p n s : grows p n s s.
Proof. by split. Qed.

Lemma growth_trans p n s1 s2 s3 : grows p n s1 s2 -> grows p n s2 s3 -> grows p n s1 s3.
Proof.
  intros H1 H2. split.
  - pose proof (grows_next _ _ _ _ H1). pose proof (grows_next _ _ _ _ H2). lia.
  - intros q Hq Hp. destruct (grows_same _ _ _ _ H1 q Hq Hp), (grows_same _ _ _ _ H2 q Hq Hp). split; congruence.
  - intros q. etransitivity; [apply (grows_stm _ _ _ _ H1) | apply (grows_stm _ _ _ _ H2)].
  - intros q Hq. rewrite (grows_fixed _ _ _ _ H2 q); [by apply (grows_fixed _ _ _ _ H1)|].
    destruct (suc s1 q) as [|x l] eqn:E; [done|]. intros E2.
    pose proof (grows_suc _ _ _ _ H1 q x ltac:(rewrite E; left)) as Hx. rewrite E2 in Hx.
    by apply not_elem_of_nil in Hx.
  - intros q x Hx. by apply (grows_suc _ _ _ _ H2), (grows_suc _ _ _ _ H1).
Qed.

(** Only the blocks matter. *)
Lemma grows_heap p n s s' s'' : grows p n s s' -> heap s'' = heap s' -> next_address s'' = next_address s' ->
  grows p n s s''.
Proof.
  intros H E1 E2. assert (E : forall q, stm s'' q = stm s' q /\ suc s'' q = suc s' q)
    by (intros q; unfold stm, suc; by rewrite E1).
  split.
  - rewrite E2. apply H.
  - intros q. rewrite (proj1 (E q)), (proj2 (E q)). apply H.
  - intros q. rewrite (proj1 (E q)). apply H.
  - intros q. rewrite (proj1 (E q)). apply H.
  - intros q x. rewrite (proj2 (E q)). apply H.
Qed.

Lemma grows_heap_from p n s0 s s' : grows p n s s' -> heap s0 = heap s -> next_address s0 = next_address s ->
  grows p n s0 s'.
Proof. intros H E1 E2. eapply growth_trans; [apply (grows_heap _ _ _ s0 s (growth_refl _ _ _)) | exact H]; done. Qed.

(** A visit of a block made later is a visit of this one. *)
Lemma grows_inside p n p' n' s s' : n <= n' -> (p' = p \/ n <= p') -> grows p' n' s s' -> grows p n s s'.
Proof.
  intros Hn Hp H. split; try apply H. intros q Hq Hqp. apply (grows_same _ _ _ _ H); [lia|].
  intros ->. destruct Hp; [done | lia].
Qed.

Lemma grows_neutral p n s s' : next_address s <= next_address s' -> (forall q, stm s' q = stm s q) ->
  (forall q, suc s' q = suc s q) -> grows p n s s'.
Proof. intros Hn H1 H2. split; [done | done | | done |]; intros q; by rewrite ?H1, ?H2. Qed.

Section change.
Context {base : nat} {n' : nat} {cur ex : option nat} {ctl : (list nat * list nat * list nat) *
  (gmap string nat * list (Expression * nat))} {cfg : option string * option nat * gmap string ControlFlowGraph}.

Lemma grows_change p n s s' : next_address s <= n' ->
  change base (stm s) (suc s) n' cur ex ctl cfg s' -> grows p n s s'.
Proof. intros Hn C. apply grows_neutral; [by rewrite (change_next _ _ _ _ _ _ _ _ _ C) | apply C..]. Qed.

Lemma grows_push p n r x s s' : r = p \/ n <= r -> suc s r = [] -> next_address s <= n' ->
  change base (fun q => if decide (q = r) then stm s r ++ [x] else stm s q) (suc s) n' cur ex ctl cfg s' ->
  grows p n s s'.
Proof.
  intros Hr Hs Hn C. pose proof (change_stm _ _ _ _ _ _ _ _ _ C) as Hst.
  pose proof (change_suc _ _ _ _ _ _ _ _ _ C) as Hsu. split.
  - by rewrite (change_next _ _ _ _ _ _ _ _ _ C).
  - intros q Hq Hp. rewrite Hst, Hsu, decide_False; [done|]. intros ->. destruct Hr; [done | lia].
  - intros q. rewrite Hst. case_decide; [subst; by apply prefix_app_r | done].
  - intros q Hq. rewrite Hst. case_decide; [by subst | done].
  - intros q y. by rewrite Hsu.
Qed.

Lemma grows_edge p n r to s s' : r = p \/ n <= r -> next_address s <= n' ->
  change base (stm s) (fun q => if decide (q = r) then suc s r ++ [to] else suc s q) n' cur ex ctl cfg s' ->
  grows p n s s'.
Proof.
  intros Hr Hn C. pose proof (change_stm _ _ _ _ _ _ _ _ _ C) as Hst.
  pose proof (change_suc _ _ _ _ _ _ _ _ _ C) as Hsu. split.
  - by rewrite (change_next _ _ _ _ _ _ _ _ _ C).
  - intros q Hq Hp. rewrite Hst, Hsu, decide_False; [done|]. intros ->. destruct Hr; [done | lia].
  - intros q. by rewrite Hst.
  - intros q _. apply Hst.
  - intros q y Hy. rewrite Hsu. case_decide; [subst|done]. rewrite elem_of_app. by left.
Qed.
End change.

(** ** Paths *)

Lemma reach_one s p i x t q : stm s p !! i = Some x -> reach (heap s) (p, S i) t q ->
  reach (heap s) (p, i) (x :: t) q.
Proof.
  unfold stm. destruct (heap s !! p) as [b|] eqn:E; [|done]. intros Hx Hr. by eapply reach_statement.
Qed.

Lemma reach_along s p p' t q n : p' ∈ suc s p -> n = length (stm s p) ->
  reach (heap s) (p', 0) t q -> reach (heap s) (p, n) t q.
Proof.
  unfold suc, stm. destruct (heap s !! p) as [b|] eqn:E; [|by intros ?%not_elem_of_nil].
  intros Hp -> Hr. by eapply reach_edge.
Qed.

Lemma reach_grows p n s s' x t y : grows p n s s' -> reach (heap s) x t y -> reach (heap s') x t y.
Proof.
  intros H R. remember (heap s) as h eqn:Hh.
  induction R as [x|r i b st t q Hb Hi _ IH|r b r' t q Hb Hr' _ IH]; subst h; [constructor| |].
  - eapply reach_one; [|by apply IH]. eapply prefix_lookup_Some; [|apply (grows_stm _ _ _ _ H)].
    by rewrite (stm_lookup _ _ _ Hb).
  - eapply reach_along; [| |by apply IH].
    + apply (grows_suc _ _ _ _ H). by rewrite (suc_lookup _ _ _ Hb).
    + rewrite (grows_fixed _ _ _ _ H), (stm_lookup _ _ _ Hb); [done|].
      rewrite (suc_lookup _ _ _ Hb). intros E. rewrite E in Hr'. by apply not_elem_of_nil in Hr'.
Qed.

(** ** Visits *)

(** The current block takes statements. *)
Definition opened (base : nat) (s : builder) (p : nat) : Prop :=
  current_basic_block s = Some p /\ in_range base s p /\ suc s p = []
  /\ ends_with_control_flow (stm s p) = false.

(** The end of a block that was left for good; [p] or one that was made since [n]. *)
Definition stopped (p n : nat) (s : builder) (y : point) : Prop :=
  let '(q, j) := y in
  j = length (stm s q) /\ suc s q = [] /\ q < next_address s /\ current_basic_block s <> Some q
  /\ (q = p \/ n <= q).

Definition first_target (p n : nat) (s : builder) (targets : list nat) (y : point) : Prop :=
  match targets with [] => stopped p n s y | to :: _ => y = (to, 0) end.

(** Where an execution that ends like [k] arrives. *)
Definition arrives (p n : nat) (s : builder) (k : ending) (y : point) : Prop :=
  match k with
  | Falls => exists q, current_basic_block s = Some q /\ y = (q, length (stm s q))
  | Breaks => first_target p n s (break_targets s) y
  | Loops => first_target p n s (loop_targets s) y
  | Endcases => first_target p n s (endcase_targets s) y
  | Returns => exists e, exit_of s = Some e /\ y = (e, 0)
  | Finishes | Jumps None => stopped p n s y
  | Jumps (Some l) =>
      stopped p n s y /\ exists e, goto_label e = Some l /\ (e, y.1) ∈ unresolved_gotos s
  end.

(** Where an execution from the start or from a label begins. *)
Definition starts (p : nat) (s s' : builder) (o : option string) (x : point) : Prop :=
  match o with
  | None => x = (p, length (stm s p))
  | Some l => exists q, label_targets s' !! l = Some q /\ x = (q, 0)
  end.

Definition targets (s : builder) := (break_targets s, loop_targets s, endcase_targets s).

Record visited (base : nat) (L : list string) (b : behaviour) (p : nat) (s s' : builder) : Prop := {
  visited_good : good base s';
  visited_grows : grows p (next_address s) s s';
  visited_owner : owner s' = owner s;
  visited_targets : targets s' = targets s;
  visited_current q : current_basic_block s' = Some q -> opened base s' q /\ (q = p \/ next_address s <= q);
  visited_exit e : exit_of s = Some e -> exit_of s' = Some e;
  visited_labels l : l ∉ L -> label_targets s' !! l = label_targets s !! l;
  visited_gotos x : x ∈ unresolved_gotos s -> x ∈ unresolved_gotos s';
  visited_inside l t k : b (Some l) t k -> l ∈ L;
  visited_exec o t k : b o t k -> exists x y,
    starts p s s' o x /\ arrives p (next_address s) s' k y /\ reach (heap s') x t y
}.

Lemma stopped_later p n p1 n1 s s' y : stopped p n s y -> grows p1 n1 s s' ->
  y.1 < n1 -> y.1 <> p1 -> current_basic_block s' <> Some y.1 -> stopped p n s' y.
Proof.
  destruct y as [q j]. cbn. intros (-> & Hs & Hlt & Hc & Hq) G Hn Hp Hc'.
  destruct (grows_same _ _ _ _ G q Hn Hp) as [-> ->]. split_and!; try done.
  pose proof (grows_next _ _ _ _ G). lia.
Qed.

Lemma stopped_weaken p n p' n' s y : stopped p' n' s y -> n <= n' -> p' = p \/ n <= p' -> stopped p n s y.
Proof.
  destruct y as [q j]. intros (H1 & H2 & H3 & H4 & H5) Hn Hp. split_and!; try done.
  destruct H5 as [->|H5]; [done | right; lia].
Qed.

(** What stays of an arrival that is not a fall, in a later state. *)
Lemma arrives_later p n p' n' s s' k y : arrives p' n' s k y -> k <> Falls ->
  n <= n' -> p' = p \/ n <= p' ->
  targets s' = targets s -> (forall e, exit_of s = Some e -> exit_of s' = Some e) ->
  (forall x, x ∈ unresolved_gotos s -> x ∈ unresolved_gotos s') ->
  (stopped p' n' s y -> stopped p' n' s' y) -> arrives p n s' k y.
Proof.
  intros H Hk Hn Hp Ht He Hg Hs.
  assert (Hs' : stopped p' n' s y -> stopped p n s' y) by (intros X; eapply stopped_weaken; eauto).
  unfold targets in Ht. injection Ht as T1 T2 T3.
  destruct k as [| | | | | |[l|]]; cbn in *; unfold first_target in *; rewrite ?T1, ?T2, ?T3; try done;
    repeat case_match; try by auto.
  - destruct H as (e & H & ->). eauto.
  - destruct H as (H & e & He' & Hin). eauto 10.
Qed.

Lemma arrives_weaken p n p' n' s k y : arrives p' n' s k y -> n <= n' -> p' = p \/ n <= p' -> arrives p n s k y.
Proof.
  intros H Hn Hp. assert (k = Falls \/ k <> Falls) as [->|Hk] by (destruct k; first [by left | by right]);
    [exact H|]. by eapply arrives_later.
Qed.

Lemma starts_later p s s1 s' o x : starts p s s1 o x ->
  (forall l q, o = Some l -> label_targets s1 !! l = Some q -> label_targets s' !! l = Some q) ->
  starts p s s' o x.
Proof. destruct o as [l|]; [|done]. intros (q & Hq & ->) H. exists q. eauto. Qed.

(** ** Composition *)

(** The next statement goes on in the current block, or in a new one. *)
Definition resumes (base : nat) (s s' : builder) (p : nat) : Prop :=
  (s' = s /\ current_basic_block s = Some p)
  \/ (current_basic_block s = None /\ p = next_address s /\
      change base (stm s) (suc s) (S (next_address s)) (Some p) (exit_of s) (control s) (owner s) s').

Lemma control_targets s s' : control s' = control s -> targets s' = targets s
  /\ label_targets s' = label_targets s /\ unresolved_gotos s' = unresolved_gotos s.
Proof. unfold control, targets. intros [= -> -> -> -> ->]. done. Qed.

Lemma resumes_facts base s s' p : resumes base s s' p ->
  current_basic_block s' = Some p /\ (forall p' n, grows p' n s s') /\ exit_of s' = exit_of s
  /\ control s' = control s /\ owner s' = owner s
  /\ (current_basic_block s = Some p \/ next_address s <= p).
Proof.
  intros [[-> Hc]|(Hc & -> & C)].
  - repeat (split; [first [done | intros; apply growth_refl]|]). by left.
  - assert (G : forall p' n, grows p' n s s') by (intros p' n; eapply grows_change; [|exact C]; lia).
    destruct C. repeat (split; [done|]). right. lia.
Qed.

Lemma visited_weaken base L b b' p s s' : visited base L b p s s' ->
  (forall o t k, b' o t k -> b o t k) -> visited base L b' p s s'.
Proof. intros V H. split; try apply V; intros; [eapply visited_inside | eapply visited_exec]; eauto. Qed.

Lemma visited_more_labels base L L' b p s s' : visited base L b p s s' -> (forall l, l ∈ L -> l ∈ L') ->
  visited base L' b p s s'.
Proof.
  intros V H. split; try apply V; [|by intros; eapply H, visited_inside]. intros l Hl. apply V. auto.
Qed.

Lemma visited_seq base L1 L2 b1 b2 p s0 s1 s1' p1 s2 :
  visited base L1 b1 p s0 s1 -> resumes base s1 s1' p1 -> visited base L2 b2 p1 s1' s2 ->
  (forall l, l ∈ L1 -> l ∉ L2) -> visited base (L1 ++ L2) (followed_by b1 b2) p s0 s2.
Proof.
  intros V1 R V2 HL. destruct (resumes_facts _ _ _ _ R) as (Rc & Rg & Re & Rk & Rf & Rp).
  destruct (control_targets _ _ Rk) as (Rt & Rl & Ru).
  pose proof (grows_next _ _ _ _ (visited_grows _ _ _ _ _ _ V1)) as N1.
  pose proof (grows_next _ _ _ _ (Rg p1 0)) as N2.
  assert (Hp1 : p1 = p \/ next_address s0 <= p1).
  { destruct Rp as [Rp|Rp]; [|right; lia]. by apply (visited_current _ _ _ _ _ _ V1). }
  assert (G12 : grows p1 (next_address s1) s1 s2).
  { eapply growth_trans; [apply Rg|]. eapply grows_inside; [exact N2 | by left | apply V2]. }
  assert (Hlab : forall l q, l ∈ L1 -> label_targets s1 !! l = Some q -> label_targets s2 !! l = Some q).
  { intros l q Hl Hq. by rewrite (visited_labels _ _ _ _ _ _ V2) by auto; rewrite Rl. }
  split.
  - apply V2.
  - eapply growth_trans; [apply V1|]. eapply grows_inside; [exact N1 | exact Hp1 | exact G12].
  - rewrite (visited_owner _ _ _ _ _ _ V2), Rf. apply V1.
  - rewrite (visited_targets _ _ _ _ _ _ V2), Rt. apply V1.
  - intros q Hq. destruct (visited_current _ _ _ _ _ _ V2 q Hq) as [Ho Hor]. split; [done|].
    destruct Hor as [->|Hor]; [done | right; lia].
  - intros e He. apply (visited_exit _ _ _ _ _ _ V2). rewrite Re. by apply V1.
  - intros l Hl. rewrite elem_of_app in Hl. rewrite (visited_labels _ _ _ _ _ _ V2) by tauto.
    rewrite Rl. apply V1. tauto.
  - intros x Hx. apply (visited_gotos _ _ _ _ _ _ V2). rewrite Ru. by apply V1.
  - intros l t k [(t1 & t2 & H1 & _ & _)|[[H1 _]|(l' & [= <-] & H2)]]; apply elem_of_app;
      [left | left | right]; eapply visited_inside; eauto.
  - intros o t k [(t1 & t2 & H1 & H2 & ->)|[[H1 Hk]|(l & -> & H2)]].
    + destruct (visited_exec _ _ _ _ _ _ V1 _ _ _ H1) as (x & y & Sx & (q & Hq & ->) & Rx).
      destruct (visited_exec _ _ _ _ _ _ V2 _ _ _ H2) as (x2 & y2 & -> & Ay & Ry).
      destruct R as [[-> Hc]|(Hc & _)]; [|congruence]. rewrite Hc in Hq. injection Hq as <-.
      exists x, y2. split_and!.
      * eapply starts_later; [exact Sx|]. intros l' q' ->. apply Hlab. eapply visited_inside; eauto.
      * eapply arrives_weaken; [exact Ay | lia | exact Hp1].
      * eapply reach_trans; [eapply reach_grows; [apply G12 | exact Rx] | exact Ry].
    + destruct (visited_exec _ _ _ _ _ _ V1 _ _ _ H1) as (x & y & Sx & Ay & Rx).
      exists x, y. split_and!.
      * eapply starts_later; [exact Sx|]. intros l' q' ->. apply Hlab. eapply visited_inside; eauto.
      * eapply arrives_later; [exact Ay | done | lia | by left | | | |].
        -- by rewrite (visited_targets _ _ _ _ _ _ V2), Rt.
        -- intros e He. apply (visited_exit _ _ _ _ _ _ V2). by rewrite Re.
        -- intros z Hz. apply (visited_gotos _ _ _ _ _ _ V2). by rewrite Ru.
        -- intros Hs. assert (Hlt : y.1 < next_address s1 /\ current_basic_block s1 <> Some y.1)
             by (by destruct y as [q j], Hs as (? & ? & ? & ? & ?)).
           eapply stopped_later; [exact Hs | apply G12 | apply Hlt | |].
           ++ intros E. destruct Rp as [Rp|Rp]; [apply Hlt; by rewrite Rp, E | lia].
           ++ intros E. destruct (visited_current _ _ _ _ _ _ V2 _ E) as [_ [E'|E']].
              ** destruct Rp as [Rp|Rp]; [apply Hlt; by rewrite Rp, E' | lia].
              ** lia.
      * eapply reach_grows; [apply G12 | exact Rx].
    + destruct (visited_exec _ _ _ _ _ _ V2 _ _ _ H2) as (x & y & Sx & Ay & Rx).
      exists x, y. split_and!; [exact Sx | eapply arrives_weaken; [exact Ay | lia | exact Hp1] | exact Rx].
Qed.

(** ** Statements that stay in the block *)

Lemma ends_with_snoc l x : ends_with_control_flow (l ++ [x]) = ends_with_control_flow [x].
Proof. unfold ends_with_control_flow. by rewrite last_snoc. Qed.

Lemma ensure_opened base s p (Q : unit -> builder -> Prop) : opened base s p -> Q tt s -> ends ensure_block Q s.
Proof. intros (Hc & _) HQ. apply ends_bind, ends_get. by rewrite Hc. Qed.

Lemma current_opened base s p (Q : nat -> builder -> Prop) : opened base s p -> Q p s -> ends current_block Q s.
Proof. intros (Hc & _) HQ. apply ends_bind, ends_get. by rewrite Hc. Qed.

Lemma visited_skip base p s : good base s -> opened base s p -> visited base [] skip p s s.
Proof.
  intros H Ho. split.
  - done.
  - apply growth_refl.
  - done.
  - done.
  - intros q Hq. assert (q = p) as -> by (destruct Ho as (Hc & _); congruence). auto.
  - done.
  - done.
  - done.
  - by intros l t k (? & _).
  - intros o t k (-> & -> & ->). exists (p, length (stm s p)), (p, length (stm s p)).
    split_and!; [done | exists p; by destruct Ho | constructor].
Qed.

(** What every visit has that only adds to the current block. *)
Lemma visited_local base b p s s' : good base s' -> grows p (next_address s) s s' ->
  owner s' = owner s -> control s' = control s -> exit_of s' = exit_of s ->
  (forall q, current_basic_block s' = Some q -> opened base s' q /\ (q = p \/ next_address s <= q)) ->
  (forall l t k, ~ b (Some l) t k) ->
  (forall t k, b None t k -> exists y, arrives p (next_address s) s' k y
     /\ reach (heap s') (p, length (stm s p)) t y) ->
  visited base [] b p s s'.
Proof.
  intros Hg Hgr Hf Hk He Hc Hl Hb. destruct (control_targets _ _ Hk) as (Ht & Hlab & Hgo).
  split; try done.
  - intros e. by rewrite He.
  - intros l _. by rewrite Hlab.
  - intros x. by rewrite Hgo.
  - intros l t k H. by destruct (Hl l t k).
  - intros [l|] t k H; [by destruct (Hl l t k)|]. destruct (Hb t k H) as (y & Hy & Hr). by eexists _, y.
Qed.

Lemma visited_push base p x s : good base s -> opened base s p -> ends_with_control_flow [x] = false ->
  ends (add_statement x) (fun _ s' => visited base [] (once x) p s s' /\ opened base s' p
    /\ (forall q, suc s' q = suc s q) /\ next_address s' = next_address s) s.
Proof.
  intros H Ho Hx. destruct Ho as (Hc & Hr & Hs & He). apply ends_bind, (current_opened base s p); [done|].
  eapply ends_mono; [by apply (ends_push base)|]. intros [] s' C.
  assert (Hst : stm s' p = stm s p ++ [x]) by (rewrite (change_stm _ _ _ _ _ _ _ _ _ C); by rewrite decide_True).
  assert (Ho' : opened base s' p).
  { split_and!; [by rewrite (change_current _ _ _ _ _ _ _ _ _ C) | | |].
    - unfold in_range. by rewrite (change_next _ _ _ _ _ _ _ _ _ C).
    - by rewrite (change_suc _ _ _ _ _ _ _ _ _ C).
    - by rewrite Hst, ends_with_snoc. }
  split_and!; [| done | apply C | apply C]. apply visited_local; try apply C.
  - eapply grows_push; [by left | done | | exact C]. done.
  - rewrite (change_current _ _ _ _ _ _ _ _ _ C), Hc. intros q [= <-]. auto.
  - by intros l t k (? & _).
  - intros t k (_ & -> & ->). exists (p, length (stm s' p)). split.
    + exists p. split; [|done]. by rewrite (change_current _ _ _ _ _ _ _ _ _ C).
    + rewrite Hst, length_app, Nat.add_1_r. eapply reach_one; [|constructor].
      rewrite Hst. by rewrite list_lookup_middle.
Qed.

(** Statements that leave the block; [to] is where they go to, when it is known. *)
Lemma visited_leave base p s s' x k y : good base s -> opened base s p -> good base s' ->
  grows p (next_address s) s s' -> owner s' = owner s -> targets s' = targets s ->
  label_targets s' = label_targets s -> (forall z, z ∈ unresolved_gotos s -> z ∈ unresolved_gotos s') ->
  (forall e, exit_of s = Some e -> exit_of s' = Some e) -> current_basic_block s' = None ->
  stm s' p = stm s p ++ [x] ->
  arrives p (next_address s) s' k y ->
  (y = (p, length (stm s' p)) \/ exists to, y = (to, 0) /\ suc s' p = [to]) ->
  visited base [] (leaves x k) p s s'.
Proof.
  intros H Ho Hg Hgr Hf Ht Hlab Hgo He Hc Hst Ha Hy. split; try done.
  - by rewrite Hc.
  - intros l _. by rewrite Hlab.
  - by intros l t k' (? & _).
  - intros o t k' (-> & -> & ->). exists (p, length (stm s p)), y. split_and!; [done | done |].
    eapply reach_one; [rewrite Hst; by rewrite list_lookup_middle|].
    assert (Hl : S (length (stm s p)) = length (stm s' p)) by (rewrite Hst, length_app; cbn; lia).
    destruct Hy as [->|(to & -> & Hs)]; [rewrite Hl; constructor|].
    eapply reach_along; [rewrite Hs; by left | exact Hl | constructor].
Qed.
