(* ===== verification/CfgExec.v ===== *)
(** * Graphs follow executions: the statements

    Each visitor of the builder adds the executions of its statement ([CfgSpec]) to the graph:
    by induction over the tree, the visit of a structured statement returns, and is a
    [visited] step of its executions. *)

From S2P Require Import Prelude State CallFrame Ast Analysis Cfg CfgSpec CfgProof CfgVisit.

(** ** Statements that leave their block *)

Lemma push_opened base p x s : good base s -> opened base s p ->
  ends (add_statement x) (fun _ =>
    change base (fun q => if decide (q = p) then stm s p ++ [x] else stm s q) (suc s) (next_address s)
      (current_basic_block s) (exit_of s) (control s) (owner s)) s.
Proof.
  intros H Ho. apply ends_bind, (current_opened base s p); [done|]. apply ends_push; [done | apply Ho].
Qed.

Lemma range_next base s p : in_range base s p -> base <= next_address s.
Proof. unfold in_range. lia. Qed.

Ltac split_change C G St Su Nx Cu Ex Ct Cf := destruct C as [G St Su Nx Cu Ex Ct Cf].

Ltac conjs := repeat match goal with |- _ /\ _ => split end.

Lemma leave_function_visited base p x s : good base s -> opened base s p ->
  ends (leave_function x) (fun _ s' => visited base [] (leaves (clone_stmt x) Returns) p s s') s.
Proof.
  intros H Ho. pose proof Ho as (Hc & Hr & Hs & _). apply ends_bind, (ensure_opened base s p); [done|].
  apply ends_bind. eapply ends_mono; [by apply push_opened|]. intros [] s1 C1.
  pose proof (grows_push p (next_address s) p _ _ _ (or_introl eq_refl) Hs (le_n _) C1) as Gr1.
  split_change C1 G1 St1 Su1 Nx1 Cu1 Ex1 Ct1 Cf1.
  assert (Hr1 : in_range base s1 p) by (unfold in_range; by rewrite Nx1).
  apply ends_bind. eapply ends_mono; [apply (ends_exit base); [done | by eapply range_next]|].
  intros e s2 He.
  assert (X : good base s2 /\ grows p (next_address s) s1 s2 /\ stm s2 p = stm s1 p /\ suc s2 p = []
    /\ current_basic_block s2 = Some p /\ exit_of s2 = Some e /\ control s2 = control s
    /\ owner s2 = owner s /\ in_range base s2 e /\ in_range base s2 p
    /\ (forall e', exit_of s = Some e' -> e' = e)).
  { destruct He as [[He ->]|(He & -> & C2)].
    - conjs; first [done | congruence | apply growth_refl | by rewrite Su1 | by apply (good_exit _ _ G1)].
    - pose proof (grows_change p (next_address s) _ _ (Nat.le_succ_diag_r _) C2) as Gr2.
      split_change C2 G2 St2 Su2 Nx2 Cu2 Ex2 Ct2 Cf2.
      conjs; first [done | congruence | (unfold in_range in *; lia) | by rewrite Su2, Su1]. }
  clear He. destruct X as (G2 & Gr2 & St2 & Su2 & Cu2 & Ex2 & Ct2 & Cf2 & Re2 & Rp2 & Hex).
  apply ends_bind, ends_bind, ends_get. rewrite Cu2. apply ends_ret.
  apply ends_bind. eapply ends_mono; [by apply (ends_edge base p e)|]. intros [] s3 C3.
  pose proof (grows_edge p (next_address s) p e _ _ (or_introl eq_refl) (le_n _) C3) as Gr3.
  split_change C3 G3 St3 Su3 Nx3 Cu3 Ex3 Ct3 Cf3. apply ends_modify.
  destruct (control_targets s s3 ltac:(congruence)) as (Ht & Hl & Hg).
  eapply (visited_leave base p s _ _ Returns (e, 0)); try done.
  - by apply good_set_current.
  - apply (grows_heap _ _ _ s3); [|done..]. eapply growth_trans; [exact Gr1 | eapply growth_trans; [exact Gr2 | exact Gr3]].
  - change (owner s3 = owner s). congruence.
  - intros z. cbn. by rewrite Hg.
  - intros e' He'. change (exit_of s3 = Some e'). rewrite Ex3, Ex2. f_equal. symmetry. by apply Hex.
  - change (stm s3 p = stm s p ++ [clone_stmt x]). rewrite St3, St2, St1. by rewrite decide_True.
  - exists e. split; [|done]. change (exit_of s3 = Some e). congruence.
  - right. exists e. split; [done|]. change (suc s3 p = [e]). rewrite Su3, decide_True by done. by rewrite Su2.
Qed.

Lemma hd_in_range base s p l : good base s -> targets s = (break_targets s, loop_targets s, endcase_targets s) ->
  l = break_targets s \/ l = loop_targets s \/ l = endcase_targets s -> head l = Some p -> in_range base s p.
Proof.
  intros H _ Hl Hp. eapply list.Forall_forall; [apply (good_targets _ _ H)|].
  destruct l as [|x l]; [done|]. injection Hp as ->. rewrite !elem_of_app.
  destruct Hl as [<-|[<-|<-]]; [left | right; left | right; right]; left.
Qed.

Lemma leave_to_visited base p x s f k : good base s -> opened base s p ->
  (f = break_targets /\ k = Breaks) \/ (f = loop_targets /\ k = Loops)
    \/ (f = endcase_targets /\ k = Endcases) ->
  ends (leave_to f x) (fun _ s' => visited base [] (leaves (clone_stmt x) k) p s s') s.
Proof.
  intros H Ho Hf. pose proof Ho as (Hc & Hr & Hs & _). apply ends_bind, (ensure_opened base s p); [done|].
  apply ends_bind. eapply ends_mono; [by apply push_opened|]. intros [] s1 C1.
  pose proof (grows_push p (next_address s) p _ _ _ (or_introl eq_refl) Hs (le_n _) C1) as Gr1.
  split_change C1 G1 St1 Su1 Nx1 Cu1 Ex1 Ct1 Cf1.
  destruct (control_targets s s1 Ct1) as (Ht1 & Hl1 & Hg1).
  assert (Hr1 : in_range base s1 p) by (unfold in_range; by rewrite Nx1).
  assert (Hfs : f s1 = f s) by (unfold targets in Ht1; injection Ht1 as ???; by destruct Hf as [[-> _]|[[-> _]|[-> _]]]).
  assert (Hst1 : stm s1 p = stm s p ++ [clone_stmt x]) by (rewrite St1; by rewrite decide_True).
  apply ends_bind, ends_get, ends_bind. rewrite Hfs. destruct (f s) as [|to l] eqn:El.
  - apply ends_ret, ends_modify.
    assert (Hstop : stopped p (next_address s) (set_current None s1) (p, length (stm s1 p))).
    { split_and!; [done | by change (suc s1 p = []); rewrite Su1 | apply Hr1 | done | by left]. }
    eapply (visited_leave base p s _ _ k (p, length (stm s1 p))); try done.
    + by apply good_set_current.
    + by apply (grows_heap _ _ _ s1).
    + intros z. cbn. by rewrite Hg1.
    + intros e He. change (exit_of s1 = Some e). by rewrite Ex1.
    + assert (Hfc : f (set_current None s1) = []) by (destruct Hf as [[-> _]|[[-> _]|[-> _]]]; exact Hfs).
      destruct Hf as [[-> ->]|[[-> ->]|[-> ->]]]; unfold arrives, first_target; by rewrite Hfc.
    + by left.
  - assert (Rto : in_range base s1 to).
    { eapply (hd_in_range base s1 to (f s1)); [done | done | | by rewrite Hfs].
      destruct Hf as [[-> _]|[[-> _]|[-> _]]]; auto. }
    apply ends_bind, ends_bind, ends_get. rewrite Cu1, Hc. apply ends_ret.
    eapply ends_mono; [by apply (ends_edge base p to)|]. intros [] s2 C2. apply ends_modify.
    pose proof (grows_edge p (next_address s) p to _ _ (or_introl eq_refl) (le_n _) C2) as Gr2.
    split_change C2 G2 St2 Su2 Nx2 Cu2 Ex2 Ct2 Cf2.
    destruct (control_targets s s2 ltac:(congruence)) as (Ht & Hl & Hg).
    eapply (visited_leave base p s _ _ k (to, 0)); try done.
    + by apply good_set_current.
    + apply (grows_heap _ _ _ s2); [eapply growth_trans; [exact Gr1 | exact Gr2] | done..].
    + change (owner s2 = owner s). congruence.
    + intros z. cbn. by rewrite Hg.
    + intros e He. change (exit_of s2 = Some e). congruence.
    + change (stm s2 p = stm s p ++ [clone_stmt x]). by rewrite St2.
    + assert (Hfc : f (set_current None s2) = to :: l).
      { rewrite <-El. unfold targets in Ht. injection Ht as ???. by destruct Hf as [[-> _]|[[-> _]|[-> _]]]. }
      destruct Hf as [[-> ->]|[[-> ->]|[-> ->]]]; unfold arrives, first_target; by rewrite Hfc.
    + right. exists to. split; [done|]. change (suc s2 p = [to]). rewrite Su2, decide_True by done. by rewrite Su1, Hs.
Qed.

(** After the last statement of a block that is left without an edge. *)
Lemma stopped_here base p s s1 f : opened base s p -> good base s1 ->
  suc s1 p = [] -> next_address s1 = next_address s ->
  heap (f s1) = heap s1 -> next_address (f s1) = next_address s1 -> current_basic_block (f s1) = None ->
  stopped p (next_address s) (f s1) (p, length (stm s1 p)).
Proof.
  intros (_ & Hr & _) _ Hs Hn E1 E2 Hc. assert (E : stm (f s1) p = stm s1 p /\ suc (f s1) p = suc s1 p)
    by (unfold stm, suc; by rewrite E1). destruct E as [Et Eu].
  unfold stopped. rewrite Et, Eu. conjs; [done | done | rewrite E2, Hn; apply Hr | by rewrite Hc | by left].
Qed.

Lemma finish_visited base p x s : good base s -> opened base s p ->
  ends (ensure_block;; add_statement (clone_stmt x);; set_current_block None)
    (fun _ s' => visited base [] (leaves (clone_stmt x) Finishes) p s s') s.
Proof.
  intros H Ho. pose proof Ho as (Hc & Hr & Hs & _). apply ends_bind, (ensure_opened base s p); [done|].
  apply ends_bind. eapply ends_mono; [by apply push_opened|]. intros [] s1 C1. apply ends_modify.
  pose proof (grows_push p (next_address s) p _ _ _ (or_introl eq_refl) Hs (le_n _) C1) as Gr1.
  split_change C1 G1 St1 Su1 Nx1 Cu1 Ex1 Ct1 Cf1.
  destruct (control_targets s s1 Ct1) as (Ht1 & Hl1 & Hg1).
  eapply (visited_leave base p s _ _ Finishes (p, length (stm s1 p))); try done.
  - by apply good_set_current.
  - by apply (grows_heap _ _ _ s1).
  - intros z. cbn. by rewrite Hg1.
  - intros e He. change (exit_of s1 = Some e). by rewrite Ex1.
  - change (stm s1 p = stm s p ++ [clone_stmt x]). by rewrite St1, decide_True.
  - apply (stopped_here base p s s1); try done. by rewrite Su1.
  - by left.
Qed.

Lemma goto_visited types base p e s : good base s -> opened base s p ->
  ends (accept_stmt types (GotoStatement e))
    (fun _ s' => visited base [] (exec (GotoStatement e)) p s s') s.
Proof.
  intros H Ho. pose proof Ho as (Hc & Hr & Hs & _). apply ends_bind, (ensure_opened base s p); [done|].
  apply ends_bind. eapply ends_mono; [by apply push_opened|]. intros [] s1 C1.
  pose proof (grows_push p (next_address s) p _ _ _ (or_introl eq_refl) Hs (le_n _) C1) as Gr1.
  split_change C1 G1 St1 Su1 Nx1 Cu1 Ex1 Ct1 Cf1.
  destruct (control_targets s s1 Ct1) as (Ht1 & Hl1 & Hg1).
  apply ends_bind, ends_bind, ends_get. rewrite Cu1, Hc. apply ends_ret, ends_bind, ends_modify, ends_modify.
  set (s2 := set_current None _).
  assert (Hstop : stopped p (next_address s) s2 (p, length (stm s1 p))).
  { apply (stopped_here base p s s1 (fun s1 => set_current None (set_gotos (unresolved_gotos s1 ++ [(e, p)]) s1)));
      try done. by rewrite Su1. }
  eapply (visited_leave base p s s2 _ (Jumps (goto_label e)) (p, length (stm s1 p))); try done.
  - apply good_set_current, good_add_goto; [done|]. unfold in_range. by rewrite Nx1.
  - by apply (grows_heap _ _ _ s1).
  - intros z Hz. cbn. apply elem_of_snoc. left. by rewrite Hg1.
  - intros e' He. change (exit_of s1 = Some e'). by rewrite Ex1.
  - change (stm s1 p = stm s p ++ [GotoStatement (clone_expr e)]). by rewrite St1, decide_True.
  - destruct (goto_label e) as [l|] eqn:El; [|done]. split; [done|]. exists e. split; [done|].
    apply elem_of_snoc. by right.
  - by left.
Qed.

Lemma label_visited base p l s : good base s -> opened base s p -> ends_in_digit l = false ->
  ends (visit_LabelTarget l)
    (fun _ s' => visited base [l] (labelled l (LabelTargetStatement l)) p s s') s.
Proof.
  intros H Ho Hl. pose proof Ho as (Hc & Hr & Hs & He). apply ends_bind, ends_get, ends_bind.
  eapply ends_mono; [apply (ends_create base); [done | by eapply range_next | by apply label_prefix]|].
  intros q s1 [-> C1]. pose proof (grows_change p (next_address s) _ _ (Nat.le_succ_diag_r _) C1) as Gr1.
  split_change C1 G1 St1 Su1 Nx1 Cu1 Ex1 Ct1 Cf1. set (q := next_address s) in *.
  assert (Hdead : stm s q = [] /\ suc s q = []).
  { unfold stm, suc. destruct (heap s !! q) eqn:E; [|done]. assert (q < next_address s) as Hlt
      by (apply (good_alive _ _ H); by rewrite E). unfold q in Hlt. lia. }
  apply ends_bind, ends_modify. set (s2 := set_labels _ s1).
  assert (Rp : in_range base s2 p) by (unfold in_range in *; cbn; lia).
  assert (Rq : in_range base s2 q) by (unfold in_range in *; cbn; unfold q; lia).
  assert (G2 : good base s2) by (by apply good_set_label).
  rewrite Hc. apply ends_bind, ends_bind. unfold ends_block.
  apply ends_bind, (ends_block_at base); [done | apply Rp|]. intros b Hb. apply ends_ret.
  replace (ends_with_control_flow (statements b)) with false by
    (rewrite <-(stm_lookup s2 _ _ Hb); change (stm s2 p) with (stm s1 p); by rewrite St1).
  eapply ends_mono; [by apply (ends_edge base p q)|]. intros [] s3 C3.
  assert (Gr3 : grows p (next_address s) s1 s3).
  { apply (grows_heap_from _ _ s1 s2); [|done|done].
    apply (grows_edge p (next_address s) p q s2 s3 (or_introl eq_refl) (le_n _) C3). }
  split_change C3 G3 St3 Su3 Nx3 Cu3 Ex3 Ct3 Cf3.
  assert (Hqp : q <> p) by (unfold q, in_range in *; lia).
  assert (N3 : next_address s3 = S (next_address s)) by (rewrite Nx3; exact Nx1).
  apply ends_bind, ends_modify. set (s4 := set_current (Some q) s3).
  assert (O4 : opened base s4 q).
  { split_and!; [done | unfold in_range in *; cbn; lia | |].
    - change (suc s3 q = []). rewrite Su3, decide_False by done. change (suc s1 q = []). rewrite Su1. apply Hdead.
    - change (ends_with_control_flow (stm s3 q) = false). rewrite St3. change (stm s2 q) with (stm s1 q).
      by rewrite St1, (proj1 Hdead). }
  eapply ends_mono; [apply push_opened; [by apply good_set_current | exact O4]|]. intros [] s5 C5.
  assert (Gr5 : grows p (next_address s) s3 s5).
  { apply (grows_heap_from _ _ s3 s4); [|done|done].
    apply (grows_push p (next_address s) q _ s4 s5 (or_intror (le_n _)) (proj1 (proj2 (proj2 O4))) (le_n _) C5). }
  split_change C5 G5 St5 Su5 Nx5 Cu5 Ex5 Ct5 Cf5.
  assert (Ct : control s5 = control s2) by (rewrite Ct5; exact Ct3). destruct (control_targets s2 s5 Ct) as (T5 & L5 & U5).
  destruct (control_targets s s1 Ct1) as (T1 & L1 & U1).
  assert (Hx5 : stm s5 q = [LabelTargetStatement l]).
  { rewrite St5, decide_True by done. change (stm s4 q) with (stm s3 q). rewrite St3.
    change (stm s2 q) with (stm s1 q). by rewrite St1, (proj1 Hdead). }
  assert (Hr5 : reach (heap s5) (q, 0) [LabelTargetStatement l] (q, 1)).
  { eapply reach_one; [by rewrite Hx5 | constructor]. }
  split.
  - done.
  - eapply growth_trans; [exact Gr1 | eapply growth_trans; [exact Gr3 | exact Gr5]].
  - rewrite Cf5. exact (eq_trans Cf3 Cf1).
  - rewrite T5. exact T1.
  - rewrite Cu5. intros r [= <-]. split; [|by right]. split_and!; [done | unfold in_range in *; rewrite Nx5; cbn; lia | |].
    + rewrite Su5. apply O4.
    + by rewrite Hx5.
  - intros e Hx. rewrite Ex5. change (exit_of s3 = Some e). rewrite Ex3. change (exit_of s1 = Some e). by rewrite Ex1.
  - intros l' Hl'. rewrite L5. cbn. rewrite lookup_insert_ne; [by rewrite L1|]. intros ->. apply Hl'. by left.
  - intros x. rewrite U5. cbn. by rewrite U1.
  - intros l' t k ([Hl'|Hl'] & _ & _); [done|]. injection Hl' as ->. by left.
  - intros o t k (Ho' & -> & ->). assert (Ha : arrives p (next_address s) s5 Falls (q, 1)).
    { exists q. by rewrite Cu5, Hx5. }
    destruct Ho' as [-> | ->].
    + exists (p, length (stm s p)), (q, 1). split_and!; [done | done |].
      apply (reach_along _ _ q); [| |done].
      * rewrite Su5. change (q ∈ suc s3 p). rewrite Su3, decide_True by done. apply elem_of_snoc. by right.
      * rewrite St5, decide_False by done. change (stm s4 p) with (stm s3 p). rewrite St3.
        change (stm s2 p) with (stm s1 p). by rewrite St1.
    + exists (q, 0), (q, 1). split_and!; [|done | done]. exists q. split; [|done]. rewrite L5. apply lookup_insert_eq.
Qed.

(** ** Branches: a block whose end falls to another *)

Lemma dead_block base s q : good base s -> next_address s <= q -> stm s q = [] /\ suc s q = [].
Proof.
  intros H Hq. unfold stm, suc. destruct (heap s !! q) eqn:E; [|done].
  assert (q < next_address s) by (apply (good_alive _ _ H); by rewrite E). lia.
Qed.

Definition lands (p n : nat) (s : builder) (to : nat) (k : ending) (y : point) : Prop :=
  match k with Falls => y = (to, 0) | _ => arrives p n s k y end.

Lemma lands_later p n p' n' s s' to k y : lands p' n' s to k y -> n <= n' -> p' = p \/ n <= p' ->
  targets s' = targets s -> (forall e, exit_of s = Some e -> exit_of s' = Some e) ->
  (forall x, x ∈ unresolved_gotos s -> x ∈ unresolved_gotos s') ->
  (stopped p' n' s y -> stopped p' n' s' y) -> lands p n s' to k y.
Proof.
  intros H Hn Hp Ht He Hg Hs. assert (X : k <> Falls -> arrives p' n' s k y) by (by destruct k).
  assert (Y : k <> Falls -> arrives p n s' k y) by (intros Hk; eapply arrives_later; eauto).
  destruct k; first [exact H | by apply Y].
Qed.

Lemma lands_left p n s to k y : lands p n s to k y -> k <> Falls -> arrives p n s k y.
Proof. by destruct k. Qed.

Lemma ending_cases k : k = Falls \/ k <> Falls.
Proof. destruct k; first [by left | by right]. Qed.

Record branched (base : nat) (L : list string) (b : behaviour) (p to j : nat) (s s' : builder) : Prop := {
  branched_good : good base s';
  branched_grows : grows p (next_address s) s s';
  branched_owner : owner s' = owner s;
  branched_targets : targets s' = targets s;
  branched_current : current_basic_block s' = Some j;
  branched_exit e : exit_of s = Some e -> exit_of s' = Some e;
  branched_labels l : l ∉ L -> label_targets s' !! l = label_targets s !! l;
  branched_gotos x : x ∈ unresolved_gotos s -> x ∈ unresolved_gotos s';
  branched_inside l t k : b (Some l) t k -> l ∈ L;
  branched_exec o t k : b o t k -> exists x y,
    starts p s s' o x /\ lands p (next_address s) s' to k y /\ reach (heap s') x t y
}.

(** The last block of a visit gets an edge to another, when there is one. *)
Definition falls_to (base to : nat) (s s' : builder) : Prop :=
  (current_basic_block s = None /\ s' = s)
  \/ (exists q, current_basic_block s = Some q /\
       change base (stm s) (fun x => if decide (x = q) then suc s q ++ [to] else suc s x)
         (next_address s) (current_basic_block s) (exit_of s) (control s) (owner s) s').

Lemma ends_fall_to base to s : good base s -> in_range base s to ->
  (forall q, current_basic_block s = Some q -> opened base s q) ->
  ends (fall_to to) (fun _ => falls_to base to s) s.
Proof.
  intros H Hto Ho. apply ends_bind, ends_get. destruct (current_basic_block s) as [q|] eqn:Hc; [|by left].
  destruct (Ho q eq_refl) as (_ & Hr & _ & He). unfold ends_block.
  apply ends_bind, ends_bind, (ends_block_at base); [done | apply Hr|]. intros b Hb. apply ends_ret.
  rewrite <-(stm_lookup _ _ _ Hb), He. eapply ends_mono; [by apply (ends_edge base q to)|].
  intros [] s' C. right. by exists q.
Qed.

Lemma ends_edge_to base to s : good base s -> in_range base s to ->
  (forall q, current_basic_block s = Some q -> opened base s q) ->
  ends (current ← st_get current_basic_block;
        match current with Some p => add_edge p to | None => mret tt end)
    (fun _ => falls_to base to s) s.
Proof.
  intros H Hto Ho. apply ends_bind, ends_get. destruct (current_basic_block s) as [q|] eqn:Hc; [|by left].
  destruct (Ho q eq_refl) as (_ & Hr & _). eapply ends_mono; [by apply (ends_edge base q to)|].
  intros [] s' C. right. by exists q.
Qed.

Lemma branch_from_visit base L b p to j s1 s2 s3 : visited base L b p s1 s2 -> falls_to base to s2 s3 ->
  in_range base s1 p -> j < next_address s1 -> j <> p -> branched base L b p to j s1 (set_current (Some j) s3).
Proof.
  intros V F Rp Hj Hjp.
  pose proof (grows_next _ _ _ _ (visited_grows _ _ _ _ _ _ V)) as Hn.
  assert (X : good base s3 /\ grows p (next_address s1) s2 s3 /\ owner s3 = owner s2
    /\ control s3 = control s2 /\ exit_of s3 = exit_of s2 /\ next_address s3 = next_address s2
    /\ (forall q, current_basic_block s2 <> Some q -> stm s3 q = stm s2 q /\ suc s3 q = suc s2 q)
    /\ (forall q, current_basic_block s2 = Some q -> to ∈ suc s3 q /\ stm s3 q = stm s2 q)).
  { destruct F as [[Hc ->]|(q & Hc & C)].
    - conjs; first [done | apply V | apply growth_refl | by rewrite Hc].
    - assert (Gr : grows p (next_address s1) s2 s3).
      { eapply (grows_edge p _ q to); [|apply le_n | exact C]. by apply (visited_current _ _ _ _ _ _ V). }
      split_change C G St Su Nx Cu Ex Ct Cf. conjs; try done.
      + intros x Hx. rewrite St, Su, decide_False; [done|]. intros ->. by apply Hx.
      + intros x Hx. assert (x = q) as -> by congruence. rewrite St, Su, decide_True by done.
        split; [|done]. apply elem_of_snoc. by right. }
  destruct X as (G3 & Gr3 & Cf3 & Ct3 & Ex3 & Nx3 & Same & Edge).
  destruct (control_targets _ _ Ct3) as (T3 & L3 & U3). set (s4 := set_current (Some j) s3).
  assert (Gr4 : grows p (next_address s1) s2 s4) by (by apply (grows_heap _ _ s2 s3)).
  split.
  - by apply good_set_current.
  - eapply growth_trans; [apply V | exact Gr4].
  - change (owner s3 = owner s1). rewrite Cf3. apply V.
  - change (targets s3 = targets s1). rewrite T3. apply V.
  - done.
  - intros e He. change (exit_of s3 = Some e). rewrite Ex3. by apply V.
  - intros l Hl. cbn. rewrite L3. by apply V.
  - intros x Hx. cbn. rewrite U3. by apply V.
  - intros l t k. apply V.
  - intros o t k Hb. destruct (visited_exec _ _ _ _ _ _ V _ _ _ Hb) as (x & y & Sx & Ay & Rx).
    assert (Sx' : starts p s1 s4 o x).
    { eapply starts_later; [exact Sx|]. intros l q _ Hq. cbn. by rewrite L3. }
    pose proof (reach_grows _ _ _ _ _ _ _ Gr4 Rx) as Rx4.
    destruct (ending_cases k) as [->|Hk].
    + destruct Ay as (q & Hq & ->). exists x, (to, 0). split_and!; [done | done|].
      rewrite <-(app_nil_r t). eapply reach_trans; [exact Rx4|].
      destruct (Edge q Hq) as [E1 E2]. apply (reach_along s4 _ to); [exact E1 | | constructor].
      by change (stm s4 q) with (stm s3 q); rewrite E2.
    + exists x, y. split_and!; [done | | done].
      assert (Z : arrives p (next_address s1) s4 k y).
      { eapply arrives_later; [exact Ay | done | done | by left | by change (targets s3 = targets s2) | | |].
        - intros e He. change (exit_of s3 = Some e). by rewrite Ex3.
        - intros z Hz. cbn. by rewrite U3.
        - destruct y as [q i]. intros (E1 & E2 & E3 & E4 & E5). destruct (Same q E4) as [S1 S2].
          unfold stopped. change (stm s4 q) with (stm s3 q). change (suc s4 q) with (suc s3 q).
          rewrite S1, S2. conjs; [done | done | cbn; lia | | done]. cbn. intros [= ->]. destruct E5; [done | lia]. }
      by destruct k.
Qed.

(** ** IF *)

Definition visits (base : nat) (L : list string) (b : behaviour) (m : B unit) : Prop :=
  forall s p, good base s -> opened base s p -> ends m (fun _ s' => visited base L b p s s') s.

Lemma if_visited base L b visit_then : visits base L b visit_then ->
  visits base L (alt skip b)
    (condition_block ← current_block;
     then_block ← create_new_basic_block "Then_";
     join_block ← create_new_basic_block "Join_";
     add_edge condition_block then_block;;
     add_edge condition_block join_block;;
     set_current_block (Some then_block);;
     visit_then;; fall_to join_block;; set_current_block (Some join_block)).
Proof.
  intros Hv s p H Ho. pose proof Ho as (Hc & Hr & Hs & Hcf). apply ends_bind, (current_opened base s p); [done|].
  destruct (dead_block base s (next_address s) H (le_n _)) as [D1 D2].
  destruct (dead_block base s (S (next_address s)) H (Nat.le_succ_diag_r _)) as [D3 D4].
  apply ends_bind. eapply ends_mono; [by apply (ends_create base); [| eapply range_next|]|].
  intros n sa [-> Ca]. split_change Ca Ga Sta Sua Nxa Cua Exa Cta Cfa.
  apply ends_bind. eapply ends_mono; [apply (ends_create base); [done | unfold in_range in *; lia | done]|].
  intros n' sb [-> Cb]. split_change Cb Gb Stb Sub Nxb Cub Exb Ctb Cfb. rewrite Nxa in *.
  set (n := next_address s) in *.
  assert (Rp : in_range base sb p) by (unfold in_range in *; lia).
  assert (Rn : in_range base sb n) by (unfold in_range in *; lia).
  assert (Rj : in_range base sb (S n)) by (unfold in_range in *; lia).
  apply ends_bind. eapply ends_mono; [by apply (ends_edge base p n)|]. intros [] sc Cc.
  split_change Cc Gc Stc Su_c Nxc Cuc Ex_c Ctc Cfc.
  assert (Hr' : forall q, in_range base sb q -> in_range base sc q) by (unfold in_range; by rewrite Nxc).
  apply ends_bind. eapply ends_mono; [apply (ends_edge base p (S n)); [done | by apply Hr'..]|]. intros [] sd Cd.
  split_change Cd Gd Std Sud Nxd Cud Exd Ctd Cfd.
  apply ends_bind, ends_modify. set (s1 := set_current (Some n) sd).
  assert (Hpn : p < n) by (unfold in_range in Hr; unfold n; lia).
  assert (St1 : forall q, stm s1 q = stm s q) by (intros q; change (stm sd q = stm s q); congruence).
  assert (Su1 : forall q, suc s1 q = if decide (q = p) then [n; S n] else suc s q).
  { intros q. change (suc sd q = if decide (q = p) then [n; S n] else suc s q).
    rewrite Sud. case_decide; [by rewrite (Su_c p), decide_True, Sub, Sua, Hs|].
    rewrite Su_c, decide_False by done. congruence. }
  assert (N1 : next_address s1 = S (S n)) by (cbn; congruence).
  assert (G1 : good base s1) by (by apply good_set_current).
  assert (Ct1 : control s1 = control s) by (change (control sd = control s); congruence).
  assert (Ex1 : exit_of s1 = exit_of s) by (change (exit_of sd = exit_of s); congruence).
  assert (Cf1 : owner s1 = owner s) by (change (owner sd = owner s); congruence).
  destruct (control_targets _ _ Ct1) as (T1 & L1 & U1).
  assert (Gr1 : grows p n s s1).
  { split; [lia | | by intros q; rewrite St1 | by intros; rewrite St1 |].
    - intros q Hq Hqp. by rewrite St1, Su1, decide_False.
    - intros q x Hx. rewrite Su1. case_decide; [subst; by rewrite Hs in Hx; apply not_elem_of_nil in Hx | done]. }
  assert (O1 : opened base s1 n).
  { split_and!; [done | by unfold in_range in *; lia | | by rewrite St1, D1].
    rewrite Su1, decide_False by lia. exact D2. }
  clear Sta Sua Nxa Cua Exa Cta Cfa Stb Sub Nxb Cub Exb Ctb Cfb Stc Su_c Nxc Cuc Ex_c Ctc Cfc Std Sud Nxd Cud Exd Ctd Cfd.
  apply ends_bind. eapply ends_mono; [by apply (Hv s1 n)|]. intros [] s2 V.
  assert (Rj2 : in_range base s2 (S n)).
  { pose proof (grows_next _ _ _ _ (visited_grows _ _ _ _ _ _ V)). unfold in_range in *. lia. }
  apply ends_bind. eapply ends_mono; [apply (ends_fall_to base); [apply V | exact Rj2 | by apply V]|].
  intros [] s3 F. apply ends_modify.
  assert (Br : branched base L b n (S n) (S n) s1 (set_current (Some (S n)) s3)).
  { eapply branch_from_visit; [exact V | exact F | apply O1 | lia | lia]. }
  clear V F Rj2. set (s4 := set_current (Some (S n)) s3) in *. clearbody s4.
  assert (Gr4 : grows p n s s4).
  { eapply growth_trans; [exact Gr1|]. eapply grows_inside; [|by right| apply Br]; lia. }
  assert (J4 : stm s4 (S n) = [] /\ suc s4 (S n) = []).
  { destruct (grows_same _ _ _ _ (branched_grows _ _ _ _ _ _ _ _ Br) (S n)) as [-> ->]; [lia..|].
    rewrite St1, Su1, decide_False by lia. done. }
  assert (P4 : stm s4 p = stm s p /\ n ∈ suc s4 p /\ S n ∈ suc s4 p).
  { destruct (grows_same _ _ _ _ (branched_grows _ _ _ _ _ _ _ _ Br) p) as [-> ->]; [lia..|].
    rewrite St1, Su1, decide_True by done. split; [done|]. split; [left | right; left]. }
  destruct P4 as (P4 & E1 & E2). pose proof (grows_next _ _ _ _ (branched_grows _ _ _ _ _ _ _ _ Br)) as N4.
  split.
  - apply Br.
  - exact Gr4.
  - rewrite (branched_owner _ _ _ _ _ _ _ _ Br). exact Cf1.
  - rewrite (branched_targets _ _ _ _ _ _ _ _ Br). exact T1.
  - rewrite (branched_current _ _ _ _ _ _ _ _ Br). intros q [= <-]. split; [|right; lia].
    split_and!; [apply Br | unfold in_range in *; lia | apply J4 | by rewrite (proj1 J4)].
  - intros e He. apply Br. by rewrite Ex1.
  - intros l Hl. rewrite (branched_labels _ _ _ _ _ _ _ _ Br) by done. by rewrite L1.
  - intros x Hx. apply Br. by rewrite U1.
  - intros l t k [(Hx & _)|Hb]; [done|]. by eapply Br.
  - intros o t k [(-> & -> & ->)|Hb].
    + exists (p, length (stm s p)), (S n, 0). split_and!; [done | |].
      * exists (S n). by rewrite (branched_current _ _ _ _ _ _ _ _ Br), (proj1 J4).
      * apply (reach_along _ _ (S n)); [done | by rewrite P4 | constructor].
    + destruct (branched_exec _ _ _ _ _ _ _ _ Br _ _ _ Hb) as (x & y & Sx & Ly & Rx).
      assert (Ay : arrives p n s4 k y).
      { destruct (ending_cases k) as [->|Hk].
        - cbn in Ly. subst y. exists (S n). by rewrite (branched_current _ _ _ _ _ _ _ _ Br), (proj1 J4).
        - eapply arrives_weaken; [by eapply lands_left | lia | by right]. }
      destruct o as [l|]; [by exists x, y|].
      cbn in Sx. subst x. rewrite St1, D1 in Rx. exists (p, length (stm s p)), y. split_and!; [done | done |].
      apply (reach_along _ _ n); [done | by rewrite P4 | exact Rx].
Qed.

(** ** FOR *)

(** The visitor before and after the body. *)
Definition for_setup (header : Statement) (k : nat -> nat -> nat -> nat -> B unit) : B unit :=
  init_block ← current_block;
  header_block ← create_new_basic_block "ForHeader_";
  add_edge init_block header_block;;
  body_block ← create_new_basic_block "ForBody_";
  increment_block ← create_new_basic_block "ForIncrement_";
  exit_block ← create_new_basic_block "ForExit_";
  push_targets exit_block increment_block;;
  on_block header_block (push_statement header);;
  add_edge header_block body_block;;
  add_edge header_block exit_block;;
  set_current_block (Some body_block);;
  k header_block body_block increment_block exit_block.

Definition for_finish (increment : Statement) (header_block increment_block exit_block : nat) : B unit :=
  on_block increment_block (push_statement increment);;
  add_edge increment_block header_block;;
  set_current_block (Some exit_block);;
  pop_targets.

(** Before the body: the test at the head of the loop. *)
Record loop_head (base p : nat) (header : Statement) (s s1 : builder) : Prop := {
  head_good : good base s1;
  head_grows : grows p (next_address s) s s1;
  head_next : next_address s1 = 4 + next_address s;
  head_open : opened base s1 (S (next_address s));
  head_empty : stm s1 (S (next_address s)) = [];
  head_increment : stm s1 (2 + next_address s) = [] /\ suc s1 (2 + next_address s) = [];
  head_out : stm s1 (3 + next_address s) = [] /\ suc s1 (3 + next_address s) = [];
  head_enter : stm s1 p = stm s p /\ next_address s ∈ suc s1 p;
  head_test : stm s1 (next_address s) = [header] /\ S (next_address s) ∈ suc s1 (next_address s)
    /\ 3 + next_address s ∈ suc s1 (next_address s);
  head_targets : targets s1 = ((3 + next_address s) :: break_targets s,
    (2 + next_address s) :: loop_targets s, endcase_targets s);
  head_labels : label_targets s1 = label_targets s;
  head_gotos : unresolved_gotos s1 = unresolved_gotos s;
  head_exit : exit_of s1 = exit_of s;
  head_owner : owner s1 = owner s
}.

Lemma good_push_targets base s b l : good base s -> in_range base s b -> in_range base s l ->
  good base (set_targets (b :: break_targets s) (l :: loop_targets s) (endcase_targets s) s).
Proof.
  intros H Hb Hl. apply good_set_targets; [done|]. pose proof (good_targets _ _ H) as Ht.
  rewrite !list.Forall_app in Ht. destruct Ht as (T1 & T2 & T3).
  rewrite !list.Forall_app. split; [|split]; [| |done]; apply list.Forall_cons; done.
Qed.

Lemma for_setup_ends base p header k (Q : unit -> builder -> Prop) s : good base s -> opened base s p ->
  (forall s1, loop_head base p header s s1 ->
     ends (k (next_address s) (S (next_address s)) (2 + next_address s) (3 + next_address s)) Q s1) ->
  ends (for_setup header k) Q s.
Proof.
  intros H Ho Hk. pose proof Ho as (Hc & Hr & Hs & Hcf). apply ends_bind, (current_opened base s p); [done|].
  set (n := next_address s).
  assert (Dead : forall i, stm s (i + n) = [] /\ suc s (i + n) = []) by (intros i; apply (dead_block base); [done | lia]).
  pose proof (Dead 0 : stm s n = [] /\ suc s n = []) as D0.
  pose proof (Dead 1 : stm s (S n) = [] /\ suc s (S n) = []) as D1.
  assert (Hpn : p < n) by (apply Hr). assert (Hbp : base <= p) by apply Hr.
  apply ends_bind. eapply ends_mono; [apply (ends_create base); [done | unfold n in *; lia | done]|].
  intros ? sa [-> Ca]. split_change Ca Ga Sta Sua Nxa Cua Exa Cta Cfa. fold n in Nxa.
  apply ends_bind. eapply ends_mono; [apply (ends_edge base p n); [done | unfold in_range; lia..]|].
  intros [] sb Cb. split_change Cb Gb Stb Sub Nxb Cub Exb Ctb Cfb.
  apply ends_bind. eapply ends_mono; [apply (ends_create base); [done | lia | done]|].
  intros ? sc [-> Cc]. split_change Cc Gc Stc Su_c Nxc Cuc Ex_c Ctc Cfc. rewrite Nxb, Nxa in *.
  apply ends_bind. eapply ends_mono; [apply (ends_create base); [done | lia | done]|].
  intros ? sd [-> Cd]. split_change Cd Gd Std Sud Nxd Cud Exd Ctd Cfd. rewrite Nxc in *.
  apply ends_bind. eapply ends_mono; [apply (ends_create base); [done | lia | done]|].
  intros ? se [-> Ce]. split_change Ce Ge Ste Sue Nxe Cue Exe Cte Cfe. rewrite Nxd in *.
  change (ends (push_targets (3 + n) (2 + n);; on_block n (push_statement header);; add_edge n (S n);;
     add_edge n (3 + n);; set_current_block (Some (S n));; k n (S n) (2 + n) (3 + n)) Q se).
  change (next_address se = 4 + n) in Nxe.
  apply ends_bind, ends_modify. set (sf := set_targets _ _ _ se).
  assert (Gf : good base sf) by (apply good_push_targets; [done | unfold in_range; lia..]).
  apply ends_bind. eapply ends_mono; [apply (ends_push base n); [done | unfold in_range; cbn; lia]|].
  intros [] sg Cg. split_change Cg Gg Stg Sug Nxg Cug Exg Ctg Cfg. change (next_address sg = next_address se) in Nxg.
  apply ends_bind. eapply ends_mono; [apply (ends_edge base n (S n)); [done | unfold in_range; lia..]|].
  intros [] sh Ch. split_change Ch Gh Sth Suh Nxh Cuh Exh Cth Cfh.
  apply ends_bind. eapply ends_mono; [apply (ends_edge base n (3 + n)); [done | unfold in_range; lia..]|].
  intros [] si Ci. split_change Ci Gi Sti Sui Nxi Cui Exi Cti Cfi.
  apply ends_bind, ends_modify. set (s1 := set_current _ si). apply Hk. clear Hk Q k.
  assert (N1 : next_address s1 = 4 + n) by (change (next_address si = 4 + n); congruence).
  assert (Stf : forall q, stm sf q = stm s q) by (intros q; change (stm se q = stm s q); congruence).
  assert (St1 : forall q, stm s1 q = if decide (q = n) then [header] else stm s q).
  { intros q. change (stm si q = if decide (q = n) then [header] else stm s q).
    rewrite Sti, Sth, Stg, !Stf. case_decide; [|done]. by rewrite (proj1 D0). }
  assert (Suf : forall q, suc sf q = if decide (q = p) then [n] else suc s q).
  { intros q. change (suc se q = if decide (q = p) then [n] else suc s q).
    rewrite Sue, Sud, Su_c, Sub. case_decide; [by rewrite Sua, Hs | apply Sua]. }
  assert (Su1 : forall q, suc s1 q = if decide (q = n) then [S n; 3 + n] else if decide (q = p) then [n] else suc s q).
  { intros q. change (suc si q = if decide (q = n) then [S n; 3 + n] else if decide (q = p) then [n] else suc s q).
    rewrite Sui. case_decide.
    - rewrite (Suh n), decide_True by done. rewrite Sug, Suf, decide_False by lia. by rewrite (proj2 D0).
    - rewrite Suh, decide_False by done. by rewrite Sug, Suf. }
  assert (Ct1 : control s1 = control sf) by (change (control si = control sf); congruence).
  destruct (control_targets _ _ Ct1) as (T1 & L1 & U1).
  destruct (control_targets s se ltac:(congruence)) as (Te & Le & Ue). unfold targets in Te. injection Te as B1 B2 B3.
  split; fold n.
  - by apply good_set_current.
  - split; [lia | | | |].
    + intros q Hq Hqp. rewrite St1, Su1, !decide_False by lia. done.
    + intros q. rewrite St1. case_decide; [subst; rewrite (proj1 D0); apply prefix_nil | done].
    + intros q Hq. rewrite St1. case_decide; [subst; by rewrite (proj2 D0) in Hq | done].
    + intros q x Hx. rewrite Su1. repeat case_decide; subst; [| |done].
      * rewrite (proj2 D0) in Hx. by apply not_elem_of_nil in Hx.
      * rewrite Hs in Hx. by apply not_elem_of_nil in Hx.
  - done.
  - split_and!; [done | unfold in_range; lia | |].
    + rewrite Su1, !decide_False by lia. apply D1.
    + rewrite St1, decide_False by lia. by rewrite (proj1 D1).
  - rewrite St1, decide_False by lia. apply D1.
  - rewrite St1, Su1, !decide_False by lia. apply (Dead 2).
  - rewrite St1, Su1, !decide_False by lia. apply (Dead 3).
  - rewrite St1, Su1, !(decide_False (P := p = n)), decide_True by lia. split; [done | by left].
  - rewrite St1, Su1, !decide_True by done. split; [done|]. split; [left | right; left].
  - rewrite T1. unfold targets. cbn. by rewrite B1, B2, B3.
  - rewrite L1. exact Le.
  - rewrite U1. exact Ue.
  - change (exit_of si = exit_of s). rewrite Exi, Exh, Exg. change (exit_of se = exit_of s). congruence.
  - change (owner si = owner s). rewrite Cfi, Cfh, Cfg. change (owner se = owner s). congruence.
Qed.

(** After the body: the increment, and back to the test. *)
Record loop_tail (base n : nat) (increment : Statement) (s s' : builder) : Prop := {
  tail_good : good base s';
  tail_stm q : stm s' q = if decide (q = 2 + n) then [increment] else stm s q;
  tail_suc q : suc s' q = if decide (q = 2 + n) then [n] else suc s q;
  tail_next : next_address s' = next_address s;
  tail_current : current_basic_block s' = Some (3 + n);
  tail_targets : targets s' = (tail (break_targets s), tail (loop_targets s), endcase_targets s);
  tail_labels : label_targets s' = label_targets s;
  tail_gotos : unresolved_gotos s' = unresolved_gotos s;
  tail_exit : exit_of s' = exit_of s;
  tail_owner : owner s' = owner s
}.

Lemma for_finish_ends base n increment s : good base s -> base <= n -> 3 + n < next_address s ->
  stm s (2 + n) = [] -> suc s (2 + n) = [] -> break_targets s <> [] -> loop_targets s <> [] ->
  ends (for_finish increment n (2 + n) (3 + n)) (fun _ => loop_tail base n increment s) s.
Proof.
  intros H Hb Hn D1 D2 Hbr Hlo.
  apply ends_bind. eapply ends_mono; [apply (ends_push base); [done | unfold in_range; lia]|].
  intros [] sa Ca. split_change Ca Ga Sta Sua Nxa Cua Exa Cta Cfa.
  apply ends_bind. eapply ends_mono; [apply (ends_edge base (2 + n) n); [done | unfold in_range; lia..]|].
  intros [] sb Cb. split_change Cb Gb Stb Sub Nxb Cub Exb Ctb Cfb.
  apply ends_bind, ends_modify, ends_bind, ends_get, ends_bind, ends_get. cbn [break_targets loop_targets set_current].
  destruct (control_targets s sb ltac:(congruence)) as (T & L & U). unfold targets in T. injection T as T1 T2 T3.
  pose proof (good_targets _ _ Gb) as Ht. rewrite T1, T2 in *.
  destruct (break_targets s) as [|b bs] eqn:Eb; [done|]. destruct (loop_targets s) as [|l ls] eqn:El; [done|].
  apply ends_modify. split; cbn [tail].
  - apply good_set_targets; [by apply good_set_current|].
    change (Forall (in_range base sb) (bs ++ ls ++ endcase_targets sb)). cbn [app] in Ht.
    apply list.Forall_cons in Ht as [_ Ht]. apply list.Forall_app in Ht as [H1 Ht].
    apply list.Forall_cons in Ht as [_ Ht]. by apply list.Forall_app.
  - intros q. change (stm sb q = if decide (q = 2 + n) then [increment] else stm s q).
    rewrite Stb, Sta. by rewrite D1.
  - intros q. change (suc sb q = if decide (q = 2 + n) then [n] else suc s q).
    rewrite Sub, !Sua. by rewrite D2.
  - cbn. congruence.
  - done.
  - unfold targets. cbn. by rewrite T3, Eb, El.
  - done.
  - done.
  - change (exit_of sb = exit_of s). congruence.
  - change (owner sb = owner s). congruence.
Qed.

(** *** The paths of a loop *)

(** What [arrives] says once the targets of the loop are gone. *)
Definition ends_loop (k : ending) : bool := match k with Falls | Breaks | Loops => true | _ => false end.

Lemma arrives_outside p n s s' k y : arrives p n s k y -> ends_loop k = false ->
  endcase_targets s' = endcase_targets s -> (forall e, exit_of s = Some e -> exit_of s' = Some e) ->
  (forall x, x ∈ unresolved_gotos s -> x ∈ unresolved_gotos s') ->
  (stopped p n s y -> stopped p n s' y) -> arrives p n s' k y.
Proof.
  intros H Hk Ht He Hg Hs. destruct k as [| | | | | |[l|]]; try done; cbn in *; auto.
  - unfold first_target in *. rewrite Ht. destruct (endcase_targets s); auto.
  - destruct H as (e & ? & ->). eauto.
  - destruct H as (? & e & ? & ?). eauto 10.
Qed.

Section loop.
Context {body : behaviour} {header increment : Statement} {p n n0 : nat} {s : builder}.
Hypothesis test : stm s n = [header] /\ S n ∈ suc s n /\ 3 + n ∈ suc s n.
Hypothesis back : stm s (2 + n) = [increment] /\ n ∈ suc s (2 + n).
Hypothesis out : current_basic_block s = Some (3 + n) /\ stm s (3 + n) = [].

(** Where the body goes on. *)
Definition body_lands (k : ending) (y : point) : Prop :=
  (continues k = true -> y = (2 + n, 0)) /\ (k = Breaks -> y = (3 + n, 0))
  /\ (ends_loop k = false -> arrives p n0 s k y).

Hypothesis enters : forall t k, body None t k -> exists y, body_lands k y /\ reach (heap s) (S n, 0) t y.

Lemma leaves_loop k y : continues k = false -> body_lands k y -> arrives p n0 s (outside_loop k) y.
Proof.
  intros Hk (_ & Hb & Ha). destruct k; try done; try (by apply Ha).
  rewrite (Hb eq_refl). exists (3 + n). by rewrite (proj1 out), (proj2 out).
Qed.

Lemma increments t k y : iterate body header increment t k -> reach (heap s) (n, 0) t y ->
  reach (heap s) (2 + n, 0) (increment :: t) y.
Proof.
  intros _ Hr. destruct back as [B1 B2]. eapply reach_one; [by rewrite B1|].
  by apply (reach_along _ _ n); [|rewrite B1|].
Qed.

Lemma iterates t k : iterate body header increment t k ->
  exists y, arrives p n0 s k y /\ reach (heap s) (n, 0) t y.
Proof.
  destruct test as (T1 & T2 & T3). induction 1 as [|t1 k1 t2 k2 Hb Hk Hi IH|t1 k1 Hb Hk].
  - exists (3 + n, 0). split; [exists (3 + n); by rewrite (proj1 out), (proj2 out)|].
    eapply reach_one; [by rewrite T1|]. by apply (reach_along _ _ (3 + n)); [|rewrite T1|constructor].
  - destruct (enters _ _ Hb) as (y1 & (Hy & _) & R1). rewrite (Hy Hk) in R1. destruct IH as (y & Ay & R2).
    exists y. split; [done|]. eapply reach_one; [by rewrite T1|].
    apply (reach_along _ _ (S n)); [done | by rewrite T1|]. eapply reach_trans; [exact R1|].
    by eapply increments.
  - destruct (enters _ _ Hb) as (y1 & Hy & R1). exists y1. split; [by apply leaves_loop|].
    eapply reach_one; [by rewrite T1|]. by apply (reach_along _ _ (S n)); [|rewrite T1|].
Qed.

(** From a label in the body. *)
Lemma iterates_from x t1 k1 t k y1 : body_lands k1 y1 -> reach (heap s) x t1 y1 ->
  (continues k1 = true /\ exists t2, iterate body header increment t2 k /\ t = t1 ++ increment :: t2)
  \/ (continues k1 = false /\ t = t1 /\ k = outside_loop k1) ->
  exists y, arrives p n0 s k y /\ reach (heap s) x t y.
Proof.
  intros Hy R1 [(Hk & t2 & Hi & ->)|(Hk & -> & ->)].
  - destruct (iterates _ _ Hi) as (y & Ay & R2). exists y. split; [done|].
    eapply reach_trans; [exact R1|]. destruct Hy as (Hy & _). rewrite (Hy Hk). by eapply increments.
  - exists y1. split; [by apply leaves_loop | done].
Qed.
End loop.

Lemma ends_edge_to_then base to s (m : B unit) (Q : unit -> builder -> Prop) :
  good base s -> in_range base s to ->
  (forall q, current_basic_block s = Some q -> opened base s q) ->
  (forall s', falls_to base to s s' -> ends m Q s') ->
  ends (current ← st_get current_basic_block;
        match current with Some p => add_edge p to | None => mret tt end;; m) Q s.
Proof.
  intros H Hto Ho Hm. pose proof (ends_edge_to base to s H Hto Ho) as He.
  apply ends_bind, ends_get, ends_bind. unfold ends at 1, mbind, ST_bind, st_get in He.
  eapply ends_mono; [exact He|]. intros [] s' F. by apply Hm.
Qed.

Lemma head_lookup base p header s s1 : loop_head base p header s s1 -> targets s1 =
  ((3 + next_address s) :: break_targets s, (2 + next_address s) :: loop_targets s, endcase_targets s).
Proof. intros Hd. apply Hd. Qed.

Lemma for_visited base L b header increment visit_body : visits base L b visit_body ->
  visits base L (loop b header increment)
    (for_setup header (fun header_block _ increment_block exit_block =>
       visit_body;;
       current ← st_get current_basic_block;
       match current with Some p => add_edge p increment_block | None => mret tt end;;
       set_current_block (Some increment_block);;
       for_finish increment header_block increment_block exit_block)).
Proof.
  intros Hv s p H Ho. pose proof Ho as (_ & Hr & Hs & _). apply (for_setup_ends base p); [done..|].
  intros s1 Hd. set (n := next_address s) in *. pose proof (head_next _ _ _ _ _ Hd) as N1. fold n in N1.
  assert (Hpn : base <= p < n) by apply Hr.
  apply ends_bind. eapply ends_mono; [apply (Hv s1 (S n)); apply Hd|]. intros [] s2 V.
  pose proof (grows_next _ _ _ _ (visited_grows _ _ _ _ _ _ V)) as N2.
  apply (ends_edge_to_then base); [apply V | unfold in_range; lia | apply V|]. intros s3 F.
  apply ends_bind, ends_modify.
  assert (Br : branched base L b (S n) (2 + n) (2 + n) s1 (set_current (Some (2 + n)) s3)).
  { eapply branch_from_visit; [exact V | exact F | | lia | lia]. unfold in_range. lia. }
  clear V F N2 s2. set (s4 := set_current _ s3) in *. clearbody s4. clear s3.
  destruct Br as [G4 Gr4 Cf4 T4 Cu4 Ex4 L4 U4 I4 X4].
  pose proof (grows_next _ _ _ _ Gr4) as N4.
  assert (Same4 : forall q, q < 4 + n -> q <> S n -> stm s4 q = stm s1 q /\ suc s4 q = suc s1 q).
  { intros q Hq Hqn. apply (grows_same _ _ _ _ Gr4); [lia | done]. }
  destruct (Same4 (2 + n)) as [Si Ui]; [lia..|]. destruct (head_increment _ _ _ _ _ Hd) as [Si' Ui'].
  rewrite (head_targets _ _ _ _ _ Hd) in T4. fold n in T4, Si', Ui'. unfold targets in T4. injection T4 as B4 Lo4 E4.
  eapply ends_mono; [apply (for_finish_ends base n increment s4); [done | lia | lia | | | |]|].
  { by rewrite Si. } { by rewrite Ui. } { by rewrite B4. } { by rewrite Lo4. }
  intros [] s8 Tl. destruct Tl as [G8 St8 Su8 N8 Cu8 T8 L8 U8 Ex8 Cf8].
  rewrite B4, Lo4, E4 in T8. cbn [tail] in T8.
  assert (Gr8 : grows p n s4 s8).
  { split; [lia | | | |].
    - intros q Hq Hqp. by rewrite St8, Su8, !decide_False by lia.
    - intros q. rewrite St8. case_decide; [subst; rewrite Si, Si'; apply prefix_nil | done].
    - intros q Hq. rewrite St8. case_decide; [subst; by rewrite Ui, Ui' in Hq | done].
    - intros q x Hx. rewrite Su8. case_decide; [|done]. subst. rewrite Ui, Ui' in Hx. by apply not_elem_of_nil in Hx. }
  assert (Old : forall q, q < 4 + n -> q <> S n -> q <> 2 + n -> stm s8 q = stm s1 q /\ suc s8 q = suc s1 q).
  { intros q H1 H2 H3. rewrite St8, Su8, !decide_False by done. by apply Same4. }
  assert (Ht : stm s8 n = [header] /\ S n ∈ suc s8 n /\ 3 + n ∈ suc s8 n).
  { destruct (Old n) as [-> ->]; [lia..|]. apply Hd. }
  assert (Hb : stm s8 (2 + n) = [increment] /\ n ∈ suc s8 (2 + n)).
  { rewrite St8, Su8, !decide_True by done. split; [done | by left]. }
  assert (Hout : current_basic_block s8 = Some (3 + n) /\ stm s8 (3 + n) = []).
  { split; [done|]. destruct (Old (3 + n)) as [-> _]; [lia..|]. apply Hd. }
  assert (Hland : forall o t k, b o t k -> exists x y, starts (S n) s1 s8 o x
            /\ body_lands (p := p) (n := n) (n0 := n) (s := s8) k y /\ reach (heap s8) x t y).
  { intros o t k Hk. destruct (X4 o t k Hk) as (x & y & Sx & Ly & Rx). exists x, y. split_and!.
    - eapply starts_later; [exact Sx|]. intros l q _ Hq. by rewrite L8.
    - split_and!.
      + intros Hc. destruct k; try done. cbn in Ly. unfold first_target in Ly. by rewrite Lo4 in Ly.
      + intros ->. cbn in Ly. unfold first_target in Ly. by rewrite B4 in Ly.
      + intros Hk'. apply (arrives_weaken p n (S n) (next_address s1)); [|lia | by right; lia].
        eapply arrives_outside; [eapply lands_left; [exact Ly | by intros ->] | done | | | |].
        * unfold targets in T8. injection T8 as _ _ T8. congruence.
        * intros e He. congruence.
        * intros z Hz. congruence.
        * intros Hst. destruct y as [q i]. cbn in Hst. destruct Hst as (E1 & E2 & E3 & E5 & E6).
          unfold stopped. cbv beta iota.
          assert (q <> 2 + n /\ q <> 3 + n) as [Q1 Q2] by (destruct E6; lia).
          rewrite St8, Su8, !decide_False by done. conjs; [done | done | lia | congruence | done].
    - eapply reach_grows; [exact Gr8 | exact Rx]. }
  split.
  - done.
  - eapply growth_trans; [apply Hd|]. eapply growth_trans; [|exact Gr8].
    eapply grows_inside; [| |exact Gr4]; [fold n; lia | right; fold n; lia].
  - rewrite Cf8, Cf4. apply Hd.
  - rewrite T8. done.
  - rewrite Cu8. intros q [= <-]. split; [|right; fold n; lia].
    destruct (Old (3 + n)) as [O1 O2]; [lia..|]. destruct (head_out _ _ _ _ _ Hd) as [O3 O4]. fold n in O3, O4.
    change (opened base s8 (3 + n)). split_and!; [done | unfold in_range; lia | by rewrite O2, O4 | by rewrite O1, O3].
  - intros e He. rewrite Ex8. apply Ex4. by rewrite (head_exit _ _ _ _ _ Hd).
  - intros l Hl. rewrite L8, L4 by done. by rewrite (head_labels _ _ _ _ _ Hd).
  - intros x Hx. rewrite U8. apply U4. by rewrite (head_gotos _ _ _ _ _ Hd).
  - intros l t k [[Hx _]|(l' & t1 & k1 & Hx & Hb1 & _)]; [done|]. eapply I4. exact Hb1.
  - assert (Enter : forall t k, b None t k -> exists y, body_lands (p := p) (n := n) (n0 := n) (s := s8) k y
        /\ reach (heap s8) (S n, 0) t y).
    { intros t k Hk. destruct (Hland _ _ _ Hk) as (x & y & Sx & Ly & Rx). cbn in Sx.
      rewrite (head_empty _ _ _ _ _ Hd : stm s1 (S n) = []) in Sx. subst x. by exists y. }
    intros o t k [[-> Hi]|(l & t1 & k1 & -> & Hb1 & Hrest)].
    + destruct (iterates Ht Hb Hout Enter _ _ Hi) as (y & Ay & Ry).
      exists (p, length (stm s p)), y. split_and!; [done | exact Ay|].
      destruct (Old p) as [P1 P2]; [lia..|]. destruct (head_enter _ _ _ _ _ Hd) as [P3 P4].
      apply (reach_along _ _ n); [by rewrite P2 | by rewrite P1, P3 | exact Ry].
    + destruct (Hland _ _ _ Hb1) as (x & y1 & Sx & Ly & Rx).
      destruct (iterates_from Ht Hb Hout Enter _ _ _ _ _ _ Ly Rx Hrest) as (y & Ay & Ry).
      by exists x, y.
Qed.
