(* ===== verification/CfgSwitch.v ===== *)
(** * Graphs follow executions: SWITCHON

    The blocks of the cases are made before any case is visited; each is a branch whose end
    falls to the join block, which is also where ENDCASE goes to. *)

From S2P Require Import Prelude State CallFrame Ast Analysis Cfg CfgSpec CfgProof CfgVisit CfgExec.

(** ** The branches that were visited *)

Definition begins (s : builder) (p : nat) (o : option string) (x : point) : Prop :=
  match o with
  | None => x = (p, 0)
  | Some l => exists q, label_targets s !! l = Some q /\ x = (q, 0)
  end.

(** [D] lists the branches visited so far; [s1] is the state before the first. *)
Record branches (base n : nat) (L : list string) (D : list (nat * behaviour)) (s1 s : builder) : Prop := {
  branches_good : good base s;
  branches_next : next_address s1 <= next_address s;
  branches_same q : q < next_address s1 -> q ∉ D.*1 -> stm s q = stm s1 q /\ suc s q = suc s1 q;
  branches_stm q : stm s1 q `prefix_of` stm s q;
  branches_fixed q : suc s1 q <> [] -> stm s q = stm s1 q;
  branches_suc q x : x ∈ suc s1 q -> x ∈ suc s q;
  branches_owner : owner s = owner s1;
  branches_targets : targets s = targets s1;
  branches_current : current_basic_block s = Some n;
  branches_exit e : exit_of s1 = Some e -> exit_of s = Some e;
  branches_labels l : l ∉ L -> label_targets s !! l = label_targets s1 !! l;
  branches_gotos x : x ∈ unresolved_gotos s1 -> x ∈ unresolved_gotos s;
  branches_inside p b l t k : (p, b) ∈ D -> b (Some l) t k -> l ∈ L;
  branches_range p b : (p, b) ∈ D -> n < p < next_address s1;
  branches_exec p b o t k : (p, b) ∈ D -> b o t k -> exists x y, begins s p o x
    /\ lands p (next_address s1) s n k y /\ reach (heap s) x t y
}.

Lemma branches_none base n s : good base s -> branches base n [] [] s (set_current (Some n) s).
Proof.
  intros H. split; try done.
  - by apply good_set_current.
  - by intros q b l t k ?%not_elem_of_nil.
  - by intros q b ?%not_elem_of_nil.
  - by intros q b o t k ?%not_elem_of_nil.
Qed.

(** One more branch. *)
Lemma branches_more base n L L' D b m p s1 s : visits base L' b m -> branches base n L D s1 s ->
  base <= n -> n < p < next_address s1 -> p ∉ D.*1 -> stm s1 p = [] -> suc s1 p = [] ->
  (forall l, l ∈ L -> l ∉ L') ->
  ends (visit_branch m n p)
    (fun _ s' => branches base n (L ++ L') ((p, b) :: D) s1 (set_current (Some n) s')) s.
Proof.
  intros Hv I Hn Hp HpD Hst Hsu HL. pose proof (branches_next _ _ _ _ _ _ I) as N.
  destruct (branches_same _ _ _ _ _ _ I p) as [Sp Up]; [lia | done|]. rewrite Hst in Sp. rewrite Hsu in Up.
  apply ends_bind, ends_modify. set (s2 := set_current (Some p) s).
  assert (G2 : good base s2) by apply good_set_current, I.
  assert (O2 : opened base s2 p).
  { split_and!; [done | unfold in_range; cbn; lia | exact Up | by change (ends_with_control_flow (stm s p) = false); rewrite Sp]. }
  apply ends_bind. eapply ends_mono; [by apply (Hv s2 p)|]. intros [] s3 V.
  pose proof (grows_next _ _ _ _ (visited_grows _ _ _ _ _ _ V)) as N3. cbn in N3.
  eapply ends_mono; [apply (ends_fall_to base); [apply V | unfold in_range; lia | apply V]|]. intros [] s4 F.
  assert (Br : branched base L' b p n n s2 (set_current (Some n) s4)).
  { eapply branch_from_visit; [exact V | exact F | apply O2 | cbn; lia | lia]. }
  clear V F N3 s3. set (s5 := set_current (Some n) s4) in *. clearbody s5. clear s4.
  destruct Br as [G5 Gr5 Cf5 T5 Cu5 Ex5 L5 U5 I5 X5].
  assert (Gr : grows p (next_address s) s s5) by (by apply (grows_heap_from _ _ s s2)).
  pose proof (grows_next _ _ _ _ Gr) as N5.
  assert (Ts : targets s5 = targets s) by exact T5.
  assert (Old : forall q b', (q, b') ∈ D -> q <> p).
  { intros q b' Hq ->. apply HpD. by apply (list_elem_of_fmap_2 fst D (p, b')). }
  split.
  - done.
  - lia.
  - intros q Hq HqD. cbn in HqD. apply not_elem_of_cons in HqD as [Hqp HqD].
    destruct (grows_same _ _ _ _ Gr q) as [-> ->]; [lia | done|]. by apply (branches_same _ _ _ _ _ _ I).
  - intros q. etransitivity; [apply I | apply (grows_stm _ _ _ _ Gr)].
  - intros q Hq. rewrite (grows_fixed _ _ _ _ Gr); [by apply (branches_fixed _ _ _ _ _ _ I)|]. destruct (suc s1 q) as [|x l] eqn:E; [done|].
    pose proof (branches_suc _ _ _ _ _ _ I q x ltac:(rewrite E; left)) as Hx. intros E2. rewrite E2 in Hx.
    by apply not_elem_of_nil in Hx.
  - intros q x Hx. by apply (grows_suc _ _ _ _ Gr), (branches_suc _ _ _ _ _ _ I).
  - rewrite Cf5. apply I.
  - rewrite Ts. apply I.
  - done.
  - intros e He. apply Ex5. by apply (branches_exit _ _ _ _ _ _ I).
  - intros l Hl. rewrite elem_of_app in Hl. rewrite L5 by tauto. apply (branches_labels _ _ _ _ _ _ I). tauto.
  - intros x Hx. apply U5. by apply (branches_gotos _ _ _ _ _ _ I).
  - intros q b' l t k Hq Hb. apply elem_of_cons in Hq as [[= -> ->]|Hq]; apply elem_of_app;
      [right; by eapply I5 | left; by eapply (branches_inside _ _ _ _ _ _ I)].
  - intros q b' Hq. apply elem_of_cons in Hq as [[= -> ->]|Hq]; [lia | by eapply (branches_range _ _ _ _ _ _ I)].
  - intros q b' o t k Hq Hb. apply elem_of_cons in Hq as [[= -> ->]|Hq].
    + destruct (X5 o t k Hb) as (x & y & Sx & Ly & Rx). exists x, y. split_and!; [|eapply lands_later; [exact Ly | cbn; lia | by left | done | done | done | done] | done].
      destruct o as [l|]; [exact Sx|]. cbn in Sx |- *. subst x. change (stm s2 p) with (stm s p). by rewrite Sp.
    + destruct (branches_exec _ _ _ _ _ _ I q b' o t k Hq Hb) as (x & y & Sx & Ly & Rx).
      pose proof (branches_range _ _ _ _ _ _ I q b' Hq) as Rq. exists x, y. split_and!.
      * destruct o as [l|]; [|done]. destruct Sx as (r & Hr & ->). exists r. split; [|done].
        rewrite L5; [done|]. apply HL. by eapply (branches_inside _ _ _ _ _ _ I).
      * eapply lands_later; [exact Ly | done | by left | done | done | done|].
        intros Hs. assert (Hy : y.1 < next_address s /\ (y.1 = q \/ next_address s1 <= y.1))
          by (by destruct y as [r i], Hs as (? & ? & ? & ? & ?)).
        eapply stopped_later; [exact Hs | exact Gr | lia | | ].
        -- intros E. destruct Hy as [_ [Hy|Hy]]; [by apply (Old q b'); [|congruence] | lia].
        -- rewrite Cu5. intros [= E]. lia.
      * by eapply reach_grows.
Qed.

(** ** The blocks and edges made before the cases are visited *)

Lemma change_trans_create base n1 n2 s s1 s' cur ex ctl cfg cur' ex' ctl' cfg' :
  change base (stm s) (suc s) n1 cur ex ctl cfg s1 ->
  change base (stm s1) (suc s1) n2 cur' ex' ctl' cfg' s' ->
  change base (stm s) (suc s) n2 cur' ex' ctl' cfg' s'.
Proof.
  intros C1 C2. split; try apply C2; intros q.
  - rewrite (change_stm _ _ _ _ _ _ _ _ _ C2). apply C1.
  - rewrite (change_suc _ _ _ _ _ _ _ _ _ C2). apply C1.
Qed.

Lemma ends_case_blocks base k m s : good base s -> base <= next_address s ->
  ends (st_map (fun i => create_new_basic_block (case_prefix i)) (seq k m)) (fun l s' =>
    l = seq (next_address s) m /\
    change base (stm s) (suc s) (m + next_address s) (current_basic_block s) (exit_of s) (control s)
      (owner s) s') s.
Proof.
  revert k s. induction m as [|m IH]; intros k s H Hb; [by split|]. cbn [seq].
  apply ends_bind. eapply ends_mono; [apply (ends_create base); [done | done | apply case_prefix_ok]|].
  intros p s1 [-> C1]. apply ends_bind.
  eapply ends_mono; [apply (IH (S k)); [apply C1 | rewrite (change_next _ _ _ _ _ _ _ _ _ C1); lia]|].
  intros l s2 [-> C2]. apply ends_ret. rewrite (change_next _ _ _ _ _ _ _ _ _ C1) in C2 |- *. split; [done|].
  rewrite (change_current _ _ _ _ _ _ _ _ _ C1), (change_exit _ _ _ _ _ _ _ _ _ C1),
    (change_control _ _ _ _ _ _ _ _ _ C1), (change_owner _ _ _ _ _ _ _ _ _ C1) in C2.
  replace (S m + next_address s) with (m + S (next_address s)) by lia. by eapply change_trans_create.
Qed.

Lemma ends_edges base p l s : good base s -> in_range base s p -> Forall (in_range base s) l ->
  ends (st_each (add_edge p) l) (fun _ =>
    change base (stm s) (fun x => if decide (x = p) then suc s p ++ l else suc s x) (next_address s)
      (current_basic_block s) (exit_of s) (control s) (owner s)) s.
Proof.
  revert s. induction l as [|q l IH]; intros s H Hp Hl.
  { split; try done. intros x. case_decide; [by subst; rewrite app_nil_r | done]. }
  apply list.Forall_cons in Hl as [Hq Hl]. rewrite st_each_cons.
  apply ends_bind. eapply ends_mono; [by apply (ends_edge base p q)|]. intros [] s1 C1.
  pose proof (change_next _ _ _ _ _ _ _ _ _ C1) as N1.
  assert (Hr : forall x, in_range base s x -> in_range base s1 x) by (unfold in_range; by rewrite N1).
  eapply ends_mono; [apply IH; [apply C1 | by apply Hr | eapply List.Forall_impl; [apply Hr | done]]|].
  intros [] s2 C2. destruct C1 as [_ St1 Su1 _ Cu1 Ex1 Ct1 Cf1]. destruct C2 as [G2 St2 Su2 N2 Cu2 Ex2 Ct2 Cf2].
  split; [done | | |congruence..].
  - intros x. by rewrite St2, St1.
  - intros x. rewrite Su2. case_decide as E.
    + by rewrite Su1, decide_True, <-app_assoc.
    + by rewrite Su1, decide_False.
Qed.

(** The visitor before the first case. *)
Definition switch_setup (n_cases : nat) (has_default : bool)
    (k : list nat -> nat -> option nat -> B unit) : B unit :=
  switch_header_block ← current_block;
  join_block ← create_new_basic_block "SwitchJoin_";
  push_endcase join_block;;
  case_blocks ← st_map (fun i => create_new_basic_block (case_prefix i)) (seq 0 n_cases);
  default_block ← (if has_default then p ← create_new_basic_block "DefaultCase_"; mret (Some p)
                   else mret None);
  st_each (add_edge switch_header_block) case_blocks;;
  st_option (add_edge switch_header_block) default_block;;
  add_edge switch_header_block join_block;;
  k case_blocks join_block default_block.

Record switch_head (base p m : nat) (has_default : bool) (s s1 : builder) : Prop := {
  switch_good : good base s1;
  switch_next : next_address s1 = (if has_default then 1 else 0) + m + S (next_address s);
  switch_stm q : stm s1 q = stm s q;
  switch_suc q : suc s1 q = if decide (q = p)
    then seq (S (next_address s)) m ++ (if has_default then [m + S (next_address s)] else [])
         ++ [next_address s] else suc s q;
  switch_current : current_basic_block s1 = Some p;
  switch_targets : targets s1 = (break_targets s, loop_targets s, next_address s :: endcase_targets s);
  switch_labels : label_targets s1 = label_targets s;
  switch_gotos : unresolved_gotos s1 = unresolved_gotos s;
  switch_exit : exit_of s1 = exit_of s;
  switch_owner : owner s1 = owner s
}.

Lemma switch_setup_ends base p m d k (Q : unit -> builder -> Prop) s : good base s -> opened base s p ->
  (forall s1, switch_head base p m d s s1 ->
     ends (k (seq (S (next_address s)) m) (next_address s)
             (if d then Some (m + S (next_address s)) else None)) Q s1) ->
  ends (switch_setup m d k) Q s.
Proof.
  intros H Ho Hk. pose proof Ho as (Hc & Hr & Hs & Hcf). apply ends_bind, (current_opened base s p); [done|].
  set (n := next_address s) in *. assert (Hpn : base <= p < n) by apply Hr.
  apply ends_bind. eapply ends_mono; [apply (ends_create base); [done | fold n; lia | done]|].
  intros ? sa [-> Ca]. destruct Ca as [Ga Sta Sua Na Cua Exa Cta Cfa]. fold n in Na |- *.
  apply ends_bind, ends_modify. set (sb := set_targets _ _ _ sa).
  assert (Gb : good base sb).
  { apply good_set_targets; [done|]. pose proof (good_targets _ _ Ga) as Ht. rewrite !list.Forall_app in Ht.
    destruct Ht as (T1 & T2 & T3). rewrite !list.Forall_app. split; [done|]. split; [done|].
    apply list.Forall_cons. split; [unfold in_range; lia | done]. }
  assert (Nb : next_address sb = S n) by exact Na.
  apply ends_bind. eapply ends_mono; [apply (ends_case_blocks base); [done | lia]|].
  intros l sc [-> Cc]. rewrite Nb in *. destruct Cc as [Gc Stc Su_c Nc Cuc Ex_c Ctc Cfc].
  apply ends_bind.
  assert (Hd : ends (if d then p ← create_new_basic_block "DefaultCase_"; mret (Some p) else mret None)
    (fun o sd => o = (if d then Some (m + S n) else None) /\
       change base (stm sc) (suc sc) ((if d then 1 else 0) + m + S n) (current_basic_block sc) (exit_of sc)
         (control sc) (owner sc) sd) sc).
  { destruct d; [|by apply ends_ret; split].
    apply ends_bind. eapply ends_mono; [apply (ends_create base); [done | lia | done]|].
    intros q sd [-> Cd]. rewrite Nc in *. apply ends_ret. by split. }
  eapply ends_mono; [exact Hd|]. clear Hd. intros ? sd [-> Cd]. destruct Cd as [Gd Std Sud Nd Cud Exd Ctd Cfd].
  apply ends_bind. eapply ends_mono; [apply (ends_edges base p); [done | unfold in_range; destruct d; lia |]|].
  { apply list.Forall_forall. intros q [Hq1 Hq2]%elem_of_seq. unfold in_range. destruct d; lia. }
  intros [] se Ce. destruct Ce as [Ge Ste Sue Ne Cue Exe Cte Cfe].
  apply ends_bind.
  assert (Hd : ends (st_option (add_edge p) (if d then Some (m + S n) else None)) (fun _ =>
       change base (stm se) (fun x => if decide (x = p) then suc se p ++ (if d then [m + S n] else []) else suc se x)
         (next_address se) (current_basic_block se) (exit_of se) (control se) (owner se)) se).
  { destruct d; [apply (ends_edge base); [done | unfold in_range; lia..]|].
    apply ends_ret. split; try done. intros x. case_decide; [by subst; rewrite app_nil_r | done]. }
  eapply ends_mono; [exact Hd|]. clear Hd. intros [] sf C. destruct C as [Gf Stf Suf Nf Cuf Exf Ctf Cff].
  apply ends_bind. eapply ends_mono; [apply (ends_edge base p n); [done | unfold in_range; destruct d; lia..]|].
  intros [] s1 C. destruct C as [G1 St1 Su1 N1 Cu1 Ex1 Ct1 Cf1]. apply Hk.
  destruct (control_targets sb s1 ltac:(congruence)) as (T & L & U). unfold targets in T. injection T as T1 T2 T3.
  destruct (control_targets s sa Cta) as (Ta & La & Ua). unfold targets in Ta. injection Ta as Ta1 Ta2 Ta3.
  split; fold n.
  - done.
  - congruence.
  - intros q. rewrite St1, Stf, Ste, Std, Stc. exact (Sta q).
  - intros q. rewrite Su1. case_decide as E.
    + rewrite (Suf p), decide_True by done. rewrite (Sue p), decide_True by done. rewrite Sud, Su_c.
      change (suc sb p) with (suc sa p). by rewrite Sua, Hs, <-app_assoc.
    + rewrite (Suf q), decide_False by done. rewrite (Sue q), decide_False by done. rewrite Sud, Su_c. exact (Sua q).
  - rewrite Cu1, Cuf, Cue, Cud, Cuc. exact (eq_trans Cua Hc).
  - unfold targets. rewrite T1, T2, T3. cbn. congruence.
  - rewrite L. exact La.
  - rewrite U. exact Ua.
  - rewrite Ex1, Exf, Exe, Exd, Ex_c. exact Exa.
  - rewrite Cf1, Cff, Cfe, Cfd, Cfc. exact Cfa.
Qed.

(** ** The cases *)

Section cases.
Context {C : Type} (base n : nat) (visit_case : C -> B unit) (behaviour_of : C -> behaviour)
  (labels_of : C -> list string).
Let at_join (s : builder) : builder := set_current (Some n) s.

Lemma more_at_join L L' D b m p s1 s : visits base L' b m -> branches base n L D s1 (at_join s) ->
  base <= n -> n < p < next_address s1 -> p ∉ D.*1 -> stm s1 p = [] -> suc s1 p = [] ->
  (forall l, l ∈ L -> l ∉ L') ->
  ends (visit_branch m n p) (fun _ s' => branches base n (L ++ L') ((p, b) :: D) s1 (at_join s')) s.
Proof. intros. by apply (branches_more base n L L' D b m p s1 (at_join s)). Qed.

Lemma ends_cases cases blocks L D s1 s :
  Forall (fun c => visits base (labels_of c) (behaviour_of c) (visit_case c)) cases ->
  branches base n L D s1 (at_join s) -> base <= n -> length blocks = length cases -> NoDup blocks ->
  (forall p, p ∈ blocks -> n < p < next_address s1 /\ (p ∉ D.*1) /\ stm s1 p = [] /\ suc s1 p = []) ->
  NoDup (L ++ concat (List.map labels_of cases)) ->
  ends (st_each2 (fun block c => visit_branch (visit_case c) n block) blocks cases)
    (fun _ s' => branches base n (L ++ concat (List.map labels_of cases))
                   (rev (zip blocks (List.map behaviour_of cases)) ++ D) s1 (at_join s')) s.
Proof.
  intros Hv. revert blocks L D s. induction Hv as [|c cases Hc _ IH]; intros blocks L D s I Hn Hlen Hnd Hb HL.
  { destruct blocks; [|done]. cbn. rewrite app_nil_r. exact I. }
  destruct blocks as [|p blocks]; [done|]. injection Hlen as Hlen. apply list.NoDup_cons in Hnd as [Hp Hnd].
  cbn [List.map concat] in HL |- *. rewrite app_assoc in HL |- *.
  destruct (Hb p) as (Rp & Dp & Sp & Up); [by left|].
  apply ends_bind. eapply ends_mono.
  { eapply more_at_join; [exact Hc | exact I | done..|]. apply list.NoDup_app in HL as [HL _].
    apply list.NoDup_app in HL as (_ & HL & _). exact HL. }
  intros [] s2 I2. eapply ends_mono; [apply IH; [exact I2 | done | done | done | | done]|].
  { intros q Hq. destruct (Hb q) as (Rq & Dq & ?); [by right|]. split; [done|]. split; [|done].
    rewrite fmap_cons. apply not_elem_of_cons. split; [|exact Dq]. cbn [fst]. intros E. rewrite E in Hq. contradiction. }
  intros [] s3 I3. cbn [zip zip_with List.map rev]. by rewrite <-(app_assoc (rev _) [_] D).
Qed.
End cases.

Lemma one_of_them_cases none l o t k :
  one_of_them none l o t k <-> none o t k \/ exists b, b ∈ l /\ b o t k.
Proof.
  induction l as [|b l IH]; cbn.
  - split; [by left|]. intros [H|(b & Hb & _)]; [done | by apply not_elem_of_nil in Hb].
  - unfold alt. rewrite IH. split.
    + intros [H|[H|(b' & Hb & H)]]; [right; exists b; split; [left | done] | by left |].
      right. exists b'. split; [by right | done].
    + intros [H|(b' & Hb & H)]; [by right; left|]. apply elem_of_cons in Hb as [->|Hb]; [by left|].
      right. right. by exists b'.
Qed.

Lemma arrives_outside_switch p n s s' k y : arrives p n s k y -> k <> Falls -> k <> Endcases ->
  break_targets s' = break_targets s -> loop_targets s' = loop_targets s ->
  (forall e, exit_of s = Some e -> exit_of s' = Some e) ->
  (forall x, x ∈ unresolved_gotos s -> x ∈ unresolved_gotos s') ->
  (stopped p n s y -> stopped p n s' y) -> arrives p n s' k y.
Proof.
  intros H Hf Hk Hb Hl He Hg Hs. destruct k as [| | | | | |[l|]]; try done; cbn in *; auto.
  - unfold first_target in *. rewrite Hb. destruct (break_targets s); auto.
  - unfold first_target in *. rewrite Hl. destruct (loop_targets s); auto.
  - destruct H as (e & ? & ->). eauto.
  - destruct H as (? & e & ? & ?). eauto 10.
Qed.

Lemma ends_pop_endcase e l (Q : unit -> builder -> Prop) s : endcase_targets s = e :: l ->
  Q tt (set_targets (break_targets s) (loop_targets s) l s) -> ends pop_endcase Q s.
Proof. intros He HQ. apply ends_bind, ends_get. rewrite He. by apply ends_modify. Qed.

(** After the last branch; [b] is the alternative of all of them. *)
Section after.
Context {base p m : nat} {d : bool} {L : list string} {D : list (nat * behaviour)} {b : behaviour}
  {s s1 s2 : builder}.
Let n := next_address s.
Hypothesis (good_before : good base s) (opened_before : opened base s p).
Hypothesis before : switch_head base p m d s s1.
Hypothesis after : branches base n L D s1 s2.
Hypothesis cases : forall o t k, b o t k ->
  skip o t k \/ exists q b', (q, b') ∈ D /\ q ∈ suc s1 p /\ b' o t k.
Hypothesis apart : (n ∉ D.*1) /\ (p ∉ D.*1).
Let s3 := set_targets (break_targets s2) (loop_targets s2) (tail (endcase_targets s2)) s2.

Lemma at_join_block : in_range base s2 n /\ stm s3 n = [] /\ suc s3 n = [].
Proof.
  pose proof (branches_next _ _ _ _ _ _ after) as N. pose proof (switch_next _ _ _ _ _ _ before) as N1. fold n in N1.
  assert (Hp : base <= p < n) by apply opened_before. split; [unfold in_range; destruct d; lia|].
  destruct (branches_same _ _ _ _ _ _ after n) as [E1 E2]; [destruct d; lia | apply apart|].
  destruct (dead_block base s n good_before (le_n _)) as [D1 D2].
  change (stm s3 n) with (stm s2 n). change (suc s3 n) with (suc s2 n).
  rewrite E1, E2, (switch_stm _ _ _ _ _ _ before), (switch_suc _ _ _ _ _ _ before), decide_False by lia. done.
Qed.

Lemma switch_arrives q k y : n < q -> lands q (next_address s1) s2 n k y ->
  arrives p n s3 (outside_switch k) y.
Proof.
  intros Hq Hl. destruct at_join_block as (_ & J & _).
  assert (Hn : n <= next_address s1) by (rewrite (switch_next _ _ _ _ _ _ before); fold n; destruct d; lia).
  assert (Hjoin : y = (n, 0) -> arrives p n s3 Falls y).
  { intros ->. exists n. by rewrite J, <-(branches_current _ _ _ _ _ _ after). }
  pose proof (branches_targets _ _ _ _ _ _ after) as T. rewrite (switch_targets _ _ _ _ _ _ before) in T.
  unfold targets in T. injection T as T1 T2 T3.
  destruct (ending_cases k) as [->|Hk]; [by apply Hjoin|]. apply lands_left in Hl; [|done].
  assert (k = Endcases \/ k <> Endcases) as [->|He] by (destruct k; first [by left | by right]).
  - apply Hjoin. cbn in Hl. unfold first_target in Hl. by rewrite T3 in Hl.
  - replace (outside_switch k) with k by (by destruct k).
    apply (arrives_weaken p n q (next_address s1)); [|exact Hn | right; lia].
    by eapply arrives_outside_switch.
Qed.

Lemma switch_after : visited base L (switch b) p s s3.
Proof.
  destruct at_join_block as (Rn & J1 & J2). pose proof (branches_next _ _ _ _ _ _ after) as N.
  pose proof (switch_next _ _ _ _ _ _ before) as N1. fold n in N1. pose proof opened_before as (_ & Rp & Sp & _).
  assert (Hp : base <= p < n) by apply opened_before.
  pose proof (branches_targets _ _ _ _ _ _ after) as T. rewrite (switch_targets _ _ _ _ _ _ before) in T.
  unfold targets in T. injection T as T1 T2 T3.
  destruct (branches_same _ _ _ _ _ _ after p) as [P1 P2]; [destruct d; lia | apply apart|].
  assert (Pn : n ∈ suc s1 p).
  { rewrite (switch_suc _ _ _ _ _ _ before), decide_True by done. rewrite !elem_of_app. right. right. by left. }
  assert (Gr : grows p n s s2).
  { split.
    - destruct d; lia.
    - intros q Hq Hqp. destruct (branches_same _ _ _ _ _ _ after q) as [-> ->]; [destruct d; lia | |].
      + intros [[q' b'] [-> Hin]]%list_elem_of_fmap. pose proof (branches_range _ _ _ _ _ _ after _ _ Hin). cbn in Hq. unfold n in *. lia.
      + by rewrite (switch_stm _ _ _ _ _ _ before), (switch_suc _ _ _ _ _ _ before), decide_False.
    - intros q. rewrite <-(switch_stm _ _ _ _ _ _ before). apply (branches_stm _ _ _ _ _ _ after).
    - intros q Hq. rewrite (branches_fixed _ _ _ _ _ _ after); [apply before|].
      rewrite (switch_suc _ _ _ _ _ _ before). case_decide; [by subst | done].
    - intros q x Hx. apply (branches_suc _ _ _ _ _ _ after). rewrite (switch_suc _ _ _ _ _ _ before).
      case_decide; [subst; rewrite Sp in Hx; by apply not_elem_of_nil in Hx | done]. }
  split.
  - apply good_set_targets; [apply after|]. pose proof (good_targets _ _ (branches_good _ _ _ _ _ _ after)) as Ht.
    rewrite T3 in Ht |- *. rewrite !list.Forall_app in Ht |- *. destruct Ht as (H1 & H2 & H3).
    apply list.Forall_cons in H3 as [_ H3]. done.
  - by apply (grows_heap _ _ s s2).
  - change (owner s2 = owner s). rewrite (branches_owner _ _ _ _ _ _ after). apply before.
  - unfold targets. cbn. by rewrite T1, T2, T3.
  - cbn. rewrite (branches_current _ _ _ _ _ _ after). intros q [= <-]. split; [|right; fold n; lia].
    split_and!; [apply after | exact Rn | exact J2 | by rewrite J1].
  - intros e He. change (exit_of s2 = Some e). apply (branches_exit _ _ _ _ _ _ after).
    by rewrite (switch_exit _ _ _ _ _ _ before).
  - intros l Hl. cbn. rewrite (branches_labels _ _ _ _ _ _ after) by done. by rewrite (switch_labels _ _ _ _ _ _ before).
  - intros x Hx. cbn. apply (branches_gotos _ _ _ _ _ _ after). by rewrite (switch_gotos _ _ _ _ _ _ before).
  - intros l t k (k' & Hb & _). destruct (cases _ _ _ Hb) as [(Hx & _)|(q & b' & Hin & _ & Hb')]; [done|].
    by eapply (branches_inside _ _ _ _ _ _ after).
  - intros o t k (k' & Hb & ->). destruct (cases _ _ _ Hb) as [(-> & -> & ->)|(q & b' & Hin & Hq & Hb')].
    + exists (p, length (stm s p)), (n, 0). split_and!; [done | |].
      * exists n. rewrite J1. split; [exact (branches_current _ _ _ _ _ _ after) | done].
      * apply (reach_along s3 _ n); [by change (n ∈ suc s2 p); rewrite P2 | | constructor].
        change (stm s3 p) with (stm s2 p). by rewrite P1, (switch_stm _ _ _ _ _ _ before).
    + destruct (branches_exec _ _ _ _ _ _ after q b' o t k' Hin Hb') as (x & y & Bx & Ly & Rx).
      pose proof (branches_range _ _ _ _ _ _ after _ _ Hin) as Rq.
      pose proof (switch_arrives q k' y ltac:(lia) Ly) as Ay.
      destruct o as [l|]; [by exists x, y|]. cbn in Bx. subst x.
      exists (p, length (stm s p)), y. split_and!; [done | exact Ay|].
      apply (reach_along s3 _ q); [by change (q ∈ suc s2 p); rewrite P2 | | exact Rx].
      change (stm s3 p) with (stm s2 p). by rewrite P1, (switch_stm _ _ _ _ _ _ before).
Qed.
End after.
