(* ===== verification/CfgBuild.v ===== *)
(** * Graphs follow executions: functions and programs

    The visit of every structured statement returns and is a [visited] step, by induction over
    the tree; a function gets an entry and, where control can fall out of it, an exit; GOTO
    gets its edges at the end.  Every execution of a function's body is a path of its graph. *)

From S2P Require Import Prelude State CallFrame Ast Analysis Cfg CfgSpec CfgProof CfgVisit CfgExec CfgSwitch.

(** ** Sequences *)

Definition ready (base : nat) (s : builder) : Prop :=
  good base s /\ base <= next_address s /\ forall q, current_basic_block s = Some q -> opened base s q.

Lemma visited_ready base L b p s s' : visited base L b p s s' -> base <= next_address s -> ready base s'.
Proof.
  intros V Hb. split_and!; [apply V | | apply V].
  pose proof (grows_next _ _ _ _ (visited_grows _ _ _ _ _ _ V)). lia.
Qed.

Lemma opened_ready base s p : good base s -> opened base s p -> ready base s.
Proof.
  intros H Ho. split_and!; [done | eapply range_next, Ho |]. intros q Hq.
  destruct Ho as (Hc & Ho). assert (q = p) as -> by congruence. by split.
Qed.

Lemma next_visits base L b m s : visits base L b m -> ready base s ->
  ends (next_statement m) (fun _ s' => exists s1 p, resumes base s s1 p /\ visited base L b p s1 s') s.
Proof.
  intros Hv (H & Hb & Ho). apply ends_bind, ends_get, ends_bind.
  destruct (current_basic_block s) as [p|] eqn:Hc.
  - apply ends_ret. eapply ends_mono; [apply (Hv s p H), Ho; done|]. intros [] s' V. exists s, p.
    split; [by left | done].
  - apply ends_bind. eapply ends_mono; [by apply (ends_create base)|]. intros p s1 [-> C]. apply ends_modify.
    destruct C as [G St Su N Cu Ex Ct Cf]. destruct (dead_block base s (next_address s) H (le_n _)) as [D1 D2].
    set (s2 := set_current _ s1).
    eapply ends_mono; [apply (Hv s2 (next_address s)); [by apply good_set_current|]|].
    { split_and!; [done | unfold in_range; cbn; lia | |].
      - change (suc s1 (next_address s) = []). by rewrite Su.
      - change (ends_with_control_flow (stm s1 (next_address s)) = false). by rewrite St, D1. }
    intros [] s' V. exists s2, (next_address s). split; [|done]. right. split; [done|]. split; [done|].
    split; try done. by apply good_set_current.
Qed.

Lemma followed_by_skip b o t k : followed_by b skip o t k -> b o t k.
Proof.
  intros [(t1 & t2 & H & (_ & -> & ->) & ->)|[[H _]|(l & -> & H & _)]]; [by rewrite app_nil_r | done | done].
Qed.

Lemma each_visits {A} base (f : A -> B unit) (bs : A -> behaviour) (ls : A -> list string) l s :
  Forall (fun x => visits base (ls x) (bs x) (f x)) l -> NoDup (concat (List.map ls l)) -> ready base s ->
  ends (st_each (fun x => next_statement (f x)) l) (fun _ s' => (l = [] /\ s' = s)
    \/ exists s1 p, resumes base s s1 p
        /\ visited base (concat (List.map ls l)) (sequence (List.map bs l)) p s1 s') s.
Proof.
  intros Hv. revert s. induction Hv as [|x l Hx _ IH]; intros s Hnd Hs; [by left|].
  cbn [List.map concat] in Hnd. apply list.NoDup_app in Hnd as (_ & Hd & Hnd).
  rewrite st_each_cons. apply ends_bind. eapply ends_mono; [by apply (next_visits base _ _ _ _ Hx)|].
  intros [] s2 (s1 & p & R & V).
  assert (Hb : base <= next_address s1).
  { destruct (resumes_facts _ _ _ _ R) as (_ & Gr & _). pose proof (grows_next _ _ _ _ (Gr 0 0)).
    destruct Hs as (_ & Hb & _). lia. }
  eapply ends_mono; [apply IH; [done | by eapply visited_ready]|].
  intros [] s' [[-> ->]|(s3 & p3 & R3 & V3)]; right; exists s1, p; (split; [done|]).
  - cbn. rewrite app_nil_r. eapply visited_weaken; [exact V | apply followed_by_skip].
  - by eapply visited_seq.
Qed.

Lemma each_idle {A} (f : A -> B unit) l base s p : opened base s p -> Forall (fun x => idle (f x)) l ->
  st_each (fun x => next_statement (f x)) l s = (s, Done tt).
Proof.
  intros (Hc & _) H. induction H as [|x l Hx _ IH]; [done|]. rewrite st_each_cons.
  rewrite (st_bind_then _ _ s s tt); [done|]. unfold next_statement.
  rewrite (st_bind_then _ _ s s (Some p)) by (unfold st_get; by rewrite Hc).
  by rewrite (st_bind_then _ _ s s tt).
Qed.

(** ** Statements that stay in their block *)

Lemma all_checked {A} (ok : A -> bool) (P : A -> Prop) l :
  list_all A (fun a => ok a = true -> P a) l -> forallb ok l = true -> Forall P l.
Proof.
  induction 1 as [|a l Ha _ IH]; intros Hl; [constructor|]. cbn in Hl. apply andb_true_iff in Hl as [? ?]. auto.
Qed.

Section visits.
Context (types : gmap string VarType) (base : nat).

Lemma plain_idle :
  (forall e, plain_expr e = true -> idle (accept_expr types e))
  /\ (forall s : Statement, True) /\ (forall c : CaseClause, True).
Proof.
  apply (ast_mutind _ _ _ (fun _ => True)); intros; try exact Logic.I; cbn in *; try discriminate;
    repeat match goal with H : _ && _ = true |- _ => apply andb_true_iff in H as [? ?] end;
    auto 10 with state.
  apply idle_bind; [auto|]. apply idle_each. by eapply all_checked.
Qed.

Lemma idle_exprs l : forallb plain_expr l = true -> idle (st_each (accept_expr types) l).
Proof.
  intros H. apply idle_each. rewrite forallb_forall in H. apply list.Forall_forall. intros e He.
  apply plain_idle, H. by apply list_elem_of_In.
Qed.

Lemma visits_idle_after x m : ends_with_control_flow [x] = false -> idle m ->
  visits base [] (once x) (ensure_block;; add_statement x;; m).
Proof.
  intros Hx Hm s p H Ho. apply ends_bind, (ensure_opened base s p); [done|].
  apply ends_bind. eapply ends_mono; [by apply (visited_push base p)|]. intros [] s' (V & _).
  by apply ends_idle.
Qed.

Lemma lets_visit names initializers s p : forallb plain_expr initializers = true ->
  good base s -> opened base s p ->
  ends (st_each2 (fun name e => accept_expr types e;; add_statement (assign name (clone_expr e))) names initializers)
    (fun _ s' => visited base [] (sequence (List.map once (let_statements names initializers))) p s s') s.
Proof.
  revert names s. induction initializers as [|e l IH]; intros names s Hl H Ho.
  { destruct names; by apply visited_skip. }
  destruct names as [|x names]; [by apply visited_skip|].
  cbn in Hl. apply andb_true_iff in Hl as [He Hl]. apply ends_bind, ends_bind.
  apply ends_idle; [by apply plain_idle|].
  eapply ends_mono; [by apply (visited_push base p)|]. intros [] s1 (V & O1 & _).
  eapply ends_mono; [apply (IH names s1 Hl); [apply V | done]|]. intros [] s2 V2.
  cbn. change (@nil string) with (@nil string ++ []).
  eapply (visited_seq base [] [] _ _ p s s1 s1 p s2 V); [|exact V2 | by intros ? ?%not_elem_of_nil]. left. split; [done | apply O1].
Qed.

(** A statement, then a visit that goes on in the same block. *)
Lemma visits_push_then x L b m : ends_with_control_flow [x] = false -> visits base L b m ->
  visits base L (followed_by (once x) b) (add_statement x;; m).
Proof.
  intros Hx Hv s p H Ho. apply ends_bind. eapply ends_mono; [by apply (visited_push base p)|].
  intros [] s1 (V & O1 & _). eapply ends_mono; [apply (Hv s1 p); [apply V | done]|]. intros [] s2 V2.
  eapply (visited_seq base [] L _ _ p s s1 s1 p s2 V); [left; split; [done | apply O1] | exact V2 |].
  by intros l ?%not_elem_of_nil.
Qed.

(** SWITCHON starts a block of its own. *)
Lemma visits_new_block L b m : visits base L b m ->
  visits base L b (end_current_block_and_start_new;; m).
Proof.
  intros Hv s p H Ho. pose proof Ho as (Hc & Hr & Hs & Hcf). set (n := next_address s).
  destruct (dead_block base s n H (le_n _)) as [D1 D2].
  apply ends_bind, ends_bind, ends_get. rewrite Hc. apply ends_bind. unfold ends_block.
  apply ends_bind, (ends_block_at base); [done | apply Hr|]. intros blk Hb. apply ends_ret.
  rewrite <-(stm_lookup _ _ _ Hb), Hcf.
  apply ends_bind. eapply ends_mono; [apply (ends_create base); [done | by eapply range_next | done]|].
  intros ? s1 [-> C1]. pose proof (grows_change p n _ _ (Nat.le_succ_diag_r _) C1) as Gr1. fold n.
  destruct C1 as [G1 St1 Su1 N1 Cu1 Ex1 Ct1 Cf1]. fold n in N1. assert (base <= p < n) by apply Hr.
  apply ends_bind. eapply ends_mono; [apply (ends_edge base p n); [done | unfold in_range; lia..]|].
  intros [] s2 C2. pose proof (grows_edge p n p n _ _ (or_introl eq_refl) (le_n _) C2) as Gr2.
  destruct C2 as [G2 St2 Su2 N2 Cu2 Ex2 Ct2 Cf2]. apply ends_modify. set (s3 := set_current _ s2).
  assert (O3 : opened base s3 n).
  { split_and!; [done | unfold in_range; cbn; lia | |].
    - change (suc s2 n = []). rewrite Su2, decide_False by lia. by rewrite Su1.
    - change (ends_with_control_flow (stm s2 n) = false). by rewrite St2, St1, D1. }
  assert (E3 : stm s3 n = []) by (change (stm s2 n = []); by rewrite St2, St1).
  eapply ends_mono; [apply (Hv s3 n); [by apply good_set_current | exact O3]|]. intros [] s4 V.
  assert (V1 : visited base [] skip p s s3).
  { apply visited_local.
    - by apply good_set_current.
    - apply (grows_heap _ _ s s2); [|done|done]. eapply growth_trans; [exact Gr1 | exact Gr2].
    - change (owner s2 = owner s). congruence.
    - change (control s2 = control s). congruence.
    - change (exit_of s2 = exit_of s). congruence.
    - intros q [= <-]. split; [done | by right].
    - by intros l t k (? & _).
    - intros t k (_ & -> & ->). exists (n, 0). split; [exists n; by rewrite E3|].
      apply (reach_along s3 _ n); [| |constructor].
      + change (n ∈ suc s2 p). rewrite Su2, decide_True by done. apply elem_of_snoc. by right.
      + change (length (stm s p) = length (stm s2 p)). by rewrite St2, St1. }
  eapply visited_weaken; [eapply (visited_seq base [] L skip b p s s3 s3 n s4 V1); [by left | exact V |]|].
  - by intros l ?%not_elem_of_nil.
  - intros o t k Hk. destruct o as [l|]; [right; right; by exists l|].
    left. exists [], t. split_and!; [done | done | done].
Qed.
End visits.

(** ** The induction over the tree *)

Lemma concat_NoDup {A B} (f : A -> list B) l : NoDup (concat (List.map f l)) -> Forall (fun x => NoDup (f x)) l.
Proof.
  induction l as [|x l IH]; [constructor|]. cbn. intros (H & _ & Hl)%list.NoDup_app. constructor; auto.
Qed.

Lemma checked_visits {A} base (ok : A -> bool) (ls : A -> list string) (bs : A -> behaviour) (f : A -> B unit) l :
  list_all A (fun x => ok x = true -> NoDup (ls x) -> visits base (ls x) (bs x) (f x)) l ->
  forallb ok l = true -> NoDup (concat (List.map ls l)) ->
  Forall (fun x => visits base (ls x) (bs x) (f x)) l.
Proof.
  induction 1 as [|x l Hx _ IH]; intros Hl Hnd; [constructor|].
  cbn in Hl, Hnd. apply andb_true_iff in Hl as [Hk Hl]. apply list.NoDup_app in Hnd as (H1 & _ & H2).
  constructor; auto.
Qed.

Section accept.
Context (types : gmap string VarType) (base : nat).

Lemma compound_visits l : list_all _ (fun s => structured s = true -> NoDup (labels s) ->
    visits base (labels s) (exec s) (accept_stmt types s)) l ->
  forallb structured l = true -> NoDup (concat (List.map labels l)) ->
  visits base (concat (List.map labels l)) (sequence (List.map exec l))
    (st_each (fun s => next_statement (accept_stmt types s)) l).
Proof.
  intros Hl Hk Hnd s p H Ho.
  eapply ends_mono; [apply (each_visits base); [eapply checked_visits; eauto | done | by eapply opened_ready]|].
  intros [] s' [[-> ->]|(s1 & p1 & R & V)]; [by apply visited_skip|].
  destruct R as [[-> Hc]|(Hc & _)]; destruct Ho as (Hc' & _); [|congruence].
  by replace p with p1 by congruence.
Qed.

(** What the checks of a node say of its parts. *)
Ltac parts := intros; cbn [structured structured_case labels labels_case exec exec_case] in *;
  repeat match goal with H : _ && _ = true |- _ => apply andb_true_iff in H as [? ?] end.

Lemma switch_visits expression cases default_case :
  list_all _ (fun c => structured_case c = true -> NoDup (labels_case c) ->
     visits base (labels_case c) (exec_case c) (accept_case types c)) cases ->
  option_all _ (fun s => structured s = true -> NoDup (labels s) ->
     visits base (labels s) (exec s) (accept_stmt types s)) default_case ->
  let s := SwitchonStatement expression cases default_case in
  structured s = true -> NoDup (labels s) -> visits base (labels s) (exec s) (accept_stmt types s).
Proof.
  intros Hc Hd x Hx Hnd. subst x. parts. apply list.NoDup_app in Hnd as (Hndc & Hdis & Hndd).
  cbn [accept_stmt]. unfold visit_Switchon. apply visits_new_block, visits_push_then; [done|].
  intros s p Hg Ho. set (d := match default_case with Some _ => true | None => false end).
  set (m := length cases).
  assert (Hset : forall k Q, ends (switch_setup m d k) Q s ->
    ends (switch_header_block ← current_block;
          join_block ← create_new_basic_block "SwitchJoin_";
          push_endcase join_block;;
          case_blocks ← st_map (fun i => create_new_basic_block (case_prefix i)) (seq 0 m);
          default_block ← match match default_case with Some d => Some (accept_stmt types d) | None => None end with
                          | Some _ => p ← create_new_basic_block "DefaultCase_"; mret (Some p)
                          | None => mret None
                          end;
          st_each (add_edge switch_header_block) case_blocks;;
          st_option (add_edge switch_header_block) default_block;;
          add_edge switch_header_block join_block;;
          k case_blocks join_block default_block) Q s) by (intros k Q; unfold d; by destruct default_case).
  apply (Hset (fun case_blocks join_block default_block =>
    st_each2 (fun block c => visit_branch (accept_case types c) join_block block) case_blocks cases;;
    match match default_case with Some d => Some (accept_stmt types d) | None => None end, default_block with
    | Some visit_command, Some block => visit_branch visit_command join_block block
    | _, _ => mret tt
    end;;
    set_current_block (Some join_block);;
    pop_endcase)). clear Hset.
  apply (switch_setup_ends base p m d); [done | done|]. intros s1 Hh. set (n := next_address s).
  assert (Hp : base <= p < n) by apply Ho.
  pose proof (switch_next _ _ _ _ _ _ Hh) as N1. fold n in N1.
  assert (Dead : forall q, n <= q -> stm s1 q = [] /\ suc s1 q = []).
  { intros q Hq. rewrite (switch_stm _ _ _ _ _ _ Hh), (switch_suc _ _ _ _ _ _ Hh), decide_False by lia.
    by apply (dead_block base). }
  assert (I0 : branches base n [] [] s1 (set_current (Some n) s1)) by apply branches_none, Hh.
  apply ends_bind. eapply ends_mono.
  { apply (ends_cases base n (accept_case types) exec_case labels_case cases _ [] [] s1 s1);
      [eapply checked_visits; [exact Hc | assumption | assumption] | exact I0 | lia | by rewrite length_seq | apply NoDup_seq | | done].
    intros q [Hq1 Hq2]%elem_of_seq. split; [destruct d; lia|]. split; [apply not_elem_of_nil|].
    apply Dead. lia. }
  intros [] s2 I2. cbn [app] in I2. rewrite app_nil_r in I2.
  set (blocks := seq (S n) m) in *. set (D := rev (zip blocks (List.map exec_case cases))) in *.
  assert (HD : forall q b, (q, b) ∈ D <-> (q, b) ∈ zip blocks (List.map exec_case cases)).
  { intros q b. unfold D. by rewrite !list_elem_of_In, <-in_rev. }
  assert (Hblocks : forall q, q ∈ D.*1 -> n < q <= m + n).
  { intros q [[q' b] [-> Hq]]%list_elem_of_fmap. apply HD, elem_of_zip_l, elem_of_seq in Hq. cbn. lia. }
  assert (Hsuc : forall q b, (q, b) ∈ D -> q ∈ suc s1 p).
  { intros q b Hq. apply HD, elem_of_zip_l in Hq. rewrite (switch_suc _ _ _ _ _ _ Hh), decide_True by done.
    rewrite elem_of_app. by left. }
  assert (Hin : forall b, b ∈ List.map exec_case cases -> exists q, (q, b) ∈ D).
  { intros b Hb. apply list_elem_of_lookup_1 in Hb as [i Hi].
    destruct (lookup_lt_is_Some_2 blocks i) as [q Hq].
    { unfold blocks. rewrite length_seq. unfold m. rewrite <-(length_map exec_case). by eapply lookup_lt_Some. }
    exists q. apply HD, (list_elem_of_lookup_2 _ i). apply lookup_zip_with_Some. by exists q, b. }
  assert (Last : forall D' L b s3, branches base n L D' s1 (set_current (Some n) s3) ->
     (forall o t k, one_of_them b (List.map exec_case cases) o t k ->
        skip o t k \/ exists q b', (q, b') ∈ D' /\ q ∈ suc s1 p /\ b' o t k) ->
     (n ∉ D'.*1) /\ (p ∉ D'.*1) ->
     ends (set_current_block (Some n);; pop_endcase)
       (fun _ s' => visited base L (switch (one_of_them b (List.map exec_case cases))) p s s') s3).
  { intros D' L b s3 I Hcases Hap. apply ends_bind, ends_modify.
    pose proof (branches_targets _ _ _ _ _ _ I) as T. rewrite (switch_targets _ _ _ _ _ _ Hh) in T.
    unfold targets in T. injection T as _ _ T3.
    apply (ends_pop_endcase n (endcase_targets s)); [done|].
    replace (endcase_targets s) with (tail (endcase_targets (set_current (Some n) s3)))
      by exact (f_equal tail T3).
    by eapply switch_after. }
  unfold d in *. destruct default_case as [dc|]; cbn [option_allb] in *.
  - inversion Hd as [? Hdc|]; subst. apply ends_bind. eapply ends_mono.
    { eapply (more_at_join base n (concat (List.map labels_case cases)) (labels dc) D (exec dc));
        [by apply Hdc | exact I2 | lia | lia | | | |exact Hdis].
      - intros Hq%Hblocks. lia.
      - apply (Dead (m + S n)). lia.
      - apply (Dead (m + S n)). lia. }
    intros [] s3 I3. eapply Last; [exact I3 | |].
    + intros o t k [Hk|(b & Hb & Hk)]%one_of_them_cases; right.
      * exists (m + S n), (exec dc). split; [by left|]. split; [|done].
        rewrite (switch_suc _ _ _ _ _ _ Hh), decide_True by done. rewrite !elem_of_app. right. left. by left.
      * destruct (Hin b Hb) as [q Hq]. exists q, b. split; [by right|]. split; [by eapply Hsuc | done].
    + rewrite fmap_cons. split; apply not_elem_of_cons; (split; [cbn; lia|]); intros Hq%Hblocks; lia.
  - apply ends_bind, ends_ret. rewrite app_nil_r. eapply Last; [exact I2 | |].
    + intros o t k [Hk|(b & Hb & Hk)]%one_of_them_cases; [by left | right].
      destruct (Hin b Hb) as [q Hq]. exists q, b. split; [done|]. split; [by eapply Hsuc | done].
    + split; intros Hq%Hblocks; lia.
Qed.
Lemma visits_ensured L b m : visits base L b m -> visits base L b (ensure_block;; m).
Proof. intros Hv s p H Ho. apply ends_bind, (ensure_opened base s p); [done|]. by apply Hv. Qed.

Lemma visits_after_idle L b m k : idle m -> visits base L b k -> visits base L b (m;; k).
Proof. intros Hm Hv s p H Ho. apply ends_bind, ends_idle; [done|]. by apply Hv. Qed.

Lemma accept_visits :
  (forall e : Expression, True)
  /\ (forall s, structured s = true -> NoDup (labels s) ->
        visits base (labels s) (exec s) (accept_stmt types s))
  /\ (forall c, structured_case c = true -> NoDup (labels_case c) ->
        visits base (labels_case c) (exec_case c) (accept_case types c)).
Proof.
  pose proof (proj1 (plain_idle types)) as Hplain.
  apply (ast_mutind _ _ _ (fun _ => True)); try (intros; exact Logic.I); try (parts; discriminate).
  - (* LET *) parts. apply visits_ensured. intros s p Hg Ho. by apply lets_visit.
  - (* assignment *) parts. apply visits_idle_after; [done|]. apply idle_bind; by apply idle_exprs.
  - (* call *) parts. apply visits_idle_after; [done|]. apply idle_bind; [by apply Hplain | by apply idle_exprs].
  - (* IF *) parts. apply visits_after_idle; [auto|]. apply visits_ensured, visits_push_then; [done|].
    apply if_visited. auto.
  - (* FOR *) parts. apply visits_ensured, visits_after_idle; [auto|].
    apply visits_push_then; [done|]. apply for_visited. auto.
  - (* SWITCHON *) intros. by apply switch_visits.
  - (* GOTO *) parts. intros s p Hg Ho. by apply goto_visited.
  - (* RETURN *) parts. intros s p Hg Ho. by apply leave_function_visited.
  - (* FINISH *) parts. intros s p Hg Ho. by apply finish_visited.
  - (* BREAK *) parts. intros s p Hg Ho. apply leave_to_visited; auto.
  - (* BRK *) parts. intros s p Hg Ho. apply ends_bind, (ensure_opened base s p); [done|].
    eapply ends_mono; [by apply (visited_push base p)|]. by intros [] s' (V & _).
  - (* LOOP *) parts. intros s p Hg Ho. apply leave_to_visited; auto.
  - (* ENDCASE *) parts. intros s p Hg Ho. apply leave_to_visited; auto.
  - (* RESULTIS *) parts. intros s p Hg Ho. by apply leave_function_visited.
  - (* compound *) parts. by apply compound_visits.
  - (* block *) parts. intros s p Hg Ho. apply ends_bind.
    eapply ends_intro.
    { eapply each_idle; [done|]. apply list.Forall_forall. intros d Hd.
      assert (Hk : plain_decl d = true) by (eapply forallb_forall; [done | by apply list_elem_of_In]).
      destruct d; try done; try apply idle_ret. by apply Hplain. }
    by apply compound_visits.
  - (* string *) parts. apply visits_idle_after; [done|]. auto.
  - (* label *) parts. intros s p Hg Ho. apply label_visited; [done|done|]. by apply negb_true_iff.
  - (* case *) parts. auto.
Qed.
End accept.
