(* ===== verification/CfgProgram.v ===== *)
(** * Graphs follow executions: functions and programs

    Between two functions the state of the pass is [settled].  A function gets an entry and,
    where control can fall out of it, an exit; GOTO gets its edges at the end; and every
    execution of its body is a path of its graph, which the graphs of later functions leave
    alone. *)

From S2P Require Import Prelude State CallFrame Ast Analysis Cfg CfgSpec CfgProof CfgVisit CfgExec CfgSwitch CfgBuild.

(** ** Edges of GOTO *)

Lemma reach_more s s' x t y : (forall q, stm s' q = stm s q) -> (forall q z, z ∈ suc s q -> z ∈ suc s' q) ->
  reach (heap s) x t y -> reach (heap s') x t y.
Proof.
  intros H1 H2 R. remember (heap s) as h eqn:Hh.
  induction R as [x|r i b st t q Hb Hi _ IH|r b r' t q Hb Hr' _ IH]; subst h; [constructor| |].
  - eapply reach_one; [|by apply IH]. by rewrite H1, (stm_lookup _ _ _ Hb).
  - eapply reach_along; [| |by apply IH].
    + apply H2. by rewrite (suc_lookup _ _ _ Hb).
    + by rewrite H1, (stm_lookup _ _ _ Hb).
Qed.

(** What resolving does: blocks of the graph get edges to labels, and only those. *)
Record resolved (base : nat) (l : list (Expression * nat)) (s s' : builder) : Prop := {
  resolved_good : good base s';
  resolved_stm q : stm s' q = stm s q;
  resolved_suc q z : z ∈ suc s q -> z ∈ suc s' q;
  resolved_old q : q < base -> suc s' q = suc s q;
  resolved_goto e q n to : (e, q) ∈ l -> goto_label e = Some n -> label_targets s !! n = Some to ->
    to ∈ suc s' q;
  resolved_next : next_address s' = next_address s;
  resolved_exit : exit_of s' = exit_of s;
  resolved_control : control s' = control s;
  resolved_owner : owner s' = owner s;
  resolved_current : current_basic_block s' = current_basic_block s
}.

Lemma ends_resolve base l s : good base s -> (forall x, x ∈ l -> in_range base s x.2) ->
  ends (st_each resolve_goto l) (fun _ => resolved base l s) s.
Proof.
  revert s. induction l as [|[e q] l IH]; intros s H Hl.
  { split; try done. by intros ? ? ? ? ?%not_elem_of_nil. }
  assert (Step : ends (resolve_goto (e, q)) (fun _ => resolved base [(e, q)] s) s).
  { assert (Rq : in_range base s q) by (apply (Hl (e, q)); by left). unfold resolve_goto. cbn [fst snd].
    assert (Nothing : goto_label e = None \/ (exists n, goto_label e = Some n /\ label_targets s !! n = None) ->
      resolved base [(e, q)] s s).
    { intros Hn. split; try done. intros e' q' n to Hin%list_elem_of_singleton En El. injection Hin as -> ->.
      destruct Hn as [Hn|(n' & Hn & Hn')]; congruence. }
    destruct e; try (apply ends_ret, Nothing; by left).
    apply ends_bind, ends_get. destruct (label_targets s !! name) as [to|] eqn:El;
      [|apply ends_ret, Nothing; right; by exists name].
    eapply ends_mono; [apply (ends_edge base q to); [done | done | by eapply good_labels]|].
    intros [] s1 C. destruct C as [G St Su N Cu Ex Ct Cf]. split; try done.
    - intros r z Hz. rewrite Su. case_decide; [subst; rewrite elem_of_app; by left | done].
    - intros r Hr. rewrite Su, decide_False; [done|]. unfold in_range in Rq. lia.
    - intros e' q' n to' Hin%list_elem_of_singleton En El'. injection Hin as -> ->. cbn in En.
      injection En as ->. rewrite El in El'. injection El' as ->. rewrite Su, decide_True by done.
      apply elem_of_snoc. by right. }
  rewrite st_each_cons. apply ends_bind. eapply ends_mono; [exact Step|]. intros [] s1 R1.
  destruct (control_targets _ _ (resolved_control _ _ _ _ R1)) as (_ & L1 & _).
  eapply ends_mono; [apply IH; [apply R1|]|].
  { intros x Hx. unfold in_range. rewrite (resolved_next _ _ _ _ R1). apply Hl. by right. }
  intros [] s2 R2. destruct R1 as [G1 St1 Su1 O1 Go1 N1 Ex1 Ct1 Cf1 Cu1], R2 as [G2 St2 Su2 O2 Go2 N2 Ex2 Ct2 Cf2 Cu2].
  split; [done | | | | |congruence..].
  - intros r. by rewrite St2, St1.
  - intros r z Hz. auto.
  - intros r Hr. rewrite O2, O1; done.
  - intros e' q' n to [Hin|Hin]%elem_of_cons En El.
    + apply Su2. eapply (Go1 e' q'); [rewrite Hin; by left | done | done].
    + eapply Go2; [done | done | by rewrite L1].
Qed.

(** ** Between functions *)

Record settled (s : builder) : Prop := {
  settled_alive q : q < next_address s <-> is_Some (heap s !! q);
  settled_targets : targets s = ([], [], []);
  settled_mirror p q : q ∈ suc s p <-> p ∈ pred s q;
  settled_named f g i p : function_cfgs s !! f = Some g -> blocks g !! i = Some p ->
    exists b, heap s !! p = Some b /\ id b = i
}.

(** What the visit of a function [f] with the body [b] does. *)
Record built (f : string) (b : behaviour) (s s' : builder) : Prop := {
  built_settled : settled s';
  built_next : next_address s <= next_address s';
  built_old q : q < next_address s -> stm s' q = stm s q /\ suc s' q = suc s q;
  built_pred q r : q < next_address s -> r ∈ pred s' q -> r ∈ pred s q;
  built_others f' : f' <> f -> function_cfgs s' !! f' = function_cfgs s !! f';
  built_graph : exists g, function_cfgs s' !! f = Some g /\ function_name g = f
    /\ well_formed (heap s') g /\ follows (heap s') g b
}.

(** *** The graph before the body *)

Lemma settled_free s q : settled s -> next_address s <= q -> stm s q = [] /\ suc s q = [].
Proof.
  intros H Hq. unfold stm, suc. destruct (heap s !! q) eqn:E; [|done].
  assert (q < next_address s) by (apply (settled_alive _ H); by rewrite E). lia.
Qed.

Lemma settled_edges s p q : settled s -> q ∈ suc s p -> q < next_address s.
Proof.
  intros H Hq. apply (settled_mirror _ H) in Hq. apply (settled_alive _ H). unfold pred in Hq.
  destruct (heap s !! q); [by eexists | by apply not_elem_of_nil in Hq].
Qed.

Lemma settled_scope f s : settled s -> settled (set_scope f s).
Proof. intros H. split; apply H. Qed.

(** The state in which the graph of [f] has no block. *)
Definition started (f : string) (s : builder) : builder :=
  set_gotos [] (set_labels ∅ (set_counter 0 (set_current_cfg (Some f)
    (set_cfgs (<[f := ControlFlowGraph_new f]> (function_cfgs s)) (set_heap (heap s) (next_address s) s))))).

Lemma exit_started f s : exit_of (started f s) = None.
Proof. unfold exit_of. cbn. by rewrite lookup_insert_eq. Qed.

Lemma owner_started f s : function_cfgs s !! f = None ->
  owner (started f s) = (Some f, None, function_cfgs s).
Proof. intros H. unfold owner, entry_of. cbn. by rewrite delete_insert_eq, lookup_insert_eq, delete_id. Qed.

Lemma good_started f s : settled s -> function_cfgs s !! f = None -> good (next_address s) (started f s).
Proof.
  intros H Hf. pose proof (settled_targets _ H) as Ht. unfold targets in Ht. injection Ht as T1 T2 T3.
  split.
  - apply (settled_alive _ H).
  - exists f, (ControlFlowGraph_new f). cbn. rewrite lookup_insert_eq. split_and!; try done.
    intros p b Hp Hb. assert (p < next_address s) by (apply (settled_alive _ H); by rewrite Hb). lia.
  - intros e. by rewrite exit_started.
  - cbn. by rewrite T1, T2, T3.
  - by intros l q.
  - by intros x ?%not_elem_of_nil.
  - intros q Hq. change (suc (started f s) q) with (suc s q). by rewrite (proj2 (settled_free _ _ H Hq)).
  - intros q _. apply list.Forall_forall. intros x Hx. by eapply settled_edges.
  - apply (settled_mirror _ H).
  - intros f' g i p. cbn. destruct (decide (f' = f)) as [->|Hff].
    + rewrite lookup_insert_eq. by intros [= <-].
    + rewrite lookup_insert_ne by done. apply (settled_named _ H).
Qed.

Lemma ends_started f s (Q : unit -> builder -> Prop) : function_cfgs s !! f = None ->
  Q tt (started f s) -> ends (start_graph f) Q s.
Proof. intros Hf HQ. apply ends_modify. by rewrite Hf. Qed.

(** *** The entry, and the end of the body *)

Lemma good_set_entry base s g p : good base s -> current_cfg s = Some (function_name g) ->
  function_cfgs s !! function_name g = Some g ->
  good base (set_cfgs (<[function_name g := set_entry p g]> (function_cfgs s)) s).
Proof.
  intros H Hc Hg. split; try apply H.
  - destruct (good_graph _ _ H) as (f & g' & F1 & F2 & F3 & F4 & F5 & F6).
    rewrite F1 in Hc. injection Hc as ->. rewrite F2 in Hg. injection Hg as ->.
    exists (function_name g), (set_entry p g). cbn. by rewrite lookup_insert_eq.
  - intros e. unfold exit_of. cbn. rewrite Hc, lookup_insert_eq. cbn. intros He.
    apply (good_exit _ _ H). unfold exit_of. by rewrite Hc, Hg.
  - intros f g' i q. cbn. destruct (decide (f = function_name g)) as [->|Hf].
    + rewrite lookup_insert_eq. intros [= <-]. cbn. by apply (good_named _ _ H (function_name g) g).
    + rewrite lookup_insert_ne by done. apply (good_named _ _ H).
Qed.

Record entered (f : string) (s s1 : builder) : Prop := {
  entered_good : good (next_address s) s1;
  entered_open : opened (next_address s) s1 (next_address s);
  entered_stm q : stm s1 q = stm s q;
  entered_suc q : suc s1 q = suc s q;
  entered_exit : exit_of s1 = None;
  entered_control : control s1 = (([], [], []), (∅, []));
  entered_owner : owner s1 = (Some f, Some (next_address s), function_cfgs s)
}.

Lemma ends_entered f s : settled s -> function_cfgs s !! f = None ->
  ends (start_graph f;;
        entry ← create_new_basic_block "Entry_";
        set_current_block (Some entry);;
        on_block entry mark_entry;;
        on_graph (set_entry entry)) (fun _ => entered f s) s.
Proof.
  intros H Hf. set (n := next_address s). apply ends_bind, ends_started; [done|].
  pose proof (good_started f s H Hf) as G0. pose proof (settled_targets _ H) as Ht.
  unfold targets in Ht. injection Ht as T1 T2 T3.
  assert (Hc : control (started f s) = (([], [], []), (∅, []))) by (unfold control; cbn; by rewrite T1, T2, T3).
  apply ends_bind. eapply ends_mono; [by apply (ends_create n)|]. intros p s1 [Hp C1].
  change (next_address (started f s)) with n in *. subst p.
  destruct C1 as [G1 St1 Su1 N1 Cu1 Ex1 Ct1 Ow1]. apply ends_bind, ends_modify.
  set (s2 := set_current (Some n) s1).
  assert (G2 : good n s2) by (by apply good_set_current).
  assert (R2 : in_range n s2 n) by (unfold in_range; cbn; lia).
  apply ends_bind. eapply ends_mono; [apply (ends_mark n n mark_entry s2 G2 R2); by intros []|].
  intros [] s3 [G3 St3 Su3 N3 Cu3 Ex3 Ct3 Ow3]. apply ends_bind, (the_graph_ends n); [done|].
  intros f' g H1 H2 H3. apply ends_modify. rewrite <-H3 in H1, H2.
  assert (Own : owner s3 = (Some f, None, function_cfgs s)).
  { rewrite Ow3. change (owner s2) with (owner s1). rewrite Ow1. by apply owner_started. }
  pose proof (f_equal (fun x => x.1.1) Own) as Hcfg. cbn in Hcfg. rewrite H1 in Hcfg. injection Hcfg as Hname.
  destruct (settled_free _ n H (le_n _)) as [F1 F2].
  set (s4 := set_cfgs _ s3). split.
  - by apply good_set_entry.
  - split_and!; [exact Cu3 | unfold in_range; change (next_address s4) with (next_address s3); rewrite N3; apply R2 | |].
    + change (suc s3 n = []). rewrite Su3. change (suc s1 n = []). by rewrite Su1.
    + change (ends_with_control_flow (stm s3 n) = false). rewrite St3. change (stm s2 n) with (stm s1 n).
      rewrite St1. change (stm (started f s) n) with (stm s n). by rewrite F1.
  - intros q. change (stm s3 q = stm s q). rewrite St3. change (stm s1 q = stm s q). by rewrite St1.
  - intros q. change (suc s3 q = suc s q). rewrite Su3. change (suc s1 q = suc s q). by rewrite Su1.
  - assert (E : exit_of s3 = None).
    { rewrite Ex3. change (exit_of s1 = None). rewrite Ex1. apply exit_started. }
    unfold exit_of in E |- *. cbn. rewrite H1, lookup_insert_eq in *. cbn. by rewrite H2 in E.
  - change (control s3 = (([], [], []), (∅, []))). rewrite Ct3. change (control s1 = (([], [], []), (∅, []))).
    by rewrite Ct1.
  - pose proof (f_equal snd Own) as Ho. cbn in Ho. unfold owner, entry_of. cbn.
    rewrite H1 in Ho |- *. rewrite lookup_insert_eq, delete_insert_eq. cbn. by rewrite <-Hname, Ho.
Qed.

(** What happens to the blocks after the body: only edges are added. *)
Record tied (base : nat) (s s' : builder) : Prop := {
  tied_good : good base s';
  tied_stm q : stm s' q = stm s q;
  tied_suc q z : z ∈ suc s q -> z ∈ suc s' q;
  tied_old q : q < base -> suc s' q = suc s q;
  tied_next : next_address s <= next_address s';
  tied_exit e : exit_of s = Some e -> exit_of s' = Some e;
  tied_control : control s' = control s;
  tied_owner : owner s' = owner s
}.

Lemma tied_trans base s1 s2 s3 : tied base s1 s2 -> tied base s2 s3 -> tied base s1 s3.
Proof.
  intros [G1 St1 Su1 O1 N1 E1 C1 W1] [G2 St2 Su2 O2 N2 E2 C2 W2].
  split; [done | intros q; by rewrite St2, St1 | auto | intros q Hq; by rewrite O2, O1 | lia | auto | congruence..].
Qed.

(** A body whose end can be reached falls to the exit. *)
Lemma ends_falls_out base s2 p :
  good base s2 -> base <= next_address s2 -> current_basic_block s2 = Some p -> opened base s2 p ->
  ends (exit ← exit_of_graph; p ← current_block; add_edge p exit)
    (fun _ s3 => tied base s2 s3 /\ exists e, exit_of s3 = Some e /\ e ∈ suc s3 p) s2.
Proof.
  intros G Hb Hc (_ & Rp & Sp & _). apply ends_bind. eapply ends_mono; [by apply (ends_exit base)|].
  intros e s3 He.
  assert (X : tied base s2 s3 /\ exit_of s3 = Some e /\ current_basic_block s3 = Some p).
  { destruct He as [[He ->]|(He & -> & [G3 St3 Su3 N3 Cu3 Ex3 Ct3 Ow3])]; [by split|].
    split; [|by rewrite Cu3]. split; try done; [intros q z; by rewrite Su3 | lia | congruence]. }
  destruct X as (T3 & E3 & C3). clear He. apply ends_bind, ends_bind, ends_get.
  rewrite C3. apply ends_ret. pose proof (tied_good _ _ _ T3) as G3.
  assert (Re : in_range base s3 e) by (by apply (good_exit _ _ G3)).
  assert (Rp3 : in_range base s3 p) by (eapply in_range_later; [apply (tied_next _ _ _ T3) | done]).
  eapply ends_mono; [by apply (ends_edge base p e)|]. intros [] s4 [G4 St4 Su4 N4 Cu4 Ex4 Ct4 Ow4]. split.
  - eapply tied_trans; [exact T3|]. split; try done.
    + intros q z Hz. rewrite Su4. case_decide; [subst; rewrite elem_of_app; by left | done].
    + intros q Hq. rewrite Su4, decide_False; [done|]. unfold in_range in Rp. lia.
    + lia.
    + intros e'. by rewrite Ex4.
  - exists e. rewrite Ex4, Su4, decide_True by done. split; [done|]. apply elem_of_snoc. by right.
Qed.

Definition end_of_body : B unit :=
  current ← st_get current_basic_block;
  match current with
  | None => mret tt
  | Some p =>
      ended ← ends_block p;
      if (ended : bool) then mret tt
      else exit ← exit_of_graph; p ← current_block; add_edge p exit
  end.

(** The state after GOTOs are resolved. *)
Lemma ends_tied base s2 : good base s2 -> base <= next_address s2 ->
  (forall q, current_basic_block s2 = Some q -> opened base s2 q) ->
  ends (end_of_body;; resolve_gotos) (fun _ s3 => tied base s2 s3
    /\ (forall q, current_basic_block s2 = Some q -> exists e, exit_of s3 = Some e /\ e ∈ suc s3 q)
    /\ (forall e q n to, (e, q) ∈ unresolved_gotos s2 -> goto_label e = Some n ->
          label_targets s2 !! n = Some to -> to ∈ suc s3 q)) s2.
Proof.
  intros G Hb Ho. apply ends_bind.
  apply (ends_mono _ (fun _ s3 => tied base s2 s3
    /\ (forall q, current_basic_block s2 = Some q -> exists e, exit_of s3 = Some e /\ e ∈ suc s3 q))).
  { unfold end_of_body. apply ends_bind, ends_get. destruct (current_basic_block s2) as [p|] eqn:Hc.
    - apply ends_bind. specialize (Ho p eq_refl). destruct (Ho) as (_ & Rp & _ & Hopen).
      apply ends_bind, (ends_block_at base); [done | apply Rp|]. intros b Hbk. apply ends_ret.
      rewrite (stm_lookup _ _ _ Hbk) in Hopen. rewrite Hopen.
      eapply ends_mono; [by apply (ends_falls_out base s2 p)|]. intros _ s3 [T He]. split; [done|].
      by intros q [= <-].
    - apply ends_ret. split; [|done]. split; try done; lia. }
  intros _ s3 [T3 He]. apply ends_bind, ends_get.
  destruct (control_targets _ _ (tied_control _ _ _ T3)) as (_ & L3 & U3).
  eapply ends_mono; [apply (ends_resolve base); [apply T3 | apply (good_gotos _ _ (tied_good _ _ _ T3))]|].
  intros [] s4 [G4 St4 Su4 O4 Go4 N4 Ex4 Ct4 Ow4 Cu4]. split; [|split].
  - eapply tied_trans; [exact T3|]. split; try done; [lia | intros e; by rewrite Ex4].
  - intros q Hq. destruct (He q Hq) as (e & H1 & H2). exists e. rewrite Ex4. auto.
  - intros e q n to Hin Hn Hto. eapply Go4; [by rewrite U3 | done | by rewrite L3].
Qed.

(** *** Executions of the body *)

Definition finale (s : builder) (k : ending) (y : point) : Prop :=
  match k with
  | Falls | Returns => exists e, exit_of s = Some e /\ y = (e, 0)
  | _ => y.2 = length (stm s y.1)
  end.

Section body.
Context {base : nat} {L : list string} {b : behaviour} {p : nat} {s1 s2 s3 : builder}.
Context (visit : visited base L b p s1 s2) (tie : tied base s2 s3) (none : targets s1 = ([], [], [])).
Context (falls : forall q, current_basic_block s2 = Some q -> exists e, exit_of s3 = Some e /\ e ∈ suc s3 q).
Context (gotos : forall e q n to, (e, q) ∈ unresolved_gotos s2 -> goto_label e = Some n ->
  label_targets s2 !! n = Some to -> to ∈ suc s3 q).

Lemma reach_tied x t y : reach (heap s2) x t y -> reach (heap s3) x t y.
Proof. apply reach_more; apply tie. Qed.

Lemma stopped_finale n y k : stopped p n s2 y ->
  match k with Falls | Returns => False | _ => True end -> finale s3 k y.
Proof.
  destruct y as [q j]. intros (-> & _) Hk. destruct k; try done; cbn; by rewrite (tied_stm _ _ _ tie).
Qed.

Lemma execution_path o t k : b o t k -> exists x y, starts p s1 s2 o x /\ reach (heap s3) x t y /\
  (match k with
   | Jumps (Some l) => stopped p (next_address s1) s2 y
       /\ forall to, label_targets s2 !! l = Some to -> to ∈ suc s3 y.1
   | _ => finale s3 k y
   end).
Proof.
  intros Hb. destruct (visited_exec _ _ _ _ _ _ visit _ _ _ Hb) as (x & y & Sx & Ay & Rx).
  apply reach_tied in Rx. pose proof (visited_targets _ _ _ _ _ _ visit) as Ht. rewrite none in Ht.
  unfold targets in Ht. injection Ht as T1 T2 T3.
  destruct k as [| | | | | |[l|]]; cbn [arrives] in Ay; rewrite ?T1, ?T2, ?T3 in Ay; cbn [first_target] in Ay;
    try (exists x, y; split_and!; [done | done | by eapply stopped_finale]).
  - destruct Ay as (q & Hq & ->). destruct (falls q Hq) as (e & He & Hs).
    exists x, (e, 0). split_and!; [done | | by exists e]. rewrite <-(app_nil_r t).
    eapply reach_trans; [exact Rx|]. eapply reach_along; [exact Hs | | constructor].
    by rewrite (tied_stm _ _ _ tie).
  - destruct Ay as (e & He & ->). exists x, (e, 0). split_and!; [done | done|].
    exists e. split; [by apply tie | done].
  - destruct Ay as (Sy & e & He & Hin). exists x, y. split_and!; try done.
    intros to. by eapply gotos.
Qed.

Lemma run_path o t k : run_from b o t k -> exists x y, starts p s1 s2 o x /\ reach (heap s3) x t y
  /\ finale s3 k y.
Proof.
  induction 1 as [o t k Hb|o t1 l t2 k Hb Hr IH].
  - destruct (execution_path o t k Hb) as (x & y & Sx & Rx & F). exists x, y. split_and!; [done | done|].
    destruct k as [| | | | | |[l|]]; try done. by apply (stopped_finale _ _ (Jumps (Some l)) (proj1 F)).
  - destruct (execution_path _ _ _ Hb) as (x & [q j] & Sx & Rx & (-> & _) & Ho).
    destruct IH as (x2 & y & (to & Hto & ->) & R2 & F). exists x, y. split_and!; [done | | done].
    eapply reach_trans; [exact Rx|]. eapply reach_along; [by apply Ho | | exact R2].
    by rewrite (tied_stm _ _ _ tie).
Qed.
End body.

(** ** A function *)

(** The pass is done with the function. *)
Definition cleared (scope : string) (s : builder) : builder :=
  set_scope scope (set_current None (set_current_cfg None s)).

Lemma good_settled base s scope : good base s -> targets s = ([], [], []) -> settled (cleared scope s).
Proof. intros H Ht. split; [apply H | exact Ht | apply H | apply H]. Qed.

Lemma good_well_formed base s f g : good base s -> current_cfg s = Some f -> function_cfgs s !! f = Some g ->
  (exists p, entry_block g = Some p /\ in_range base s p) -> well_formed (heap s) g.
Proof.
  intros H Hf Hg He. destruct (good_graph _ _ H) as (f' & g' & F1 & F2 & _ & _ & F5 & F6).
  rewrite F1 in Hf. injection Hf as ->. rewrite F2 in Hg. injection Hg as ->.
  assert (Own : forall q, in_range base s q -> exists j, blocks g !! j = Some q).
  { intros q Hq. destruct (alive _ _ q H) as [b Hb]; [apply Hq|]. exists (id b). apply F6; [apply Hq | done]. }
  assert (Hex : exit_of s = exit_block g) by (unfold exit_of; by rewrite F1, F2).
  split.
  - intros i p Hi. apply (F5 i p Hi).
  - intros i p b q Hi Hb Hq. destruct (F5 _ _ Hi) as (Hp & _). apply Own. apply elem_of_app in Hq as [Hq|Hq].
    + pose proof (good_edges _ _ H p Hp) as Hs. rewrite (suc_lookup _ _ _ Hb), list.Forall_forall in Hs. auto.
    + assert (Hm : p ∈ suc s q) by (apply (good_mirror _ _ H); unfold pred; by rewrite Hb).
      assert (Hq1 : base <= q).
      { destruct (decide (base <= q)) as [|Hlt]; [done|]. exfalso. pose proof (good_below _ _ H q) as Hs.
        rewrite list.Forall_forall in Hs. specialize (Hs ltac:(lia) p Hm). lia. }
      split; [done|]. unfold suc in Hm. apply (good_alive _ _ H).
      destruct (heap s !! q); [by eexists | by apply not_elem_of_nil in Hm].
  - destruct He as (p & He & Hp). destruct (Own p Hp) as [i Hi]. by exists i, p.
  - intros p Hp. apply Own, (good_exit _ _ H). by rewrite Hex.
Qed.

Lemma reach_inside h g x t y : well_formed h g -> reach h x t y -> (exists i, blocks g !! i = Some x.1) ->
  exists i, blocks g !! i = Some y.1.
Proof.
  intros W. induction 1 as [|p i b st t q Hb Hi _ IH|p b p' t q Hb Hp _ IH]; [done | exact IH|].
  intros [i Hi]. apply IH. eapply (graph_edges _ _ W); [done..|]. rewrite elem_of_app. by left.
Qed.

Lemma finale_graph s g n t y k : well_formed (heap s) g -> entry_block g = Some n ->
  exit_of s = exit_block g -> reach (heap s) (n, 0) t y -> finale s k y ->
  match k with
  | Falls | Returns => exit_block g = Some y.1 /\ y.2 = 0
  | _ => exists c, heap s !! y.1 = Some c /\ y.2 = length (statements c)
  end.
Proof.
  intros W He Hex R F.
  assert (Alive : exists c, heap s !! y.1 = Some c).
  { destruct (graph_entry _ _ W) as (i & p & E & Hp). rewrite He in E. injection E as <-.
    destruct (reach_inside _ _ _ _ _ W R) as [j Hj]; [by exists i|].
    destruct (graph_blocks _ _ W _ _ Hj) as (c & Hc & _). by exists c. }
  destruct Alive as [c Hc].
  assert (Len : y.2 = length (stm s y.1) -> exists c, heap s !! y.1 = Some c /\ y.2 = length (statements c)).
  { intros E. exists c. split; [done|]. by rewrite E, (stm_lookup _ _ _ Hc). }
  destruct k; cbn in F; try by apply Len.
  all: destruct F as (e & E & ->); by rewrite <-Hex.
Qed.

(** [visit_function] in three parts. *)
Definition enter (f : string) : B unit :=
  start_graph f;;
  entry ← create_new_basic_block "Entry_";
  set_current_block (Some entry);;
  on_block entry mark_entry;;
  on_graph (set_entry entry).

Lemma ends_visit_function f (restores : bool) (visit_body : B unit) Q s :
  ends (enter f) (fun _ => ends (if restores then st_on_throw visit_body (set_scope (current_function_scope s))
                                 else visit_body)
    (fun _ => ends (end_of_body;; resolve_gotos) (fun _ s' => Q (cleared (current_function_scope s) s'))))
    (set_scope f s) ->
  ends (visit_function f restores visit_body) (fun _ => Q) s.
Proof.
  unfold visit_function, enter, end_of_body.
  generalize (start_graph f), (create_new_basic_block "Entry_"), resolve_gotos.
  intros m1 m2 m3. unfold ends, mbind, ST_bind, mret, ST_ret, st_get, st_modify, set_current_block.
  destruct (m1 (set_scope f s)) as [s1 [[]|e|]]; try done. destruct (m2 s1) as [s2 [p|e|]]; try done.
  cbn. destruct (on_block p mark_entry (set_current (Some p) s2)) as [s3 [[]|e|]]; try done.
  destruct (on_graph (set_entry p) s3) as [s4 [[]|e|]]; try done.
  destruct ((if restores then st_on_throw visit_body (set_scope (current_function_scope s))
             else visit_body) s4) as [s5 [[]|e|]]; try done.
  destruct (current_basic_block s5) as [q|]; [|by destruct (m3 s5) as [s7 [[]|e|]]].
  destruct (ends_block q s5) as [s6 [[|]|e|]]; try done; [by destruct (m3 s6) as [s7 [[]|e|]]|].
  destruct (exit_of_graph s6) as [s8 [e|e|]]; try done. destruct (current_block s8) as [s9 [r|r|]]; try done.
  destruct (add_edge r e s9) as [s10 [[]|x|]]; try done. by destruct (m3 s10) as [s7 [[]|x|]].
Qed.

Lemma visit_function_ends f restores L b visit_body s :
  settled s -> function_cfgs s !! f = None -> visits (next_address s) L b visit_body ->
  ends (visit_function f restores visit_body) (fun _ => built f b s) s.
Proof.
  intros H Hf Hv. set (n := next_address s). apply ends_visit_function.
  eapply ends_mono; [apply ends_entered; [by apply settled_scope | done]|].
  intros _ s1 [G1 O1 St1 Su1 Ex1 Ct1 Ow1]. change (next_address (set_scope f s)) with n in *.
  apply (ends_mono _ (fun _ s2 => visited n L b n s1 s2)).
  { destruct restores; [apply ends_on_throw|]; by apply Hv. }
  intros [] s2 V. pose proof (grows_next _ _ _ _ (visited_grows _ _ _ _ _ _ V)) as N2.
  assert (N1 : n < next_address s1) by apply O1.
  eapply ends_mono.
  { apply (ends_tied n); [apply V | lia |]. intros q Hq. by apply V. }
  intros [] s3 (T & Falls_out & Gotos). pose proof (tied_next _ _ _ T) as N3.
  assert (Tg : targets s1 = ([], [], [])) by (unfold control in Ct1; unfold targets; congruence).
  assert (Own : owner s3 = (Some f, Some n, function_cfgs s)).
  { rewrite (tied_owner _ _ _ T), (visited_owner _ _ _ _ _ _ V). exact Ow1. }
  pose proof (f_equal (fun x => x.1.1) Own) as Hcfg. pose proof (f_equal (fun x => x.1.2) Own) as Hent.
  pose proof (f_equal snd Own) as Hothers. cbn in Hcfg, Hent, Hothers. rewrite Hcfg in Hothers.
  unfold entry_of in Hent. rewrite Hcfg in Hent. pose proof (tied_good _ _ _ T) as G3.
  assert (Tg3 : targets s3 = ([], [], [])).
  { rewrite (proj1 (control_targets _ _ (tied_control _ _ _ T))), (visited_targets _ _ _ _ _ _ V). done. }
  split.
  - by apply (good_settled n).
  - cbn. lia.
  - intros q Hq. change (stm s3 q = stm s q /\ suc s3 q = suc s q).
    rewrite (tied_stm _ _ _ T), (tied_old _ _ _ T) by done.
    destruct (grows_same _ _ _ _ (visited_grows _ _ _ _ _ _ V) q) as [-> ->]; [lia | unfold n; lia|]. by rewrite St1, Su1.
  - intros q r Hq Hr. change (r ∈ pred s3 q) in Hr. apply (good_mirror _ _ G3) in Hr. apply (settled_mirror _ H).
    assert (Hrn : r < n).
    { destruct (decide (r < n)) as [|Hge]; [done|]. exfalso.
      pose proof (good_edges _ _ G3 r ltac:(lia)) as He. rewrite list.Forall_forall in He. specialize (He q Hr).
      unfold in_range, n in He. lia. }
    rewrite (tied_old _ _ _ T) in Hr by done.
    destruct (grows_same _ _ _ _ (visited_grows _ _ _ _ _ _ V) r) as [_ E]; [lia | lia|].
    by rewrite E, Su1 in Hr.
  - intros f' Hff. change (function_cfgs (cleared _ s3)) with (function_cfgs s3).
    rewrite <-Hothers. by rewrite lookup_delete_ne.
  - destruct (good_graph _ _ G3) as (f' & g & F1 & F2 & F3 & _). rewrite F1 in Hcfg. injection Hcfg as ->.
    rewrite F2 in Hent. assert (Hex : exit_of s3 = exit_block g) by (unfold exit_of; by rewrite F1, F2).
    assert (W : well_formed (heap s3) g).
    { apply (good_well_formed n s3 f); [done | done | done|]. exists n. split; [done|]. unfold in_range. lia. }
    exists g. split_and!; [done | done | exact W|].
    exists n. split; [done|]. intros t k Hr.
    destruct (run_path V T Tg Falls_out Gotos None t k Hr) as (x & y & Sx & Rx & Fx).
    assert (Hx : x = (n, 0)).
    { cbn in Sx. rewrite Sx, St1. change (stm (set_scope f s) n) with (stm s n).
      by rewrite (proj1 (settled_free _ n H (le_n _))). }
    subst x. exists y. split; [exact Rx|]. by eapply (finale_graph s3 g).
Qed.

(** ** A program *)

Section later.
Context {f : string} {b : behaviour} {s s' : builder} (H : settled s) (Hb : built f b s s').
Context {f' : string} {g : ControlFlowGraph} (Hf : f' <> f) (Hg : function_cfgs s !! f' = Some g).

Lemma block_before q c : heap s !! q = Some c -> exists c', heap s' !! q = Some c'
  /\ statements c' = statements c /\ successors c' = successors c
  /\ forall r, r ∈ predecessors c' -> r ∈ predecessors c.
Proof.
  intros Hc. assert (Hq : q < next_address s) by (apply (settled_alive _ H); by rewrite Hc).
  pose proof (built_next _ _ _ _ Hb) as Hn. destruct (built_old _ _ _ _ Hb q Hq) as [E1 E2].
  destruct (proj1 (settled_alive _ (built_settled _ _ _ _ Hb) q)) as [c' Hc']; [lia|]. exists c'.
  rewrite (stm_lookup _ _ _ Hc), (stm_lookup _ _ _ Hc') in E1.
  rewrite (suc_lookup _ _ _ Hc), (suc_lookup _ _ _ Hc') in E2. split_and!; [done..|].
  intros r Hr. pose proof (built_pred _ _ _ _ Hb q r Hq) as Hp. unfold pred in Hp. rewrite Hc, Hc' in Hp. auto.
Qed.

Lemma reach_before x t y : reach (heap s) x t y -> reach (heap s') x t y.
Proof.
  induction 1 as [|p i c st t q Hc Hi _ IH|p c p' t q Hc Hp _ IH]; [constructor| |];
    destruct (block_before _ _ Hc) as (c' & Hc' & E1 & E2 & _).
  - eapply reach_statement; [done | by rewrite E1 | done].
  - rewrite <-E1. eapply reach_edge; [done | by rewrite E2 | done].
Qed.

Lemma follows_before b' : follows (heap s) g b' -> follows (heap s') g b'.
Proof.
  intros (e & He & Hr). exists e. split; [done|]. intros t k Ht. destruct (Hr t k Ht) as (y & R & F).
  exists y. split; [by apply reach_before|].
  assert (X : (exists c, heap s !! y.1 = Some c /\ y.2 = length (statements c)) ->
    exists c, heap s' !! y.1 = Some c /\ y.2 = length (statements c)).
  { intros (c & Hc & E). destruct (block_before _ _ Hc) as (c' & Hc' & E1 & _). exists c'. by rewrite E1. }
  destruct k; auto.
Qed.

Lemma well_formed_before : well_formed (heap s) g -> well_formed (heap s') g.
Proof.
  intros W. split; try apply W.
  - intros i p. apply (settled_named _ (built_settled _ _ _ _ Hb) f'). by rewrite (built_others _ _ _ _ Hb).
  - intros i p c q Hi Hc Hq. destruct (graph_blocks _ _ W i p Hi) as (c0 & Hc0 & _).
    destruct (block_before _ _ Hc0) as (c' & Hc' & _ & E2 & E3). rewrite Hc in Hc'. injection Hc' as <-.
    eapply (graph_edges _ _ W i p c0 q); [done..|]. rewrite E2 in Hq. apply elem_of_app in Hq as [Hq|Hq];
      rewrite elem_of_app; auto.
Qed.
End later.

Section program.
Context (types : gmap string VarType).

(** The statement of a function is visited, unless the function is an expression. *)
Lemma visit_declaration_ends d name s :
  declared_function d = Some name -> body_structured d = true -> NoDup (body_labels d) ->
  settled s -> function_cfgs s !! name = None ->
  ends (accept_decl types d) (fun _ => built name (body_exec d) s) s.
Proof.
  intros Hd Hk Hnd H Hf. pose proof (accept_visits types (next_address s)) as (_ & Hv & _).
  destruct d; try done; injection Hd as ->.
  - apply (visit_function_ends _ _ (body_labels (FunctionDeclaration name parameters body))); [done|done|].
    set (d := FunctionDeclaration name parameters body) in *.
    destruct (body_statement d) as [b|] eqn:E.
    + assert (Hb : visits (next_address s) (labels b) (exec b) (accept_stmt types b)).
      { unfold body_structured, body_labels in Hk, Hnd. rewrite E in Hk, Hnd. apply Hv; [by destruct body | done]. }
      unfold body_labels, body_exec. rewrite E. by destruct body; try discriminate E; injection E as ->.
    + unfold body_labels, body_exec. rewrite E. intros s1 p G O. apply ends_idle; [|by apply visited_skip].
      apply (proj1 (plain_idle types)). unfold body_structured in Hk. by rewrite E in Hk.
  - apply (visit_function_ends _ _ (body_labels (RoutineDeclaration name parameters body))); [done|done|].
    by apply Hv.
Qed.

(** The declarations [done] have graphs; the names of the others are free. *)
Record progress (visited_decls rest : list Declaration) (s : builder) : Prop := {
  progress_settled : settled s;
  progress_free d name : d ∈ rest -> declared_function d = Some name -> function_cfgs s !! name = None;
  progress_graph d name : d ∈ visited_decls -> declared_function d = Some name ->
    exists g, function_cfgs s !! name = Some g /\ function_name g = name
      /\ well_formed (heap s) g /\ follows (heap s) g (body_exec d);
  progress_only f g : function_cfgs s !! f = Some g ->
    exists d, d ∈ visited_decls /\ declared_function d = Some f
}.

Lemma progress_skip before d l s : declared_function d = None -> progress before (d :: l) s ->
  progress (d :: before) l s.
Proof.
  intros Hd [H Hfree Hg Ho]. split; [done | intros d' name Hin; apply Hfree; by right | |].
  - intros d' name [-> | Hin]%elem_of_cons; [congruence | by apply Hg].
  - intros f g Hf. destruct (Ho f g Hf) as (d' & Hin & Hd'). exists d'. split; [by right | done].
Qed.

Lemma progress_visit before d l s s' name : declared_function d = Some name ->
  NoDup (omap declared_function (d :: l)) -> progress before (d :: l) s ->
  built name (body_exec d) s s' -> progress (d :: before) l s'.
Proof.
  intros Hd Hnd [H Hfree Hg Ho] Hb. cbn in Hnd. rewrite Hd in Hnd. apply list.NoDup_cons in Hnd as [Hnot _].
  split.
  - apply Hb.
  - intros d' name' Hin Hd'. rewrite (built_others _ _ _ _ Hb); [apply (Hfree d'); [by right | done]|].
    intros ->. apply Hnot, list_elem_of_omap. by exists d'.
  - intros d' name' Hin Hd'. destruct (decide (name' = name)) as [->|Hne].
    + apply elem_of_cons in Hin as [-> | Hin]; [apply Hb|].
      destruct (Hg _ _ Hin Hd') as (g & Hgg & _). by rewrite (Hfree d name) in Hgg; [| left |].
    + apply elem_of_cons in Hin as [-> | Hin]; [congruence|].
      destruct (Hg _ _ Hin Hd') as (g & Hgg & Hn & W & F). exists g. split_and!.
      * by rewrite (built_others _ _ _ _ Hb).
      * done.
      * by eapply well_formed_before.
      * by eapply follows_before.
  - intros f g Hf. destruct (decide (f = name)) as [->|Hne]; [exists d; split; [by left | done]|].
    rewrite (built_others _ _ _ _ Hb) in Hf by done. destruct (Ho f g Hf) as (d' & Hin & Hd').
    exists d'. split; [by right | done].
Qed.

Lemma declarations_end l before s :
  Forall (fun d => body_structured d = true /\ NoDup (body_labels d)) l ->
  NoDup (omap declared_function l) -> progress before l s ->
  ends (st_each (fun d => match d with
                          | FunctionDeclaration _ _ _ | RoutineDeclaration _ _ _ => accept_decl types d
                          | _ => mret tt
                          end) l) (fun _ => progress (rev l ++ before) []) s.
Proof.
  revert before s. induction l as [|d l IH]; intros before s Hall Hnd P; [done|].
  apply list.Forall_cons in Hall as [[Hk Hl] Hall]. rewrite st_each_cons. apply ends_bind.
  assert (Rest : NoDup (omap declared_function l)).
  { cbn in Hnd. destruct (declared_function d); [by apply list.NoDup_cons in Hnd as [_ ?] | done]. }
  cbn [rev]. rewrite <-app_assoc. cbn [app].
  destruct (declared_function d) as [name|] eqn:Hd.
  - assert (Hrun : ends (accept_decl types d) (fun _ => built name (body_exec d) s) s).
    { apply visit_declaration_ends; try done; [apply P | apply (progress_free _ _ _ P d); [by left | done]]. }
    destruct d; try done; (eapply ends_mono; [exact Hrun|]; intros [] s' Hb; apply IH; try done;
      by eapply progress_visit).
  - destruct d; try done; apply ends_ret; apply IH; try done; by apply progress_skip.
Qed.

Lemma build_ends p m scope : structured_program p ->
  ends (build types p) (fun _ => progress (rev (declarations p)) []) (CFGBuilderPass_new m scope).
Proof.
  intros [Hall Hnd]. apply ends_bind, ends_modify. rewrite <-(app_nil_r (rev _)).
  apply declarations_end; [done | done|]. split; [|done| |].
  - split; [|done| |].
    + intros q. cbn. rewrite lookup_empty. split; [lia | by intros []].
    + intros a q. unfold suc, pred. cbn. rewrite !lookup_empty. split; by intros ?%not_elem_of_nil.
    + intros f g i q. cbn. by rewrite lookup_empty.
  - by intros d name ?%not_elem_of_nil.
  - intros f g. cbn. by rewrite lookup_empty.
Qed.
End program.
