(* ===== verification/CfgTheorems.v ===== *)
(** * What the graphs of a program are

    The theorems of the control-flow graphs: they follow the executions of functions, they are
    well formed, and what goes wrong when labels end in digits. *)

From S2P Require Import Prelude State CallFrame Ast Analysis Cfg CfgSpec CfgProof CfgProgram.

(** Loops, switches, jumps and returns; a function that is an expression has only an entry
    and an exit. *)
Definition sample : Program := mkProgram
  [FunctionDeclaration "f" ["x"] (ValofExpression (BlockStatement []
     [ForStatement "i" "i_1" "" "" (NumberLiteral (Integer 1)) (var "x") None
        (IfStatement (var "b") BreakStatement);
      SwitchonStatement (var "x")
        [mkCase (NumberLiteral (Integer 1)) EndcaseStatement None;
         mkCase (NumberLiteral (Integer 2)) (AssignmentStatement [var "x"] [NumberLiteral (Integer 0)]) None]
        (Some (ResultisStatement (var "b")));
      LabelTargetStatement "again";
      IfStatement (var "x") (GotoStatement (var "again"));
      ResultisStatement (var "x")]));
   GlobalVariableDeclaration ["b"] [NumberLiteral (Integer 7)] false;
   FunctionDeclaration "twice" ["x"] (BinaryOp Add (var "x") (var "x"));
   RoutineDeclaration "start" [] (CompoundStatement [RoutineCallStatement (var "f") [NumberLiteral (Integer 3)]; FinishStatement None []])] [].

Lemma sample_structured : structured_program sample.
Proof. split; apply (bool_decide_unpack _); by vm_compute. Qed.

(** C5: for a program of structured functions with names and labels of
    their own the pass ends normally, every function has a graph, and every execution of the
    function's body (through tests, FOR loops with BREAK and LOOP, switches with ENDCASE,
    GOTO into and out of statements, RETURN and FINISH) is a path from the entry of the graph
    over the same statements, which leads to the exit when the body is left normally. *)
Theorem graphs_follow_executions types p m scope : structured_program p ->
  ends (build types p) (fun _ s => forall d name, d ∈ declarations p -> declared_function d = Some name ->
    exists g, function_cfgs s !! name = Some g /\ function_name g = name /\ follows (heap s) g (body_exec d))
    (CFGBuilderPass_new m scope).
Proof.
  intros Hp. eapply ends_mono; [by apply build_ends|]. intros [] s P d name Hd Hn.
  destruct (progress_graph _ _ _ P d name) as (g & H1 & H2 & _ & H4); [|done|by exists g].
  by rewrite list_elem_of_In, <-in_rev, <-list_elem_of_In.
Qed.

Lemma graphs_follow_executions_witness : structured_program sample /\
  ends (build ∅ sample) (fun _ s => forall d name, d ∈ declarations sample -> declared_function d = Some name ->
    exists g, function_cfgs s !! name = Some g /\ function_name g = name /\ follows (heap s) g (body_exec d))
    (CFGBuilderPass_new ∅ "").
Proof. split; [apply sample_structured | apply (graphs_follow_executions ∅ sample ∅ ""), sample_structured]. Defined.

(** C9: the blocks of the graphs are alive and listed under their own
    identifiers, the entry, the exit and the ends of all edges are blocks of the same graph,
    an edge is a successor of one block if and only if it is a predecessor of the other, and
    no target of BREAK, LOOP or ENDCASE is left over. *)
Theorem graphs_well_formed types p m scope : structured_program p ->
  ends (build types p) (fun _ s =>
    (forall d name, d ∈ declarations p -> declared_function d = Some name ->
       exists g, function_cfgs s !! name = Some g /\ well_formed (heap s) g)
    /\ (forall q r, q ∈ suc s r <-> r ∈ pred s q)
    /\ break_targets s = [] /\ loop_targets s = [] /\ endcase_targets s = [])
    (CFGBuilderPass_new m scope).
Proof.
  intros Hp. eapply ends_mono; [by apply build_ends|]. intros [] s P. split_and!.
  - intros d name Hd Hn. destruct (progress_graph _ _ _ P d name) as (g & H1 & _ & H3 & _); [|done|by exists g].
    by rewrite list_elem_of_In, <-in_rev, <-list_elem_of_In.
  - intros q r. apply (settled_mirror _ (progress_settled _ _ _ P)).
  - exact (f_equal (fun x => x.1.1) (settled_targets _ (progress_settled _ _ _ P))).
  - exact (f_equal (fun x => x.1.2) (settled_targets _ (progress_settled _ _ _ P))).
  - exact (f_equal snd (settled_targets _ (progress_settled _ _ _ P))).
Qed.

Lemma graphs_well_formed_witness : structured_program sample /\
  ends (build ∅ sample) (fun _ s =>
    (forall d name, d ∈ declarations sample -> declared_function d = Some name ->
       exists g, function_cfgs s !! name = Some g /\ well_formed (heap s) g)
    /\ (forall q r, q ∈ suc s r <-> r ∈ pred s q)
    /\ break_targets s = [] /\ loop_targets s = [] /\ endcase_targets s = [])
    (CFGBuilderPass_new ∅ "").
Proof. split; [apply sample_structured | apply (graphs_well_formed ∅ sample ∅ ""), sample_structured]. Defined.

(** *** Labels that end in digits *)

(** A routine with the labels x1, ten others and x, and a jump to the first one. *)
Definition label_sample : Program := mkProgram
  [RoutineDeclaration "r" [] (CompoundStatement
     (List.map LabelTargetStatement ["x1"; "a"; "b"; "c"; "d"; "e"; "f"; "g"; "h"; "i"; "x"]
      ++ [GotoStatement (var "x1")]))] [].

(** The identifier of a block is the label followed by a number, so the
    block of the label [x] can have the identifier of the block of [x1] and destroys it; the
    jump to [x1] then reads a dangling pointer, although all labels are different. *)
Theorem digits_collide types m scope :
  NoDup (concat (List.map body_labels (declarations label_sample)))
  /\ (build types label_sample (CFGBuilderPass_new m scope)).2 = Undefined.
Proof. split; [apply (bool_decide_unpack _)|]; by vm_compute. Qed.
