(* ===== verification/Accesses.v ===== *)
(** * Which variables a statement reads and assigns

    What it means for a path to use a variable before it defines it, without reference to
    the liveness analysis: [accesses_stmt] lists the variables that the text of a statement
    reads and assigns, from left to right.  An access is [Overlooked] where the analysis does
    not look, so that a theorem can say for which variables its sets are right.  [own] is what
    a statement does itself when it is one step of an execution: a test reads its condition,
    and its branches are steps of their own. *)

From S2P Require Import Prelude Ast.

Inductive access : Type := Reads (x : string) | Assigns (x : string).
Inductive place : Type := Visited | Overlooked.

#[export] Instance access_eq_dec : EqDecision access.
Proof. solve_decision. Defined.
#[export] Instance place_eq_dec : EqDecision place.
Proof. solve_decision. Defined.

Abbreviation occurrence := (place * access)%type.

Definition variable (a : access) : string := match a with Reads x | Assigns x => x end.

Definition overlook (l : list occurrence) : list occurrence := List.map (fun o => (Overlooked, o.2)) l.
Definition each {A} (f : A -> list occurrence) (l : list A) : list occurrence := concat (List.map f l).
Definition maybe {A} (f : A -> list occurrence) (o : option A) : list occurrence :=
  match o with Some a => f a | None => [] end.

(** The plain variables among the targets of an assignment. *)
Definition target (lhs : Expression) : list string :=
  match lhs with VariableAccess name _ => [name] | _ => [] end.

(** ** The text of a statement *)

(** Bit fields, lists, FVALOF and FVEC, the targets [v!i], LET, FOREACH, the condition of a
    REPEAT, the variable of a FOR, GOTO and string statements are overlooked. *)
Fixpoint accesses_expr (e : Expression) : list occurrence :=
  match e with
  | VariableAccess name _ => [(Visited, Reads name)]
  | BinaryOp _ l r => accesses_expr l ++ accesses_expr r
  | UnaryOp _ a => accesses_expr a
  | VectorAccess v i | CharIndirection v i | FloatVectorIndirection v i => accesses_expr v ++ accesses_expr i
  | BitfieldAccessExpression b s w => overlook (accesses_expr b ++ accesses_expr s ++ accesses_expr w)
  | FunctionCall f args => accesses_expr f ++ each accesses_expr args
  | SysCall _ n args => overlook (accesses_expr n) ++ each accesses_expr args
  | ConditionalExpression c t f => accesses_expr c ++ accesses_expr t ++ accesses_expr f
  | ValofExpression body => accesses_stmt body
  | FloatValofExpression body => overlook (accesses_stmt body)
  | VecAllocationExpression n _ | StringAllocationExpression n => accesses_expr n
  | FVecAllocationExpression n _ => overlook (accesses_expr n)
  | TableExpression l _ => each accesses_expr l
  | ListExpression l _ | VecInitializerExpression l => overlook (each accesses_expr l)
  | NumberLiteral _ | StringLiteral _ | CharLiteral _ | BooleanLiteral _ => []
  end
with accesses_stmt (s : Statement) : list occurrence :=
  match s with
  | AssignmentStatement lhs rhs =>
      each accesses_expr rhs
      ++ each (fun e => match e with VariableAccess _ _ => [] | e => overlook (accesses_expr e) end) lhs
      ++ each (fun e => List.map (fun x => (Visited, Assigns x)) (target e)) lhs
  | LetDeclaration names l _ => overlook (each accesses_expr l ++ List.map (fun x => (Visited, Assigns x)) names)
  | RoutineCallStatement f args => accesses_expr f ++ each accesses_expr args
  | FreeStatement e | ResultisStatement e => accesses_expr e
  | StringStatement e | GotoStatement e => overlook (accesses_expr e)
  | FinishStatement n args => maybe accesses_expr n ++ each accesses_expr args
  | ConditionalBranchStatement _ _ e => maybe accesses_expr e
  | IfStatement c t | UnlessStatement c t => accesses_expr c ++ accesses_stmt t
  | TestStatement c t e => accesses_expr c ++ accesses_stmt t ++ maybe accesses_stmt e
  | WhileStatement c body | UntilStatement c body => accesses_expr c ++ accesses_stmt body
  | RepeatStatement _ body c => accesses_stmt body ++ overlook (maybe accesses_expr c)
  | ForStatement v _ _ _ a b st body =>
      accesses_expr a ++ [(Overlooked, Assigns v); (Overlooked, Reads v)] ++ accesses_expr b
      ++ maybe accesses_expr st ++ accesses_stmt body
  | ForEachStatement v t c body _ _ =>
      overlook (accesses_expr c ++ [(Visited, Assigns v); (Visited, Assigns t)] ++ accesses_stmt body)
  | SwitchonStatement e cases d => accesses_expr e ++ each accesses_case cases ++ maybe accesses_stmt d
  | CaseStatement c => accesses_case c
  | DefaultStatement command => accesses_stmt command
  | CompoundStatement l | BlockStatement _ l => each accesses_stmt l
  | ReturnStatement | BreakStatement | BrkStatement | LoopStatement | EndcaseStatement
  | LabelTargetStatement _ => []
  end
with accesses_case (c : CaseClause) : list occurrence :=
  match c with mkCase e command _ => accesses_expr e ++ accesses_stmt command end.

(** ** What a statement does itself *)

(** What it evaluates, without the statements inside it. *)
Definition evaluated (s : Statement) : list occurrence :=
  match s with
  | AssignmentStatement lhs rhs =>
      each accesses_expr rhs
      ++ each (fun e => match e with VariableAccess _ _ => [] | e => overlook (accesses_expr e) end) lhs
  | LetDeclaration _ l _ => overlook (each accesses_expr l)
  | IfStatement c _ | UnlessStatement c _ | TestStatement c _ _ | WhileStatement c _
  | UntilStatement c _ | SwitchonStatement c _ _ => accesses_expr c
  | RepeatStatement _ _ c => overlook (maybe accesses_expr c)
  | ForStatement v _ _ _ _ b _ _ => (Overlooked, Reads v) :: accesses_expr b
  | ForEachStatement _ _ c _ _ _ => overlook (accesses_expr c)
  | CaseStatement _ | DefaultStatement _ | CompoundStatement _ | BlockStatement _ _ => []
  | s => accesses_stmt s
  end.

(** What it assigns after that. *)
Definition assigned (s : Statement) : list string :=
  match s with
  | AssignmentStatement lhs _ => concat (List.map target lhs)
  | LetDeclaration names _ _ => names
  | ForEachStatement v t _ _ _ _ => [v; t]
  | _ => []
  end.

Definition own (s : Statement) : list access := List.map snd (evaluated s) ++ List.map Assigns (assigned s).

(** ** Uses before definitions *)

(** [x] is read, and not assigned before. *)
Definition reads_first (x : string) (l : list access) : Prop :=
  exists l1 l2, l = l1 ++ Reads x :: l2 /\ Assigns x ∉ l1.

Definition text (s : Statement) : list access := List.map snd (accesses_stmt s).

(** The analysis looks wherever [x] occurs in the statement. *)
Definition noticed (x : string) (s : Statement) : Prop :=
  Forall (fun o => o.1 = Overlooked -> variable o.2 <> x) (accesses_stmt s).

(** Besides, [x] is assigned by the statement itself only, not within a test, a loop or a VALOF. *)
Definition inside (s : Statement) : list occurrence :=
  match s with AssignmentStatement _ _ => evaluated s | s => accesses_stmt s end.
Definition plainly_assigned (x : string) (s : Statement) : Prop :=
  noticed x s /\ Assigns x ∉ List.map snd (inside s).

(** ** Lemmas *)

Lemma reads_first_nil x : ~ reads_first x [].
Proof. intros ([|? ?] & l2 & E & _); discriminate. Qed.

Lemma reads_first_cons x a l :
  (reads_first x (a :: l)) <-> a = Reads x \/ (a <> Assigns x /\ reads_first x l).
Proof.
  split.
  - intros ([|b l1] & l2 & E & H); injection E as -> ->; [by left|].
    apply not_elem_of_cons in H as [H1 H2]. right. split; [done|]. by exists l1, l2.
  - intros [->|[Ha (l1 & l2 & -> & H)]]; [exists [], l; split; [done | apply not_elem_of_nil]|].
    exists (a :: l1), l2. split; [done|]. by apply not_elem_of_cons.
Qed.

Lemma reads_first_app x l l' :
  (reads_first x (l ++ l')) <-> reads_first x l \/ ((Assigns x ∉ l) /\ reads_first x l').
Proof.
  induction l as [|a l IH]; cbn [app].
  - split; [right; split; [apply not_elem_of_nil | done] | intros [H%reads_first_nil|[_ H]]; done].
  - rewrite !reads_first_cons, IH, not_elem_of_cons. destruct (decide (a = Assigns x)) as [->|]; [|naive_solver].
    split; [intros [?|[? _]]; done | intros [[?|[? _]]|[[? _] _]]; done].
Qed.

Lemma reads_first_in x l : reads_first x l -> Reads x ∈ l.
Proof. intros (l1 & l2 & -> & _). apply elem_of_app. right. by left. Qed.

Lemma reads_first_intro x l : Reads x ∈ l -> Assigns x ∉ l -> reads_first x l.
Proof.
  intros (l1 & l2 & ->)%list_elem_of_split H. exists l1, l2. split; [done|]. set_solver.
Qed.

#[export] Instance reads_first_dec x l : Decision (reads_first x l).
Proof.
  induction l as [|a l IH]; [right; apply reads_first_nil|].
  destruct (decide (a = Reads x \/ (a <> Assigns x /\ reads_first x l))) as [H|H].
  - left. by apply reads_first_cons.
  - right. by rewrite reads_first_cons.
Defined.

Lemma overlook_snd l : List.map snd (overlook l) = List.map snd l.
Proof. unfold overlook. by rewrite List.map_map. Qed.

(** What a statement evaluates is part of its text. *)
Lemma evaluated_text s a : a ∈ List.map snd (evaluated s) -> a ∈ text s.
Proof.
  unfold text. destruct s; cbn [evaluated accesses_stmt]; rewrite ?overlook_snd, ?List.map_app;
    intros H; try exact H; try (by apply not_elem_of_nil in H);
    rewrite ?overlook_snd, ?List.map_app in *; cbn [List.map snd] in *; set_solver.
Qed.
