(* ===== verification/Liveness.v ===== *)
(** * Liveness

    [LivenessAnalysisPass] (src/LivenessAnalysisPass.cpp, src/live_*.cpp): which variables a
    block uses before it defines them, which it defines, and which are live where it begins
    and ends.  The graphs are those of [Cfg].  The order in which an unordered map lists
    graphs and blocks is a parameter, [listing].  [m\[block\]] makes an empty set for a block
    that has none, which no method tells from having none. *)

From S2P Require Import Prelude State Ast Words Analysis Cfg.
Local Open Scope Z_scope.

(** ** Visitors *)

(** [current_use_set_] and [current_def_set_] *)
Definition sets : Type := gset string * gset string.

Definition use (name : string) (us : sets) : sets :=
  if decide (name ∈ us.2) then us else ({[name]} ∪ us.1, us.2).
Definition define (name : string) (us : sets) : sets := (us.1, {[name]} ∪ us.2).

Definition live_each {A} (f : A -> sets -> sets) : list A -> sets -> sets :=
  fix go l us := match l with [] => us | a :: l => go l (f a us) end.
Definition live_option {A} (f : A -> sets -> sets) (o : option A) (us : sets) : sets :=
  match o with Some a => f a us | None => us end.

Definition define_target (lhs : Expression) : sets -> sets :=
  match lhs with VariableAccess name _ => define name | _ => fun us => us end.

Fixpoint live_expr (e : Expression) (us : sets) : sets :=
  match e with
  | VariableAccess name _ => use name us
  | BinaryOp _ l r => live_expr r (live_expr l us)
  | UnaryOp _ a => live_expr a us
  | FunctionCall f args => live_each live_expr args (live_expr f us)
  | VectorAccess v i | CharIndirection v i | FloatVectorIndirection v i => live_expr i (live_expr v us)
  | ConditionalExpression c t f => live_expr f (live_expr t (live_expr c us))
  | ValofExpression body => live_stmt body us
  | SysCall _ _ args => live_each live_expr args us
  | VecAllocationExpression size _ | StringAllocationExpression size => live_expr size us
  | TableExpression l _ => live_each live_expr l us
  | NumberLiteral _ | StringLiteral _ | CharLiteral _ | BooleanLiteral _
  | BitfieldAccessExpression _ _ _ | ListExpression _ _ | VecInitializerExpression _
  | FloatValofExpression _ | FVecAllocationExpression _ _ => us
  end
with live_stmt (s : Statement) (us : sets) : sets :=
  match s with
  | AssignmentStatement lhs rhs => live_each define_target lhs (live_each live_expr rhs us)
  | RoutineCallStatement f args => live_each live_expr args (live_expr f us)
  | IfStatement c t | UnlessStatement c t => live_stmt t (live_expr c us)
  | TestStatement c t e => live_option live_stmt e (live_stmt t (live_expr c us))
  | WhileStatement c body | UntilStatement c body => live_stmt body (live_expr c us)
  | RepeatStatement _ body _ => live_stmt body us
  | ForStatement _ _ _ _ a b st body =>
      live_stmt body (live_option live_expr st (live_expr b (live_expr a us)))
  | SwitchonStatement e cases d => live_option live_stmt d (live_each live_case cases (live_expr e us))
  | CaseStatement c => live_case c us
  | DefaultStatement command => live_stmt command us
  | FinishStatement n args => live_each live_expr args (live_option live_expr n us)
  | FreeStatement e => live_expr e us
  | CompoundStatement l | BlockStatement _ l => live_each live_stmt l us
  | ResultisStatement e => live_expr e us
  | ConditionalBranchStatement _ _ e => live_option live_expr e us
  | LetDeclaration _ _ _ | ForEachStatement _ _ _ _ _ _ | GotoStatement _ | ReturnStatement
  | BreakStatement | BrkStatement | LoopStatement | EndcaseStatement | StringStatement _
  | LabelTargetStatement _ => us
  end
with live_case (c : CaseClause) (us : sets) : sets :=
  match c with mkCase e command _ => live_stmt command (live_expr e us) end.

(** ** The pass *)

Record liveness : Type := mkLiveness {
  use_sets : gmap nat (gset string);
  def_sets : gmap nat (gset string);
  in_sets : gmap nat (gset string);
  out_sets : gmap nat (gset string)
}.

Definition LivenessAnalysisPass_new : liveness := mkLiveness ∅ ∅ ∅ ∅.

Definition set_uses (p : nat) (us : sets) (s : liveness) : liveness :=
  mkLiveness (<[p := us.1]> (use_sets s)) (<[p := us.2]> (def_sets s)) (in_sets s) (out_sets s).
Definition set_in (p : nat) (x : gset string) (s : liveness) : liveness :=
  mkLiveness (use_sets s) (def_sets s) (<[p := x]> (in_sets s)) (out_sets s).
Definition set_out (p : nat) (x : gset string) (s : liveness) : liveness :=
  mkLiveness (use_sets s) (def_sets s) (in_sets s) (<[p := x]> (out_sets s)).

Definition set_of (m : gmap nat (gset string)) (p : nat) : gset string := default ∅ (m !! p).
Definition get_in_set (s : liveness) (p : nat) : gset string := set_of (in_sets s) p.
Definition get_out_set (s : liveness) (p : nat) : gset string := set_of (out_sets s) p.

Section pass.
Context (heap : gmap nat Block) (listing : list (string * list nat)).

Definition analyze_block (p : nat) : ST liveness unit :=
  b ← st_deref (heap !! p);
  st_modify (set_uses p (live_each live_stmt (statements b) (∅, ∅))).

Definition compute_use_def_sets : ST liveness unit :=
  st_each (fun f => st_each analyze_block f.2) listing.

(** The sets of one block; whether [in] has changed. *)
Definition update_block (p : nat) : ST liveness bool :=
  b ← st_deref (heap !! p);
  ins ← st_get in_sets;
  let new_out_set := foldl (fun out q => out ∪ set_of ins q) ∅ (successors b) in
  st_modify (set_out p new_out_set);;
  uses ← st_get use_sets;
  defs ← st_get def_sets;
  let new_in_set := set_of uses p ∪ (new_out_set ∖ set_of defs p) in
  if decide (set_of ins p = new_in_set) then mret false
  else st_modify (set_in p new_in_set);; mret true.

Definition st_any {A} (f : A -> ST liveness bool) : list A -> ST liveness bool :=
  fix go l := match l with [] => mret false | a :: l => c ← f a; r ← go l; mret (c || r) end.

(** One round of the loop: whether [changed] is set. *)
Definition round : ST liveness bool := st_any (fun f => st_any update_block f.2) listing.

(** [while (changed)], at most [fuel] times: whether the loop has ended. *)
Fixpoint run_data_flow_analysis (fuel : nat) : ST liveness bool :=
  match fuel with
  | O => mret false
  | S fuel => changed ← round; if (changed : bool) then run_data_flow_analysis fuel else mret true
  end.

Definition run (fuel : nat) : ST liveness bool := compute_use_def_sets;; run_data_flow_analysis fuel.

(** *** Register pressure *)

Definition set_size (x : gset string) : Z := Z.of_nat (size x).

Definition block_pressure (s : liveness) (p : nat) : Z :=
  s32 (Z.max (set_size (get_in_set s p)) (set_size (get_out_set s p))).

Definition function_pressure (s : liveness) (blocks : list nat) : Z :=
  foldl (fun max_pressure p =>
    let current_max := block_pressure s p in
    if max_pressure <? current_max then current_max else max_pressure) 0 blocks.

Definition calculate_register_pressure (s : liveness) : gmap string Z :=
  foldl (fun pressure_map f => <[f.1 := function_pressure s f.2]> pressure_map) ∅ listing.
End pass.

(** What main does with the result: the metrics of functions that have some. *)
Definition update_pressure (pressure_results : gmap string Z) (metrics : gmap string FunctionMetrics)
    : gmap string FunctionMetrics :=
  map_imap (fun name m => Some (match pressure_results !! name with
                                | Some n => set_max_live n m
                                | None => m
                                end)) metrics.
