(* ===== verification/LivenessProof.v ===== *)
(** * Live variables are those used before they are defined

    [exposed x t]: the statements [t] use [x] before they define it.  A variable is live at a
    point when the statements of some path from it expose the variable.  The pass computes
    these sets, for every order in which it visits the blocks, and stops. *)

From S2P Require Import Prelude State Ast Words Analysis Cfg CfgSpec Liveness Accesses.

Set Warnings "-clear-no-such-hyp".

(** ** Visitors *)

(** A visitor adds the uses that are not defined yet, and the definitions. *)
Definition accumulates (f : sets -> sets) : Prop :=
  forall us, f us = (us.1 ∪ ((f (∅, ∅)).1 ∖ us.2), us.2 ∪ (f (∅, ∅)).2).

Lemma accumulates_id : accumulates (fun us => us).
Proof. intros [u d]. cbn. f_equal; set_solver. Qed.

Lemma accumulates_then f g : accumulates f -> accumulates g -> accumulates (fun us => g (f us)).
Proof.
  intros Hf Hg [u d]. rewrite (Hf (u, d)), (Hg (_, _)), (Hg (f (∅, ∅))). cbn.
  destruct (f (∅, ∅)) as [uf df], (g (∅, ∅)) as [ug dg]. cbn. f_equal; [|set_solver].
  apply set_eq. intros x. destruct (decide (x ∈ df)), (decide (x ∈ d)); set_solver.
Qed.

Lemma accumulates_use name : accumulates (use name).
Proof.
  intros [u d]. unfold use. cbn. rewrite (decide_False (P := name ∈ ∅)) by set_solver. cbn.
  case_decide; f_equal; set_solver.
Qed.

Lemma accumulates_define name : accumulates (define name).
Proof. intros [u d]. unfold define. cbn. f_equal; set_solver. Qed.

(** The accesses the pass sees, and what it does with one. *)
Definition seen (l : list occurrence) : list access := List.map snd (filter (fun o => o.1 = Visited) l).
Definition note (us : sets) (a : access) : sets :=
  match a with Reads x => use x us | Assigns x => define x us end.
Definition noted (l : list access) (us : sets) : sets := foldl note us l.

Lemma seen_app l l' : seen (l ++ l') = seen l ++ seen l'.
Proof. unfold seen. by rewrite list.filter_app, List.map_app. Qed.
Lemma seen_overlook l : seen (overlook l) = [].
Proof. unfold seen, overlook. induction l as [|o l IH]; [done|]. cbn [List.map]. by rewrite list.filter_cons_False. Qed.
Lemma seen_reads x : seen [(Visited, Reads x)] = [Reads x].
Proof. reflexivity. Qed.
Lemma noted_app l l' us : noted (l ++ l') us = noted l' (noted l us).
Proof. apply foldl_app. Qed.
Lemma noted_accumulates l : accumulates (noted l).
Proof.
  induction l as [|a l IH]; [apply accumulates_id|].
  apply (accumulates_then (fun us => note us a) (noted l)); [|done].
  destruct a; [apply accumulates_use | apply accumulates_define].
Qed.

Definition notes {A} (f : A -> sets -> sets) (g : A -> list occurrence) (a : A) : Prop :=
  forall us, f a us = noted (seen (g a)) us.

Lemma notes_each {A} (f : A -> sets -> sets) g l us : list_all A (notes f g) l ->
  live_each f l us = noted (seen (each g l)) us.
Proof.
  intros H. revert us. induction H as [|a Ha l _ IH]; intros us; [done|]. cbn [live_each].
  unfold each in *. cbn [List.map concat]. by rewrite seen_app, noted_app, IH, (Ha us).
Qed.

Lemma notes_maybe {A} (f : A -> sets -> sets) g o us : option_all A (notes f g) o ->
  live_option f o us = noted (seen (maybe g o)) us.
Proof. intros H. destruct o as [a|]; [|done]. inversion H; subst. cbn. auto. Qed.

Lemma notes_targets lhs us :
  live_each define_target lhs us
  = noted (seen (each (fun e => List.map (fun x => (Visited, Assigns x)) (target e)) lhs)) us.
Proof.
  apply notes_each. induction lhs as [|e l IH]; constructor; [|done]. by destruct e.
Qed.

Lemma seen_subscripts lhs :
  seen (each (fun e => match e with VariableAccess _ _ => [] | e => overlook (accesses_expr e) end) lhs) = [].
Proof.
  induction lhs as [|e l IH]; [done|]. unfold each in *. cbn [List.map concat]. rewrite seen_app, IH, app_nil_r.
  destruct e; first [done | apply seen_overlook].
Qed.

Ltac see := rewrite ?seen_app, ?seen_overlook, ?seen_subscripts, ?seen_reads, ?app_nil_l, ?app_nil_r, ?noted_app, ?notes_targets.

(** The visitors read the accesses from left to right. *)
Lemma visitors_note : (forall e, notes live_expr accesses_expr e) /\ (forall s, notes live_stmt accesses_stmt s)
  /\ (forall c, notes live_case accesses_case c).
Proof.
  apply (ast_mutind _ _ _ (fun _ => True)); try (intros; exact Logic.I); unfold notes;
    intros; cbn [live_expr live_stmt live_case accesses_expr accesses_stmt accesses_case];
    see; try reflexivity;
    repeat first [ erewrite notes_each by eassumption | erewrite notes_maybe by eassumption
                 | match goal with H : forall us, _ = _ |- _ => rewrite H end ];
    try reflexivity.
Qed.

Lemma visitors_accumulate s : accumulates (live_stmt s).
Proof. intros us. rewrite !(proj1 (proj2 visitors_note)). apply noted_accumulates. Qed.

(** What a statement uses before it defines it, and what it defines. *)
Definition uses (s : Statement) : gset string := (live_stmt s (∅, ∅)).1.
Definition defs (s : Statement) : gset string := (live_stmt s (∅, ∅)).2.

Lemma live_stmt_sets s us : live_stmt s us = (us.1 ∪ (uses s ∖ us.2), us.2 ∪ defs s).
Proof. exact (visitors_accumulate s us). Qed.

Lemma noted_sets l us x :
  (x ∈ (noted l us).1 <-> x ∈ us.1 \/ ((x ∉ us.2) /\ reads_first x l))
  /\ (x ∈ (noted l us).2 <-> x ∈ us.2 \/ Assigns x ∈ l).
Proof.
  revert us. induction l as [|a l IH]; intros us.
  - cbn. split; [|by rewrite elem_of_nil; tauto]. pose proof (reads_first_nil x). tauto.
  - change (noted (a :: l) us) with (noted l (note us a)). destruct (IH (note us a)) as [-> ->].
    rewrite reads_first_cons, elem_of_cons. destruct a as [y|y]; cbn [note].
    + unfold use. destruct (decide (y ∈ us.2)); cbn; destruct (decide (x = y)) as [->|]; set_solver.
    + unfold define. cbn. destruct (decide (x = y)) as [->|]; set_solver.
Qed.

Lemma uses_seen s x : (x ∈ uses s) <-> reads_first x (seen (accesses_stmt s)).
Proof.
  unfold uses. rewrite (proj1 (proj2 visitors_note)), (proj1 (noted_sets _ _ x)). set_solver.
Qed.

Lemma defs_seen s x : (x ∈ defs s) <-> Assigns x ∈ seen (accesses_stmt s).
Proof.
  unfold defs. rewrite (proj1 (proj2 visitors_note)), (proj2 (noted_sets _ _ x)). set_solver.
Qed.

(** Where the pass looks at all occurrences of a variable, it sees the accesses of the text. *)
Lemma noticed_seen x l : Forall (fun o => o.1 = Overlooked -> variable o.2 <> x) l ->
  (reads_first x (seen l) <-> reads_first x (List.map snd l))
  /\ (Assigns x ∈ seen l <-> Assigns x ∈ List.map snd l).
Proof.
  induction 1 as [|[[|] a] l Ha _ [IH1 IH2]]; [done| |].
  - change (seen ((Visited, a) :: l)) with (a :: seen l). cbn [List.map snd].
    by rewrite !reads_first_cons, !elem_of_cons, IH1, IH2.
  - change (seen ((Overlooked, a) :: l)) with (seen l). cbn [List.map snd].
    specialize (Ha eq_refl). cbn in Ha. rewrite reads_first_cons, elem_of_cons, IH1, IH2.
    destruct a; cbn in Ha; naive_solver.
Qed.

Lemma uses_text s x : noticed x s -> (x ∈ uses s <-> reads_first x (text s)).
Proof. intros H. rewrite uses_seen. by apply noticed_seen. Qed.
Lemma defs_text s x : noticed x s -> (x ∈ defs s <-> Assigns x ∈ text s).
Proof. intros H. rewrite defs_seen. by apply noticed_seen. Qed.

Fixpoint exposed (x : string) (t : list Statement) : Prop :=
  match t with
  | [] => False
  | s :: t => x ∈ uses s \/ ((x ∉ defs s) /\ exposed x t)
  end.
Definition defined (x : string) (t : list Statement) : Prop := exists s, s ∈ t /\ x ∈ defs s.

Lemma exposed_text x t : Forall (noticed x) t -> (exposed x t <-> reads_first x (concat (List.map text t))).
Proof.
  induction 1 as [|s t Hs _ IH]; cbn [exposed List.map concat].
  - pose proof (reads_first_nil x). tauto.
  - by rewrite reads_first_app, uses_text, defs_text, IH.
Qed.

(** A variable that only assignments of their own assign: what a statement does itself is
    part of its text, and nothing else in the text assigns the variable. *)
Lemma own_text x s : plainly_assigned x s ->
  (Reads x ∈ List.map snd (evaluated s) -> reads_first x (text s))
  /\ (Assigns x ∈ text s -> x ∈ assigned s) /\ Assigns x ∉ List.map snd (evaluated s).
Proof.
  intros [_ Hi].
  assert (H : (exists lhs rhs, s = AssignmentStatement lhs rhs) \/ inside s = accesses_stmt s)
    by (destruct s; eauto).
  destruct H as [(lhs & rhs & ->)|E].
  - assert (T : text (AssignmentStatement lhs rhs)
      = List.map snd (inside (AssignmentStatement lhs rhs)) ++ List.map Assigns (concat (List.map target lhs))).
    { unfold text. cbn [accesses_stmt inside evaluated]. rewrite !app_assoc, !(List.map_app snd). f_equal.
      unfold each. rewrite concat_map, List.map_map, concat_map, List.map_map. f_equal. apply List.map_ext.
      intros e. by rewrite List.map_map. }
    rewrite T, reads_first_app, elem_of_app. cbn [assigned]. split_and!.
    + intros H. left. by apply reads_first_intro.
    + intros [H|(y & [= <-] & H)%list_elem_of_fmap]; done.
    + exact Hi.
  - rewrite E in Hi. fold (text s) in Hi. split_and!.
    + intros H%evaluated_text. by apply reads_first_intro.
    + done.
    + by intros H%evaluated_text.
Qed.

Lemma own_exposed x t : Forall (plainly_assigned x) t -> reads_first x (concat (List.map own t)) -> exposed x t.
Proof.
  induction 1 as [|s t Hs _ IH]; cbn [exposed List.map concat]; [by intros ?%reads_first_nil|].
  destruct (own_text x s Hs) as (Hr & Ha & Hno). destruct Hs as [Hn _].
  rewrite uses_text, defs_text by done. unfold own. rewrite !reads_first_app, not_elem_of_app.
  intros [[H|[_ H]]|[[_ H1] H2]].
  - left. by apply Hr, reads_first_in.
  - exfalso. apply reads_first_in, list_elem_of_fmap in H as (y & [=] & _).
  - right. split; [|by apply IH]. intros H. apply H1, list_elem_of_fmap. exists x. auto.
Qed.

Lemma block_sets l us x :
  (x ∈ (live_each live_stmt l us).1 <-> x ∈ us.1 \/ ((x ∉ us.2) /\ exposed x l))
  /\ (x ∈ (live_each live_stmt l us).2 <-> x ∈ us.2 \/ defined x l).
Proof.
  revert us. induction l as [|s l IH]; intros us.
  - cbn. split; [tauto|]. split; [by left|]. intros [H|(s & H & _)]; [done | by apply not_elem_of_nil in H].
  - cbn [live_each]. specialize (IH (live_stmt s us)) as [IH1 IH2]. rewrite live_stmt_sets in *. cbn [fst snd] in *.
    split.
    + etransitivity; [exact IH1|]. cbn. rewrite elem_of_union, elem_of_difference, not_elem_of_union.
      destruct (decide (x ∈ us.2)), (decide (x ∈ defs s)); tauto.
    + etransitivity; [exact IH2|]. rewrite elem_of_union. unfold defined. split.
      * intros [[H|H]|(s' & H & H')]; [by left | right; exists s; split; [by left | done] |].
        right. exists s'. split; [by right | done].
      * intros [H|(s' & [-> | H]%elem_of_cons & H')]; [by left; left | by left; right |]. right. by exists s'.
Qed.

(** ** Data flow *)

Definition blocks_of (listing : list (string * list nat)) : list nat := concat (List.map snd listing).

Lemma each_flat {S A} (f : A -> ST S unit) (l : list (string * list A)) s :
  st_each (fun x => st_each f x.2) l s = st_each f (concat (List.map snd l)) s.
Proof.
  revert s. induction l as [|[n x] l IH]; intros s; [done|]. cbn [List.map concat snd].
  rewrite st_each_app, st_each_cons. unfold mbind, ST_bind. cbn [snd].
  destruct (st_each f x s) as [s' [[]|e|]]; [apply IH | done | done].
Qed.

Lemma any_app {A} (f : A -> ST liveness bool) l l' s :
  st_any f (l ++ l') s = (c ← st_any f l; r ← st_any f l'; mret (c || r)) s.
Proof.
  revert s. induction l as [|a l IH]; intros s.
  - cbn. unfold mbind, ST_bind, mret, ST_ret. by destruct (st_any f l' s) as [s' [c|e|]].
  - cbn [app st_any]. unfold mbind, ST_bind, mret, ST_ret in *. destruct (f a s) as [s1 [c|e|]]; try done.
    rewrite IH. destruct (st_any f l s1) as [s2 [c2|e|]]; try done.
    destruct (st_any f l' s2) as [s3 [c3|e|]]; try done. by rewrite orb_assoc.
Qed.

Lemma any_flat {A} (f : A -> ST liveness bool) (l : list (string * list A)) s :
  st_any (fun x => st_any f x.2) l s = st_any f (concat (List.map snd l)) s.
Proof.
  revert s. induction l as [|[n x] l IH]; intros s; [done|]. cbn [List.map concat snd].
  rewrite any_app. cbn [st_any snd]. unfold mbind, ST_bind, mret, ST_ret.
  destruct (st_any f x s) as [s' [c|e|]]; [by rewrite IH | done | done].
Qed.

Lemma elem_of_out_set x (ins : gmap nat (gset string)) l :
  x ∈ foldl (fun out q => out ∪ set_of ins q) ∅ l <-> exists q, q ∈ l /\ x ∈ set_of ins q.
Proof.
  assert (H : forall acc, x ∈ foldl (fun out q => out ∪ set_of ins q) acc l <->
    x ∈ acc \/ exists q, q ∈ l /\ x ∈ set_of ins q).
  { induction l as [|q l IH]; intros acc; cbn [foldl].
    - split; [by left|]. intros [H|(q & H & _)]; [done | by apply not_elem_of_nil in H].
    - rewrite IH, elem_of_union. split.
      + intros [[H|H]|(r & H & H')]; [by left | right; exists q; split; [by left | done] |].
        right. exists r. split; [by right | done].
      + intros [H|(r & [-> | H]%elem_of_cons & H')]; [by left; left | by left; right |]. right. by exists r. }
  rewrite H. set_solver.
Qed.

Lemma set_of_insert m p x q : set_of (<[p := x]> m) q = if decide (q = p) then x else set_of m q.
Proof.
  unfold set_of. case_decide as H; [subst; by rewrite lookup_insert_eq | by rewrite lookup_insert_ne].
Qed.

Section dataflow.
Context (h : gmap nat Block) (all : list nat) (alive : forall p, p ∈ all -> is_Some (h !! p)).

(** The right-hand sides of the two equations of a block. *)
Definition out_of (s : liveness) (b : Block) : gset string :=
  foldl (fun out q => out ∪ set_of (in_sets s) q) ∅ (successors b).
Definition in_of (s : liveness) (p : nat) (b : Block) : gset string :=
  set_of (use_sets s) p ∪ (out_of s b ∖ set_of (def_sets s) p).

(** A solution from above. *)
Definition closed_under (s : liveness) (L : nat -> string -> Prop) : Prop := forall p b x, p ∈ all -> h !! p = Some b ->
  x ∈ set_of (use_sets s) p \/ ((x ∉ set_of (def_sets s) p) /\ exists q, q ∈ successors b /\ L q x) -> L p x.
Definition within (s : liveness) (L : nat -> string -> Prop) : Prop := forall p x, x ∈ get_in_set s p -> L p x.

Record growing (s0 s : liveness) : Prop := {
  growing_uses : use_sets s = use_sets s0;
  growing_defs : def_sets s = def_sets s0;
  growing_in p b : p ∈ all -> h !! p = Some b -> get_in_set s p ⊆ in_of s p b;
  growing_within L : closed_under s0 L -> within s0 L -> within s L
}.

Definition stable (s : liveness) (p : nat) : Prop := forall b, h !! p = Some b ->
  get_in_set s p = in_of s p b /\ get_out_set s p = out_of s b.

(** All variables, and how many may still be added. *)
Definition variables (s : liveness) : gset string := foldr (fun p v => set_of (use_sets s) p ∪ v) ∅ all.
Definition missing (v : gset string) (s : liveness) : nat :=
  sum_list (List.map (fun p => size v - size (get_in_set s p)) all).

Lemma variables_closed s : closed_under s (fun _ x => x ∈ variables s).
Proof.
  clear alive. intros p b x Hp _ [Hx|(_ & q & _ & Hx)]; [|done]. unfold variables.
  induction all as [|q l IH]; [by apply not_elem_of_nil in Hp|]. cbn. rewrite elem_of_union.
  apply elem_of_cons in Hp as [-> | Hp]; [by left | right; by apply IH].
Qed.

Lemma in_of_mono s s' p b : use_sets s' = use_sets s -> def_sets s' = def_sets s ->
  (forall q, get_in_set s q ⊆ get_in_set s' q) -> in_of s p b ⊆ in_of s' p b.
Proof.
  intros Hu Hd Hin x. unfold in_of. rewrite Hu, Hd, !elem_of_union, !elem_of_difference.
  unfold out_of. rewrite !elem_of_out_set. intros [Hx|[(q & Hq & Hx) Hn]]; [by left|].
  right. split; [exists q; split; [done | by apply Hin] | done].
Qed.

Lemma sum_list_le (f g : nat -> nat) l : (forall p, p ∈ l -> f p <= g p) ->
  sum_list (List.map f l) <= sum_list (List.map g l).
Proof.
  induction l as [|p l IH]; intros H; [done|]. cbn. pose proof (H p (list_elem_of_here _ _)).
  assert (sum_list (List.map f l) <= sum_list (List.map g l)) by (apply IH; intros q Hq; apply H; by right). lia.
Qed.

Lemma sum_list_lt (f g : nat -> nat) l p : p ∈ l -> (forall q, q ∈ l -> f q <= g q) -> f p < g p ->
  sum_list (List.map f l) < sum_list (List.map g l).
Proof.
  induction l as [|q l IH]; intros Hp H Hlt; [by apply not_elem_of_nil in Hp|]. cbn.
  assert (Hl : forall r, r ∈ l -> f r <= g r) by (intros r Hr; apply H; by right).
  pose proof (H q (list_elem_of_here _ _)). pose proof (sum_list_le f g l Hl).
  apply elem_of_cons in Hp as [-> | Hp]; [lia|]. specialize (IH Hp Hl Hlt). lia.
Qed.

Section steps.
Context (s0 : liveness) (none : in_sets s0 = ∅).
Let v := variables s0.

Lemma growing_bound s : growing s0 s -> forall p, get_in_set s p ⊆ v.
Proof.
  intros G p x. apply (growing_within _ _ G (fun _ x => x ∈ v)); [apply variables_closed|].
  intros q y. unfold get_in_set, set_of. by rewrite none, lookup_empty.
Qed.

(** What the update of blocks leaves. *)
Record updated (l : list nat) (s : liveness) (changed : bool) (s' : liveness) : Prop := {
  updated_growing : growing s0 s';
  updated_less : missing v s' <= missing v s;
  updated_changed : changed = true -> missing v s' < missing v s;
  updated_same : changed = false -> in_sets s' = in_sets s;
  updated_stable : changed = false -> forall p, p ∈ l \/ stable s p -> stable s' p
}.

Lemma update_block_ends s p : p ∈ all -> growing s0 s ->
  ends (update_block h p) (fun c s' => updated [p] s c s') s.
Proof.
  intros Hp G. destruct (alive p Hp) as [b Hb]. apply ends_bind, (ends_deref _ b); [done|].
  apply ends_bind, ends_get, ends_bind, ends_modify, ends_bind, ends_get, ends_bind, ends_get.
  change (foldl (fun out q => out ∪ set_of (in_sets s) q) ∅ (successors b)) with (out_of s b).
  set (s1 := set_out p (out_of s b) s). change (use_sets s1) with (use_sets s).
  change (def_sets s1) with (def_sets s). cbv zeta. fold (in_of s p b).
  assert (G1 : growing s0 s1) by (split; apply G).
  assert (Out : forall q, get_out_set s1 q = if decide (q = p) then out_of s b else get_out_set s q).
  { intros q. apply set_of_insert. }
  case_decide as Heq.
  - apply ends_ret. split; [done | done | done | done |]. intros _ q Hq c Hc. rewrite Out.
    case_decide as Hqp; [subst q|].
    + rewrite Hb in Hc. injection Hc as <-. by split.
    + destruct Hq as [Hq%list_elem_of_singleton|Hq]; [done|]. by apply Hq.
  - apply ends_bind, ends_modify, ends_ret. set (s2 := set_in p (in_of s p b) s1).
    assert (In : forall q, get_in_set s2 q = if decide (q = p) then in_of s p b else get_in_set s q).
    { intros q. apply set_of_insert. }
    assert (Up : forall q, get_in_set s q ⊆ get_in_set s2 q).
    { intros q. rewrite In. case_decide; [subst; by apply G | done]. }
    assert (G2 : growing s0 s2).
    { split; [apply G | apply G | |].
      - intros q c Hq Hc. etransitivity; [|by apply (in_of_mono s)]. rewrite In.
        case_decide; [subst; rewrite Hb in Hc; by injection Hc as <- | by apply G].
      - intros L HL H0 q x. rewrite In. case_decide; [subst q|by apply G].
        unfold in_of, out_of. rewrite elem_of_union, elem_of_difference, elem_of_out_set.
        rewrite (growing_uses _ _ G), (growing_defs _ _ G). intros Hx. apply (HL p b x Hp Hb).
        destruct Hx as [Hx|[(r & Hr & Hx) Hn]]; [by left|]. right. split; [done|]. exists r. split; [done|].
        by apply (growing_within _ _ G L HL H0). }
    assert (Hlt : missing v s2 < missing v s).
    { apply (sum_list_lt _ _ all p); [done | intros q _; pose proof (subseteq_size _ _ (Up q)); lia|].
      assert (size (get_in_set s p) < size (get_in_set s2 p)).
      { apply subset_size. split; [apply Up|]. rewrite In, decide_True by done. intros Hsub. apply Heq.
        apply (anti_symm (⊆)); [by apply G | done]. }
      pose proof (subseteq_size _ _ (growing_bound s2 G2 p)). lia. }
    split; [done | lia | done | done | done].
Qed.

Lemma st_any_ends l s : (forall p, p ∈ l -> p ∈ all) -> growing s0 s ->
  ends (st_any (update_block h) l) (fun c s' => updated l s c s') s.
Proof.
  revert s. induction l as [|p l IH]; intros s Hl G.
  - apply ends_ret. split; try done. intros _ p [Hp%not_elem_of_nil|Hp]; done.
  - apply ends_bind. eapply ends_mono; [apply update_block_ends; [apply Hl; by left | done]|].
    intros c1 s1 U1. apply ends_bind.
    eapply ends_mono; [apply IH; [intros q Hq; apply Hl; by right | apply U1]|].
    intros c2 s2 U2. apply ends_ret. destruct U1 as [G1 L1 C1 S1 T1], U2 as [G2 L2 C2 S2 T2].
    split; [done | lia | | |].
    + destruct c1, c2; cbn; intros H; try done; specialize (C1 eq_refl) || specialize (C2 eq_refl);
        try specialize (C2 eq_refl); lia.
    + intros [-> ->]%orb_false_iff. by rewrite S2, S1.
    + intros [-> ->]%orb_false_iff q Hq. apply T2; [done|]. destruct Hq as [[-> | Hq]%elem_of_cons|Hq].
      * right. apply T1; [done|]. left. by apply list_elem_of_singleton.
      * by left.
      * right. apply T1; [done | by right].
Qed.

Lemma missing_bound s : missing v s <= length all * size v.
Proof. unfold missing. generalize (size v). intros n. clear. induction all as [|p l IH]; cbn; lia. Qed.

Lemma data_flow_ends listing fuel s : blocks_of listing = all -> growing s0 s -> missing v s < fuel ->
  ends (run_data_flow_analysis h listing fuel)
    (fun finished s' => finished = true /\ growing s0 s' /\ forall p, p ∈ all -> stable s' p) s.
Proof.
  intros Hall. revert s. induction fuel as [|fuel IH]; intros s G Hm; [lia|]. cbn [run_data_flow_analysis].
  apply ends_bind.
  assert (R : ends (round h listing) (fun c s' => updated all s c s') s).
  { unfold ends, round. rewrite any_flat. fold (blocks_of listing). rewrite Hall. by apply st_any_ends. }
  eapply ends_mono; [exact R|]. intros [|] s1 U.
  - apply IH; [apply U|]. pose proof (updated_changed _ _ _ _ U eq_refl). lia.
  - apply ends_ret. split_and!; [done | apply U|]. intros p Hp. apply (updated_stable _ _ _ _ U); [done | by left].
Qed.
End steps.

(** *** Use and definition sets *)

Definition block_uses (b : Block) : gset string := (live_each live_stmt (Cfg.statements b) (∅, ∅)).1.
Definition block_defs (b : Block) : gset string := (live_each live_stmt (Cfg.statements b) (∅, ∅)).2.

Definition used_variables : gset string :=
  foldr (fun p v => match h !! p with Some b => block_uses b ∪ v | None => v end) ∅ all.

Definition computed (l : list nat) (s : liveness) : Prop := forall p b, p ∈ l -> h !! p = Some b ->
  set_of (use_sets s) p = block_uses b /\ set_of (def_sets s) p = block_defs b.

Lemma analyze_blocks_ends l done s : (forall p, p ∈ l -> p ∈ all) -> in_sets s = ∅ -> computed done s ->
  ends (st_each (analyze_block h) l) (fun _ s' => in_sets s' = ∅ /\ computed (l ++ done) s') s.
Proof.
  revert done s. induction l as [|p l IH]; intros dn s Hl Hi Hd; [by split|]. rewrite st_each_cons.
  destruct (alive p (Hl p (list_elem_of_here _ _))) as [b Hb].
  apply ends_bind, ends_bind, (ends_deref _ b); [done|]. apply ends_modify.
  eapply ends_mono; [apply (IH (p :: dn)); [intros q Hq; apply Hl; by right | done |]|].
  - intros q c Hq Hc. cbn. rewrite !set_of_insert. case_decide; [subst q|].
    + rewrite Hb in Hc. by injection Hc as <-.
    + apply elem_of_cons in Hq as [Hq|Hq]; [done|]. by apply Hd.
  - intros [] s' [H1 H2]. split; [done|]. intros q c Hq. apply H2. set_solver.
Qed.

Lemma compute_ends listing : blocks_of listing = all ->
  ends (compute_use_def_sets h listing) (fun _ s => in_sets s = ∅ /\ computed all s) LivenessAnalysisPass_new.
Proof.
  intros Hall. unfold ends, compute_use_def_sets. rewrite each_flat. fold (blocks_of listing). rewrite Hall.
  pose proof (analyze_blocks_ends all [] LivenessAnalysisPass_new) as H. rewrite app_nil_r in H.
  apply H; [done | done |]. by intros p b ?%not_elem_of_nil.
Qed.

Lemma computed_variables s : computed all s -> variables s = used_variables.
Proof.
  clear -alive. unfold variables, used_variables. intros Hc. induction all as [|p l IH]; [done|]. cbn.
  destruct (alive p (list_elem_of_here _ _)) as [b Hb]. rewrite Hb, (proj1 (Hc p b (list_elem_of_here _ _) Hb)).
  rewrite IH; [done | |]; intros q; intros; [apply alive | apply Hc]; try by right. done.
Qed.

Lemma run_ends listing fuel : blocks_of listing = all -> length all * size used_variables < fuel ->
  ends (run h listing fuel) (fun finished s => finished = true /\ computed all s
    /\ exists s0, computed all s0 /\ growing s0 s /\ within s0 (fun _ _ => False) /\ forall p, p ∈ all -> stable s p)
    LivenessAnalysisPass_new.
Proof.
  intros Hall Hf. apply ends_bind. eapply ends_mono; [by apply compute_ends|]. intros [] s0 [Hi Hc].
  assert (W : forall L, within s0 L).
  { intros L p x. unfold get_in_set, set_of. by rewrite Hi, lookup_empty. }
  assert (G : growing s0 s0).
  { split; [done | done | | done]. intros p b _ _ x Hx. by destruct (W (fun _ _ => False) p x Hx). }
  eapply ends_mono; [apply (data_flow_ends s0 Hi); [done | done |]|].
  - pose proof (missing_bound s0 s0). rewrite computed_variables in * by done. lia.
  - intros c s (-> & G' & St). split_and!; [done | | exists s0; by split_and!].
    intros p b Hp Hb. rewrite (growing_uses _ _ G'), (growing_defs _ _ G'). by apply Hc.
Qed.
End dataflow.

(** ** Live variables *)

Definition live_at (h : gmap nat Block) (p : nat) (x : string) : Prop :=
  exists t y, reach h (p, 0) t y /\ exposed x t.

Lemma exposed_app x t1 t2 : exposed x (t1 ++ t2) <-> exposed x t1 \/ (~ defined x t1 /\ exposed x t2).
Proof.
  induction t1 as [|s t1 IH]; cbn.
  - split; [|tauto]. intros H. right. split; [|done]. by intros (s & H' & _); apply not_elem_of_nil in H'.
  - rewrite IH. assert (D : defined x (s :: t1) <-> x ∈ defs s \/ defined x t1).
    { unfold defined. split.
      - intros (s' & [-> | H]%elem_of_cons & H'); [by left | right; by exists s'].
      - intros [H|(s' & H & H')]; [exists s | exists s']; (split; [|done]); [by left | by right]. }
    rewrite D. tauto.
Qed.

Lemma reach_through h p b i : h !! p = Some b -> i <= length (Cfg.statements b) ->
  reach h (p, i) (drop i (Cfg.statements b)) (p, length (Cfg.statements b)).
Proof.
  intros Hb Hi. remember (length (Cfg.statements b) - i) as k eqn:Hk.
  revert i Hi Hk. induction k as [|k IH]; intros i Hi Hk.
  - rewrite drop_ge by lia. replace i with (length (Cfg.statements b)) by lia. constructor.
  - destruct (lookup_lt_is_Some_2 (Cfg.statements b) i) as [x Hx]; [lia|].
    rewrite (drop_S _ x i Hx). eapply reach_statement; [done | done|]. apply IH; lia.
Qed.

(** Blocks that exist, and whose successors are among them. *)
Definition self_contained (h : gmap nat Block) (all : list nat) : Prop := forall p, p ∈ all ->
  exists b, h !! p = Some b /\ forall q, q ∈ successors b -> q ∈ all.

Section live.
Context (h : gmap nat Block) (all : list nat).

Lemma live_closed s : computed h all s -> closed_under h all s (live_at h).
Proof.
  intros Hc p b x Hp Hb. destruct (Hc p b Hp Hb) as [-> ->].
  pose proof (proj1 (block_sets (Cfg.statements b) (∅, ∅) x)) as Hu.
  pose proof (proj2 (block_sets (Cfg.statements b) (∅, ∅) x)) as Hd. unfold block_uses, block_defs.
  rewrite Hu, Hd. cbn [fst snd]. pose proof (reach_through h p b 0 Hb ltac:(lia)) as R. rewrite drop_0 in R.
  intros [[Hx%not_elem_of_empty|[_ Hx]]|(Hn & q & Hq & t & y & Ry & Hx)]; [done | |].
  - by exists (Cfg.statements b), (p, length (Cfg.statements b)).
  - exists (Cfg.statements b ++ t), y. split.
    + eapply reach_trans; [exact R|]. by eapply reach_edge.
    + apply exposed_app. right. tauto.
Qed.

Lemma live_complete s x : computed h all s -> self_contained h all -> (forall p, p ∈ all -> stable h s p) ->
  forall p, p ∈ all -> live_at h p x -> x ∈ get_in_set s p.
Proof.
  intros Hc Hs St.
  assert (In : forall p b, p ∈ all -> h !! p = Some b ->
    exposed x (Cfg.statements b) \/ (~ defined x (Cfg.statements b) /\ x ∈ get_out_set s p) -> x ∈ get_in_set s p).
  { intros p b Hp Hb Hx. destruct (St p Hp b Hb) as [-> Ho]. rewrite Ho in Hx. unfold in_of.
    destruct (Hc p b Hp Hb) as [-> ->]. rewrite elem_of_union, elem_of_difference. unfold block_uses, block_defs.
    pose proof (proj1 (block_sets (Cfg.statements b) (∅, ∅) x)) as Hu.
    pose proof (proj2 (block_sets (Cfg.statements b) (∅, ∅) x)) as Hd. rewrite Hu, Hd. set_solver. }
  assert (Path : forall u t y, reach h u t y -> u.1 ∈ all -> exposed x t -> forall b, h !! u.1 = Some b ->
    exposed x (drop u.2 (Cfg.statements b))
    \/ (~ defined x (drop u.2 (Cfg.statements b)) /\ x ∈ get_out_set s u.1)).
  { induction 1 as [|p i b st t q Hb Hi _ IH|p b p' t q Hb Hp' _ IH]; intros Hall Hx c Hc'; cbn [fst snd] in *.
    - done.
    - rewrite Hb in Hc'. injection Hc' as <-. rewrite (drop_S _ st i Hi). cbn [exposed] in Hx |- *.
      destruct Hx as [Hx|[Hn Hx]]; [by left; left|].
      destruct (IH Hall Hx b Hb) as [Hr|[Hr Ho]]; [by left; right|].
      right. split; [|done]. intros (s' & [-> | Hin]%elem_of_cons & Hdef); [done|]. apply Hr. by exists s'.
    - rewrite Hb in Hc'. injection Hc' as <-. rewrite drop_all. right.
      split; [by intros (s' & Hin & _); apply not_elem_of_nil in Hin|].
      destruct (Hs p Hall) as (b' & Hb' & Hsucc). rewrite Hb in Hb'. injection Hb' as <-.
      specialize (Hsucc p' Hp'). destruct (Hs p' Hsucc) as (b' & Hb' & _).
      specialize (IH Hsucc Hx b' Hb'). rewrite drop_0 in IH. destruct (St p Hall b Hb) as [_ ->].
      apply elem_of_out_set. exists p'. split; [done|]. by apply (In p' b'). }
  intros p Hp (t & y & R & Hx). destruct (Hs p Hp) as (b & Hb & _).
  apply (In p b Hp Hb). pose proof (Path _ _ _ R Hp Hx b Hb) as H. cbn in H. by rewrite drop_0 in H.
Qed.
End live.

(** The pass on blocks that are closed under successors. *)
Lemma run_live h listing fuel : self_contained h (blocks_of listing) ->
  length (blocks_of listing) * size (used_variables h (blocks_of listing)) < fuel ->
  ends (run h listing fuel) (fun finished s => finished = true /\
    forall p, p ∈ blocks_of listing ->
      (forall x, x ∈ get_in_set s p <-> live_at h p x)
      /\ (forall b x, h !! p = Some b -> x ∈ get_out_set s p <-> exists q, q ∈ successors b /\ live_at h q x))
    LivenessAnalysisPass_new.
Proof.
  intros Hs Hf. set (all := blocks_of listing) in *.
  assert (Alive : forall p, p ∈ all -> is_Some (h !! p)).
  { intros p Hp. destruct (Hs p Hp) as (b & Hb & _). by exists b. }
  eapply ends_mono; [by apply (run_ends h all Alive)|].
  intros c s (-> & Hc & s0 & Hc0 & G & W & St). split; [done|].
  assert (Live : forall p x, p ∈ all -> x ∈ get_in_set s p <-> live_at h p x).
  { intros p x Hp. split; [|by apply (live_complete h all)].
    apply (growing_within _ _ _ _ G); [by apply live_closed|]. intros q y Hy. by destruct (W q y Hy). }
  intros p Hp. split; [intros x; by apply Live|]. intros b x Hb. destruct (St p Hp b Hb) as [_ ->].
  unfold out_of. rewrite elem_of_out_set. destruct (Hs p Hp) as (b' & Hb' & Hsucc). rewrite Hb in Hb'.
  injection Hb' as <-. split; intros (q & Hq & Hx); exists q; (split; [done|]); by apply (Live q x (Hsucc q Hq)).
Qed.
