(* ===== verification/LivenessTheorems.v ===== *)
(** * What the liveness analysis computes

    The theorems of the liveness analysis: it stops, its sets are exactly the live variables,
    every execution of a function stays within them, and the register pressure is the size of
    the largest of them.  The last one is a case in which the sets are too small. *)

From S2P Require Import Prelude State Ast Words Analysis Cfg CfgSpec CfgProof CfgProgram CfgTheorems Liveness Accesses LivenessProof.

(** An order in which the graphs of the builder and their blocks are listed. *)
Definition lists (c : builder) (listing : list (string * list nat)) : Prop :=
  (List.map fst listing ≡ₚ List.map fst (map_to_list (function_cfgs c)))
  /\ forall f l, (f, l) ∈ listing -> exists g, function_cfgs c !! f = Some g
       /\ l ≡ₚ List.map snd (map_to_list (blocks g)).

(** The order of the maps of the model. *)
Definition listing_of (c : builder) : list (string * list nat) :=
  List.map (fun f => (f.1, List.map snd (map_to_list (blocks f.2)))) (map_to_list (function_cfgs c)).

Lemma listing_of_lists c : lists c (listing_of c).
Proof.
  unfold lists, listing_of. rewrite List.map_map. split; [done|].
  intros f l (x & E & Hx)%list_elem_of_fmap. injection E as -> ->. exists x.2. split; [|done].
  apply elem_of_map_to_list. by destruct x.
Qed.

(** Rounds that are enough. *)
Definition enough (h : gmap nat Block) (listing : list (string * list nat)) : nat :=
  S (length (blocks_of listing) * size (used_variables h (blocks_of listing))).

Lemma elem_of_blocks_of p listing : p ∈ blocks_of listing <-> exists f l, (f, l) ∈ listing /\ p ∈ l.
Proof.
  unfold blocks_of. rewrite list_elem_of_In, in_concat. setoid_rewrite in_map_iff. split.
  - intros (l & ([f l'] & <- & H) & Hp). exists f, l'. by rewrite !list_elem_of_In.
  - intros (f & l & H & Hp). exists l. rewrite <-list_elem_of_In. split; [|done]. exists (f, l).
    by rewrite <-list_elem_of_In.
Qed.

Lemma graph_contained c listing f g : lists c listing -> function_cfgs c !! f = Some g ->
  forall i p, blocks g !! i = Some p -> p ∈ blocks_of listing.
Proof.
  intros [Hn Hl] Hg i p Hp. assert (Hf : f ∈ List.map fst listing).
  { rewrite Hn. apply list_elem_of_fmap. exists (f, g). split; [done|]. by apply elem_of_map_to_list. }
  apply list_elem_of_fmap in Hf as ([f' l] & -> & Hin). destruct (Hl _ _ Hin) as (g' & Hg' & Hperm).
  cbn in Hg. rewrite Hg in Hg'. injection Hg' as <-. apply elem_of_blocks_of. exists f', l. split; [done|].
  rewrite Hperm. apply list_elem_of_fmap. exists (i, p). split; [done|]. by apply elem_of_map_to_list.
Qed.

(** Graphs that are well formed are analysed as a whole. *)
Lemma lists_contained c listing : lists c listing ->
  (forall f g, function_cfgs c !! f = Some g -> well_formed (heap c) g) ->
  self_contained (heap c) (blocks_of listing).
Proof.
  intros Hlist W p (f & l & Hf & Hp)%elem_of_blocks_of. destruct (proj2 Hlist _ _ Hf) as (g & Hg & Hperm).
  rewrite Hperm in Hp. apply list_elem_of_fmap in Hp as ([i p'] & -> & Hi%elem_of_map_to_list). cbn.
  destruct (graph_blocks _ _ (W f g Hg) i p' Hi) as (b & Hb & _). exists b. split; [done|].
  intros q Hq. destruct (graph_edges _ _ (W f g Hg) i p' b q Hi Hb) as [j Hj]; [rewrite elem_of_app; by left|].
  by eapply graph_contained.
Qed.

(** ** The analysis *)

(** C8: the loop of the data-flow analysis ends: after as many rounds as
    there are pairs of a block and a variable, and one more, no set changes, whatever the
    blocks are, whether their successors exist, and in which order they are visited. *)
Theorem liveness_terminates h listing fuel :
  (forall p, p ∈ blocks_of listing -> is_Some (h !! p)) -> enough h listing <= fuel ->
  ends (run h listing fuel) (fun finished _ => finished = true) LivenessAnalysisPass_new.
Proof.
  intros Ha Hf. eapply ends_mono; [by apply (run_ends h (blocks_of listing) Ha)|]. by intros c s [-> _].
Qed.

(** The text of some path from the start of the block reads [x] before it assigns it. *)
Definition live_before (h : gmap nat Block) (p : nat) (x : string) : Prop :=
  exists t y, reach h (p, 0) t y /\ reads_first x (concat (List.map text t)).

(** The analysis looks at all occurrences of [x] in the blocks. *)
Definition noticed_in (h : gmap nat Block) (all : list nat) (x : string) : Prop :=
  forall p b, p ∈ all -> h !! p = Some b -> Forall (noticed x) (Cfg.statements b).

Lemma reach_noticed h all x u t y : self_contained h all -> noticed_in h all x ->
  reach h u t y -> u.1 ∈ all -> Forall (noticed x) t.
Proof.
  intros Hs Hx. induction 1 as [|p i b s t q Hb Hi _ IH|p b p' t q Hb Hp' _ IH]; intros Hp; cbn [fst] in *.
  - constructor.
  - constructor; [|by apply IH]. pose proof (Hx p b Hp Hb) as Hf. rewrite list.Forall_forall in Hf.
    by apply Hf, (list_elem_of_lookup_2 _ i).
  - apply IH. destruct (Hs p Hp) as (b' & Hb' & Hsucc). rewrite Hb in Hb'. injection Hb' as <-. auto.
Qed.

Lemma live_at_before h all p x : self_contained h all -> noticed_in h all x -> p ∈ all ->
  (live_at h p x <-> live_before h p x).
Proof.
  intros Hs Hx Hp. unfold live_at, live_before.
  split; intros (t & y & R & H); exists t, y; (split; [done|]);
    by apply (exposed_text x t (reach_noticed _ _ _ _ _ _ Hs Hx R Hp)).
Qed.

(** C7: where all successors are blocks of the analysis, and for a variable that occurs only
    where the analysis looks, the sets it computes are the live variables: the variable is in
    the in-set of a block if and only if the text of the statements on some path from the
    start of the block reads it before it assigns it, and in the out-set if and only if that
    holds at a successor; so the order in which the blocks are visited does not matter.  A
    test or a loop that stands in a block counts with its whole text. *)
Theorem liveness_exact h listing fuel :
  self_contained h (blocks_of listing) -> enough h listing <= fuel ->
  ends (run h listing fuel) (fun _ s => forall x, noticed_in h (blocks_of listing) x ->
      forall p, p ∈ blocks_of listing ->
      (x ∈ get_in_set s p <-> live_before h p x)
      /\ (forall b, h !! p = Some b -> (x ∈ get_out_set s p <-> exists q, q ∈ successors b /\ live_before h q x)))
    LivenessAnalysisPass_new.
Proof.
  intros Hs Hf. eapply ends_mono; [by apply run_live|]. intros c s [_ H] x Hx p Hp.
  destruct (H p Hp) as [Hin Hout]. pose proof (live_at_before h (blocks_of listing)) as L.
  split; [by rewrite Hin, L|]. intros b Hb. rewrite (Hout b x Hb).
  destruct (Hs p Hp) as (b' & Hb' & Hsucc). rewrite Hb in Hb'. injection Hb' as <-.
  split; intros (q & Hq & Hl); exists q; (split; [done|]); by apply (L q x Hs Hx (Hsucc q Hq)).
Qed.

(** ** With the graphs of a program *)

Lemma progress_contained l s listing : progress l [] s -> lists s listing ->
  self_contained (heap s) (blocks_of listing).
Proof.
  intros P Hl. apply lists_contained; [done|]. intros f g Hg. destruct (progress_only _ _ _ P f g Hg) as (d & Hd & Hf).
  destruct (progress_graph _ _ _ P d f Hd Hf) as (g' & Hg' & _ & W & _). rewrite Hg in Hg'. by injection Hg' as <-.
Qed.

(** C6: for a structured program, whatever the order of the maps, the analysis of the graphs
    that are built for it ends; and when an execution of a function reads a variable before it
    assigns it, then the variable is in the in-set of the entry of the function's graph.  A
    step of the execution reads and assigns what the statement itself does ([own]): a test its
    condition, its branches being steps of their own.  The variable must occur only where the
    analysis looks, and be assigned by assignments of their own only, not within a test, a
    loop or a VALOF: [branch_hides_use] shows what happens otherwise. *)
Theorem executions_stay_live types p m scope : structured_program p ->
  ends (build types p) (fun _ c => forall listing, lists c listing ->
    ends (run (heap c) listing (enough (heap c) listing)) (fun finished s => finished = true /\
      forall d name, d ∈ declarations p -> declared_function d = Some name ->
        exists g entry, function_cfgs c !! name = Some g /\ entry_block g = Some entry
          /\ forall t k x, run_from (body_exec d) None t k -> Forall (plainly_assigned x) t ->
               reads_first x (concat (List.map own t)) -> x ∈ get_in_set s entry)
      LivenessAnalysisPass_new) (CFGBuilderPass_new m scope).
Proof.
  intros Hp. eapply ends_mono; [by apply build_ends|]. intros [] c P listing Hl.
  eapply ends_mono; [apply run_live; [by eapply progress_contained | unfold enough; lia]|].
  intros f s [-> Hlive]. split; [done|]. intros d name Hd Hn.
  destruct (progress_graph _ _ _ P d name) as (g & Hg & _ & W & (entry & He & Hr)); [|done|].
  { by rewrite list_elem_of_In, <-in_rev, <-list_elem_of_In. }
  exists g, entry. split_and!; [done | done|]. intros t k x Ht Hx Hown.
  destruct (graph_entry _ _ W) as (i & p' & He' & Hi). rewrite He in He'. injection He' as <-.
  apply (Hlive entry); [by eapply graph_contained|]. destruct (Hr t k Ht) as (y & R & _).
  exists t, y. split; [exact R|]. by apply own_exposed.
Qed.

(** In the function of the sample [b] is read by the default of the switch, after a loop that
    is left at once. *)
Definition sample_function : Declaration := List.hd (LabelDeclaration "" ReturnStatement) (declarations sample).
Definition sample_body : list Statement :=
  match body_statement sample_function with Some (BlockStatement _ l) => l | _ => [] end.
Definition sample_trace : list Statement :=
  [assign "i_1" (int_literal 1)] ++ List.map clone_stmt (take 2 sample_body) ++ [ResultisStatement (var "b")].

Lemma sample_executed : run_from (body_exec sample_function) None sample_trace Returns.
Proof.
  constructor. left. exists (take 2 sample_trace), (drop 2 sample_trace). split_and!; [| |done].
  - left. eexists [_], [_]. split_and!; [by repeat split | left; split; [done | apply iterate_done] | done].
  - right. left. split; [|done]. left. eexists [_], [_]. split_and!; [by repeat split | | done].
    exists Returns. split; [|done]. right. right. by repeat split.
Qed.

Lemma executions_stay_live_witness : structured_program sample /\
  ends (build ∅ sample) (fun _ c => forall listing, lists c listing ->
    ends (run (heap c) listing (enough (heap c) listing)) (fun finished s => finished = true /\
      exists g entry, function_cfgs c !! "f" = Some g /\ entry_block g = Some entry /\ "b" ∈ get_in_set s entry)
      LivenessAnalysisPass_new) (CFGBuilderPass_new ∅ "").
Proof.
  split; [apply sample_structured|].
  eapply ends_mono; [apply (executions_stay_live ∅ sample ∅ ""), sample_structured|].
  intros [] c H listing Hl. eapply ends_mono; [exact (H listing Hl)|]. intros f s [-> Hd]. split; [done|].
  destruct (Hd sample_function "f") as (g & entry & Hg & He & Hb); [by left | done|].
  exists g, entry. split_and!; [done | done|].
  apply (Hb sample_trace Returns "b" sample_executed); [apply (bool_decide_unpack _); by vm_compute|].
  apply (bool_decide_unpack _). by vm_compute.
Defined.

(** *** Examples *)

(** A loop of two blocks that counts [i] up to [n], and what follows it. *)
Definition sample_blocks : gmap nat Block := list_to_map
  [(0, mkCfgBlock "f_Entry_0" [assign "i" (int_literal 1)] [1] [] true false "");
   (1, mkCfgBlock "f_ForHeader_1" [assign "s" (var "i");
         ConditionalBranchStatement "EQ" "f_ForExit_2" (Some (BinaryOp Greater (var "i") (var "n")))] [1; 2] [0; 1] false false "");
   (2, mkCfgBlock "f_ForExit_2" [ResultisStatement (BinaryOp Add (var "i") (var "k"))] [] [1] false false "")].
Definition sample_listing : list (string * list nat) := [("f", [2; 0; 1])].

Lemma sample_contained : self_contained sample_blocks (blocks_of sample_listing).
Proof.
  intros p Hp. change (p ∈ [2; 0; 1]) in Hp. rewrite !elem_of_cons, elem_of_nil in Hp.
  destruct Hp as [-> |[-> |[-> |[]]]]; eexists; (split; [reflexivity|]); intros q Hq; cbn in Hq |- *;
    rewrite ?elem_of_cons, ?elem_of_nil in *; tauto.
Qed.

Lemma liveness_terminates_witness :
  (forall p, p ∈ blocks_of sample_listing -> is_Some (sample_blocks !! p)) /\ enough sample_blocks sample_listing <= 13 /\
  ends (run sample_blocks sample_listing 13) (fun finished _ => finished = true) LivenessAnalysisPass_new.
Proof.
  assert (H : forall p, p ∈ blocks_of sample_listing -> is_Some (sample_blocks !! p)).
  { intros p Hp. destruct (sample_contained p Hp) as (b & Hb & _). by exists b. }
  assert (E : enough sample_blocks sample_listing <= 13) by (vm_compute; lia).
  split; [exact H|]. split; [exact E|]. exact (liveness_terminates sample_blocks sample_listing 13 H E).
Defined.

Lemma liveness_exact_witness :
  self_contained sample_blocks (blocks_of sample_listing) /\ enough sample_blocks sample_listing <= 13 /\
  ends (run sample_blocks sample_listing 13) (fun _ s => forall p, p ∈ blocks_of sample_listing ->
      ("k" ∈ get_in_set s p <-> live_before sample_blocks p "k")) LivenessAnalysisPass_new.
Proof.
  assert (E : enough sample_blocks sample_listing <= 13) by (vm_compute; lia).
  split; [exact sample_contained|]. split; [exact E|].
  eapply ends_mono; [exact (liveness_exact sample_blocks sample_listing 13 sample_contained E)|].
  intros f s H p Hp. apply (H "k"); [|exact Hp]. clear. intros p b Hp.
  change (p ∈ [2; 0; 1]) in Hp. rewrite !elem_of_cons, elem_of_nil in Hp.
  destruct Hp as [-> |[-> |[-> |[]]]]; intros [= <-]; apply (bool_decide_unpack _); by vm_compute.
Defined.

(** ** Register pressure *)

Local Open Scope Z_scope.

Definition small (s : liveness) (p : nat) : Prop :=
  set_size (get_in_set s p) < 2 ^ 31 /\ set_size (get_out_set s p) < 2 ^ 31.

Definition largest (s : liveness) (l : list nat) (n : Z) : Prop :=
  (forall p, p ∈ l -> set_size (get_in_set s p) <= n /\ set_size (get_out_set s p) <= n)
  /\ (n = 0 \/ exists p, p ∈ l /\ (n = set_size (get_in_set s p) \/ n = set_size (get_out_set s p))).

Lemma block_pressure_small s p : small s p ->
  block_pressure s p = Z.max (set_size (get_in_set s p)) (set_size (get_out_set s p)).
Proof.
  intros [H1 H2]. unfold block_pressure, s32, sext, set_size in *.
  rewrite Z.mod_small by lia. lia.
Qed.

Lemma function_pressure_largest s l : Forall (small s) l -> largest s l (function_pressure s l).
Proof.
  intros Hl. unfold function_pressure.
  assert (H : forall done n, largest s done n -> largest s (done ++ l) (foldl (fun max_pressure p =>
    if max_pressure <? block_pressure s p then block_pressure s p else max_pressure) n l)).
  { induction Hl as [|p l Hp _ IH]; intros dn n [Hn Hx]; [by rewrite app_nil_r|].
    cbn [foldl]. replace (dn ++ p :: l) with ((dn ++ [p]) ++ l) by (by rewrite <-app_assoc).
    apply IH. rewrite (block_pressure_small s p Hp). split.
    - intros q Hq. rewrite elem_of_snoc in Hq. destruct Hq as [Hq | ->]; [pose proof (Hn q Hq)|];
        destruct (Z.ltb_spec n (Z.max (set_size (get_in_set s p)) (set_size (get_out_set s p)))); lia.
    - destruct (Z.ltb_spec n (Z.max (set_size (get_in_set s p)) (set_size (get_out_set s p)))).
      + right. exists p. rewrite elem_of_snoc. split; [by right | lia].
      + destruct Hx as [Hx|(q & Hq & Hx)]; [by left|]. right. exists q. rewrite elem_of_snoc. split; [by left | done]. }
  apply (H [] 0). split; [by intros p ?%not_elem_of_nil | by left].
Qed.

Lemma calculate_lookup listing s name l : NoDup (List.map fst listing) -> (name, l) ∈ listing ->
  calculate_register_pressure listing s !! name = Some (function_pressure s l).
Proof.
  unfold calculate_register_pressure. intros Hnd Hin.
  assert (Other : forall (x : list (string * list nat)) (m : gmap string Z), name ∉ List.map fst x ->
    foldl (fun pressure_map f => <[f.1 := function_pressure s f.2]> pressure_map) m x !! name = m !! name).
  { induction x as [|[f y] x IH]; intros m Hx; [done|]. cbn [foldl List.map fst] in *.
    apply not_elem_of_cons in Hx as [H1 H2]. rewrite IH by done. cbn. by rewrite lookup_insert_ne. }
  generalize (∅ : gmap string Z). induction listing as [|[f y] x IH]; intros m; [by apply not_elem_of_nil in Hin|].
  cbn [foldl List.map fst] in *. apply list.NoDup_cons in Hnd as [Hnot Hnd].
  apply elem_of_cons in Hin as [Hin|Hin]; [|by apply IH]. injection Hin as -> ->.
  rewrite Other by done. cbn. by rewrite lookup_insert_eq.
Qed.

(** C25: after the analysis the metrics of a function hold the number of
    variables in the largest in-set or out-set of the function's blocks, as long as that is
    less than 2^31; the metrics of functions without a graph keep their number. *)
Theorem pressure_is_largest_set listing s metrics name m :
  NoDup (List.map fst listing) -> metrics !! name = Some m ->
  (forall l, (name, l) ∈ listing -> Forall (small s) l) ->
  exists m', update_pressure (calculate_register_pressure listing s) metrics !! name = Some m'
    /\ (forall l, (name, l) ∈ listing -> largest s l (max_live_variables m'))
    /\ ((forall l, (name, l) ∉ listing) -> m' = m).
Proof.
  intros Hnd Hm Hs. unfold update_pressure. rewrite map_lookup_imap, Hm. cbn. eexists. split; [done|]. split.
  - intros l Hl. rewrite (calculate_lookup listing s name l Hnd Hl). cbn. by apply function_pressure_largest, Hs.
  - intros Hno. assert (E : calculate_register_pressure listing s !! name = None).
    { unfold calculate_register_pressure. rewrite <-(lookup_empty (A := Z) (M := gmap string) name).
      generalize (∅ : gmap string Z). induction listing as [|[f y] x IH]; intros mm; [done|].
      cbn [foldl]. rewrite IH.
      - rewrite lookup_insert_ne; [done|]. cbn. intros ->. apply (Hno y). by left.
      - cbn in Hnd. by apply list.NoDup_cons in Hnd as [_ ?].
      - intros l Hl. apply Hs. by right.
      - intros l Hl. apply (Hno l). by right. }
    by rewrite E.
Qed.

Definition sample_result : liveness := (run sample_blocks sample_listing 13 LivenessAnalysisPass_new).1.
Definition sample_metrics : gmap string FunctionMetrics := {["f" := FunctionMetrics_new]}.

Lemma pressure_is_largest_set_witness :
  NoDup (List.map fst sample_listing) /\ sample_metrics !! "f" = Some (FunctionMetrics_new) /\
  (forall l, ("f", l) ∈ sample_listing -> Forall (small sample_result) l) /\
  exists m', update_pressure (calculate_register_pressure sample_listing sample_result) sample_metrics !! "f" = Some m'
    /\ (forall l, ("f", l) ∈ sample_listing -> largest sample_result l (max_live_variables m'))
    /\ ((forall l, ("f", l) ∉ sample_listing) -> m' = FunctionMetrics_new).
Proof.
  assert (H1 : NoDup (List.map fst sample_listing)) by (apply (bool_decide_unpack _); by vm_compute).
  assert (H2 : sample_metrics !! "f" = Some (FunctionMetrics_new)) by reflexivity.
  assert (H3 : forall l, ("f", l) ∈ sample_listing -> Forall (small sample_result) l).
  { intros l Hl%list_elem_of_singleton. injection Hl as ->. repeat constructor; by vm_compute. }
  split; [exact H1|]. split; [exact H2|]. split; [exact H3|].
  exact (pressure_is_largest_set sample_listing sample_result sample_metrics "f" _ H1 H2 H3).
Defined.

(** ** Tests *)

(** [IF c THEN x := 1; y := x] *)
Definition branch_sample : Program := mkProgram
  [RoutineDeclaration "r" ["c"; "x"; "y"] (CompoundStatement
     [IfStatement (var "c") (assign "x" (int_literal 1)); assign "y" (var "x")])] [].

(** The statement of a test is kept in the block of the test, and the
    analysis takes the assignments of its branch for assignments of the block; in
    [IF c THEN x := 1; y := x] the value of [x] before the test is used when [c] is false,
    yet [x] is not live at the entry. *)
Theorem branch_hides_use :
  exists c listing, build ∅ branch_sample (CFGBuilderPass_new ∅ "") = (c, Done tt) /\ lists c listing /\
    let test := IfStatement (var "c") (assign "x" (int_literal 1)) in
    (forall d, d ∈ declarations branch_sample -> run_from (body_exec d) None [test; assign "y" (var "x")] Falls) /\
    ends (run (heap c) listing (enough (heap c) listing)) (fun finished s => finished = true /\
      exists g entry, function_cfgs c !! "r" = Some g /\ entry_block g = Some entry /\ "x" ∉ get_in_set s entry)
      LivenessAnalysisPass_new.
Proof.
  eexists _, (listing_of _). split; [vm_compute; reflexivity|]. split; [apply listing_of_lists|]. split.
  - intros d Hd%list_elem_of_singleton. subst d. constructor. left.
    exists [IfStatement (var "c") (assign "x" (int_literal 1))], [assign "y" (var "x")].
    split_and!; [| |done].
    + left. eexists _, []. split_and!; [by repeat split | by left | done].
    + left. eexists _, []. by repeat split.
  - vm_compute. split; [done|]. eexists _, _. split; [reflexivity|]. split; [reflexivity|]. intros H. inversion H.
Qed.
