(* ===== verification/Codegen.v ===== *)
(** * The code generator: state and helpers

    The state of [NewCodeGenerator] (src/NewCodeGenerator.cpp), how its operations combine
    with those of the register manager, the data generator and the label manager, and the
    helpers its visitors share: reading and writing variables and the assignment helpers.
    What the analyzer, the runtime table and the command line determine before code is
    generated is a record of the environment. *)

From Stdlib Require Import SpecFloat.
From S2P Require Import Prelude Words A64 Instr EncReg EncArith EncMem EncBranch EncFloat Labels CallFrame Registers Ast SymbolTable Analysis Data.
Local Open Scope Z_scope.

(** ** State *)

Record environment : Type := mkEnvironment {
  function_metrics : gmap string FunctionMetrics;
  function_return_types : gmap string VarType;
  local_function_names : gset string;
  runtime_manager : RuntimeManager;
  is_jit_mode : bool;
  data_segment_base_addr : Z;
  canaries : bool
}.

(** [LiveInterval] (src/analysis/LiveInterval.h) *)
Record LiveInterval : Type := mkInterval {
  var_name : string;
  start_point : Z;
  end_point : Z;
  is_spilled : bool;
  assigned_register : string;
  stack_offset : Z
}.

(** The instruction stream is the code [gen] emits; the names of the scopes are only printed,
    so the stack of scopes is its depth. *)
Record code_gen : Type := mkCodeGen {
  gen : generator;
  label_manager : LabelManager;
  data_generator : DataGenerator;
  symbol_table : option SymbolTable;
  current_function_allocation : gmap string LiveInterval;
  expression_result_reg : string;
  current_function_name : string;
  current_function_return_type : VarType;
  current_function_epilogue_label : string;
  x28_is_loaded : bool;
  scope_depth : nat
}.

Definition set_gen (g : generator) (c : code_gen) : code_gen :=
  mkCodeGen g (label_manager c) (data_generator c) (symbol_table c) (current_function_allocation c)
    (expression_result_reg c) (current_function_name c) (current_function_return_type c)
    (current_function_epilogue_label c) (x28_is_loaded c) (scope_depth c).
Definition set_label_manager (m : LabelManager) (c : code_gen) : code_gen :=
  mkCodeGen (gen c) m (data_generator c) (symbol_table c) (current_function_allocation c)
    (expression_result_reg c) (current_function_name c) (current_function_return_type c)
    (current_function_epilogue_label c) (x28_is_loaded c) (scope_depth c).
Definition set_data (d : DataGenerator) (t : option SymbolTable) (c : code_gen) : code_gen :=
  mkCodeGen (gen c) (label_manager c) d t (current_function_allocation c)
    (expression_result_reg c) (current_function_name c) (current_function_return_type c)
    (current_function_epilogue_label c) (x28_is_loaded c) (scope_depth c).
Definition set_allocation (a : gmap string LiveInterval) (c : code_gen) : code_gen :=
  mkCodeGen (gen c) (label_manager c) (data_generator c) (symbol_table c) a
    (expression_result_reg c) (current_function_name c) (current_function_return_type c)
    (current_function_epilogue_label c) (x28_is_loaded c) (scope_depth c).
Definition set_result_reg (reg : string) (c : code_gen) : code_gen :=
  mkCodeGen (gen c) (label_manager c) (data_generator c) (symbol_table c)
    (current_function_allocation c) reg (current_function_name c) (current_function_return_type c)
    (current_function_epilogue_label c) (x28_is_loaded c) (scope_depth c).
Definition set_function (name : string) (type : VarType) (label : string) (x28 : bool) (depth : nat)
    (c : code_gen) : code_gen :=
  mkCodeGen (gen c) (label_manager c) (data_generator c) (symbol_table c)
    (current_function_allocation c) (expression_result_reg c) name type label x28 depth.

(** ** Computations *)

Definition G (A : Type) : Type := code_gen -> code_gen * outcome A.

#[export] Instance G_ret : MRet G := fun A a c => (c, Done a).
#[export] Instance G_bind : MBind G := fun A B f m c =>
  match m c with
  | (c, Done a) => f a c
  | (c, Raised e) => (c, Raised e)
  | (c, Undefined) => (c, Undefined)
  end.

Definition G_throw {A} (e : exn) : G A := fun c => (c, Raised e).
Definition G_undefined {A} : G A := fun c => (c, Undefined).
Definition G_get {A} (f : code_gen -> A) : G A := fun c => (c, Done (f c)).
Definition G_modify (f : code_gen -> code_gen) : G unit := fun c => (f c, Done tt).
Definition of_result {A} (r : result A) : G A := fun c =>
  (c, match r with Ok a => Done a | Throw e => Raised e end).

(** An operation of the register manager, and one of the data generator. *)
Definition rm {A} (m : M A) : G A := fun c =>
  let '(g, r) := m (gen c) in (set_gen g c, r).
Definition dg {A} (m : D A) : G A := fun c =>
  let '(d, r) := m (data_generator c) in (set_data d (symbol_table c) c, r).

Definition emit_instr (i : Instruction) : G unit := rm (Registers.emit i).
Definition emit_ok (r : result Instruction) : G unit := i ← of_result r; emit_instr i.
Fixpoint emit_list (l : list Instruction) : G unit :=
  match l with [] => mret tt | i :: l => emit_instr i;; emit_list l end.
Definition emit_seq (r : result (list Instruction)) : G unit := l ← of_result r; emit_list l.

(** [instruction_stream_.define_label(label_name)] *)
Definition define_stream_label (label_name : string) : G unit :=
  emit_instr (set_target_label label_name (set_is_label_definition true Instruction_default)).

Definition new_label : G string := fun c =>
  let '(l, m) := create_label (label_manager c) in (set_label_manager m c, Done l).

Definition set_result_to (reg : string) : G unit := G_modify (set_result_reg reg).
Definition release (reg : string) : G unit := rm (release_register reg).
Definition frame_of {A} (f : CallFrameManager -> A) : G A := G_get (fun c => f (frame (gen c))).
Definition on_frame_manager (f : CallFrameManager -> CallFrameManager) : G unit :=
  rm (with_frame (fun fr => (tt, f fr))).
Definition offset_of (name : string) : G Z := r ← frame_of (fun fr => get_offset fr name); of_result r.
Definition is_fp (reg : string) : bool := is_fp_register reg.

(** [try { m } catch (const std::runtime_error&) { h }]: the state is that of the throw. *)
Definition catch_runtime {A} (m h : G A) : G A := fun c =>
  match m c with
  | (c, Raised runtime_error) => h c
  | r => r
  end.

Fixpoint for_all {A} (f : A -> G unit) (l : list A) : G unit :=
  match l with [] => mret tt | a :: l => f a;; for_all f l end.
Fixpoint map_all {A B} (f : A -> G B) (l : list A) : G (list B) :=
  match l with [] => mret [] | a :: l => b ← f a; r ← map_all f l; mret (b :: r) end.
(** The same with the index of each element. *)
Fixpoint for_indexed {A} (f : Z -> A -> G unit) (i : Z) (l : list A) : G unit :=
  match l with [] => mret tt | a :: l => f i a;; for_indexed f (i + 1) l end.

(** [Encoder::create_directive], with its default arguments: an entry of the stream, not a
    label definition, whatever the text. *)
Definition create_directive (directive_text : string) : Instruction :=
  set_opcode DIRECTIVE (Instruction_reloc 0 ".quad 0x0" NONE "" false false).

Definition find_symbol (name : string) : G (option Symbol) :=
  G_get (fun c => match symbol_table c with Some t => SymbolTable.lookup name t | None => None end).

Definition is_float_type (t : VarType) : bool := t =? VT_FLOAT.

Section generator.
Context (env : environment).

(** The analyzer's types are those of the current function. *)
Definition infer (e : Expression) : G VarType :=
  G_get (fun c =>
    let types := match function_metrics env !! current_function_name c with
                 | Some m => metrics_variable_types m
                 | None => ∅
                 end in
    infer_expression_type types (function_return_types env) e).

(** ** Reading a variable *)

(** A word or a double at [base + offset], in a spillable temporary marked clean. *)
Definition load_slot (is_float : bool) (base : string) (offset : Z) (name : string) : G string :=
  if is_float then
    reg ← rm acquire_spillable_fp_temp_reg;
    emit_ok (create_ldr_fp_imm reg base offset);;
    rm (mark_dirty reg false);;
    mret reg
  else
    reg ← rm acquire_spillable_temp_reg;
    emit_ok (create_ldr_imm reg base offset name);;
    rm (mark_dirty reg false);;
    mret reg.

Definition MAX_LDR_OFFSET : Z := 4095 * 8.

(** The address of a far global, in a scratch register. *)
Definition far_global_address (byte_offset : Z) : G (string * string) :=
  offset_reg ← rm acquire_scratch_reg;
  addr_reg ← rm acquire_scratch_reg;
  emit_seq (create_movz_movk_abs64 offset_reg byte_offset "");;
  emit_ok (create_add_reg addr_reg "X28" offset_reg);;
  mret (offset_reg, addr_reg).

Definition load_global (is_float : bool) (byte_offset : Z) (name : string) : G string :=
  let load reg base off := if is_float then create_ldr_fp_imm reg base off
                           else create_ldr_imm reg base off name in
  reg ← (if is_float then rm acquire_spillable_fp_temp_reg else rm acquire_spillable_temp_reg);
  (if byte_offset <=? MAX_LDR_OFFSET then emit_ok (load reg "X28" byte_offset)
   else
     '(offset_reg, addr_reg) ← far_global_address byte_offset;
     emit_ok (load reg addr_reg 0);;
     release offset_reg;; release addr_reg);;
  mret reg.

(** The variables the allocation map does not decide. *)
Definition get_unallocated_register (name : string) (symbol : option Symbol) : G string :=
  let fall_back : G string :=
    global ← G_get (fun c => is_global_variable name (data_generator c));
    if (global : bool) then
      type ← (match symbol with
              | Some s => mret (type s)
              | None => frame_of (fun fr => get_variable_type fr name)
              end);
      r ← G_get (fun c => get_global_word_offset name (data_generator c));
      word ← of_result r;
      load_global (is_float_type type) (word * 8) name
    else if bool_decide (name ∈ local_function_names env) then
      reg ← rm get_free_register;
      emit_ok (create_adrp reg name);;
      emit_ok (create_add_literal reg reg name);;
      mret reg
    else G_throw runtime_error in
  match symbol with
  | Some s =>
      match location s with
      | STACK offset => load_slot (is_float_type (type s)) "X29" offset name
      | SymbolTable.DATA offset => load_slot (is_float_type (type s)) "X28" (offset * 8) name
      | ABSOLUTE value =>
          reg ← rm acquire_spillable_temp_reg;
          emit_seq (create_movz_movk_abs64 reg (u64 value) "");;
          mret reg
      | _ => fall_back
      end
  | None => fall_back
  end.

Definition get_variable_register (name : string) : G string :=
  symbol ← find_symbol name;
  if match symbol with Some s => is_runtime s | None => false end then rm acquire_scratch_reg
  else
    allocation ← G_get (fun c => current_function_allocation c !! name);
    match allocation with
    | None => get_unallocated_register name symbol
    | Some a =>
        if negb (is_spilled a) then mret (assigned_register a)
        else if negb (stack_offset a =? -1) then
          type ← frame_of (fun fr => get_variable_type fr name);
          load_slot (is_float_type type) "X29" (stack_offset a) name
        else
          catch_runtime
            (offset ← offset_of name;
             type ← frame_of (fun fr => get_variable_type fr name);
             load_slot (is_float_type type) "X29" offset name)
            (get_unallocated_register name symbol)
    end.

(** ** Writing a variable *)

(** A floating-point source marks the variable as float. *)
Definition note_float (name reg_to_store : string) : G unit :=
  if is_fp reg_to_store then
    t ← frame_of (fun fr => get_variable_type fr name);
    if t =? VT_FLOAT then mret tt else on_frame_manager (fun fr => set_variable_type fr name VT_FLOAT)
  else mret tt.

Definition store_slot (is_float : bool) (reg base : string) (offset : Z) (name : string) : G unit :=
  emit_ok (if is_float then create_str_fp_imm reg base offset else create_str_imm reg base offset name).

(** A register-to-register move, converting between the kinds. *)
Definition move_register (dst src : string) : G unit :=
  emit_ok (match is_fp src, is_fp dst with
           | true, true => create_fmov_reg dst src
           | false, false => create_mov_reg dst src
           | false, true => create_scvtf_reg dst src
           | true, false => create_fcvtzs_reg dst src
           end).

Definition store_global (is_float : bool) (reg : string) (byte_offset : Z) (name : string) : G unit :=
  if is_float then store_slot true reg "X28" byte_offset name
  else if byte_offset <=? MAX_LDR_OFFSET then store_slot false reg "X28" byte_offset name
  else
    '(offset_reg, addr_reg) ← far_global_address byte_offset;
    store_slot false reg addr_reg 0 name;;
    release offset_reg;; release addr_reg.

Definition set_stack_offset (offset : Z) (a : LiveInterval) : LiveInterval :=
  mkInterval (var_name a) (start_point a) (end_point a) (is_spilled a) (assigned_register a) offset.

Definition new_interval (name : string) (spilled : bool) (reg : string) (offset : Z) : LiveInterval :=
  mkInterval name 0 1000 spilled reg offset.

Definition allocate (name : string) (a : LiveInterval) : G unit :=
  G_modify (fun c => set_allocation (<[name := a]> (current_function_allocation c)) c).

Definition store_allocated (name reg_to_store : string) (a : LiveInterval) : G unit :=
  if negb (is_spilled a) then
    if String.eqb reg_to_store (assigned_register a) then mret tt
    else move_register (assigned_register a) reg_to_store
  else if negb (stack_offset a =? -1) then
    note_float name reg_to_store;;
    store_slot (is_fp reg_to_store) reg_to_store "X29" (stack_offset a) name
  else
    catch_runtime
      (offset ← offset_of name;
       note_float name reg_to_store;;
       store_slot (is_fp reg_to_store) reg_to_store "X29" offset name;;
       allocate name (set_stack_offset offset a))
      (mret tt).

Definition store_unallocated (name reg_to_store : string) (symbol : option Symbol) : G unit :=
  let float_symbol := match symbol with Some s => is_float_type (type s) | None => false end in
  let legacy : G unit :=
    global ← G_get (fun c => is_global_variable name (data_generator c));
    if (global : bool) then
      r ← G_get (fun c => get_global_word_offset name (data_generator c));
      word ← of_result r;
      store_global (float_symbol || is_fp reg_to_store) reg_to_store (word * 8) name
    else G_throw runtime_error in
  match symbol with
  | Some s =>
      match is_global s, location s with
      | true, SymbolTable.DATA offset =>
          store_global (is_float_type (type s) || is_fp reg_to_store) reg_to_store (offset * 8) name
      | _, _ => legacy
      end
  | None => legacy
  end.

(** A local that is not in the allocation map yet is bound to the register that holds the
    value, without a store ([VARIABLE_REGS] is never empty). *)
Definition store_variable_register (name reg_to_store : string) : G unit :=
  symbol ← find_symbol name;
  if match symbol with Some s => is_runtime s | None => false end then mret tt
  else
    allocation ← G_get (fun c => current_function_allocation c !! name);
    match allocation with
    | Some a => store_allocated name reg_to_store a
    | None =>
        local ← frame_of (fun fr => has_local fr name);
        if (local : bool) then allocate name (new_interval name false reg_to_store (-1))
        else store_unallocated name reg_to_store symbol
    end.

(** ** Assignment helpers *)

Definition handle_variable_assignment (name value_to_store_reg : string) : G unit :=
  dest_type ← frame_of (fun fr => get_variable_type fr name);
  match is_fp value_to_store_reg, is_float_type dest_type with
  | true, false =>
      int_reg ← rm acquire_scratch_reg;
      emit_ok (create_fcvtzs_reg int_reg value_to_store_reg);;
      store_variable_register name int_reg;;
      release value_to_store_reg;; release int_reg
  | false, true =>
      fp_reg ← rm acquire_fp_scratch_reg;
      emit_ok (create_scvtf_reg fp_reg value_to_store_reg);;
      store_variable_register name fp_reg;;
      release value_to_store_reg;; release fp_reg
  | _, _ =>
      store_variable_register name value_to_store_reg;;
      release value_to_store_reg
  end.

Definition generate_float_to_int_truncation (dest_x_reg src_d_reg : string) : G unit :=
  emit_ok (create_fcvtzs_reg dest_x_reg src_d_reg).

(** Base and index in registers, the sum of the base and the scaled index in a new one. *)
Definition element_address (base_reg index_reg : string) (scale : Z) : G string :=
  emit_ok (create_lsl_imm index_reg index_reg scale);;
  effective_addr_reg ← rm get_free_register;
  emit_ok (create_add_reg effective_addr_reg base_reg index_reg);;
  release base_reg;; release index_reg;;
  mret effective_addr_reg.

(** [ADRP]/[ADD] of a label. *)
Definition load_address (reg label : string) : G unit :=
  emit_ok (create_adrp reg label);; emit_ok (create_add_literal reg reg label).
End generator.
