(* ===== verification/CodegenExpr.v ===== *)
(** * The code generator: expressions

    One definition per [visit] method of src/generators/ and src/NewCodeGenerator.cpp that
    generates an expression.  [accept] dispatches to the method of the node, so the methods
    are written against the two dispatchers, which CodegenStmt.v defines. *)

From Stdlib Require Import SpecFloat.
From S2P Require Import Prelude Words A64 Instr EncReg EncArith EncMem EncBranch EncFloat Labels CallFrame Registers Ast SymbolTable Analysis Data Codegen.
Local Open Scope Z_scope.

Section visitors.
Context (env : environment).
Context (generate_expression_code : Expression -> G unit).
Context (generate_statement_code : Statement -> G unit).

(** [generate_expression_code(e)], then [expression_result_reg_]. *)
Definition value_of (e : Expression) : G string :=
  generate_expression_code e;; G_get expression_result_reg.

Definition scratch : G string := rm acquire_scratch_reg.

(** ** Literals and variables *)

Definition visit_NumberLiteral (n : number) : G unit :=
  dest_reg ← rm get_free_register;
  match n with
  | Integer v =>
      (if (0 <=? v) && (v <=? 0xFFFF) then emit_ok (create_movz_imm dest_reg v 0 NONE "")
       else emit_seq (create_movz_movk_abs64 dest_reg (u64 v) ""));;
      set_result_to dest_reg
  | Float f =>
      float_label ← dg (add_float_literal f);
      temp_x_reg ← rm get_free_register;
      dest_d_reg ← rm get_free_float_register;
      load_address temp_x_reg float_label;;
      emit_ok (create_ldr_fp_imm dest_d_reg temp_x_reg 0);;
      release temp_x_reg;;
      set_result_to dest_d_reg
  end.

Definition visit_StringLiteral (s : string) : G unit :=
  string_label ← dg (add_string_literal s);
  reg ← rm get_free_register;
  set_result_to reg;;
  load_address reg string_label;;
  emit_ok (create_add_imm reg reg 8).

(** ["W" + reg.substr(1)] *)
Definition word_register (reg : string) : string := ("W" ++ substr1 reg)%string.

(** A [char] is signed on the host and the immediate is a [uint16_t]. *)
Definition visit_CharLiteral (c : ascii) : G unit :=
  x_dest_reg ← rm get_free_register;
  emit_ok (create_movz_imm (word_register x_dest_reg) (u16 (sext 8 (code c))) 0 NONE "");;
  set_result_to x_dest_reg.

Definition visit_BooleanLiteral (b : bool) : G unit :=
  dest_reg ← rm get_free_register;
  emit_ok (create_movz_imm dest_reg (if b then 1 else 0) 0 NONE "");;
  set_result_to dest_reg.

Definition visit_VariableAccess (name : string) : G unit :=
  reg ← get_variable_register env name; set_result_to reg.

(** ** Binary operators *)

Definition short_circuit (cond : string) (left right : Expression)
    (load_constant : string -> G unit) : G unit :=
  condition_reg ← value_of left;
  shortcut_label ← new_label;
  end_label ← new_label;
  emit_ok (create_cmp_imm condition_reg 0);;
  emit_ok (create_branch_conditional cond shortcut_label);;
  generate_expression_code right;;
  emit_instr (create_branch_unconditional end_label);;
  emit_instr (create_directive ("." ++ shortcut_label ++ ":")%string);;
  reg ← G_get expression_result_reg;
  load_constant reg;;
  emit_instr (create_directive ("." ++ end_label ++ ":")%string).

Definition generate_short_circuit_and (left right : Expression) : G unit :=
  short_circuit "EQ" left right (fun reg => emit_ok (create_movz_imm reg 0 0 NONE "")).

Definition generate_short_circuit_or (left right : Expression) : G unit :=
  short_circuit "NE" left right (fun reg =>
    emit_ok (create_movz_imm reg 0xFFFF 0 NONE "");;
    emit_ok (create_movk_imm reg 0xFFFF 1 NONE "");;
    emit_ok (create_movk_imm reg 0xFFFF 2 NONE "");;
    emit_ok (create_movk_imm reg 0xFFFF 3 NONE "")).

Definition compare_and_set (is_float : bool) (left_reg right_reg : string) (set : result Instruction)
    : G unit :=
  emit_ok (if is_float then create_fcmp_reg left_reg right_reg else create_cmp_reg left_reg right_reg);;
  emit_ok set.

(** The switch over the operators; [|] and [NEQV] are in its [default] case. *)
Definition emit_binary (op : BinaryOperator) (f : bool) (l r : string) : G unit :=
  match op with
  | Add => emit_ok (if f then create_fadd_reg l l r else create_add_reg l l r)
  | Subtract => emit_ok (if f then create_fsub_reg l l r else create_sub_reg l l r)
  | Multiply => emit_ok (if f then create_fmul_reg l l r else create_mul_reg l l r)
  | Divide => emit_ok (if f then create_fdiv_reg l l r else create_sdiv_reg l l r)
  | Remainder =>
      emit_ok (create_sdiv_reg "X16" l r);;
      emit_ok (create_mul_reg "X16" "X16" r);;
      emit_ok (create_sub_reg l l "X16")
  | Equal => compare_and_set f l r (create_cset_eq l)
  | NotEqual => compare_and_set f l r (create_csetm_ne l)
  | Less => compare_and_set f l r (create_cset l "LT")
  | LessEqual => compare_and_set f l r (create_cset l "LE")
  | Greater => compare_and_set f l r (create_cset l "GT")
  | GreaterEqual => compare_and_set f l r (create_cset l "GE")
  | BitwiseAnd => emit_ok (create_and_reg l l r)
  | Equivalence => compare_and_set false l r (create_cset l "EQ")
  | LeftShift => emit_ok (create_lsl_reg l l r)
  | RightShift => emit_ok (create_lsr_reg l l r)
  | FloatAdd => emit_ok (create_fadd_reg l l r)
  | FloatSubtract => emit_ok (create_fsub_reg l l r)
  | FloatMultiply => emit_ok (create_fmul_reg l l r)
  | FloatDivide => emit_ok (create_fdiv_reg l l r)
  | FloatEqual => compare_and_set true l r (create_cset l "EQ")
  | FloatNotEqual => compare_and_set true l r (create_cset l "NE")
  | FloatLess => compare_and_set true l r (create_cset l "LT")
  | FloatLessEqual => compare_and_set true l r (create_cset l "LE")
  | FloatGreater => compare_and_set true l r (create_cset l "GT")
  | FloatGreaterEqual => compare_and_set true l r (create_cset l "GE")
  | LogicalAnd | LogicalOr | BitwiseOr | NotEquivalence => mret tt
  end.

(** The operand as a double, in a new register. *)
Definition promote (reg : string) : G string :=
  fp_reg ← rm acquire_fp_scratch_reg;
  emit_ok (create_scvtf_reg fp_reg reg);;
  release reg;;
  mret fp_reg.

(** The right operand is generated first. *)
Definition visit_BinaryOp (op : BinaryOperator) (left right : Expression) : G unit :=
  match op with
  | LogicalAnd => generate_short_circuit_and left right
  | LogicalOr => generate_short_circuit_or left right
  | _ =>
      left_type ← infer env left;
      right_type ← infer env right;
      right_reg ← value_of right;
      left_reg ← value_of left;
      '(left_reg, right_reg) ←
        (if (left_type =? VT_FLOAT) && (right_type =? VT_INTEGER) then
           fp_reg ← promote right_reg; mret (left_reg, fp_reg)
         else if (left_type =? VT_INTEGER) && (right_type =? VT_FLOAT) then
           fp_reg ← promote left_reg; mret (fp_reg, right_reg)
         else mret (left_reg, right_reg));
      emit_binary op ((left_type =? VT_FLOAT) || (right_type =? VT_FLOAT)) left_reg right_reg;;
      release right_reg;;
      set_result_to left_reg
  end.

(** ** Unary operators *)

Definition load_into (is_float : bool) (reg base : string) (offset : Z) (text : string) : G unit :=
  emit_ok (if is_float then create_ldr_fp_imm reg base offset else create_ldr_imm reg base offset text).

Definition load_zero (is_float : bool) (reg : string) : G unit :=
  if is_float then
    temp_zero ← scratch;
    emit_ok (create_mov_reg temp_zero "XZR");;
    emit_ok (create_scvtf_reg reg temp_zero);;
    release temp_zero
  else emit_ok (create_mov_reg reg "XZR").

(** [HD]: of a node directly, of a list through its header. *)
Definition visit_HeadOf (is_float : bool) (operand : Expression) : G unit :=
  operand_type ← infer env operand;
  ptr_reg ← value_of operand;
  result_reg ← (if is_float then rm acquire_fp_scratch_reg else scratch);
  (if operand_type =? POINTER_TO_LIST_NODE then
     end_label ← new_label;
     is_null_label ← new_label;
     emit_ok (create_cmp_imm ptr_reg 0);;
     emit_ok (create_branch_conditional "EQ" is_null_label);;
     load_into is_float result_reg ptr_reg 8 "";;
     emit_instr (create_branch_unconditional end_label);;
     define_stream_label is_null_label;;
     load_zero is_float result_reg;;
     define_stream_label end_label
   else
     node_ptr_reg ← scratch;
     end_label ← new_label;
     is_empty_label ← new_label;
     emit_ok (create_ldr_imm node_ptr_reg ptr_reg 16 "Load head pointer");;
     emit_ok (create_cmp_imm node_ptr_reg 0);;
     emit_ok (create_branch_conditional "EQ" is_empty_label);;
     load_into is_float result_reg node_ptr_reg 8 "";;
     (if negb is_float && one_of operand_type [POINTER_TO_STRING_LIST; CONST_POINTER_TO_STRING_LIST]
      then emit_ok (create_add_imm result_reg result_reg 8) else mret tt);;
     emit_instr (create_branch_unconditional end_label);;
     define_stream_label is_empty_label;;
     load_zero is_float result_reg;;
     define_stream_label end_label;;
     release node_ptr_reg);;
  set_result_to result_reg;;
  release ptr_reg.

Definition visit_TailOf (operand : Expression) : G unit :=
  header_reg ← value_of operand;
  end_tl_label ← new_label;
  not_tail_label ← new_label;
  old_head_reg ← scratch;
  new_head_reg ← scratch;
  tail_ptr_reg ← scratch;
  emit_ok (create_ldr_imm old_head_reg header_reg 16 "Load old head pointer");;
  emit_ok (create_cmp_imm old_head_reg 0);;
  emit_ok (create_branch_conditional "EQ" end_tl_label);;
  emit_ok (create_ldr_imm new_head_reg old_head_reg 16 "Load new head pointer");;
  emit_ok (create_str_imm new_head_reg header_reg 16 "Update header->head");;
  emit_ok (create_ldr_imm tail_ptr_reg header_reg 8 "Load tail pointer");;
  emit_ok (create_cmp_reg tail_ptr_reg old_head_reg);;
  emit_ok (create_branch_conditional "NE" not_tail_label);;
  emit_ok (create_str_imm "XZR" header_reg 8 "Clear tail pointer if it was the removed node");;
  define_stream_label not_tail_label;;
  emit_ok (create_mov_reg "X0" old_head_reg);;
  emit_instr (create_branch_with_link "returnNodeToFreelist");;
  define_stream_label end_tl_label;;
  set_result_to header_reg;;
  release old_head_reg;; release new_head_reg;; release tail_ptr_reg.

Definition visit_TailOfNonDestructive (operand : Expression) : G unit :=
  operand_type ← infer env operand;
  ptr_reg ← value_of operand;
  result_reg ← scratch;
  (if operand_type =? POINTER_TO_LIST_NODE then
     end_label ← new_label;
     is_null_label ← new_label;
     emit_ok (create_cmp_imm ptr_reg 0);;
     emit_ok (create_branch_conditional "EQ" is_null_label);;
     emit_ok (create_ldr_imm result_reg ptr_reg 16 "");;
     emit_instr (create_branch_unconditional end_label);;
     define_stream_label is_null_label;;
     emit_ok (create_mov_reg result_reg "XZR");;
     define_stream_label end_label
   else
     head_node_reg ← scratch;
     end_label ← new_label;
     is_null_label ← new_label;
     emit_ok (create_ldr_imm head_node_reg ptr_reg 16 "Load head pointer");;
     emit_ok (create_cmp_imm head_node_reg 0);;
     emit_ok (create_branch_conditional "EQ" is_null_label);;
     emit_ok (create_ldr_imm result_reg head_node_reg 16 "Load next pointer (the 'rest')");;
     emit_instr (create_branch_unconditional end_label);;
     define_stream_label is_null_label;;
     emit_ok (create_mov_reg result_reg "XZR");;
     define_stream_label end_label;;
     release head_node_reg);;
  set_result_to result_reg;;
  release ptr_reg.

Definition visit_TypeOf (operand : Expression) : G unit :=
  ptr_reg ← value_of operand;
  dest_reg ← scratch;
  emit_ok (create_ldr_word_imm (word_register dest_reg) ptr_reg 0);;
  release ptr_reg;;
  set_result_to dest_reg.

Definition visit_LengthOf (operand : Expression) : G unit :=
  operand_type ← infer env operand;
  payload_ptr_reg ← value_of operand;
  dest_reg ← scratch;
  (if one_of operand_type [POINTER_TO_INT_VEC; POINTER_TO_FLOAT_VEC; POINTER_TO_STRING] then
     base_addr_reg ← scratch;
     emit_ok (create_sub_imm base_addr_reg payload_ptr_reg 8);;
     emit_ok (create_ldr_imm dest_reg base_addr_reg 0 "Load vector/table/string length");;
     release base_addr_reg
   else if one_of operand_type [POINTER_TO_ANY_LIST; POINTER_TO_INT_LIST; POINTER_TO_FLOAT_LIST;
             CONST_POINTER_TO_ANY_LIST; CONST_POINTER_TO_INT_LIST; CONST_POINTER_TO_FLOAT_LIST] then
     emit_ok (create_ldr_imm dest_reg payload_ptr_reg 24 "Load list length")
   else G_throw runtime_error);;
  release payload_ptr_reg;;
  set_result_to dest_reg.

Definition float_specific (op : UnaryOperator) : bool :=
  match op with FloatConvert | FloatSqrt | FloatFloor | FloatTruncate => true | _ => false end.

(** The floating-point path; an integer operand of a float operator is converted first. *)
Definition visit_float_unary (op : UnaryOperator) (operand_reg : string) : G unit :=
  let is_float := is_fp operand_reg in
  source ← (if negb is_float && float_specific op then
              fp_reg ← rm acquire_fp_scratch_reg;
              emit_ok (create_scvtf_reg fp_reg operand_reg);;
              mret (fp_reg, true)
            else mret (operand_reg, false));
  let '(source_fp_reg, created) := (source : string * bool) in
  let finish :=
    if created then release operand_reg;; rm (release_fp_register source_fp_reg)
    else rm (release_fp_register operand_reg) in
  let into (result_reg : G string) (create : string -> result Instruction) :=
    reg ← result_reg; emit_ok (create reg);; set_result_to reg;; finish in
  match op with
  | FloatConvert =>
      set_result_to source_fp_reg;;
      if created then release operand_reg else mret tt
  | FloatSqrt => into (rm acquire_fp_scratch_reg) (fun r => create_fsqrt_reg r source_fp_reg)
  | FloatFloor => into scratch (fun r => create_fcvtms_reg r source_fp_reg)
  | FloatTruncate => into scratch (fun r => create_fcvtzs_reg r source_fp_reg)
  | Negate => into (rm acquire_fp_scratch_reg) (fun r => create_fneg_reg r source_fp_reg)
  | _ => G_throw runtime_error
  end.

Definition visit_integer_unary (op : UnaryOperator) (operand : Expression) (operand_reg : string)
    : G unit :=
  dest_reg ← scratch;
  match op with
  | AddressOf =>
      match operand with
      | VariableAccess name _ =>
          local ← frame_of (fun fr => has_local fr name);
          if (local : bool) then
            offset ← offset_of name; emit_ok (create_add_imm dest_reg "X29" offset)
          else load_address dest_reg name
      | _ => G_throw runtime_error
      end
  | Indirection => emit_ok (create_ldr_imm dest_reg operand_reg 0 "")
  | BitwiseNot => emit_ok (create_mvn_reg dest_reg operand_reg)
  | LogicalNot => emit_ok (create_cmp_reg operand_reg "XZR");; emit_ok (create_cset dest_reg "EQ")
  | Negate => emit_ok (create_sub_reg dest_reg "XZR" operand_reg)
  | _ => G_throw runtime_error
  end;;
  release operand_reg;;
  set_result_to dest_reg.

Definition visit_UnaryOp (op : UnaryOperator) (operand : Expression) : G unit :=
  match op with
  | HeadOf => visit_HeadOf false operand
  | HeadOfAsFloat => visit_HeadOf true operand
  | TailOf => visit_TailOf operand
  | TailOfNonDestructive => visit_TailOfNonDestructive operand
  | TypeOf => visit_TypeOf operand
  | LengthOf => visit_LengthOf operand
  | _ =>
      operand_reg ← value_of operand;
      if is_fp operand_reg || float_specific op then visit_float_unary op operand_reg
      else visit_integer_unary op operand operand_reg
  end.

(** ** Vectors, strings, bit fields, tables *)

(** The result of a runtime call is in X0 ([mark_register_as_used] does nothing). *)
Definition runtime_list_element (vector_expr index_expr : Expression) : G unit :=
  list_header_reg ← value_of vector_expr;
  index_reg ← value_of index_expr;
  emit_ok (create_mov_reg "X0" list_header_reg);;
  emit_ok (create_mov_reg "X1" index_reg);;
  release list_header_reg;; release index_reg;;
  emit_instr (create_branch_with_link "BCPL_LIST_GET_NTH");;
  set_result_to "X0".

Definition float_variable (e : Expression) : G bool :=
  match e with
  | VariableAccess name _ => frame_of (fun fr => is_float_variable fr name)
  | _ => mret false
  end.

Definition visit_VectorAccess (vector_expr index_expr : Expression) : G unit :=
  base_type ← infer env vector_expr;
  if one_of base_type [POINTER_TO_ANY_LIST; POINTER_TO_INT_LIST; POINTER_TO_FLOAT_LIST] then
    runtime_list_element vector_expr index_expr
  else
    vector_base_reg ← value_of vector_expr;
    index_reg ← value_of index_expr;
    effective_addr_reg ← element_address vector_base_reg index_reg 3;
    float_var ← float_variable vector_expr;
    (if (base_type =? POINTER_TO_FLOAT_VEC) || float_var then
       dest_reg ← rm acquire_fp_scratch_reg;
       emit_ok (create_ldr_fp_imm dest_reg effective_addr_reg 0);;
       set_result_to dest_reg
     else
       dest_reg ← rm get_free_register;
       emit_ok (create_ldr_imm dest_reg effective_addr_reg 0 "");;
       set_result_to dest_reg);;
    release effective_addr_reg.

(** The result is the 32-bit name of the register. *)
Definition visit_CharIndirection (string_expr index_expr : Expression) : G unit :=
  string_base_reg ← value_of string_expr;
  index_reg ← value_of index_expr;
  effective_addr_reg ← element_address string_base_reg index_reg 2;
  x_dest_reg ← rm get_free_register;
  emit_ok (create_ldr_word_imm (word_register x_dest_reg) effective_addr_reg 0);;
  release effective_addr_reg;;
  set_result_to (word_register x_dest_reg).

Definition visit_FloatVectorIndirection (vector_expr index_expr : Expression) : G unit :=
  vector_base_reg ← value_of vector_expr;
  index_reg ← value_of index_expr;
  dest_d_reg ← rm get_free_float_register;
  effective_addr_reg ← element_address vector_base_reg index_reg 3;
  emit_ok (create_ldr_fp_imm dest_d_reg effective_addr_reg 0);;
  release effective_addr_reg;;
  set_result_to dest_d_reg.

(** The [int_value] of a floating-point literal is 0. *)
Definition int_value (n : number) : Z := match n with Integer v => v | Float _ => 0 end.

(** The arguments of the bit-field encoders are [int]s. *)
Definition visit_BitfieldAccess (base_expr start_bit_expr width_expr : Expression) : G unit :=
  match start_bit_expr, width_expr with
  | NumberLiteral start_lit, NumberLiteral width_lit =>
      word_reg ← value_of base_expr;
      dest_reg ← scratch;
      emit_ok (opt_create_ubfx dest_reg word_reg (s32 (int_value start_lit)) (s32 (int_value width_lit)));;
      set_result_to dest_reg;;
      release word_reg
  | _, _ =>
      word_reg ← value_of base_expr;
      start_reg ← value_of start_bit_expr;
      width_reg ← value_of width_expr;
      shifted_reg ← scratch;
      mask_reg ← scratch;
      one_reg ← scratch;
      emit_ok (create_lsr_reg shifted_reg word_reg start_reg);;
      emit_ok (create_movz_imm one_reg 1 0 NONE "");;
      emit_ok (create_lsl_reg mask_reg one_reg width_reg);;
      emit_ok (create_sub_imm mask_reg mask_reg 1);;
      emit_ok (create_and_reg shifted_reg shifted_reg mask_reg);;
      set_result_to shifted_reg;;
      release word_reg;; release start_reg;; release width_reg;; release mask_reg;; release one_reg
  end.

Definition visit_ConditionalExpression (condition true_expr false_expr : Expression) : G unit :=
  cond_reg ← value_of condition;
  else_label ← new_label;
  end_if_label ← new_label;
  emit_ok (create_cmp_reg cond_reg "XZR");;
  emit_ok (create_branch_conditional "EQ" else_label);;
  release cond_reg;;
  true_result_reg ← value_of true_expr;
  final_result_reg ← rm get_free_register;
  (if string_empty final_result_reg then G_throw runtime_error else mret tt);;
  emit_ok (create_mov_reg final_result_reg true_result_reg);;
  release true_result_reg;;
  emit_instr (create_branch_unconditional end_if_label);;
  define_stream_label else_label;;
  false_result_reg ← value_of false_expr;
  emit_ok (create_mov_reg final_result_reg false_result_reg);;
  release false_result_reg;;
  define_stream_label end_if_label;;
  set_result_to final_result_reg.

Definition visit_TableExpression (initializers : list Expression) (is_float_table : bool) : G unit :=
  table_label ← dg (if is_float_table then add_float_table_literal initializers
                    else add_table_literal initializers);
  dest_reg ← rm get_free_register;
  load_address dest_reg table_label;;
  emit_ok (create_add_imm dest_reg dest_reg 8);;
  set_result_to dest_reg.

(** ** Allocation *)

(** A call of [BCPL_ALLOC_WORDS] with the name of the function and of the variable; the first
    of the two visitors also records the target of the call. *)
Definition visit_vector_allocation (size_expr : Expression) (variable_name target : string) : G unit :=
  size_words_reg ← value_of size_expr;
  emit_ok (create_mov_reg "X0" size_words_reg);;
  release size_words_reg;;
  name ← frame_of function_name;
  func_name_label ← dg (add_string_literal name);
  load_address "X1" func_name_label;;
  var_name_label ← dg (add_string_literal variable_name);
  load_address "X2" var_name_label;;
  offset ← of_result (get_function_offset (runtime_manager env) "BCPL_ALLOC_WORDS");
  addr_reg ← scratch;
  ldr_instr ← of_result (create_ldr_imm addr_reg "X19" offset "");
  emit_instr (set_jit_attribute JitAddress ldr_instr);;
  blr_instr ← of_result (create_branch_with_link_register addr_reg);
  emit_instr (set_label_if target (set_jit_attribute JitCall blr_instr));;
  release addr_reg;;
  set_result_to "X0".

Definition visit_VecAllocation (size_expr : Expression) (variable_name : string) : G unit :=
  visit_vector_allocation size_expr variable_name "BCPL_ALLOC_WORDS".
Definition visit_FVecAllocation (size_expr : Expression) (variable_name : string) : G unit :=
  visit_vector_allocation size_expr variable_name "".

Definition visit_StringAllocation (size_expr : Expression) : G unit :=
  size_bytes_reg ← value_of size_expr;
  emit_ok (create_mov_reg "X0" size_bytes_reg);;
  release size_bytes_reg;;
  emit_instr (create_branch_with_link "BCPL_ALLOC_CHARS");;
  set_result_to "X0".

Definition visit_VecInitializer (initializers : list Expression) : G unit :=
  emit_seq (create_movz_movk_abs64 "X0" (Z.of_nat (length initializers)) "");;
  emit_instr (create_branch_with_link "BCPL_ALLOC_WORDS");;
  vec_ptr_reg ← rm acquire_spillable_temp_reg;
  emit_ok (create_mov_reg vec_ptr_reg "X0");;
  for_indexed (fun i e =>
    value_reg ← value_of e;
    offset_reg ← scratch;
    element_addr_reg ← scratch;
    emit_seq (create_movz_movk_abs64 offset_reg (i * 8) "");;
    emit_ok (create_add_reg element_addr_reg vec_ptr_reg offset_reg);;
    emit_ok (if is_fp value_reg then create_str_fp_imm value_reg element_addr_reg 0
             else create_str_imm value_reg element_addr_reg 0 "");;
    release value_reg;; release offset_reg;; release element_addr_reg) 0 initializers;;
  set_result_to vec_ptr_reg.

Definition is_literal (e : Expression) : bool :=
  match e with
  | NumberLiteral _ | StringLiteral _ | CharLiteral _ | BooleanLiteral _ => true
  | _ => false
  end.

Definition list_append (list_header_reg : string) (expr : Expression) : G unit :=
  value_reg ← value_of expr;
  expr_type ← infer env expr;
  emit_ok (create_mov_reg "X0" list_header_reg);;
  (if is_fp value_reg then
     emit_ok (create_fmov_reg "D1" value_reg);;
     emit_instr (create_branch_with_link "BCPL_LIST_APPEND_FLOAT")
   else
     emit_ok (create_mov_reg "X1" value_reg);;
     emit_instr (create_branch_with_link
       (if expr_type =? POINTER_TO_STRING then "BCPL_LIST_APPEND_STRING"
        else if one_of expr_type [POINTER_TO_ANY_LIST; POINTER_TO_INT_LIST; POINTER_TO_FLOAT_LIST;
                  POINTER_TO_STRING_LIST] then "BCPL_LIST_APPEND_LIST"
        else "BCPL_LIST_APPEND_INT")));;
  release value_reg.

Definition visit_ListExpression (initializers : list Expression) (is_manifest : bool) : G unit :=
  if forallb is_literal initializers then
    list_label ← dg (add_list_literal (ListExpression initializers is_manifest));
    if is_manifest then
      reg ← rm get_free_register;
      load_address reg list_label;;
      set_result_to reg
    else
      load_address "X0" list_label;;
      emit_instr (create_branch_with_link "DEEPCOPYLITERALLIST");;
      set_result_to "X0"
  else
    emit_instr (create_branch_with_link "BCPL_LIST_CREATE_EMPTY");;
    list_header_reg ← rm acquire_callee_saved_temp_reg;
    emit_ok (create_mov_reg list_header_reg "X0");;
    for_all (list_append list_header_reg) initializers;;
    set_result_to list_header_reg.
End visitors.
