(* ===== verification/CodegenCalls.v ===== *)
(** * The code generator: calls

    The visitors of system calls, function calls and routine calls
    (src/generators/gen_Syscall.cpp, gen_FunctionCall.cpp, gen_RoutineCallStatement.cpp). *)

From S2P Require Import Prelude Words A64 Instr EncReg EncArith EncMem EncBranch EncFloat Labels CallFrame Registers Ast SymbolTable Analysis Data Codegen CodegenExpr.
Local Open Scope Z_scope.

Section visitors.
Context (env : environment).
Context (generate_expression_code : Expression -> G unit).

Let value_of := value_of generate_expression_code.

(** A register number after its letter. *)
Definition numbered (letter : string) (i : Z) : string := (letter ++ to_string i)%string.

Definition release_if_scratch (reg : string) : G unit :=
  if is_scratch_register reg then rm (release_scratch_reg reg) else mret tt.

Definition syscall_argument (arg_count : Z) (arg_expr : Expression) : G unit :=
  arg_val_reg ← value_of arg_expr;
  if arg_count <? 6 then
    let dest_arg_reg := numbered "X" arg_count in
    if String.eqb arg_val_reg dest_arg_reg then mret tt
    else emit_ok (create_mov_reg dest_arg_reg arg_val_reg);; release_if_scratch arg_val_reg
  else G_throw runtime_error.

Definition visit_SysCall (syscall_number : Expression) (arguments : list Expression) : G unit :=
  for_indexed syscall_argument 0 arguments;;
  syscall_num_reg ← value_of syscall_number;
  emit_ok (create_mov_reg "X16" syscall_num_reg);;
  release_if_scratch syscall_num_reg;;
  emit_instr (create_svc_imm 0x80);;
  set_result_to "X0".

(** ** Calls of known functions that need no call *)

Definition ATOM_INT : Z := 1.
Definition ATOM_FLOAT : Z := 2.
Definition ATOM_STRING : Z := 3.
Definition ATOM_LIST_POINTER : Z := 4.

Definition expected_tag (function_name : string) : option Z :=
  if String.eqb function_name "AS_INT" then Some ATOM_INT
  else if String.eqb function_name "AS_FLOAT" then Some ATOM_FLOAT
  else if String.eqb function_name "AS_STRING" then Some ATOM_STRING
  else if String.eqb function_name "AS_LIST" then Some ATOM_LIST_POINTER
  else None.

(** [AS_INT(x)] and the like: the tag of a list element is checked and its value loaded. *)
Definition visit_type_cast (tag : Z) (arguments : list Expression) : G unit :=
  match arguments with
  | [a] =>
      ptr_reg ← value_of a;
      tag_reg ← scratch;
      good_type_label ← new_label;
      emit_ok (create_ldr_imm tag_reg ptr_reg 0 "Load runtime type tag");;
      emit_ok (create_cmp_imm tag_reg tag);;
      release tag_reg;;
      emit_ok (create_branch_conditional "EQ" good_type_label);;
      emit_ok (create_brk 1);;
      define_stream_label good_type_label;;
      (if tag =? ATOM_FLOAT then
         dest_d_reg ← rm acquire_fp_scratch_reg;
         emit_ok (create_ldr_fp_imm dest_d_reg ptr_reg 8);;
         set_result_to dest_d_reg
       else
         dest_x_reg ← scratch;
         emit_ok (create_ldr_imm dest_x_reg ptr_reg 8 "");;
         (if tag =? ATOM_STRING then emit_ok (create_add_imm dest_x_reg dest_x_reg 8) else mret tt);;
         set_result_to dest_x_reg);;
      release ptr_reg
  | _ => G_throw runtime_error
  end.

Definition list_argument (e : Expression) : G unit :=
  reg ← value_of e;
  emit_ok (create_mov_reg "X0" reg);;
  release reg.

(** [FMOV] only moves between D registers: a floating-point value is refused. *)
Definition visit_find (list_expr value_expr : Expression) : G unit :=
  list_argument list_expr;;
  value_reg ← value_of value_expr;
  value_type ← infer env value_expr;
  emit_ok (if is_fp value_reg then create_fmov_reg "X1" value_reg else create_mov_reg "X1" value_reg);;
  release value_reg;;
  emit_seq (create_movz_movk_abs64 "X2" (if value_type =? VT_FLOAT then ATOM_FLOAT else ATOM_INT) "");;
  emit_instr (create_branch_with_link "FIND");;
  set_result_to "X0".

(** [MAP] and [FILTER] take the address of a named function. *)
Definition visit_higher_order (name : string) (list_expr function_arg : Expression) : G unit :=
  list_argument list_expr;;
  match function_arg with
  | VariableAccess function_name _ => load_address "X1" function_name
  | _ => G_throw runtime_error
  end;;
  emit_instr (create_branch_with_link name);;
  set_result_to "X0".

(** ** Function calls *)

Definition evaluate_argument (e : Expression) : G string :=
  reg ← value_of e;
  if is_fp reg then
    temp_reg ← rm acquire_spillable_fp_temp_reg;
    emit_ok (create_fmov_reg temp_reg reg);;
    mret temp_reg
  else
    temp_reg ← rm acquire_spillable_temp_reg;
    emit_ok (create_mov_reg temp_reg reg);;
    mret temp_reg.

(** The types the symbol table does not give: those of the analyzer, then of the runtime. *)
Definition legacy_float_call (name : string) : result bool :=
  match function_return_types env !! name with
  | Some t => Ok (t =? VT_FLOAT)
  | None =>
      if is_function_registered (runtime_manager env) name then
        f ← get_function (runtime_manager env) name;
        Ok (match rf_type f with FLOAT => true | STANDARD => false end)
      else Ok false
  end.

Definition function_expr_name (e : Expression) : option string :=
  match e with VariableAccess name _ => Some name | _ => None end.

(** An empty name is not looked up. *)
Definition is_float_call (function_expr : Expression) : G bool :=
  match function_expr_name function_expr with
  | None => mret false
  | Some name =>
      symbol ← (if string_empty name then mret None else find_symbol name);
      match symbol with
      | Some s => mret (is_float_function s)
      | None => of_result (legacy_float_call name)
      end
  end.

Definition move_argument (is_float_call : bool) (i : Z) (src_reg : string) : G unit :=
  (if is_float_call then
     let dest_d_reg := numbered "D" i in
     if is_fp src_reg then
       if String.eqb src_reg dest_d_reg then mret tt else emit_ok (create_fmov_reg dest_d_reg src_reg)
     else emit_ok (create_scvtf_reg dest_d_reg src_reg)
   else
     let dest_x_reg := numbered "X" i in
     if is_fp src_reg then generate_float_to_int_truncation dest_x_reg src_reg
     else if String.eqb src_reg dest_x_reg then mret tt
     else emit_ok (create_mov_reg dest_x_reg src_reg));;
  release src_reg.

(** [FPND(list, value)]: the value goes to D1. *)
Definition move_fpnd_argument (i : Z) (src_reg : string) : G unit :=
  (if i =? 0 then emit_ok (create_mov_reg "X0" src_reg)
   else if i =? 1 then
     emit_ok (if is_fp src_reg then create_fmov_reg "D1" src_reg else create_scvtf_reg "D1" src_reg)
   else mret tt);;
  release src_reg.

(** [codegen_utils::is_within_branch_range] *)
Definition is_within_branch_range (current_address target_address : Z) : bool :=
  let offset := s64 (u64 (target_address - current_address)) in
  (- 2 ^ 25 <=? offset) && (offset <=? 2 ^ 25 - 1).

(** A call through the pointer table at X19. *)
Definition call_through_table (name : string) : G unit :=
  offset ← of_result (get_function_offset (runtime_manager env) name);
  addr_reg ← scratch;
  ldr_instr ← of_result (create_ldr_imm addr_reg "X19" offset "");
  emit_instr (set_jit_attribute JitAddress ldr_instr);;
  blr_instr ← of_result (create_branch_with_link_register addr_reg);
  emit_instr (annotate (" ; call " ++ name)
    (set_target_label name (set_jit_attribute JitCall blr_instr)));;
  release addr_reg.

Definition call_runtime (name : string) : G unit :=
  f ← of_result (get_function (runtime_manager env) name);
  current_address ← G_get (fun c => get_current_address (mkInstructionStream (emitted (gen c))));
  if negb (rf_address f =? 0) && negb (current_address =? 0)
     && is_within_branch_range current_address (rf_address f)
  then emit_instr (set_jit_attribute JitCall (create_branch_with_link name))
  else call_through_table name.

Definition call_pointer (e : Expression) : G unit :=
  reg ← value_of e;
  blr_instr ← of_result (create_branch_with_link_register reg);
  emit_instr (set_jit_attribute JitCall blr_instr);;
  release reg.

Definition perform_call (function_expr : Expression) : G unit :=
  match function_expr with
  | VariableAccess name _ =>
      if bool_decide (is_Some (function_metrics env !! name)) then
        emit_instr (create_branch_with_link name)
      else if is_function_registered (runtime_manager env) name then call_runtime name
      else
        reg ← value_of function_expr;
        emit_ok (create_branch_with_link_register reg);;
        release reg
  | _ => call_pointer function_expr
  end.

Definition visit_call (function_expr : Expression) (arguments : list Expression) : G unit :=
  let name := default ""%string (function_expr_name function_expr) in
  arg_result_regs ← map_all evaluate_argument arguments;
  float_call ← is_float_call function_expr;
  for_indexed (if String.eqb name "FPND" then move_fpnd_argument else move_argument float_call) 0
    arg_result_regs;;
  perform_call function_expr;;
  set_result_to (if (float_call : bool) then "D0" else "X0")%string.

Definition visit_FunctionCall (function_expr : Expression) (arguments : list Expression) : G unit :=
  let function_name := default ""%string (function_expr_name function_expr) in
  match expected_tag function_name with
  | Some tag => visit_type_cast tag arguments
  | None =>
      match arguments with
      | [a; b] =>
          if String.eqb function_name "FIND" then visit_find a b
          else if String.eqb function_name "MAP" || String.eqb function_name "FILTER" then
            visit_higher_order function_name a b
          else visit_call function_expr arguments
      | _ => visit_call function_expr arguments
      end
  end.

(** ** Routine calls *)

Fixpoint push_pairs (regs : list string) : G unit :=
  match regs with
  | [] => mret tt
  | [reg] => emit_ok (create_stp_pre_imm reg "ZR" "SP" (-16))
  | reg1 :: reg2 :: regs => emit_ok (create_stp_pre_imm reg1 reg2 "SP" (-16));; push_pairs regs
  end.

(** The loop runs down from the last index in steps of two; an odd list runs out of pairs at
    its first register. *)
Fixpoint pop_pairs (fuel : nat) (i : Z) (regs : list string) : G unit :=
  match fuel with
  | O => mret tt
  | S fuel =>
      if i <? 0 then mret tt
      else
        let at_index k := nth (Z.to_nat k) regs ""%string in
        (if (i =? 0) && Z.odd (Z.of_nat (length regs)) then
           emit_ok (create_ldp_post_imm (at_index 0) "ZR" "SP" 16)
         else if i - 1 <? 0 then G_throw runtime_error
         else emit_ok (create_ldp_post_imm (at_index (i - 1)) (at_index i) "SP" 16));;
        pop_pairs fuel (i - 2) regs
  end.

Definition save_caller_saved : G (list string) :=
  rm reset_caller_saved_registers;;
  saved_regs ← rm (get get_in_use_caller_saved_registers);
  push_pairs saved_regs;;
  (if Nat.odd (length saved_regs) then emit_ok (create_sub_imm "SP" "SP" 16) else mret tt);;
  mret saved_regs.

Definition restore_caller_saved (saved_regs : list string) : G unit :=
  (if Nat.odd (length saved_regs) then emit_ok (create_add_imm "SP" "SP" 16) else mret tt);;
  pop_pairs (length saved_regs) (Z.of_nat (length saved_regs) - 1) saved_regs.

(** The symbol table, then the analyzer, then the runtime. *)
Definition is_float_routine (routine_expr : Expression) : G bool :=
  match function_expr_name routine_expr with
  | None => mret false
  | Some name =>
      symbol ← find_symbol name;
      match symbol with
      | Some s => mret (is_float_function s)
      | None => of_result (legacy_float_call name)
      end
  end.

Definition perform_routine_call (routine_expr : Expression) : G unit :=
  match routine_expr with
  | VariableAccess name _ =>
      if is_function_registered (runtime_manager env) name then call_through_table name
      else if bool_decide (is_Some (function_metrics env !! name)) then
        emit_instr (create_branch_with_link name)
      else call_pointer routine_expr
  | _ => call_pointer routine_expr
  end.

Definition visit_RoutineCall (routine_expr : Expression) (arguments : list Expression) : G unit :=
  saved_regs ← save_caller_saved;
  arg_result_regs ← map_all value_of arguments;
  float_call ← is_float_routine routine_expr;
  for_indexed (move_argument float_call) 0 arg_result_regs;;
  perform_routine_call routine_expr;;
  restore_caller_saved saved_regs;;
  set_result_to (if (float_call : bool) then "D0" else "X0")%string.
End visitors.
