(* ===== verification/CodegenStmt.v ===== *)
(** * The code generator: statements, blocks, functions

    The visitors of the statements and declarations (src/generators/), the branches between
    basic blocks ([generate_block_epilogue]), functions ([generate_function_like_code]) and
    programs, and the dispatchers that tie the visitors together.  [accept] is a call of
    the visitor of the node's class; the recursion through it is bounded by a fuel. *)

From Stdlib Require Import SpecFloat.
From S2P Require Import Prelude Words A64 Instr EncReg EncArith EncMem EncBranch EncFloat Labels CallFrame Registers Functions Ast SymbolTable Analysis Cfg Data Codegen CodegenExpr CodegenCalls.
Local Open Scope Z_scope.

(** ** Control-flow graphs *)

(** A block as the generator reads it: its successors by their identifiers. *)
Record BasicBlock : Type := mkBlock {
  block_id : string;
  block_statements : list Statement;
  block_successors : list string;
  block_is_entry : bool
}.

(** The entry block first, the others by identifier. *)
Definition comes_before (a b : BasicBlock) : bool :=
  block_is_entry a || (negb (block_is_entry b) && String.ltb (block_id a) (block_id b)).
Fixpoint insert_block (b : BasicBlock) (l : list BasicBlock) : list BasicBlock :=
  match l with
  | [] => [b]
  | x :: l' => if comes_before b x then b :: l else x :: insert_block b l'
  end.
Definition sort_blocks (l : list BasicBlock) : list BasicBlock := foldr insert_block [] l.

Section visitors.
Context (env : environment) (cfgs : gmap string (list BasicBlock)).
Context (generate_expression_code : Expression -> G unit).
Context (generate_statement_code : Statement -> G unit).

Let value_of := value_of generate_expression_code.

(** ** Assignment *)

Definition handle_vector_assignment (vector_expr index_expr : Expression) (value_to_store_reg : string)
    : G unit :=
  vector_base_reg ← value_of vector_expr;
  index_reg ← value_of index_expr;
  effective_addr_reg ← element_address vector_base_reg index_reg 3;
  emit_ok (create_str_imm value_to_store_reg effective_addr_reg 0 "");;
  release value_to_store_reg;; release effective_addr_reg.

Definition handle_char_indirection_assignment (string_expr index_expr : Expression)
    (value_to_store_reg : string) : G unit :=
  string_base_reg ← value_of string_expr;
  index_reg ← value_of index_expr;
  effective_addr_reg ← element_address string_base_reg index_reg 2;
  emit_ok (create_str_word_imm value_to_store_reg effective_addr_reg 0);;
  release value_to_store_reg;; release effective_addr_reg.

Definition handle_float_vector_indirection_assignment (vector_expr index_expr : Expression)
    (value_to_store_reg : string) : G unit :=
  base_reg ← value_of vector_expr;
  index_reg ← value_of index_expr;
  effective_addr_reg ← element_address base_reg index_reg 3;
  emit_ok (create_str_fp_imm value_to_store_reg effective_addr_reg 0);;
  release effective_addr_reg.

Definition handle_indirection_assignment (op : UnaryOperator) (operand : Expression)
    (value_to_store_reg : string) : G unit :=
  match op with
  | Indirection =>
      pointer_addr_reg ← value_of operand;
      emit_ok (create_str_imm value_to_store_reg pointer_addr_reg 0 "");;
      release pointer_addr_reg
  | _ => G_throw runtime_error
  end.

Definition assign_float_vector (vector_expr index_expr : Expression) (value_to_store_reg : string)
    : G unit :=
  store_reg ← (if is_fp value_to_store_reg then mret value_to_store_reg
               else promote value_to_store_reg);
  base_reg ← value_of vector_expr;
  index_reg ← value_of index_expr;
  effective_addr_reg ← element_address base_reg index_reg 3;
  emit_ok (create_str_fp_imm store_reg effective_addr_reg 0);;
  release effective_addr_reg;; release store_reg.

Definition assign_to_base (base_expr : Expression) (reg : string) : G unit :=
  match base_expr with
  | VariableAccess name _ => handle_variable_assignment name reg
  | _ => G_throw runtime_error
  end.

Definition assign_bitfield (base_expr start_bit_expr width_expr : Expression) (value_reg : string)
    : G unit :=
  match start_bit_expr, width_expr with
  | NumberLiteral start_lit, NumberLiteral width_lit =>
      dest_reg ← value_of base_expr;
      emit_ok (opt_create_bfi dest_reg value_reg (s32 (int_value start_lit)) (s32 (int_value width_lit)));;
      assign_to_base base_expr dest_reg;;
      release dest_reg;; release value_reg
  | _, _ =>
      word_reg ← value_of base_expr;
      start_reg ← value_of start_bit_expr;
      width_reg ← value_of width_expr;
      mask_reg ← scratch;
      one_reg ← scratch;
      write_mask_reg ← scratch;
      emit_ok (create_movz_imm one_reg 1 0 NONE "");;
      emit_ok (create_lsl_reg mask_reg one_reg width_reg);;
      emit_ok (create_sub_imm mask_reg mask_reg 1);;
      emit_ok (create_lsl_reg write_mask_reg mask_reg start_reg);;
      emit_ok (create_bic_reg word_reg word_reg write_mask_reg);;
      emit_ok (create_and_reg value_reg value_reg mask_reg);;
      emit_ok (create_lsl_reg value_reg value_reg start_reg);;
      emit_ok (create_orr_reg word_reg word_reg value_reg);;
      assign_to_base base_expr word_reg;;
      for_all release [word_reg; start_reg; width_reg; mask_reg; one_reg; write_mask_reg; value_reg]
  end.

Definition assign_one (lhs : Expression) (value_reg : string) : G unit :=
  match lhs with
  | BitfieldAccessExpression b s w => assign_bitfield b s w value_reg
  | VariableAccess name _ => handle_variable_assignment name value_reg
  | VectorAccess v i =>
      vec_type ← infer env v;
      if vec_type =? POINTER_TO_FLOAT_VEC then assign_float_vector v i value_reg
      else handle_vector_assignment v i value_reg
  | CharIndirection s i => handle_char_indirection_assignment s i value_reg
  | FloatVectorIndirection v i => handle_float_vector_indirection_assignment v i value_reg
  | UnaryOp op a => handle_indirection_assignment op a value_reg
  | _ => G_throw runtime_error
  end.

(** All right-hand sides are evaluated before the first store. *)
Definition visit_Assignment (lhs rhs : list Expression) : G unit :=
  if negb (Nat.eqb (length lhs) (length rhs)) then G_throw runtime_error
  else
    rhs_result_regs ← map_all value_of rhs;
    for_all (fun p => assign_one p.1 p.2) (combine lhs rhs_result_regs).

(** The initializers are cloned. *)
Definition visit_Let (names : list string) (initializers : list Expression) : G unit :=
  if negb (Nat.eqb (length names) (length initializers)) then G_throw runtime_error
  else visit_Assignment (List.map (fun n => VariableAccess n "") names) (List.map clone_expr initializers).

(** ** Other statements *)

Definition free_function (e : Expression) : option string :=
  match e with
  | ListExpression _ _ => Some "BCPL_FREE_LIST"%string
  | VecAllocationExpression _ _ | FVecAllocationExpression _ _ => Some "FREEVEC"%string
  | _ => None
  end.

Definition visit_Free (list_expr : Expression) : G unit :=
  if match list_expr with VariableAccess n _ => String.eqb (upper n) "CELLS" | _ => false end then
    emit_instr (create_branch_with_link "BCPL_FREE_CELLS")
  else
    ptr_reg ← value_of list_expr;
    (if String.eqb ptr_reg "X0" then mret tt
     else emit_ok (create_mov_reg "X0" ptr_reg);; release ptr_reg);;
    match free_function list_expr with
    | None => G_throw runtime_error
    | Some runtime_func =>
        offset ← of_result (get_function_offset (runtime_manager env) runtime_func);
        addr_reg ← scratch;
        ldr_instr ← of_result (create_ldr_imm addr_reg "X19" offset "");
        emit_instr (set_jit_attribute JitAddress ldr_instr);;
        blr_instr ← of_result (create_branch_with_link_register addr_reg);
        emit_instr (set_target_label runtime_func (set_jit_attribute JitCall blr_instr));;
        release addr_reg
    end.

Definition branch_to_epilogue : G unit :=
  label ← G_get current_function_epilogue_label;
  emit_instr (create_branch_unconditional label).

Definition is_float_literal (e : Expression) : bool :=
  match e with NumberLiteral (Float _) => true | _ => false end.

Definition visit_Resultis (expression : Expression) : G unit :=
  result_reg ← value_of expression;
  return_type ← G_get current_function_return_type;
  let should_be_float := (return_type =? VT_FLOAT) || is_float_literal expression in
  (if should_be_float || is_fp result_reg then
     result_reg ← (if negb (is_fp result_reg) && should_be_float then promote result_reg
                   else mret result_reg);
     (if String.eqb result_reg "D0" then mret tt
      else emit_ok (create_fmov_reg "D0" result_reg);; release result_reg);;
     set_result_to "D0"
   else
     (if String.eqb result_reg "X0" then mret tt
      else emit_ok (create_mov_reg "X0" result_reg);; release result_reg);;
     set_result_to "X0");;
  branch_to_epilogue.

Definition visit_StringStatement (size_expr : Expression) : G unit :=
  size_bytes_reg ← value_of size_expr;
  emit_ok (create_mov_reg "X0" size_bytes_reg);;
  release size_bytes_reg;;
  emit_instr (create_branch_with_link "BCPL_ALLOC_CHARS").

Definition inverse_condition (op : BinaryOperator) : option string :=
  match op with
  | Equal => Some "NE"%string
  | NotEqual => Some "EQ"%string
  | Less => Some "GE"%string
  | LessEqual => Some "GT"%string
  | Greater => Some "LE"%string
  | GreaterEqual => Some "LT"%string
  | _ => None
  end.

(** The code of [UNTIL] outside a control-flow graph. *)
Definition visit_Until (condition : Expression) (body : Statement) : G unit :=
  loop_label ← new_label;
  check_label ← new_label;
  define_stream_label loop_label;;
  generate_statement_code body;;
  define_stream_label check_label;;
  cond_reg ← value_of condition;
  match match condition with BinaryOp op _ _ => inverse_condition op | _ => None end with
  | Some cond => emit_ok (create_branch_conditional cond loop_label)
  | None =>
      emit_ok (create_cmp_reg cond_reg "XZR");;
      emit_ok (create_branch_conditional "EQ" loop_label);;
      release cond_reg
  end.

Definition enter_scope : G unit :=
  G_modify (fun c => set_function (current_function_name c) (current_function_return_type c)
    (current_function_epilogue_label c) (x28_is_loaded c) (S (scope_depth c)) c).
Definition exit_scope : G unit :=
  depth ← G_get scope_depth;
  match depth with
  | O => G_throw runtime_error
  | S depth => G_modify (fun c => set_function (current_function_name c)
                 (current_function_return_type c) (current_function_epilogue_label c)
                 (x28_is_loaded c) depth c)
  end.

(** ** The end of a basic block *)

Definition test_condition (condition : Expression) : G unit :=
  cond_reg ← value_of condition;
  emit_ok (create_cmp_reg cond_reg "XZR");;
  release cond_reg.

(** A conditional branch to one successor, then a branch to the other. *)
Definition branch_on (cond taken other : string) : G unit :=
  emit_ok (create_branch_conditional cond taken);;
  emit_instr (create_branch_unconditional other).

(** Reading past the end of the successors is undefined. *)
Definition successor (block : BasicBlock) (i : nat) : G string :=
  match block_successors block !! i with Some s => mret s | None => G_undefined end.

Definition switch_branches (block : BasicBlock) (expression : Expression) (cases : list CaseClause)
    (has_default : bool) : G unit :=
  switch_reg ← value_of expression;
  for_indexed (fun i c =>
    let '(mkCase _ _ value) := c in
    match value with
    | None => G_throw runtime_error
    | Some case_value =>
        emit_ok (create_cmp_imm switch_reg (s32 case_value));;
        target ← successor block (Z.to_nat i);
        emit_ok (create_branch_conditional "EQ" target)
    end) 0 cases;;
  target ← (if has_default then successor block (length cases)
            else match list.last (block_successors block) with Some s => mret s | None => G_undefined end);
  emit_instr (create_branch_unconditional target);;
  release switch_reg.

Definition for_condition (loop_variable : string) (end_expr : Expression) : G unit :=
  loop_var_reg ← scratch;
  offset ← offset_of loop_variable;
  emit_ok (create_ldr_imm loop_var_reg "X29" offset loop_variable);;
  end_reg ← value_of end_expr;
  emit_ok (create_cmp_reg loop_var_reg end_reg);;
  release loop_var_reg;; release end_reg.

Definition two_way_branch (block : BasicBlock) (s0 s1 : string) : G unit :=
  match list.last (block_statements block) with
  | Some (IfStatement c _) | Some (TestStatement c _ _) | Some (WhileStatement c _) =>
      test_condition c;; branch_on "EQ" s1 s0
  | Some (UnlessStatement c _) | Some (UntilStatement c _) =>
      test_condition c;; branch_on "NE" s1 s0
  | Some (ConditionalBranchStatement cond _ condition_expr) =>
      match condition_expr with
      | Some c => test_condition c;; branch_on cond s1 s0
      | None => G_undefined
      end
  | Some (ForStatement _ unique_name _ _ _ end_expr _ _) =>
      for_condition unique_name end_expr;; branch_on "GT" s1 s0
  | Some (RepeatStatement RepeatWhile _ condition) =>
      match condition with Some c => test_condition c;; branch_on "EQ" s1 s0 | None => G_undefined end
  | Some (RepeatStatement RepeatUntil _ condition) =>
      match condition with Some c => test_condition c;; branch_on "NE" s0 s1 | None => G_undefined end
  | Some (RepeatStatement Repeat _ _) => emit_instr (create_branch_unconditional s0)
  | Some (SwitchonStatement e cases default_case) =>
      switch_branches block e cases (if default_case is Some _ then true else false)
  | _ => G_throw runtime_error
  end.

Definition generate_block_epilogue (block : BasicBlock) : G unit :=
  match block_successors block with
  | [] => if ends_with_control_flow (block_statements block) then mret tt else branch_to_epilogue
  | [s] => emit_instr (create_branch_unconditional s)
  | [s0; s1] => two_way_branch block s0 s1
  | _ =>
      match list.last (block_statements block) with
      | Some (SwitchonStatement e cases default_case) =>
          switch_branches block e cases (if default_case is Some _ then true else false)
      | _ => G_throw runtime_error
      end
  end.

Definition generate_block (block : BasicBlock) : G unit :=
  define_stream_label (block_id block);;
  for_all generate_statement_code (block_statements block);;
  generate_block_epilogue block.

(** ** Functions *)

(** A [std::map] in the order of its keys. *)
Definition sorted_entries (m : gmap string VarType) : list (string * VarType) :=
  List.map (fun n => (n, default VT_UNKNOWN (m !! n))) (sort_strings (map_to_list m).*1).

Definition parameter_type (name : string) (t : option SymbolTable) (param_name : string) : VarType :=
  match t with
  | Some t => match SymbolTable.lookup param_name t with Some s => type s | None => VT_INTEGER end
  | None =>
      match function_metrics env !! name with
      | Some m => default VT_UNKNOWN (metrics_variable_types m !! param_name)
      | None => VT_UNKNOWN
      end
  end.

(** Incoming parameters: where the first eight are, then their first stores. *)
Definition prime_parameter (types : gmap string VarType) (i : Z) (name : string) : G unit :=
  let is_float := is_float_type (default VT_INTEGER (types !! name)) in
  allocate name
    (if i <? 8 then new_interval name false (numbered (if is_float then "D" else "X") i) (-1)
     else new_interval name true "" (-1)).

Definition store_parameter (types : gmap string VarType) (i : Z) (name : string) : G unit :=
  if i <? 8 then
    offset ← offset_of name;
    if is_float_type (default VT_INTEGER (types !! name))
    then emit_ok (create_str_fp_imm (numbered "D" i) "X29" offset)
    else emit_ok (create_str_imm (numbered "X" i) "X29" offset name)
  else mret tt.

(** The second store of every parameter goes by the type the function returns. *)
Definition store_argument (i : Z) (name : string) : G unit :=
  offset ← offset_of name;
  return_type ← G_get current_function_return_type;
  if return_type =? VT_FLOAT then emit_ok (create_str_fp_imm (numbered "D" i) "X29" offset)
  else emit_ok (create_str_imm (numbered "X" i) "X29" offset name).

Definition update_spill_offset (p : string * LiveInterval) : G unit :=
  let '(name, interval) := p in
  global ← G_get (fun c => is_global_variable name (data_generator c));
  if existsb (String.eqb name) ["WRITES"; "WRITEN"; "WRITEF"; "READN"]%string || (global : bool) then
    mret tt
  else if is_spilled interval && (stack_offset interval =? -1) then
    local ← frame_of (fun fr => has_local fr name);
    function ← G_get current_function_name;
    (if (local : bool) then mret tt
     else on_frame_manager (fun fr => add_local fr name
            (default VT_UNKNOWN (m ← function_metrics env !! function; metrics_variable_types m !! name))));;
    catch_runtime (offset ← offset_of name; allocate name (set_stack_offset offset interval)) (mret tt)
  else mret tt.

Definition update_spill_offsets : G unit :=
  allocation ← G_get current_function_allocation;
  for_all update_spill_offset (map_to_list allocation).

(** Every slot of the frame that has no interval becomes a spilled variable. *)
Definition register_locals : G unit :=
  offsets ← frame_of variable_offsets;
  G_modify (fun c => set_allocation (current_function_allocation c ∪
    map_imap (fun name offset => Some (new_interval name true "" offset)) offsets) c).

Definition load_global_pointers : G unit :=
  (if is_jit_mode env then
     if data_segment_base_addr env =? 0 then G_throw runtime_error
     else emit_seq (create_movz_movk_jit_addr "X28" (data_segment_base_addr env) "L__data_segment_base")
   else load_address "X28" "L__data_segment_base");;
  G_modify (fun c => set_function (current_function_name c) (current_function_return_type c)
    (current_function_epilogue_label c) true (scope_depth c) c);;
  offset_reg ← scratch;
  emit_seq (create_movz_movk_abs64 offset_reg 524288 "");;
  emit_ok (create_add_reg "X19" "X28" offset_reg);;
  release offset_reg.

Definition generate_function_like_code (name : string) (parameters : list string) : G unit :=
  let metrics := function_metrics env !! name in
  let globals := match metrics with Some m => accesses_globals m | None => false end in
  let types := match metrics with Some m => metrics_parameter_types m | None => ∅ end in
  G_modify (set_allocation ∅);;
  return_type ← of_result (match function_return_types env !! name with
                           | Some t => Ok t | None => Throw out_of_range end);
  epilogue_label ← new_label;
  depth ← G_get scope_depth;
  G_modify (set_function name return_type epilogue_label false depth);;
  define_stream_label name;;
  table ← G_get symbol_table;
  rm (prepare_function (canaries env) name globals
        (List.map (fun p => (p, parameter_type name table p)) parameters)
        (match metrics with Some m => sorted_entries (metrics_variable_types m) | None => [] end)
        (match metrics with Some m => max_live_variables m | None => 0 end));;
  enter_scope;;
  (if metrics is Some _ then
     for_indexed (prime_parameter types) 0 parameters;;
     for_indexed (store_parameter types) 0 parameters
   else mret tt);;
  update_spill_offsets;;
  register_locals;;
  (if globals then load_global_pointers else mret tt);;
  for_indexed store_argument 0 parameters;;
  match cfgs !! name with
  | None => G_throw runtime_error
  | Some blocks =>
      for_all generate_block (sort_blocks blocks);;
      define_stream_label epilogue_label;;
      fr ← frame_of (fun fr => generate_epilogue (canaries env) fr);
      emit_seq fr;;
      exit_scope
  end.

(** ** Declarations *)

(** The label is defined where the code is, the word goes to the data segment. *)
Definition visit_Static (initializer : Expression) : G unit :=
  static_label ← new_label;
  define_stream_label static_label;;
  value ← of_result (match initializer with
                     | NumberLiteral (Integer v) => Ok (u64 v)
                     | NumberLiteral (Float _) | StringLiteral _ | CharLiteral _ | BooleanLiteral _ =>
                         Throw runtime_error
                     | _ => Ok 0
                     end);
  emit_list (instructions (add_data64 (mkInstructionStream []) value static_label Instr.DATA)).

Definition global_initializers (names : list string) (initializers : list Expression)
    : list (string * option Expression) :=
  imap (fun i n => (n, initializers !! i)) names.

Definition add_global (p : string * option Expression) : G unit :=
  G_modify (fun c => set_data (add_global_variable p.1 p.2 (data_generator c)) (symbol_table c) c).

Definition visit_declaration (d : Declaration) : G unit :=
  match d with
  | ManifestDeclaration _ _ => mret tt
  | StaticDeclaration _ initializer _ => visit_Static initializer
  | GlobalDeclaration globals => for_all (fun p => add_global (p.1, None)) globals
  | GlobalVariableDeclaration names initializers _ =>
      for_all add_global (global_initializers names initializers)
  | FunctionDeclaration name parameters _ | RoutineDeclaration name parameters _ =>
      generate_function_like_code name parameters
  | LabelDeclaration _ command => generate_statement_code command
  end.

(** A function declared in a block leaves no frame manager for the function around it. *)
Definition visit_block_declaration (d : Declaration) : G unit :=
  visit_declaration d;;
  match d with
  | FunctionDeclaration _ _ _ | RoutineDeclaration _ _ _ => G_undefined
  | _ => mret tt
  end.

Definition visit_Block (declarations : list Declaration) (statements : list Statement) : G unit :=
  enter_scope;;
  for_all visit_block_declaration declarations;;
  for_all generate_statement_code statements;;
  exit_scope.

(** Statements the control-flow graph stands for generate nothing themselves. *)
Definition visit_statement (s : Statement) : G unit :=
  match s with
  | LetDeclaration names initializers _ => visit_Let names initializers
  | AssignmentStatement lhs rhs => visit_Assignment lhs rhs
  | FreeStatement e => visit_Free e
  | RoutineCallStatement e args => visit_RoutineCall env generate_expression_code e args
  | UntilStatement condition body => visit_Until condition body
  | FinishStatement _ _ =>
      visit_SysCall generate_expression_code (NumberLiteral (Integer 0x2000001)) [NumberLiteral (Integer 0)]
  | ReturnStatement => branch_to_epilogue
  | BrkStatement => emit_ok (create_brk 0)
  | ResultisStatement e => visit_Resultis e
  | CompoundStatement l => for_all generate_statement_code l
  | BlockStatement declarations statements => visit_Block declarations statements
  | StringStatement e => visit_StringStatement e
  | ForEachStatement _ _ _ _ _ _ | IfStatement _ _ | UnlessStatement _ _ | TestStatement _ _ _
  | WhileStatement _ _ | RepeatStatement _ _ _ | ForStatement _ _ _ _ _ _ _ _ | CaseStatement _
  | DefaultStatement _ | SwitchonStatement _ _ _ | GotoStatement _ | BreakStatement | LoopStatement
  | EndcaseStatement | LabelTargetStatement _ | ConditionalBranchStatement _ _ _ => mret tt
  end.

Definition visit_FloatValof (body : Statement) : G unit :=
  G_modify (fun c => set_function (current_function_name c) VT_FLOAT
    (current_function_epilogue_label c) (x28_is_loaded c) (scope_depth c) c);;
  generate_statement_code body;;
  reg ← G_get expression_result_reg;
  if is_fp reg then mret tt
  else fp_reg ← promote reg; set_result_to fp_reg.

Definition visit_expression (e : Expression) : G unit :=
  let gen := generate_expression_code in
  match e with
  | NumberLiteral n => visit_NumberLiteral n
  | StringLiteral s => visit_StringLiteral s
  | CharLiteral c => visit_CharLiteral c
  | BooleanLiteral b => visit_BooleanLiteral b
  | VariableAccess name _ => visit_VariableAccess env name
  | BinaryOp op l r => visit_BinaryOp env gen op l r
  | UnaryOp op a => visit_UnaryOp env gen op a
  | VectorAccess v i => visit_VectorAccess env gen v i
  | CharIndirection s i => visit_CharIndirection gen s i
  | FloatVectorIndirection v i => visit_FloatVectorIndirection gen v i
  | BitfieldAccessExpression b s w => visit_BitfieldAccess gen b s w
  | FunctionCall f args => visit_FunctionCall env gen f args
  | SysCall _ n args => visit_SysCall gen n args
  | ConditionalExpression c t f => visit_ConditionalExpression gen c t f
  | ValofExpression body => generate_statement_code body
  | FloatValofExpression body => visit_FloatValof body
  | VecAllocationExpression e name => visit_VecAllocation env gen e name
  | FVecAllocationExpression e name => visit_FVecAllocation env gen e name
  | StringAllocationExpression e => visit_StringAllocation gen e
  | TableExpression l is_float => visit_TableExpression l is_float
  | VecInitializerExpression l => visit_VecInitializer gen l
  | ListExpression l is_manifest => visit_ListExpression env gen l is_manifest
  end.
End visitors.

(** ** The dispatchers *)

Section dispatch.
Context (env : environment) (cfgs : gmap string (list BasicBlock)).

Fixpoint dispatch (fuel : nat) : (Expression -> G unit) * (Statement -> G unit) :=
  match fuel with
  | O => (fun _ => G_undefined, fun _ => G_undefined)
  | S fuel =>
      let '(e, s) := dispatch fuel in
      (visit_expression env e s, visit_statement env cfgs e s)
  end.

Definition generate_expression_code (fuel : nat) : Expression -> G unit := (dispatch fuel).1.
Definition generate_statement_code (fuel : nat) : Statement -> G unit := (dispatch fuel).2.

(** ** Programs *)

Definition is_function_declaration (d : Declaration) : bool :=
  match d with FunctionDeclaration _ _ _ | RoutineDeclaration _ _ _ => true | _ => false end.

Definition is_start (d : Declaration) : bool :=
  match d with RoutineDeclaration n _ _ => String.eqb n "START" | _ => false end.

(** [std::rotate]: the first START routine goes to the end. *)
Fixpoint rotate_start (l : list Declaration) : list Declaration :=
  match l with
  | [] => []
  | d :: l => if is_start d then l ++ [d] else d :: rotate_start l
  end.

Definition compute_global_offsets : G unit := G_modify (fun c =>
  match symbol_table c with
  | Some t => let '(d, t) := calculate_global_offsets (data_generator c) t in set_data d (Some t) c
  | None => set_data (calculate_global_offsets (data_generator c) SymbolTable_new).1 None c
  end).

Definition visit_Program (fuel : nat) (p : Program) : G unit :=
  let visit := visit_declaration env cfgs (generate_expression_code fuel) (generate_statement_code fuel) in
  for_all visit (filter (fun d => is_function_declaration d = false) (declarations p));;
  compute_global_offsets;;
  for_all visit (rotate_start (filter (fun d => is_function_declaration d = true) (declarations p))).

Definition generate_code (fuel : nat) (p : Program) : G unit :=
  visit_Program fuel p;;
  compute_global_offsets;;
  G_modify (fun c =>
    let g := gen c in
    let code := instructions (generate_rodata_section (data_generator c) (mkInstructionStream (emitted g))) in
    set_gen (mkGenerator (manager g) (frame g) code) c).
End dispatch.
