(* ===== verification/OpsRun.v ===== *)
(** * The code of the integer operators, executed

    The operators of BCPL on 64-bit words, and the proof that the instructions
    [emit_binary] chooses for them (src/NewCodeGenerator.cpp) compute them. *)

From S2P Require Import Prelude Words A64 Instr EncReg EncSpec EncArith EncMem EncBranch EncFloat Machine Labels CallFrame FrameLayout CallFrameProof Registers Ast Codegen CodegenExpr.
Local Open Scope Z_scope.

(** ** The operators *)

Definition word (z : Z) : Prop := 0 <= z < 2 ^ 64.

(** The remainder of two signed words; with the divisor 0 the dividend, as [SDIV] gives 0. *)
Definition word_rem (a b : Z) : Z := if b =? 0 then a else u64 (Z.rem (sext 64 a) (sext 64 b)).

(** [true] is 1, but for [~=] it is -1. *)
Definition eval_op (op : BinaryOperator) (a b : Z) : Z :=
  match op with
  | Add => u64 (a + b)
  | Subtract => u64 (a - b)
  | Multiply => u64 (a * b)
  | Divide => if b =? 0 then 0 else u64 (Z.quot (sext 64 a) (sext 64 b))
  | Remainder => word_rem a b
  | Equal | Equivalence => Z.b2z (a =? b)
  | NotEqual => if a =? b then 0 else 2 ^ 64 - 1
  | Less => Z.b2z (sext 64 a <? sext 64 b)
  | LessEqual => Z.b2z (sext 64 a <=? sext 64 b)
  | Greater => Z.b2z (sext 64 b <? sext 64 a)
  | GreaterEqual => Z.b2z (sext 64 b <=? sext 64 a)
  | BitwiseAnd => Z.land a b
  | LeftShift => u64 (Z.shiftl a (b mod 64))
  | RightShift => Z.shiftr a (b mod 64)
  | _ => 0
  end.

Definition supported (op : BinaryOperator) : bool :=
  match op with
  | Add | Subtract | Multiply | Divide | Remainder | Equal | NotEqual | Less | LessEqual | Greater
  | GreaterEqual | BitwiseAnd | Equivalence | LeftShift | RightShift => true
  | _ => false
  end.

Lemma word_u64 z : word (u64 z).
Proof. apply u64_range. Qed.

Lemma word_b2z b : word (Z.b2z b).
Proof. destruct b; cbv; split; congruence. Qed.

Lemma word_shiftr a b : word a -> 0 <= b -> word (Z.shiftr a b).
Proof.
  unfold word. intros Ha Hb. rewrite Z.shiftr_div_pow2 by done.
  pose proof (Z.pow_pos_nonneg 2 b ltac:(lia) Hb). split; [apply Z.div_pos; lia|].
  apply Z.div_lt_upper_bound; nia.
Qed.

Lemma word_land a b : word a -> word b -> word (Z.land a b).
Proof.
  unfold word. intros Ha Hb.
  replace (Z.land a b) with (Z.land a b mod 2 ^ 64); [apply Z.mod_pos_bound; lia|].
  rewrite <-Z.land_ones, <-Z.land_assoc by lia. f_equal. rewrite Z.land_ones by lia.
  by apply Z.mod_small.
Qed.

Lemma eval_op_word op a b : word a -> word b -> word (eval_op op a b).
Proof.
  intros Ha Hb. assert (H0 : word 0) by done.
  destruct op; cbn [eval_op]; unfold word_rem; repeat case_match;
    auto using word_u64, word_b2z, word_land; try done.
  apply word_shiftr; [done|]. apply Z.mod_pos_bound. lia.
Qed.

(** ** Registers of the pools *)

Definition pool_reg (r : string) : Prop := r ∈ SCRATCH_REGS ++ VARIABLE_REGS.

Lemma pool_check (P : string -> Prop) r :
  Forall P (SCRATCH_REGS ++ VARIABLE_REGS) -> pool_reg r -> P r.
Proof. rewrite list.Forall_forall. intros H Hr. by apply H. Qed.

Lemma pool_parse r : pool_reg r ->
  parse_register_31 r = Ok (regnum r, true) /\ parse_register_30 r = Ok (regnum r, true)
  /\ parse_register_zr r = Ok (regnum r, true).
Proof.
  intros H. pattern r. revert H. apply pool_check. repeat constructor; vm_compute; reflexivity.
Qed.

Lemma pool_range r : pool_reg r -> 10 <= regnum r <= 27 /\ regnum r <> 16 /\ is_fp_register r = false.
Proof.
  intros H. pattern r. revert H. apply pool_check. repeat constructor; vm_compute; congruence.
Qed.

Lemma regnum_nth r :
  pool_reg r -> nth (Z.to_nat (regnum r)) (replicate 10 "" ++ SCRATCH_REGS ++ replicate 4 "" ++ VARIABLE_REGS) ""%string = r.
Proof. apply (pool_check (fun r => nth (Z.to_nat (regnum r)) _ ""%string = r)). repeat constructor. Qed.

Lemma pool_inj a b : pool_reg a -> pool_reg b -> regnum a = regnum b -> a = b.
Proof. intros Ha Hb E. by rewrite <-(regnum_nth a Ha), <-(regnum_nth b Hb), E. Qed.

(** ** Single instructions *)

Lemma run_rrr create op shape xd xn xm rd rn rm (parse : string -> result (Z * bool)) :
  encodes_rrr parse create op shape ->
  parse xd = Ok (rd, true) -> parse xn = Ok (rn, true) -> parse xm = Ok (rm, true) ->
  runs (create xd xn xm) (fun _ => True) (fun m => exec m (shape true rd rn rm)).
Proof.
  intros H Hd Hn Hm. specialize (H xd xn xm). rewrite Hd, Hn, Hm in H.
  destruct H as (i & Hi & (_ & Hdec & _) & _). exists i. split; [done|]. intros m _. by apply run_one.
Qed.

(** An encoder call that succeeds and computes [v] into register [rd]. *)
Definition computes (c : result Instruction) (rd : Z) (v : machine -> Z) : Prop :=
  runs c (fun _ => True) (fun m => Next (rset m rd (v m))).

Lemma rget_pool m r : pool_reg r -> rget m (regnum r) = xreg m (regnum r).
Proof. intros H%pool_range. unfold rget. by replace (regnum r =? 31) with false by lia. Qed.

Lemma rset_pool m n v : n <> 31 -> rset m n v = mkMachine (upd (xreg m) n v) (sp m) (mem m) (nzcv m).
Proof. intros H. unfold rset. by replace (n =? 31) with false by lia. Qed.

(** The names the operators use besides the operands. *)
Lemma parse_X16 : parse_register_31 "X16" = Ok (16, true).
Proof. vm_compute. reflexivity. Qed.

Section operands.
Context (l r : string) (Hl : pool_reg l) (Hr : pool_reg r).
Local Abbreviation nl := (regnum l).
Local Abbreviation nr := (regnum r).

Lemma run_binary create op shape (parse : string -> result (Z * bool)) xd rd v :
  encodes_rrr parse create op shape ->
  parse xd = Ok (rd, true) -> parse l = Ok (nl, true) -> parse r = Ok (nr, true) ->
  (forall m, exec m (shape true rd nl nr) = Next (rset m rd (v (xreg m nl) (xreg m nr)))) ->
  computes (create xd l r) rd (fun m => v (xreg m nl) (xreg m nr)).
Proof using.
  intros H Hd Hpl Hpr He. destruct (run_rrr _ _ _ _ _ _ _ _ _ _ H Hd Hpl Hpr) as (i & Hi & Hm).
  exists i. split; [done|]. intros m _. rewrite Hm by done. apply He.
Qed.

Lemma compare_runs :
  runs (create_cmp_reg l r) (fun _ => True)
    (fun m => Next (set_flags m (compare_flags (xreg m nl) (xreg m nr)))).
Proof using Hl Hr.
  destruct (pool_parse l Hl) as (Pl & _), (pool_parse r Hr) as (Pr & _).
  pose proof (create_cmp_reg_ok l r) as H. rewrite Pl, Pr in H.
  destruct H as (i & Hi & (_ & Hdec & _) & _). exists i. split; [done|]. intros m _.
  rewrite (run_one _ _ _ Hdec). unfold CMPr. cbn [exec]. by rewrite !rget_pool.
Qed.

Lemma cset_runs cond cc (b : machine -> bool) :
  get_condition_code cond = Ok cc ->
  (forall m, cond_holds (nzcv m) (Z.lxor cc 1) = Some (negb (b m))) ->
  runs (create_cset l cond) (fun _ => True) (fun m => Next (rset m nl (Z.b2z (b m)))).
Proof using Hl.
  intros Hc Hb. destruct (pool_parse l Hl) as (_ & _ & Pl).
  pose proof (create_cset_ok l cond) as H. rewrite Hc, Pl in H.
  destruct H as (i & Hi & (_ & Hdec & _) & _). exists i. split; [done|]. intros m _.
  rewrite (run_one _ _ _ Hdec). unfold CSET, invert_cond. cbn [exec]. rewrite Hb.
  by destruct (b m).
Qed.

Lemma csetm_runs cond cc (b : machine -> bool) :
  get_condition_code cond = Ok cc ->
  (forall m, cond_holds (nzcv m) (Z.lxor cc 1) = Some (negb (b m))) ->
  runs (create_csetm l cond) (fun _ => True)
    (fun m => Next (rset m nl (if b m then 2 ^ 64 - 1 else 0))).
Proof using Hl.
  intros Hc Hb. destruct (pool_parse l Hl) as (_ & _ & Pl).
  pose proof (create_csetm_ok l cond) as H. rewrite Hc, Pl in H.
  destruct H as (i & Hi & (_ & Hdec & _) & _). exists i. split; [done|]. intros m _.
  rewrite (run_one _ _ _ Hdec). unfold CSETM, invert_cond. cbn [exec]. rewrite Hb.
  by destruct (b m).
Qed.

(** *** One instruction after the other *)

Definition put_code (code : list Instruction) (c : code_gen) : code_gen :=
  set_gen (mkGenerator (manager (gen c)) (frame (gen c)) (emitted (gen c) ++ code)) c.

Lemma put_code_app code1 code2 c : put_code code2 (put_code code1 c) = put_code (code1 ++ code2) c.
Proof using. unfold put_code. cbn. by rewrite app_assoc. Qed.

Lemma emit_ok_Ok i c : emit_ok (Ok i) c = (put_code [i] c, Done tt).
Proof using. reflexivity. Qed.

(** The operation [m] emits code that takes a machine of [pre] to one of [post]. *)
Definition emits_code (m : G unit) (pre : machine -> Prop) (post : machine -> machine -> Prop) : Prop :=
  exists code, (forall c, m c = (put_code code c, Done tt))
    /\ forall s, pre s -> exists s', run_instrs s code = Next s' /\ post s s'.

Lemma emits_one c pre f :
  runs c pre (fun m => Next (f m)) -> emits_code (emit_ok c) pre (fun m m' => m' = f m).
Proof using.
  intros (i & -> & Hi). exists [i]. split; [apply emit_ok_Ok|]. intros s Hs. eauto.
Qed.

Lemma emits_seq m1 m2 pre1 pre2 post1 post2 :
  emits_code m1 pre1 post1 -> emits_code m2 pre2 post2 ->
  (forall s s', pre1 s -> post1 s s' -> pre2 s') ->
  emits_code (m1;; m2) pre1 (fun s s' => exists s1, post1 s s1 /\ post2 s1 s').
Proof using.
  intros (c1 & E1 & H1) (c2 & E2 & H2) Hp. exists (c1 ++ c2). split.
  - intros c. unfold mbind, G_bind. by rewrite E1, E2, put_code_app.
  - intros s Hs. destruct (H1 s Hs) as (s1 & R1 & P1).
    destruct (H2 s1 (Hp s s1 Hs P1)) as (s2 & R2 & P2).
    exists s2. split; [by rewrite run_instrs_app, R1 | eauto].
Qed.

Lemma emits_weaken m pre pre' post post' :
  emits_code m pre post -> (forall s, pre' s -> pre s) ->
  (forall s s', pre' s -> post s s' -> post' s s') -> emits_code m pre' post'.
Proof using.
  intros (c & E & H) Hpre Hpost. exists c. split; [done|]. intros s Hs.
  destruct (H s (Hpre s Hs)) as (s' & R & P). eauto.
Qed.

(** What the code of an operator does: the result in [l], nothing else but X16 changed. *)
Definition operates (op : BinaryOperator) (m m' : machine) : Prop :=
  xreg m' nl = eval_op op (xreg m nl) (xreg m nr)
  /\ sp m' = sp m /\ mem m' = mem m
  /\ forall n, n <> nl -> n <> 16 -> xreg m' n = xreg m n.

Definition words (m : machine) : Prop := word (xreg m nl) /\ word (xreg m nr).

Lemma nl_range : 10 <= nl <= 27 /\ nl <> 16.
Proof using Hl. destruct (pool_range l Hl) as (? & ? & _). lia. Qed.

Lemma operates_one op c v :
  computes c nl v -> (forall m, words m -> v m = eval_op op (xreg m nl) (xreg m nr)) ->
  emits_code (emit_ok c) words (operates op).
Proof using Hl.
  intros H Hv. pose proof nl_range.
  eapply emits_weaken; [apply (emits_one _ _ _ H) | done|].
  intros s s' Hs ->. unfold operates. rewrite rset_pool by lia. cbn.
  rewrite upd_same. split; [by apply Hv|]. repeat split. intros n Hn _. by apply upd_other.
Qed.

Lemma operates_compare op set (v : flags -> Z) :
  runs set (fun _ => True) (fun m => Next (rset m nl (v (nzcv m)))) ->
  (forall a b, word a -> word b -> v (compare_flags a b) = eval_op op a b) ->
  emits_code (compare_and_set false l r set) words (operates op).
Proof using Hl Hr.
  intros H Hv. pose proof nl_range.
  eapply emits_weaken;
    [eapply emits_seq; [apply (emits_one _ _ _ compare_runs) | apply (emits_one _ _ _ H) | done] | done|].
  intros s s' [W1 W2] (s1 & -> & ->). unfold operates. rewrite rset_pool by lia. cbn.
  rewrite upd_same. split; [by apply Hv|]. repeat split. intros n Hn _. by apply upd_other.
Qed.
End operands.

(** ** Facts on words *)

Lemma sext_word a : word a -> sext 64 a = a \/ sext 64 a = a - 2 ^ 64.
Proof. unfold word, sext. change (64 - 1) with 63. intros H. elia. Qed.

Lemma sext_eq a b : word a -> word b -> sext 64 a = sext 64 b -> a = b.
Proof. intros Ha Hb. unfold word in *. destruct (sext_word a Ha), (sext_word b Hb); lia. Qed.

Lemma zero_flag_words a b : word a -> word b -> zero_flag (compare_flags a b) = (a =? b).
Proof.
  unfold word. intros Ha Hb. cbn. destruct (a =? b) eqn:E; bool_to_prop.
  - subst. by rewrite Z.sub_diag.
  - apply Z.eqb_neq. unfold u64. intros H%Z.mod_divide; [|lia]. destruct H as [k H]. nia.
Qed.

Lemma less_or_equal a b : word a -> word b ->
  zero_flag (compare_flags a b) || less_flag (compare_flags a b) = (sext 64 a <=? sext 64 b).
Proof.
  intros Ha Hb. rewrite zero_flag_words by done. cbn.
  destruct (sext 64 a <=? sext 64 b) eqn:E; bool_to_prop.
  - destruct (Z.eq_dec (sext 64 a) (sext 64 b)) as [He|He].
    + by rewrite (sext_eq a b Ha Hb He), Z.eqb_refl.
    + apply orb_true_iff. right. apply Z.ltb_lt. lia.
  - apply orb_false_iff. split; [apply Z.eqb_neq; intros -> | apply Z.ltb_ge]; lia.
Qed.

Lemma word_rem_steps a b : word a -> word b ->
  u64 (a - u64 (u64 (u64 (Z.quot (sext 64 a) (sext 64 b)) * b))) = u64 (Z.rem (sext 64 a) (sext 64 b)).
Proof.
  intros Ha Hb. unfold u64.
  rewrite Z.mod_mod, Z.mul_mod_idemp_l, Zminus_mod_idemp_r by lia.
  pose proof (Z.quot_rem' (sext 64 a) (sext 64 b)) as E.
  set (q := Z.quot _ _) in *. set (x := Z.rem _ _) in *.
  destruct (sext_word a Ha) as [Ea|Ea], (sext_word b Hb) as [Eb|Eb]; rewrite Ea, Eb in E.
  - f_equal. lia.
  - replace (a - q * b) with (x + - q * 2 ^ 64) by lia. by rewrite Z.mod_add by lia.
  - replace (a - q * b) with (x + 1 * 2 ^ 64) by lia. by rewrite Z.mod_add by lia.
  - replace (a - q * b) with (x + (1 - q) * 2 ^ 64) by lia. by rewrite Z.mod_add by lia.
Qed.

(** ** The operators *)

Ltac one_instruction H shape op :=
  eapply operates_one with (v := fun m => eval_op op _ _);
    [done
    | eapply (run_binary _ _ _ _ _ _ _ _ (eval_op op)); [apply H | eassumption | eassumption | eassumption |];
      intros m; unfold shape; cbn [exec]; rewrite ?rget_pool by done; reflexivity
    | done].

Section operators.
Context (l r : string) (Hl : pool_reg l) (Hr : pool_reg r).
Local Abbreviation nl := (regnum l).
Local Abbreviation nr := (regnum r).

(** The division into X16, its product with the divisor, and the difference. *)
Lemma remainder_runs :
  emits_code (emit_binary Remainder false l r) (words l r) (operates l r Remainder).
Proof using Hl Hr.
  destruct (pool_parse l Hl) as (Pl & _), (pool_parse r Hr) as (Pr & _).
  pose proof (pool_range l Hl) as (Rl & Rl' & _). pose proof (pool_range r Hr) as (Rr & Rr' & _).
  pose proof (run_rrr _ _ _ _ _ _ _ _ _ _ create_sdiv_reg_ok parse_X16 Pl Pr
    : computes _ 16 (fun m => if rget m nr =? 0 then 0 else u64 (Z.quot (sext 64 (rget m nl)) (sext 64 (rget m nr))))) as H1.
  pose proof (run_rrr _ _ _ _ _ _ _ _ _ _ create_mul_reg_ok parse_X16 parse_X16 Pr
    : computes _ 16 (fun m => u64 (0 + rget m 16 * rget m nr))) as H2.
  pose proof (run_rrr _ _ _ _ _ _ _ _ _ _ create_sub_reg_ok Pl Pl parse_X16
    : computes _ nl (fun m => u64 (rget m nl - rget m 16))) as H3.
  eapply emits_weaken.
  - eapply emits_seq; [apply (emits_one _ _ _ H1) | | intros; exact I].
    eapply emits_seq; [apply (emits_one _ _ _ H2) | apply (emits_one _ _ _ H3) | intros; exact I].
  - done.
  - intros s s' [W1 W2] (s1 & -> & s2 & -> & ->). unfold operates.
    rewrite !rset_pool by lia. unfold rget. cbn [xreg sp mem].
    replace (nl =? 31) with false by lia. replace (nr =? 31) with false by lia.
    change (16 =? 31) with false. cbv iota.
    repeat first [rewrite upd_same | rewrite upd_other by lia | rewrite Z.add_0_l].
    split; [|repeat split].
    + cbn [eval_op]. unfold word_rem. destruct (xreg s nr =? 0) eqn:E.
      * bool_to_prop. rewrite E, Z.mul_0_r. unfold u64. rewrite Z.mod_0_l, Z.sub_0_r by lia.
        apply Z.mod_small, W1.
      * rewrite <-word_rem_steps by done. unfold u64. by rewrite (Z.mod_mod _ (2 ^ 64)) by lia.
    + intros n H H'. by rewrite !upd_other by done.
Qed.

(** The code of a supported operator puts its value into the left operand's register. *)
Lemma binary_runs op :
  supported op = true -> emits_code (emit_binary op false l r) (words l r) (operates l r op).
Proof using Hl Hr.
  destruct (pool_parse l Hl) as (Pl & Pl30 & Pzl), (pool_parse r Hr) as (Pr & Pr30 & Pzr).
  assert (Hset : forall o cond cc (b : flags -> bool),
    get_condition_code cond = Ok cc ->
    (forall f, cond_holds f (Z.lxor cc 1) = Some (negb (b f))) ->
    (forall a b', word a -> word b' -> Z.b2z (b (compare_flags a b')) = eval_op o a b') ->
    emits_code (compare_and_set false l r (create_cset l cond)) (words l r) (operates l r o)).
  { intros o cond cc b Hc Hb He. apply (operates_compare l r Hl Hr o _ (fun f => Z.b2z (b f))); [|done].
    by apply (cset_runs l Hl cond cc (fun m => b (nzcv m))). }
  destruct op; try discriminate; intros _; cbn [emit_binary].
  - one_instruction create_add_reg_ok ADDr Add.
  - one_instruction create_sub_reg_ok SUBr Subtract.
  - one_instruction create_mul_reg_ok MULr Multiply.
  - one_instruction create_sdiv_reg_ok SDIVr Divide.
  - apply remainder_runs.
  - eapply Hset with (b := zero_flag); [done..|]. intros. by rewrite zero_flag_words.
  - eapply (operates_compare l r Hl Hr NotEqual _ (fun f => if negb (zero_flag f) then 2 ^ 64 - 1 else 0)).
    + apply (csetm_runs l Hl "NE" 1 (fun m => negb (zero_flag (nzcv m)))); [done|].
      intros m. cbn. by rewrite negb_involutive.
    + intros a b Ha Hb. rewrite zero_flag_words by done. cbn [eval_op]. by destruct (a =? b).
  - eapply Hset with (b := less_flag); done.
  - eapply Hset with (b := fun f => zero_flag f || less_flag f); [done..|].
    intros. by rewrite less_or_equal.
  - eapply Hset with (b := fun f => negb (zero_flag f || less_flag f)); [done| |].
    + intros f. by rewrite negb_involutive.
    + intros. rewrite less_or_equal by done. cbn [eval_op]. by rewrite Z.ltb_antisym.
  - eapply Hset with (b := fun f => negb (less_flag f)); [done| |].
    + intros f. by rewrite negb_involutive.
    + intros. cbn. by rewrite Z.leb_antisym.
  - eapply operates_one;
      [done | apply (run_binary l r _ _ _ _ _ _ (fun a b => Z.land a (u64 (Z.shiftl b 0))) create_and_reg_ok Pl30 Pl30 Pr30)|].
    + intros m. unfold ANDr. cbn [exec]. by rewrite !rget_pool.
    + intros m [_ Hw]. cbn [eval_op]. rewrite Z.shiftl_0_r. unfold u64. by rewrite Z.mod_small.
  - eapply Hset with (b := zero_flag); [done..|]. intros. by rewrite zero_flag_words.
  - one_instruction create_lsl_reg_ok LSLr LeftShift.
  - one_instruction create_lsr_reg_ok LSRr RightShift.
Qed.
End operators.
