(* ===== verification/ExprState.v ===== *)
(** * The registers of an expression

    The states of the register manager while a function evaluates expressions that only need
    scratch registers and temporaries: a state is the number of temporaries requested so far
    and which scratch registers are in use.  The operations, restated on these two. *)

From S2P Require Import Prelude Words A64 Instr EncReg EncSpec EncMem Machine CallFrame FrameLayout CallFrameProof Registers RegisterProof Functions RegisterSpec FunctionSpec.

Definition scratch_info (b : bool) : RegisterInfo :=
  if b then mkInfo IN_USE_SCRATCH "scratch" false else free_info.

(** The table [m] with the registers in use or free as [bs] says. *)
Fixpoint with_use (regs : list string) (bs : list bool) (m : gmap string RegisterInfo)
    : gmap string RegisterInfo :=
  match regs, bs with
  | r :: regs, b :: bs => <[r := scratch_info b]> (with_use regs bs m)
  | _, _ => m
  end.

(** The manager after [n] temporaries, without scratch registers in use. *)
Definition temps (ag : bool) (n : nat) : RegisterManager :=
  manager (after_temps n (fresh ag (CallFrameManager_new false "") [])).

Definition registers_at (ag : bool) (n : nat) (bs : list bool) : RegisterManager :=
  set_registers (with_use SCRATCH_REGS bs (registers (temps ag n))) (temps ag n).

(** The register of the [n]-th temporary. *)
Definition temp (n : nat) : string := nth (n mod 8) VARIABLE_REGS ""%string.

Fixpoint first_free (bs : list bool) : option nat :=
  match bs with
  | [] => None
  | false :: _ => Some O
  | true :: bs => S <$> first_free bs
  end.

Definition all_free : list bool := replicate 6 false.
Definition free_count (bs : list bool) : nat := length (List.filter negb bs).

(** ** The table *)

Lemma with_use_lookup regs bs m k r b :
  NoDup regs -> regs !! k = Some r -> bs !! k = Some b ->
  with_use regs bs m !! r = Some (scratch_info b).
Proof.
  revert bs k. induction regs as [|r' regs IH]; intros [|b' bs] [|k] Hn Hr Hb;
    try discriminate; cbn in Hr, Hb |- *; apply list.NoDup_cons in Hn as [Hni Hn].
  - injection Hr as ->. injection Hb as ->. apply lookup_insert_eq.
  - rewrite lookup_insert_ne; [by apply (IH bs k)|]. intros ->.
    apply Hni. by eapply list_elem_of_lookup_2.
Qed.

Lemma with_use_insert regs bs m k r b :
  NoDup regs -> length bs = length regs -> regs !! k = Some r ->
  <[r := scratch_info b]> (with_use regs bs m) = with_use regs (<[k := b]> bs) m.
Proof.
  revert bs k. induction regs as [|r' regs IH]; intros [|b' bs] [|k] Hn Hl Hr;
    try discriminate; cbn in Hr |- *; apply list.NoDup_cons in Hn as [Hni Hn].
  - injection Hr as ->. by rewrite insert_insert_eq.
  - rewrite insert_insert_ne; [f_equal; apply IH; [done | by injection Hl | done]|].
    intros ->. apply Hni. by eapply list_elem_of_lookup_2.
Qed.

Lemma with_use_other regs bs m r : r ∉ regs -> with_use regs bs m !! r = m !! r.
Proof.
  revert bs. induction regs as [|r' regs IH]; intros [|b bs] Hr; [done..|]. cbn.
  apply not_elem_of_cons in Hr as [Hne Hr]. rewrite lookup_insert_ne by done. by apply IH.
Qed.

Lemma find_first_free s regs bs :
  length bs = length regs ->
  (forall k r b, regs !! k = Some r -> bs !! k = Some b -> free_in s r = negb b) ->
  List.find (free_in s) regs = first_free bs ≫= fun k => regs !! k.
Proof.
  revert bs. induction regs as [|r regs IH]; intros [|b bs] Hl H; try done.
  cbn [List.find]. rewrite (H 0%nat r b eq_refl eq_refl). destruct b; [|done]. cbn.
  rewrite (IH bs); [by destruct (first_free bs) | by injection Hl |].
  intros k r' b' Hr Hb. by apply (H (S k)).
Qed.

Lemma scratch_nodup : NoDup SCRATCH_REGS.
Proof. apply (bool_decide_unpack _). vm_compute. exact I. Qed.

(** ** Every state is one of the first twenty-four *)

Lemma registers_period ag n bs : registers_at ag (n + 24) bs = registers_at ag (n + 16) bs.
Proof. unfold registers_at, temps. by rewrite temps_period. Qed.

(** A property of [n] that has the period of the states. *)
Lemma by_period (P : nat -> Prop) :
  (forall n, P (n + 16)%nat -> P (n + 24)%nat) -> Forall P (seq 0 24) -> forall n, P n.
Proof.
  intros Hp H n. induction n as [n IH] using lt_wf_ind. destruct (decide (n < 24)%nat) as [Hn|Hn].
  - rewrite list.Forall_forall in H. apply H, list_elem_of_In, in_seq. lia.
  - replace n with (n - 24 + 24)%nat by lia. apply Hp, IH. lia.
Qed.

Lemma temp_period n : temp (n + 24) = temp (n + 16).
Proof.
  unfold temp. change 24%nat with (3 * 8)%nat. change 16%nat with (2 * 8)%nat.
  by rewrite !Nat.Div0.mod_add.
Qed.

(** ** Temporaries *)

Definition temp_info : RegisterInfo := mkInfo IN_USE_VARIABLE "_temp_" false.

(** The register a request takes when nothing has to be stored for it, and what becomes of
    the map of the variables, their order of use and the spilled ones. *)
Definition next_temp (s : RegisterManager)
    : option (string * (gmap string string * list string * gset string)) :=
  match List.find (free_in s) VARIABLE_REGS with
  | Some r => Some (r, (variable_to_reg_map s, variable_reg_lru_order s, spilled_variables s))
  | None =>
      match rev (variable_reg_lru_order s) with
      | r :: rest =>
          i ← registers s !! r;
          if dirty i || negb (bool_decide (r ∈ VARIABLE_REGS)) then None
          else Some (r, (delete (bound_to i) (variable_to_reg_map s), rev rest,
                         {[bound_to i]} ∪ spilled_variables s))
      | [] => None
      end
  end.

Definition taken (r : string) (v : gmap string string * list string * gset string)
    (s : RegisterManager) : RegisterManager :=
  set_registers (<[r := temp_info]> (registers s)) (set_variables v.1.1 (r :: v.1.2) v.2 s).

Definition all_present (s : RegisterManager) : bool :=
  forallb (fun r => bool_decide (is_Some (registers s !! r))) VARIABLE_REGS.

Lemma all_present_spec s : all_present s = true -> forall r, r ∈ VARIABLE_REGS -> is_Some (registers s !! r).
Proof.
  intros H r Hr. apply list_elem_of_In in Hr. unfold all_present in H. rewrite forallb_forall in H.
  apply (bool_decide_eq_true_1 _), H, Hr.
Qed.

Lemma variable_name_not_empty r : r ∈ VARIABLE_REGS -> string_empty r = false.
Proof. revert r. rewrite <-list.Forall_forall. repeat constructor. Qed.

Lemma acquire_temp s fr code r v :
  all_present s = true -> next_temp s = Some (r, v) ->
  acquire_spillable_temp_reg (mkGenerator s fr code) = (mkGenerator (taken r v s) fr code, Done r).
Proof.
  intros Hp Hn. unfold next_temp in Hn. unfold acquire_spillable_temp_reg.
  unfold mbind at 1, M_bind at 1. rewrite find_free_spec by (apply all_present_spec, Hp).
  cbn [manager]. destruct (List.find (free_in s) VARIABLE_REGS) as [r'|] eqn:Ef.
  - injection Hn as <- <-. cbn [default from_option].
    rewrite variable_name_not_empty by (by apply List.find_some in Ef as [?%list_elem_of_In _]).
    destruct s; reflexivity.
  - cbn [default from_option string_empty negb].
    destruct (rev (variable_reg_lru_order s)) as [|x rest] eqn:Er; [done|].
    destruct (registers s !! x) as [i|] eqn:Ei; cbn in Hn; [|done].
    destruct (dirty i) eqn:Hd; [done|]. destruct (negb _); [done|]. injection Hn as <- <-.
    assert (El : variable_reg_lru_order s = rev rest ++ [x])
      by (by rewrite <-(rev_involutive (variable_reg_lru_order s)), Er).
    unfold mbind at 1, M_bind at 1.
    rewrite (take_victim_unfold (mkGenerator s fr code) (rev rest) x i El Ei), Hd.
    destruct s; reflexivity.
Qed.

(** A table that differs in other registers only changes nothing of this. *)
Lemma next_temp_registers s m :
  (forall r, r ∈ VARIABLE_REGS -> m !! r = registers s !! r) -> (exists p, next_temp s = Some p) ->
  next_temp (set_registers m s) = next_temp s.
Proof.
  intros H [p Hp]. unfold next_temp in *. manager_fields.
  assert (Hf : List.find (free_in (set_registers m s)) VARIABLE_REGS = List.find (free_in s) VARIABLE_REGS).
  { revert H. generalize VARIABLE_REGS. clear. intros l H. induction l as [|r l IH]; [done|]. cbn.
    assert (E : free_in (set_registers m s) r = free_in s r)
      by (unfold free_in; manager_fields; rewrite H; [done | left]).
    rewrite E, IH; [done|]. intros r' Hr'. apply H. by right. }
  rewrite Hf. destruct (List.find (free_in s) VARIABLE_REGS); [done|].
  destruct (rev (variable_reg_lru_order s)) as [|x rest]; [done|].
  destruct (registers s !! x) as [i|] eqn:Ei; cbn in Hp; [|done].
  destruct (dirty i || _) eqn:E; [done|].
  apply orb_false_iff in E as [_ E]. apply negb_false_iff, bool_decide_eq_true in E.
  by rewrite (H x E), Ei.
Qed.

Definition temps_next (ag : bool) (n : nat) : Prop :=
  all_present (temps ag n) = true /\ exists v, next_temp (temps ag n) = Some (temp n, v).

Lemma temps_have_next ag n : temps_next ag n.
Proof.
  revert n. apply by_period.
  - intros n. unfold temps_next, temps. by rewrite temps_period, temp_period.
  - assert (H : Forall (fun n => (all_present (temps ag n)
        && match next_temp (temps ag n) with Some (r, _) => String.eqb r (temp n) | None => false end) = true)
      (seq 0 24)) by (destruct ag; repeat (constructor; [vm_compute; reflexivity|]); constructor).
    revert H. apply List.Forall_impl. intros n E. apply andb_true_iff in E as [E1 E2]. split; [done|].
    destruct (next_temp (temps ag n)) as [[r v]|]; [|done]. apply String.eqb_eq in E2 as ->. by exists v.
Qed.

(** The manager does not depend on the frame and the code. *)
Lemma temps_S ag n v : next_temp (temps ag n) = Some (temp n, v) ->
  temps ag (S n) = taken (temp n) v (temps ag n).
Proof.
  intros Hv.
  change (temps ag (S n)) with (manager (ignore acquire_spillable_temp_reg
    (after_temps n (fresh ag (CallFrameManager_new false "") []))).1).
  set (g := after_temps n (fresh ag (CallFrameManager_new false "") [])). destruct (temps_have_next ag n) as [Hp _].
  pose proof (acquire_temp (temps ag n) (frame g) (emitted g) (temp n) v Hp Hv) as H.
  replace (mkGenerator (temps ag n) (frame g) (emitted g)) with g in H
    by (unfold temps; fold g; by destruct g).
  unfold ignore, mbind, M_bind. by rewrite H.
Qed.

Lemma temp_pool n : temp n ∈ VARIABLE_REGS.
Proof.
  unfold temp. apply list_elem_of_In, nth_In. change (length VARIABLE_REGS) with 8%nat.
  pose proof (Nat.mod_upper_bound n 8). lia.
Qed.

Lemma pools_apart r : r ∈ VARIABLE_REGS -> r ∉ SCRATCH_REGS.
Proof. intros Hr H. by apply (scratch_not_variable r H). Qed.

Lemma with_use_commute regs bs m r i : r ∉ regs ->
  with_use regs bs (<[r := i]> m) = <[r := i]> (with_use regs bs m).
Proof.
  revert bs. induction regs as [|r' regs IH]; intros [|b bs] Hr; [done..|]. cbn.
  apply not_elem_of_cons in Hr as [Hne Hr]. rewrite IH by done. by apply insert_insert_ne.
Qed.

(** A request takes the next temporary, and marking it clean changes nothing. *)
Lemma temp_runs ag n bs fr code :
  acquire_spillable_temp_reg (mkGenerator (registers_at ag n bs) fr code)
  = (mkGenerator (registers_at ag (S n) bs) fr code, Done (temp n))
  /\ mark_dirty (temp n) false (mkGenerator (registers_at ag (S n) bs) fr code)
     = (mkGenerator (registers_at ag (S n) bs) fr code, Done tt).
Proof.
  destruct (temps_have_next ag n) as [Hp [v Hv]].
  assert (Hm : forall r, r ∈ VARIABLE_REGS ->
    with_use SCRATCH_REGS bs (registers (temps ag n)) !! r = registers (temps ag n) !! r)
    by (intros r Hr; by apply with_use_other, pools_apart).
  pose proof (next_temp_registers (temps ag n) _ Hm (ex_intro _ _ Hv)) as Hn. rewrite Hv in Hn.
  assert (Hp' : all_present (registers_at ag n bs) = true).
  { unfold all_present. apply forallb_forall. intros r Hr%list_elem_of_In. apply bool_decide_eq_true.
    unfold registers_at. manager_fields. rewrite Hm by done. by apply all_present_spec. }
  assert (Hs : taken (temp n) v (registers_at ag n bs) = registers_at ag (S n) bs).
  { unfold registers_at. rewrite (temps_S ag n v Hv). unfold taken. manager_fields.
    rewrite with_use_commute by (apply pools_apart, temp_pool). by destruct (temps ag n). }
  split; [by rewrite (acquire_temp _ fr code _ _ Hp' Hn), Hs|].
  assert (Hl : registers (registers_at ag (S n) bs) !! temp n = Some temp_info).
  { rewrite <-Hs. unfold taken. manager_fields. apply lookup_insert_eq. }
  unfold mark_dirty, alter_present. cbn [manager]. rewrite Hl. unfold alter_register, modify.
  cbn [manager frame emitted]. rewrite Hl. cbn [default from_option]. do 2 f_equal.
  rewrite insert_id by done. by destruct (registers_at ag (S n) bs).
Qed.

(** No register of the pool of temporaries is marked as a scratch register. *)
Definition temps_kept (ag : bool) (n : nat) : Prop :=
  Forall (fun r => from_option status FREE (registers (temps ag n) !! r) <> IN_USE_SCRATCH) VARIABLE_REGS.

Lemma temps_never_scratch ag n : temps_kept ag n.
Proof.
  revert n. apply by_period.
  - intros n. unfold temps_kept, temps. by rewrite temps_period.
  - destruct ag; repeat (constructor; [apply (bool_decide_unpack _); vm_compute; exact I|]); constructor.
Qed.

(** Releasing a temporary does nothing. *)
Lemma release_temp ag n bs fr code r : r ∈ VARIABLE_REGS ->
  release_register r (mkGenerator (registers_at ag n bs) fr code)
  = (mkGenerator (registers_at ag n bs) fr code, Done tt).
Proof.
  intros Hr. assert (Hf : is_fp_register r = false).
  { revert r Hr. rewrite <-list.Forall_forall. repeat constructor. }
  assert (Hs : r ∉ SCRATCH_REGS) by (by apply pools_apart).
  pose proof (temps_never_scratch ag n) as H. unfold temps_kept in H. rewrite list.Forall_forall in H.
  specialize (H r Hr). unfold release_register, release_scratch_reg. rewrite Hf.
  unfold registers_at. manager_fields. rewrite with_use_other by done.
  destruct (registers (temps ag n) !! r) as [i|]; [|done]. cbn in H. by rewrite decide_False.
Qed.

(** ** Scratch registers *)

Lemma use_free_in ag n bs k r b : SCRATCH_REGS !! k = Some r -> bs !! k = Some b ->
  free_in (registers_at ag n bs) r = negb b.
Proof.
  intros Hr Hb. unfold free_in, registers_at. manager_fields.
  rewrite (with_use_lookup _ _ _ _ _ _ scratch_nodup Hr Hb). by destruct b.
Qed.

Lemma first_free_lookup bs k : first_free bs = Some k -> bs !! k = Some false.
Proof.
  revert k. induction bs as [|[] bs IH]; intros k Hk; cbn in Hk; [done| |by injection Hk as <-].
  destruct (first_free bs) as [j|] eqn:E; [|done]. injection Hk as <-. by apply (IH j).
Qed.

Lemma scratch_name r : r ∈ SCRATCH_REGS -> string_empty r = false /\ is_fp_register r = false.
Proof. revert r. rewrite <-list.Forall_forall. repeat constructor. Qed.

Lemma scratch_runs ag n bs fr code k r :
  length bs = 6%nat -> first_free bs = Some k -> SCRATCH_REGS !! k = Some r ->
  acquire_scratch_reg (mkGenerator (registers_at ag n bs) fr code)
  = (mkGenerator (registers_at ag n (<[k := true]> bs)) fr code, Done r).
Proof.
  intros Hl Hk Hr.
  assert (Hf : find_free_register SCRATCH_REGS (mkGenerator (registers_at ag n bs) fr code)
    = (mkGenerator (registers_at ag n bs) fr code, Done r)).
  { rewrite find_free_spec; cbn [manager].
    - by rewrite (find_first_free _ SCRATCH_REGS bs Hl (use_free_in ag n bs)), Hk; cbn; rewrite Hr.
    - intros r' [j Hj]%list_elem_of_lookup_1. destruct (lookup_lt_is_Some_2 bs j) as [b Hb].
      { rewrite Hl. by apply lookup_lt_Some in Hj. }
      eexists. unfold registers_at. manager_fields. by apply (with_use_lookup _ _ _ j _ b scratch_nodup). }
  unfold acquire_scratch_reg. unfold mbind at 1, M_bind at 1. rewrite Hf.
  destruct (scratch_name r) as [-> _]; [by eapply list_elem_of_lookup_2|].
  unfold mbind, M_bind, put_register, modify, mret, M_ret. cbn [negb manager frame emitted].
  do 2 f_equal. unfold registers_at.
  rewrite <-(with_use_insert _ bs _ k r true scratch_nodup Hl Hr). by destruct (temps ag n).
Qed.

Lemma release_scratch ag n bs fr code k r :
  length bs = 6%nat -> SCRATCH_REGS !! k = Some r -> bs !! k = Some true ->
  release_register r (mkGenerator (registers_at ag n bs) fr code)
  = (mkGenerator (registers_at ag n (<[k := false]> bs)) fr code, Done tt).
Proof.
  intros Hl Hr Hb. destruct (scratch_name r) as [_ Hf]; [by eapply list_elem_of_lookup_2|].
  unfold release_register, release_scratch_reg. rewrite Hf. unfold registers_at at 1. manager_fields.
  rewrite (with_use_lookup _ _ _ _ _ _ scratch_nodup Hr Hb). cbn [scratch_info status].
  rewrite decide_True by done. unfold put_register, modify. cbn [manager frame emitted].
  do 2 f_equal. unfold registers_at.
  rewrite <-(with_use_insert _ bs _ k r false scratch_nodup Hl Hr). by destruct (temps ag n).
Qed.

Lemma registers_at_start ag g : manager (reset_for_new_function ag g).1 = registers_at ag 0 all_free.
Proof. destruct g as [[] ? ?], ag; vm_compute; reflexivity. Qed.
