(* ===== verification/ExprProof.v ===== *)
(** * The code of integer expressions is correct

    Expressions over integer and Boolean literals, local variables in the frame and the
    operators of [OpsRun]: their value, the registers they need, and the proof that the code
    [generate_expression_code] emits for them computes the value when it is executed. *)

From S2P Require Import Prelude Words A64 Instr EncReg EncSpec EncArith EncMem EncBranch Machine CallFrame FrameLayout CallFrameProof Registers RegisterProof Functions RegisterSpec FunctionSpec Ast SymbolTable Analysis Data Codegen CodegenExpr CodegenCalls CodegenStmt OpsRun ExprState.
Local Open Scope Z_scope.

(** ** The fragment *)

Fixpoint simple (e : Expression) : bool :=
  match e with
  | NumberLiteral (Integer v) => (- 2 ^ 63 <=? v) && (v <? 2 ^ 63)
  | BooleanLiteral _ | VariableAccess _ _ => true
  | BinaryOp op l r => supported op && simple l && simple r
  | _ => false
  end.

Fixpoint eval (ρ : string -> Z) (e : Expression) : Z :=
  match e with
  | NumberLiteral (Integer v) => u64 v
  | BooleanLiteral b => Z.b2z b
  | VariableAccess x _ => ρ x
  | BinaryOp op l r => eval_op op (eval ρ l) (eval ρ r)
  | _ => 0
  end.

Fixpoint variables (e : Expression) : list string :=
  match e with
  | VariableAccess x _ => [x]
  | BinaryOp _ l r => variables l ++ variables r
  | _ => []
  end.

(** How many temporaries the variables of an expression take. *)
Definition reads (e : Expression) : nat := length (variables e).

(** The result is in the register of the leftmost leaf: a scratch register when that is a
    literal. *)
Fixpoint in_scratch (e : Expression) : bool :=
  match e with
  | BinaryOp _ l _ => in_scratch l
  | VariableAccess _ _ => false
  | _ => true
  end.

(** The scratch registers an expression needs; the right operand is evaluated first. *)
Fixpoint need (e : Expression) : nat :=
  match e with
  | BinaryOp _ l r => Nat.max (need r) (Nat.b2n (in_scratch r) + need l)
  | VariableAccess _ _ => 0
  | _ => 1
  end.

(** A right operand held in a temporary survives seven reads, not eight. *)
Fixpoint kept_temps (e : Expression) : bool :=
  match e with
  | BinaryOp _ l r => (in_scratch r || (reads l <=? 7)%nat) && kept_temps l && kept_temps r
  | _ => true
  end.

Fixpoint height (e : Expression) : nat :=
  match e with BinaryOp _ l r => S (Nat.max (height l) (height r)) | _ => 1 end.

Lemma eval_word ρ e : (forall x, x ∈ variables e -> word (ρ x)) -> word (eval ρ e).
Proof.
  assert (H0 : word 0) by done.
  induction e; intros H; cbn [eval]; try done; try apply word_b2z.
  - destruct value; [apply word_u64 | done].
  - apply H. by left.
  - cbn [variables] in H. apply eval_op_word; [apply IHe1 | apply IHe2];
      intros x Hx; apply H, elem_of_app; auto.
Qed.

(** ** Free scratch registers *)

Lemma free_count_insert bs k b : bs !! k = Some (negb b) ->
  (free_count (<[k := b]> bs) + Nat.b2n b = free_count bs + Nat.b2n (negb b))%nat.
Proof.
  unfold free_count. revert k. induction bs as [|c bs IH]; intros [|k] H; try discriminate; cbn in H.
  - injection H as ->. destruct b; cbn; lia.
  - specialize (IH k H). change (<[S k:=b]> (c :: bs)) with (c :: <[k:=b]> bs). destruct c; cbn in *; lia.
Qed.

Lemma first_free_some bs : (0 < free_count bs)%nat -> exists k, first_free bs = Some k.
Proof.
  unfold free_count. induction bs as [|[] bs IH]; cbn; [lia| |by exists 0%nat].
  intros H. destruct (IH H) as [k ->]. by exists (S k).
Qed.

Section expression.
Context (env : environment) (cfgs : gmap string (list BasicBlock)) (ag : bool) (base : code_gen).
(** Where the variables are and what they hold. *)
Context (off ρ : string -> Z).

(** [base] with other registers in use, more code, another result register. *)
Definition at_state (n : nat) (bs : list bool) (code : list Instruction) (reg : string) : code_gen :=
  set_result_reg reg
    (set_gen (mkGenerator (registers_at ag n bs) (frame (gen base)) (emitted (gen base) ++ code)) base).

Definition types : gmap string VarType :=
  match function_metrics env !! current_function_name base with
  | Some m => metrics_variable_types m
  | None => ∅
  end.

(** An integer variable that lives in its frame slot. *)
Definition in_frame (x : string) : Prop :=
  (forall t s, symbol_table base = Some t -> SymbolTable.lookup x t = Some s -> is_runtime s = false)
  /\ (exists a, current_function_allocation base !! x = Some a /\ is_spilled a = true
        /\ stack_offset a = off x)
  /\ 0 <= off x <= 32760 /\ off x mod 8 = 0
  /\ get_variable_type (frame (gen base)) x <> VT_FLOAT
  /\ variable_type types x <> VT_FLOAT.

(** A machine whose frame holds the variables. *)
Definition frame_holds (xs : list string) (m : machine) : Prop :=
  forall x, x ∈ xs -> slot_ok 29 (off x) m /\ mem m (xreg m 29 + off x) = ρ x /\ word (ρ x).

(** Registers an expression may use: X16, the free scratch registers, the next temporaries. *)
Definition used (n k : nat) (bs : list bool) (z : Z) : Prop :=
  z = 16
  \/ (exists j r, SCRATCH_REGS !! j = Some r /\ bs !! j = Some false /\ z = regnum r)
  \/ (exists j, (n <= j < n + k)%nat /\ z = regnum (temp j)).

Definition keeps_rest (n k : nat) (bs : list bool) (m m' : machine) : Prop :=
  sp m' = sp m /\ mem m' = mem m /\ forall z, ~ used n k bs z -> xreg m' z = xreg m z.

(** Where the result is and which registers are in use afterwards. *)
Definition placed (e : Expression) (n : nat) (bs : list bool) (r : string) (bs' : list bool) : Prop :=
  if in_scratch e
  then exists k, SCRATCH_REGS !! k = Some r /\ bs !! k = Some false /\ bs' = <[k := true]> bs
  else (0 < reads e)%nat /\ r = temp (n + reads e - 1) /\ bs' = bs.

(** The code [m] emits from this state computes [e]. *)
Definition generates (m : G unit) (e : Expression) : Prop :=
  forall n bs code reg, length bs = 6%nat -> (need e <= free_count bs)%nat ->
  exists code' r bs', m (at_state n bs code reg) = (at_state (n + reads e) bs' (code ++ code') r, Done tt)
    /\ placed e n bs r bs'
    /\ forall s, frame_holds (variables e) s -> exists s', run_instrs s code' = Next s'
         /\ xreg s' (regnum r) = eval ρ e /\ keeps_rest n (reads e) bs s s'.

(** *** Registers *)

Lemma scratch_pool k r : SCRATCH_REGS !! k = Some r -> pool_reg r.
Proof. intros H. apply elem_of_app. left. by eapply list_elem_of_lookup_2. Qed.

Lemma temp_pool_reg n : pool_reg (temp n).
Proof. apply elem_of_app. right. apply temp_pool. Qed.

Lemma scratch_not_temp k r n : SCRATCH_REGS !! k = Some r -> regnum r <> regnum (temp n).
Proof.
  intros H E. apply (pool_inj r (temp n)) in E; [|by eapply scratch_pool | apply temp_pool_reg].
  subst r. apply (pools_apart (temp n)); [apply temp_pool | by eapply list_elem_of_lookup_2].
Qed.

Lemma scratch_apart j k r s : SCRATCH_REGS !! j = Some r -> SCRATCH_REGS !! k = Some s ->
  regnum r = regnum s -> j = k.
Proof.
  intros Hr Hs E. apply (pool_inj r s) in E; [subst s | by eapply scratch_pool..].
  by apply (NoDup_lookup SCRATCH_REGS j k r scratch_nodup).
Qed.

Lemma temp_apart i j : regnum (temp i) = regnum (temp j) -> (i mod 8 = j mod 8)%nat.
Proof.
  intros E. apply (pool_inj (temp i) (temp j)) in E; [|apply temp_pool_reg..].
  assert (Hn : NoDup VARIABLE_REGS) by (apply (bool_decide_unpack _); vm_compute; exact I).
  assert (Hl : forall n, VARIABLE_REGS !! (n mod 8)%nat = Some (temp n)).
  { intros n. destruct (lookup_lt_is_Some_2 VARIABLE_REGS (n mod 8)%nat) as [x Hx].
    - change (length VARIABLE_REGS) with 8%nat. pose proof (Nat.mod_upper_bound n 8). lia.
    - unfold temp. rewrite Hx. f_equal. symmetry. by apply nth_lookup_Some. }
  eapply (NoDup_lookup VARIABLE_REGS); [done | apply Hl | by rewrite E, Hl].
Qed.

Lemma used_range n k bs z : used n k bs z -> 10 <= z <= 27.
Proof.
  intros [-> | [(j & r & Hr & _ & ->) | (j & _ & ->)]]; [lia | |].
  - by destruct (pool_range r (scratch_pool j r Hr)).
  - by destruct (pool_range _ (temp_pool_reg j)).
Qed.

(** *** Composition *)

Lemma keeps_refl n k bs m : keeps_rest n k bs m m.
Proof. done. Qed.

Lemma keeps_trans n k bs m1 m2 m3 :
  keeps_rest n k bs m1 m2 -> keeps_rest n k bs m2 m3 -> keeps_rest n k bs m1 m3.
Proof.
  intros (S1 & M1 & R1) (S2 & M2 & R2). split; [congruence|]. split; [congruence|].
  intros z Hz. by rewrite R2, R1.
Qed.

Lemma keeps_weaken n k bs n' k' bs' m m' :
  keeps_rest n k bs m m' -> (forall z, used n k bs z -> used n' k' bs' z) -> keeps_rest n' k' bs' m m'.
Proof. intros (? & ? & H) Hu. split; [done|]. split; [done|]. intros z Hz. apply H. auto. Qed.

Lemma keeps_only n k bs rd m m' : used n k bs rd -> only_reg rd m m' -> keeps_rest n k bs m m'.
Proof.
  intros Hu (? & ? & _ & H). split; [done|]. split; [done|]. intros z Hz. apply H. by intros ->.
Qed.

Lemma frame_kept n k bs xs m m' : keeps_rest n k bs m m' -> frame_holds xs m -> frame_holds xs m'.
Proof.
  intros (Hs & Hm & Hr) H x Hx. destruct (H x Hx) as ((A & B & C & D) & E & F).
  assert (R : xreg m' 29 = xreg m 29) by (apply Hr; intros Hu%used_range; lia).
  unfold slot_ok, rget_sp, base_ok in *. cbn in *. by rewrite Hm, R.
Qed.

(** *** Steps of the generator *)

Lemma bind_done {A B} (m : G A) (f : A -> G B) c c' a : m c = (c', Done a) -> (m ≫= f) c = f a c'.
Proof. intros H. unfold mbind, G_bind. by rewrite H. Qed.

Lemma at_put code' n bs code reg :
  put_code code' (at_state n bs code reg) = at_state n bs (code ++ code') reg.
Proof. unfold put_code, at_state, set_result_reg, set_gen. cbn. by rewrite app_assoc. Qed.

Lemma emit_list_puts l c : Codegen.emit_list l c = (put_code l c, Done tt).
Proof.
  revert c. induction l as [|i l IH]; intros c.
  - unfold put_code. rewrite app_nil_r. by destruct c as [[]].
  - cbn [Codegen.emit_list]. unfold mbind at 1, G_bind at 1. cbn. rewrite IH.
    unfold put_code. cbn. by rewrite <-app_assoc.
Qed.

Lemma rm_at {A} (m : M A) n bs n' bs' code reg (o : Prelude.outcome A) :
  (forall fr code, m (mkGenerator (registers_at ag n bs) fr code)
                   = (mkGenerator (registers_at ag n' bs') fr code, o)) ->
  rm m (at_state n bs code reg) = (at_state n' bs' code reg, o).
Proof. intros H. unfold rm, at_state, set_result_reg, set_gen. cbn. by rewrite H. Qed.

Lemma set_result_at r n bs code reg : set_result_to r (at_state n bs code reg) = (at_state n bs code r, Done tt).
Proof. done. Qed.

(** *** Literals *)

(** [emit r] emits code that loads [v] into [r]. *)
Definition loads_value (emit : string -> G unit) (v : Z) : Prop :=
  forall r, pool_reg r -> exists code, (forall c, emit r c = (put_code code c, Done tt))
    /\ forall s, exists s', run_instrs s code = Next s' /\ xreg s' (regnum r) = v
         /\ only_reg (regnum r) s s'.

Lemma literal_generates e emit :
  in_scratch e = true -> variables e = [] -> need e = 1%nat -> loads_value emit (eval ρ e) ->
  generates (reg ← rm get_free_register; emit reg;; set_result_to reg) e.
Proof.
  intros He Hv Hd Hload n bs code reg Hl Hn. rewrite Hd in Hn.
  destruct (first_free_some bs) as [k Hk]; [lia|].
  pose proof (first_free_lookup bs k Hk) as Hb.
  destruct (lookup_lt_is_Some_2 SCRATCH_REGS k) as [r Hr].
  { apply lookup_lt_Some in Hb. rewrite Hl in Hb. exact Hb. }
  destruct (Hload r (scratch_pool k r Hr)) as (code' & Hemit & Hrun).
  exists code', r, (<[k := true]> bs). unfold reads. rewrite Hv. cbn [length].
  rewrite Nat.add_0_r. split; [|split].
  - rewrite (bind_done _ _ _ (at_state n (<[k:=true]> bs) code reg) r).
    + by rewrite (bind_done _ _ _ _ tt (Hemit _)), at_put.
    + apply rm_at. intros fr code0. by apply scratch_runs.
  - unfold placed. rewrite He. by exists k.
  - intros s _. destruct (Hrun s) as (s' & R & V & O). exists s'. split; [done|]. split; [done|].
    apply (keeps_only _ _ _ (regnum r)); [|done]. right. left. by exists k, r.
Qed.

Lemma movz_loads v : 0 <= v <= 0xFFFF ->
  loads_value (fun r => emit_ok (create_movz_imm r v 0 NONE "")) v.
Proof.
  intros Hv r Hr. destruct (pool_parse r Hr) as (_ & _ & Pr).
  pose proof (create_movz_imm_ok r v 0 NONE "" ltac:(lia)) as H. rewrite Pr in H. change (valid_hw true 0) with true in H. cbv iota in H.
  destruct H as (i & Hi & (_ & Hd & _) & _). exists [i]. split.
  - intros c. rewrite Hi. apply emit_ok_Ok.
  - intros s. eexists. split; [rewrite (run_one _ _ _ Hd); reflexivity|].
    pose proof (pool_range r Hr). rewrite rset_pool by lia. cbn [xreg sp mem nzcv].
    change (2 ^ (16 * (0 / 16))) with 1. rewrite Z.mul_1_r, upd_same. split; [done|]. repeat split. intros z Hz. by apply upd_other.
Qed.

Lemma abs64_loads_value v : word v ->
  loads_value (fun r => emit_seq (create_movz_movk_abs64 r v "")) v.
Proof.
  intros Hv r Hr. destruct (pool_parse r Hr) as (_ & _ & Pr). pose proof (pool_range r Hr).
  destruct (abs64_loads r "" (regnum r) v Pr ltac:(lia) Hv) as (l & Hl & _ & Hrun).
  exists l. split; [|exact Hrun]. intros c. unfold emit_seq. rewrite Hl. apply emit_list_puts.
Qed.

Lemma number_generates v : - 2 ^ 63 <= v < 2 ^ 63 ->
  generates (visit_NumberLiteral (Integer v)) (NumberLiteral (Integer v)).
Proof.
  intros Hv. apply (literal_generates _ (fun dest_reg =>
    if (0 <=? v) && (v <=? 0xFFFF) then emit_ok (create_movz_imm dest_reg v 0 NONE "")
    else emit_seq (create_movz_movk_abs64 dest_reg (u64 v) ""))); try done.
  cbn [eval]. destruct (_ && _) eqn:E; [|apply abs64_loads_value, word_u64].
  bool_to_prop. replace (u64 v) with v by (unfold u64; rewrite Z.mod_small; lia).
  by apply movz_loads.
Qed.

Lemma boolean_generates b : generates (visit_BooleanLiteral b) (BooleanLiteral b).
Proof.
  apply (literal_generates _ (fun r => emit_ok (create_movz_imm r (if b then 1 else 0) 0 NONE "")));
    try done. destruct b; by apply movz_loads.
Qed.

(** *** Variables *)

Lemma bind_get {A B} (f : code_gen -> A) (k : A -> G B) c : (G_get f ≫= k) c = k (f c) c.
Proof. done. Qed.

Lemma register_of_variable x n bs code reg : in_frame x ->
  exists i, create_ldr_imm (temp n) "X29" (off x) x = Ok i
    /\ get_variable_register env x (at_state n bs code reg)
       = (at_state (S n) bs (code ++ [i]) reg, Done (temp n)).
Proof.
  intros (Hsym & (a & Ha & Hs & Ho) & Hr & H8 & Ht & _).
  destruct (pool_parse (temp n) (temp_pool_reg n)) as (P & _).
  destruct (ldr_runs (temp n) "X29" x (regnum (temp n)) 29 (off x) P parse_X29 Hr H8)
    as (i & Hi & _).
  exists i. split; [done|]. unfold get_variable_register, find_symbol. rewrite bind_get.
  set (symbol := match symbol_table (at_state n bs code reg) with
                 | Some t => SymbolTable.lookup x t | None => None end).
  assert (Hrt : match symbol with Some s => is_runtime s | None => false end = false).
  { unfold symbol, at_state. cbn. destruct (symbol_table base) as [t|] eqn:Et; [|done].
    destruct (SymbolTable.lookup x t) as [s|] eqn:El; [|done]. by apply (Hsym t s). }
  rewrite Hrt, bind_get. change (current_function_allocation (at_state n bs code reg))
    with (current_function_allocation base). rewrite Ha, Hs, Ho.
  replace (off x =? -1) with false by lia. cbn [negb]. unfold frame_of. rewrite bind_get.
  change (frame (gen (at_state n bs code reg))) with (frame (gen base)).
  unfold is_float_type. replace (_ =? VT_FLOAT) with false by lia. unfold load_slot.
  rewrite (bind_done _ _ _ (at_state (S n) bs code reg) (temp n))
    by (apply rm_at; intros; apply temp_runs).
  rewrite Hi, (bind_done _ _ _ _ _ (emit_ok_Ok i _)), at_put.
  rewrite (bind_done _ _ _ (at_state (S n) bs (code ++ [i]) reg) tt)
    by (apply rm_at; intros; apply temp_runs).
  done.
Qed.

Lemma variable_generates x u : in_frame x ->
  generates (visit_VariableAccess env x) (VariableAccess x u).
Proof.
  intros Hx n bs code reg Hl _.
  destruct (register_of_variable x n bs code reg Hx) as (i & Hi & Hg).
  destruct Hx as (_ & _ & Hr & H8 & _).
  destruct (pool_parse (temp n) (temp_pool_reg n)) as (P & _).
  destruct (ldr_runs (temp n) "X29" x (regnum (temp n)) 29 (off x) P parse_X29 Hr H8)
    as (i' & Hi' & Hrun). rewrite Hi in Hi'. injection Hi' as <-.
  pose proof (pool_range _ (temp_pool_reg n)) as Hp.
  exists [i], (temp n), bs. unfold reads. cbn [variables length]. rewrite Nat.add_1_r.
  split; [|split].
  - unfold visit_VariableAccess. by rewrite (bind_done _ _ _ _ _ Hg).
  - unfold placed, reads. cbn [in_scratch variables length]. split; [lia|].
    split; [f_equal; lia | done].
  - intros s Hs. destruct (Hs x) as (Hok & Hm & _); [by left|].
    eexists. split; [by apply Hrun|]. rewrite rset_pool by lia. cbn [xreg eval].
    change (rget_sp s 29) with (xreg s 29). rewrite upd_same. split; [done|].
    split; [done|]. split; [done|]. intros z Hz. cbn. apply upd_other. intros ->. apply Hz.
    right. right. exists n. split; [lia | done].
Qed.

(** *** Operators *)

Lemma infer_not_float e : simple e = true -> (forall x, x ∈ variables e -> variable_type types x <> VT_FLOAT) ->
  infer_expression_type types (function_return_types env) e <> VT_FLOAT.
Proof.
  induction e; intros Hs Hv; try discriminate; cbn [simple] in Hs; cbn [infer_expression_type].
  - by destruct value.
  - apply Hv. by left.
  - bool_to_prop. cbn [variables] in Hv.
    assert (T1 := IHe1 ltac:(done) (fun x Hx => Hv x (proj2 (elem_of_app _ _ _) (or_introl Hx)))).
    assert (T2 := IHe2 ltac:(done) (fun x Hx => Hv x (proj2 (elem_of_app _ _ _) (or_intror Hx)))).
    apply Z.eqb_neq in T1 as ->. by apply Z.eqb_neq in T2 as ->.
Qed.

Definition operands_code (gen : Expression -> G unit) (op : BinaryOperator) (l r : Expression) : G unit :=
  right_reg ← value_of gen r;
  left_reg ← value_of gen l;
  emit_binary op false left_reg right_reg;;
  release right_reg;;
  set_result_to left_reg.

(** Integer operands are not promoted. *)
Lemma visit_integer_BinaryOp gen op l r n bs code reg :
  simple (BinaryOp op l r) = true ->
  (forall x, x ∈ variables (BinaryOp op l r) -> variable_type types x <> VT_FLOAT) ->
  visit_BinaryOp env gen op l r (at_state n bs code reg) = operands_code gen op l r (at_state n bs code reg).
Proof.
  intros Hs Hv. cbn [simple] in Hs. bool_to_prop. cbn [variables] in Hv.
  assert (Hl : infer_expression_type types (function_return_types env) l <> VT_FLOAT)
    by (apply infer_not_float; [done | intros x Hx; apply Hv, elem_of_app; auto]).
  assert (Hr : infer_expression_type types (function_return_types env) r <> VT_FLOAT)
    by (apply infer_not_float; [done | intros x Hx; apply Hv, elem_of_app; auto]).
  apply Z.eqb_neq in Hl, Hr.
  replace (visit_BinaryOp env gen op l r) with
    (left_type ← infer env l;
     right_type ← infer env r;
     right_reg ← value_of gen r;
     left_reg ← value_of gen l;
     '(left_reg, right_reg) ←
       (if (left_type =? VT_FLOAT) && (right_type =? VT_INTEGER) then
          fp_reg ← promote right_reg; mret (left_reg, fp_reg)
        else if (left_type =? VT_INTEGER) && (right_type =? VT_FLOAT) then
          fp_reg ← promote left_reg; mret (fp_reg, right_reg)
        else mret (left_reg, right_reg));
     emit_binary op ((left_type =? VT_FLOAT) || (right_type =? VT_FLOAT)) left_reg right_reg;;
     release right_reg;;
     set_result_to left_reg) by (by destruct op).
  unfold infer. rewrite !bind_get.
  change (match function_metrics env !! current_function_name (at_state n bs code reg) with
          | Some m => metrics_variable_types m | None => ∅ end) with types.
  rewrite Hl, Hr, andb_false_r. cbn [andb orb].
  unfold operands_code, mbind, G_bind. destruct (value_of gen r _) as [c1 [r1| |]]; [|done..].
  by destruct (value_of gen l c1) as [c2 [r2| |]].
Qed.
Lemma reads_binary op l r : reads (BinaryOp op l r) = (reads l + reads r)%nat.
Proof. unfold reads. cbn [variables]. by rewrite length_app. Qed.

(** What is free after an expression was free before. *)
Lemma placed_after e n bs r bs' : length bs = 6%nat -> placed e n bs r bs' ->
  length bs' = 6%nat /\ pool_reg r /\ used n (reads e) bs (regnum r)
  /\ (free_count bs' + Nat.b2n (in_scratch e) = free_count bs)%nat
  /\ (forall j, bs' !! j = Some false -> bs !! j = Some false).
Proof.
  unfold placed. intros Hl. destruct (in_scratch e).
  - intros (k & Hr & Hb & ->). rewrite length_insert.
    split; [done|]. split; [by eapply scratch_pool|]. split; [right; left; by exists k, r|].
    split; [pose proof (free_count_insert bs k true Hb); cbn in *; lia|].
    intros j Hj. destruct (decide (k = j)) as [->|Hne]; [done|]. by rewrite list_lookup_insert_ne in Hj.
  - intros (Hp & -> & ->). split; [done|]. split; [apply temp_pool_reg|].
    split; [right; right; eexists; split; [|reflexivity]; lia|]. cbn. split; [lia | done].
Qed.

(** The right operand's register is not used while the left one is evaluated. *)
Lemma operand_survives r n bs rr bs' k :
  placed r n bs rr bs' -> (in_scratch r || (k <=? 7)%nat) = true ->
  length bs = 6%nat -> ~ used (n + reads r) k bs' (regnum rr).
Proof.
  intros Hp Hk Hl. pose proof (placed_after r n bs rr bs' Hl Hp) as (_ & Hpool & _).
  pose proof (pool_range rr Hpool) as (_ & H16 & _). unfold placed in Hp.
  intros [E | [(j & x & Hx & Hj & E) | (j & Hj & E)]]; [done | |]; destruct (in_scratch r).
  - destruct Hp as (i & Hi & Hb & ->). assert (i = j) as -> by (by apply (scratch_apart i j rr x)).
    rewrite list_lookup_insert_eq in Hj; [done|]. apply lookup_lt_Some in Hb. exact Hb.
  - destruct Hp as (_ & -> & _). by apply (scratch_not_temp j x (n + reads r - 1)).
  - destruct Hp as (i & Hi & _). by apply (scratch_not_temp i rr j).
  - destruct Hp as (H0 & -> & _). apply temp_apart in E. cbn in Hk. apply Nat.leb_le in Hk.
    assert (exists d, j = (n + reads r - 1) + d /\ 0 < d <= 7)%nat as (d & -> & Hd)
      by (exists (j - (n + reads r - 1))%nat; lia).
    pose proof (Nat.div_mod_eq (n + reads r - 1) 8). pose proof (Nat.div_mod_eq (n + reads r - 1 + d) 8). lia.
Qed.

(** Releasing the right operand leaves what the result needs. *)
Lemma release_right op l r n bs rr bs1 rl bs2 m code reg :
  length bs = 6%nat -> placed r n bs rr bs1 -> placed l (n + reads r) bs1 rl bs2 ->
  exists bs3, release rr (at_state m bs2 code reg) = (at_state m bs3 code reg, Done tt)
    /\ placed (BinaryOp op l r) n bs rl bs3.
Proof.
  intros Hl Hr Hle. destruct (placed_after _ _ _ _ _ Hl Hr) as (Hl1 & _).
  destruct (placed_after _ _ _ _ _ Hl1 Hle) as (Hl2 & _ & _).
  unfold placed in *. cbn [in_scratch]. rewrite reads_binary. unfold release.
  destruct (in_scratch r).
  - destruct Hr as (k & Hk & Hb & ->). exists (<[k := false]> bs2).
    assert (Hk6 : (k < length bs)%nat) by (by apply lookup_lt_Some in Hb).
    destruct (in_scratch l).
    + destruct Hle as (j & Hj & Hbj & ->).
      assert (Hne : k <> j) by (intros ->; by rewrite list_lookup_insert_eq in Hbj).
      rewrite list_lookup_insert_ne in Hbj by done. split.
      * apply rm_at. intros. apply (release_scratch _ _ _ _ _ k); [by rewrite !length_insert | done |].
        rewrite list_lookup_insert_ne by done. by apply list_lookup_insert_eq.
      * exists j. split; [done|]. split; [done|].
        rewrite (list_insert_insert_ne _ k j) by done. rewrite list_insert_insert_eq. f_equal.
        by apply list_insert_id.
    + destruct Hle as (H0 & -> & ->). split.
      * apply rm_at. intros. apply (release_scratch _ _ _ _ _ k); [by rewrite length_insert | done |].
        by apply list_lookup_insert_eq.
      * split; [lia|]. split; [f_equal; lia|]. rewrite list_insert_insert_eq. by apply list_insert_id.
  - destruct Hr as (H0 & -> & ->). exists bs2. split.
    + apply rm_at. intros. by apply release_temp, temp_pool.
    + destruct (in_scratch l); [done|]. destruct Hle as (H1 & -> & ->).
      split; [lia|]. split; [f_equal; lia | done].
Qed.

Lemma value_at gen e n bs code reg n' bs' code' r :
  gen e (at_state n bs code reg) = (at_state n' bs' code' r, Done tt) ->
  value_of gen e (at_state n bs code reg) = (at_state n' bs' code' r, Done r).
Proof. intros H. unfold value_of. by rewrite (bind_done _ _ _ _ _ H). Qed.
(** The machine after the two operands and the operator. *)
Lemma operands_run op l r n bs rr bs1 rl bs2 code1 code2 code3 :
  supported op = true -> (in_scratch r || (reads l <=? 7)%nat) = true -> length bs = 6%nat ->
  placed r n bs rr bs1 -> placed l (n + reads r) bs1 rl bs2 ->
  (forall s, frame_holds (variables r) s -> exists s', run_instrs s code1 = Next s'
     /\ xreg s' (regnum rr) = eval ρ r /\ keeps_rest n (reads r) bs s s') ->
  (forall s, frame_holds (variables l) s -> exists s', run_instrs s code2 = Next s'
     /\ xreg s' (regnum rl) = eval ρ l /\ keeps_rest (n + reads r) (reads l) bs1 s s') ->
  (forall s, words rl rr s -> exists s', run_instrs s code3 = Next s' /\ operates rl rr op s s') ->
  forall s, frame_holds (variables (BinaryOp op l r)) s ->
  exists s', run_instrs s (code1 ++ code2 ++ code3) = Next s'
    /\ xreg s' (regnum rl) = eval ρ (BinaryOp op l r)
    /\ keeps_rest n (reads (BinaryOp op l r)) bs s s'.
Proof.
  intros Hop Hk Hlen Hpr Hpl H1 H2 H3 s Hs. cbn [variables] in Hs.
  destruct (placed_after _ _ _ _ _ Hlen Hpr) as (Hlen1 & _ & _ & _ & Hsub).
  destruct (placed_after _ _ _ _ _ Hlen1 Hpl) as (_ & _ & Hurl & _).
  assert (Hfr : frame_holds (variables r) s) by (intros x Hx; apply Hs, elem_of_app; auto).
  assert (Hfl : frame_holds (variables l) s) by (intros x Hx; apply Hs, elem_of_app; auto).
  destruct (H1 s Hfr) as (s1 & R1 & V1 & K1).
  destruct (H2 s1 (frame_kept _ _ _ _ _ _ K1 Hfl)) as (s2 & R2 & V2 & K2).
  assert (V1' : xreg s2 (regnum rr) = eval ρ r).
  { destruct K2 as (_ & _ & K2). rewrite K2; [done|]. by apply (operand_survives r n bs). }
  assert (Hwr : word (eval ρ r)) by (apply eval_word; intros x Hx; apply (Hfr x Hx)).
  assert (Hwl : word (eval ρ l)) by (apply eval_word; intros x Hx; apply (Hfl x Hx)).
  destruct (H3 s2) as (s3 & R3 & V3 & Sp & Mm & K3); [by split; rewrite ?V2, ?V1'|].
  assert (Hu : forall z, used (n + reads r) (reads l) bs1 z -> used n (reads (BinaryOp op l r)) bs z).
  { rewrite reads_binary. intros z [-> | [(j & x & Hx & Hj & ->) | (j & Hj & ->)]]; [by left | |].
    - right. left. exists j, x. auto.
    - right. right. exists j. split; [lia | done]. }
  exists s3. rewrite run_instrs_app, R1, run_instrs_app, R2, R3. split; [done|].
  split; [by rewrite V3, V2, V1'|]. apply (keeps_trans _ _ _ _ s1).
  { apply (keeps_weaken _ _ _ _ _ _ _ _ K1). rewrite reads_binary.
    intros z [-> | [H | (j & Hj & ->)]]; [by left | by right; left |].
    right. right. exists j. split; [lia | done]. }
  apply (keeps_trans _ _ _ _ s2); [by apply (keeps_weaken _ _ _ _ _ _ _ _ K2)|].
  split; [done|]. split; [done|]. intros z Hz. apply K3.
  - intros ->. apply Hz, Hu, Hurl.
  - intros ->. apply Hz. by left.
Qed.

Lemma binary_generates gen op l r :
  simple (BinaryOp op l r) = true -> kept_temps (BinaryOp op l r) = true ->
  (forall x, x ∈ variables (BinaryOp op l r) -> in_frame x) ->
  generates (gen l) l -> generates (gen r) r ->
  generates (visit_BinaryOp env gen op l r) (BinaryOp op l r).
Proof.
  intros Hs Hk Hv Gl Gr n bs code reg Hlen Hneed.
  rewrite visit_integer_BinaryOp by (try done; intros x Hx; by apply Hv).
  cbn [simple] in Hs. cbn [kept_temps] in Hk. cbn [need] in Hneed. bool_to_prop.
  destruct (Gr n bs code reg Hlen) as (code1 & rr & bs1 & E1 & P1 & R1); [lia|].
  destruct (placed_after _ _ _ _ _ Hlen P1) as (Hlen1 & Hprr & _ & Hfree & _).
  destruct (Gl (n + reads r)%nat bs1 (code ++ code1) rr Hlen1) as (code2 & rl & bs2 & E2 & P2 & R2); [lia|].
  destruct (placed_after _ _ _ _ _ Hlen1 P2) as (_ & Hprl & _).
  destruct (binary_runs rl rr Hprl Hprr op) as (code3 & E3 & R3); [done|].
  set (n' := (n + reads r + reads l)%nat) in *.
  destruct (release_right op l r n bs rr bs1 rl bs2 n' (((code ++ code1) ++ code2) ++ code3) rl
    Hlen P1 P2) as (bs3 & E4 & P3).
  exists (code1 ++ code2 ++ code3), rl, bs3. split; [|split; [done|]].
  - unfold operands_code. rewrite (bind_done _ _ _ _ _ (value_at _ _ _ _ _ _ _ _ _ _ E1)).
    rewrite (bind_done _ _ _ _ _ (value_at _ _ _ _ _ _ _ _ _ _ E2)).
    rewrite (bind_done _ _ _ _ _ (E3 _)), at_put, (bind_done _ _ _ _ _ E4), set_result_at.
    rewrite reads_binary, !app_assoc. replace (n + (reads l + reads r))%nat with n' by lia. done.
  - by apply (operands_run op l r n bs rr bs1 rl bs2).
Qed.

(** *** Expressions *)

Lemma expression_generates e : forall fuel,
  simple e = true -> kept_temps e = true -> (forall x, x ∈ variables e -> in_frame x) ->
  (height e <= fuel)%nat -> generates (generate_expression_code env cfgs fuel e) e.
Proof.
  induction e; intros fuel Hs Hk Hv Hf; try discriminate; (destruct fuel as [|fuel]; [cbn in Hf; lia|]);
    unfold generate_expression_code; cbn [dispatch];
    destruct (dispatch env cfgs fuel) as [ge gs] eqn:Ed; cbn [fst visit_expression].
  - destruct value as [v|]; [|discriminate]. cbn [simple] in Hs. apply number_generates. lia.
  - apply boolean_generates.
  - apply variable_generates, Hv. by left.
  - assert (Ege : ge = generate_expression_code env cfgs fuel)
      by (unfold generate_expression_code; by rewrite Ed).
    pose proof Hs as Hs'. pose proof Hk as Hk'. cbn [simple] in Hs'. cbn [kept_temps] in Hk'.
    cbn [height] in Hf. bool_to_prop. subst ge.
    apply binary_generates; try done; [apply IHe1 | apply IHe2]; try done; try lia;
      intros x Hx; apply Hv, elem_of_app; auto.
Qed.
End expression.
