(* ===== verification/BlockProof.v ===== *)
(** * The code of assignments is correct

    Sequences of assignments of integer expressions to local variables: the code generated
    for them, executed, updates the frame as the assignments say. *)

From S2P Require Import Prelude Words A64 Instr EncReg EncSpec EncArith EncMem EncBranch Machine Labels Linker CallFrame FrameLayout CallFrameProof Registers RegisterProof Functions RegisterSpec FunctionSpec Ast SymbolTable Analysis Data Codegen CodegenExpr CodegenCalls CodegenStmt OpsRun ExprState ExprProof.
Local Open Scope Z_scope.

Set Warnings "-clear-no-such-hyp".

(** A variable and the expression it is assigned. *)
Definition assignment : Type := (string * Expression)%type.

Definition statement_of (a : assignment) : Statement :=
  AssignmentStatement [VariableAccess a.1 ""] [a.2].

Definition update (ρ : string -> Z) (x : string) (v : Z) : string -> Z :=
  fun y => if String.eqb y x then v else ρ y.

Definition perform (ρ : string -> Z) (a : assignment) : string -> Z := update ρ a.1 (eval ρ a.2).

Definition simple_assignment (free : nat) (a : assignment) : bool :=
  simple a.2 && kept_temps a.2 && (need a.2 <=? free)%nat.

Definition names_of (l : list assignment) : list string :=
  concat (List.map (fun a => a.1 :: variables a.2) l).

(** Distinct variables have distinct slots. *)
Definition slots_apart (off : string -> Z) (xs : list string) : Prop :=
  forall x y, x ∈ xs -> y ∈ xs -> x <> y -> off x <> off y.

Section assignments.
Context (env : environment) (cfgs : gmap string (list BasicBlock)) (ag : bool) (base : code_gen).
Context (off : string -> Z).

Local Abbreviation at_state := (at_state ag base).

(** What the code of statements may change: the slots of [xs], X16, the free scratch
    registers and the pool of temporaries. *)
Definition changes_only (xs : list string) (bs : list bool) (m m' : machine) : Prop :=
  sp m' = sp m
  /\ (forall a, (forall x, x ∈ xs -> a <> xreg m 29 + off x) -> mem m' a = mem m a)
  /\ (forall z, ~ used 0 8 bs z -> xreg m' z = xreg m z).

Lemma used_any n k bs z : used n k bs z -> used 0 8 bs z.
Proof.
  intros [-> | [H | (j & _ & ->)]]; [by left | by right; left |]. right. right.
  exists (j mod 8)%nat. pose proof (Nat.mod_upper_bound j 8). split; [lia|].
  unfold temp. by rewrite Nat.Div0.mod_mod.
Qed.

Lemma changes_trans xs bs m1 m2 m3 :
  changes_only xs bs m1 m2 -> changes_only xs bs m2 m3 -> changes_only xs bs m1 m3.
Proof.
  intros (S1 & M1 & R1) (S2 & M2 & R2). split; [congruence|].
  assert (E : xreg m2 29 = xreg m1 29) by (apply R1; intros H%used_range; lia). split.
  - intros a Ha. rewrite M2, M1; [done | done |]. intros x Hx. rewrite E. auto.
  - intros z Hz. by rewrite R2, R1.
Qed.

Lemma changes_weaken xs ys bs m m' :
  changes_only xs bs m m' -> (forall x, x ∈ xs -> x ∈ ys) -> changes_only ys bs m m'.
Proof. intros (S & M & R) H. split; [done|]. split; [|done]. intros a Ha. apply M. auto. Qed.

(** *** One assignment *)

Lemma release_result e n bs r bs' m code reg :
  length bs = 6%nat -> placed e n bs r bs' ->
  release r (at_state m bs' code reg) = (at_state m bs code reg, Done tt).
Proof.
  intros Hl Hp. unfold placed in Hp. destruct (in_scratch e).
  - destruct Hp as (k & Hk & Hb & ->). apply rm_at. intros.
    rewrite (release_scratch _ _ _ _ _ k) by
      (rewrite ?length_insert; try done; by apply list_lookup_insert_eq; apply lookup_lt_Some in Hb).
    by rewrite list_insert_insert_eq, list_insert_id.
  - destruct Hp as (_ & -> & ->). apply rm_at. intros. apply release_temp, temp_pool.
Qed.

(** The store of a register into the slot of a variable. *)
Lemma store_register x r n bs code reg : in_frame env base off x -> pool_reg r ->
  exists i, create_str_imm r "X29" (off x) x = Ok i
    /\ store_variable_register x r (at_state n bs code reg)
       = (at_state n bs (code ++ [i]) reg, Done tt).
Proof.
  intros (Hsym & (a & Ha & Hs & Ho) & Hr & H8 & _) Hp.
  destruct (pool_parse r Hp) as (P & _). pose proof (pool_range r Hp) as (_ & _ & Hfp).
  destruct (str_runs r "X29" x (regnum r) 29 (off x) P parse_X29 Hr H8) as (i & Hi & _).
  exists i. split; [done|]. unfold store_variable_register, find_symbol. rewrite bind_get.
  set (symbol := match symbol_table (at_state n bs code reg) with
                 | Some t => SymbolTable.lookup x t | None => None end).
  assert (Hrt : match symbol with Some s => is_runtime s | None => false end = false).
  { unfold symbol, ExprProof.at_state. cbn. destruct (symbol_table base) as [t|] eqn:Et; [|done].
    destruct (SymbolTable.lookup x t) as [s|] eqn:El; [|done]. by apply (Hsym t s). }
  rewrite Hrt, bind_get. change (current_function_allocation (at_state n bs code reg))
    with (current_function_allocation base). rewrite Ha. unfold store_allocated. rewrite Hs, Ho.
  replace (off x =? -1) with false by lia. cbn [negb]. unfold note_float, store_slot, is_fp.
  rewrite Hfp, Hi. rewrite (bind_done _ _ _ (at_state n bs code reg) tt) by done.
  by rewrite emit_ok_Ok, at_put.
Qed.

Lemma assignment_generates xs a fuel n bs code reg :
  simple_assignment (free_count bs) a = true -> length bs = 6%nat ->
  (forall x, x ∈ xs -> in_frame env base off x) ->
  (forall x, x ∈ a.1 :: variables a.2 -> x ∈ xs) -> slots_apart off xs ->
  (height a.2 < fuel)%nat ->
  forall ρ, exists code' r,
    generate_statement_code env cfgs fuel (statement_of a) (at_state n bs code reg)
    = (at_state (n + reads a.2) bs (code ++ code') r, Done tt)
    /\ forall s, frame_holds off ρ xs s -> exists s', run_instrs s code' = Next s'
         /\ frame_holds off (perform ρ a) xs s' /\ changes_only [a.1] bs s s'.
Proof.
  destruct a as [x e]. cbn [fst snd]. intros Ha Hl Hin Hsub Hap Hf ρ.
  unfold simple_assignment in Ha. cbn [snd] in Ha. bool_to_prop.
  assert (He : forall y, y ∈ variables e -> in_frame env base off y) by (intros y Hy; apply Hin, Hsub; by right).
  assert (Hx : in_frame env base off x) by (apply Hin, Hsub; by left).
  destruct fuel as [|fuel]; [lia|].
  destruct (expression_generates env cfgs ag base off ρ e fuel ltac:(done) ltac:(done) He ltac:(lia)
    n bs code reg Hl ltac:(by apply Nat.leb_le)) as (code1 & r & bs' & E1 & P & R1).
  destruct (placed_after _ _ _ _ _ Hl P) as (_ & Hpool & Hur & _).
  destruct (pool_parse r Hpool) as (Pr & _).
  pose proof (pool_range r Hpool) as (Hrange & _ & Hfp).
  destruct (store_register x r (n + reads e) bs' (code ++ code1) r Hx Hpool) as (i & Hi & E2).
  destruct Hx as (_ & _ & Ho & H8 & Ht & _).
  destruct (str_runs r "X29" x (regnum r) 29 (off x) Pr parse_X29 Ho H8) as (i' & Hi' & R2).
  rewrite Hi in Hi'. injection Hi' as <-.
  exists (code1 ++ [i]), r. split.
  - unfold generate_statement_code. cbn [dispatch].
    destruct (dispatch env cfgs fuel) as [ge gs] eqn:Ed. cbn [snd visit_statement statement_of].
    assert (Ege : ge = generate_expression_code env cfgs fuel)
      by (unfold generate_expression_code; by rewrite Ed). subst ge.
    unfold visit_Assignment. cbn [length Nat.eqb negb fst snd map_all combine].
    rewrite (bind_done _ _ _ (at_state (n + reads e) bs' (code ++ code1) r) [r]).
    2:{ rewrite (bind_done _ _ _ _ _ (value_at _ _ _ _ _ _ _ _ _ _ _ _ E1)). done. }
    cbn [combine for_all fst snd assign_one].
    rewrite (bind_done _ _ _ (at_state (n + reads e) bs (code ++ code1 ++ [i]) r) tt); [done|].
    unfold handle_variable_assignment, frame_of. rewrite bind_get.
    change (frame (gen (at_state _ _ _ _))) with (frame (gen base)).
    unfold is_fp, is_float_type. rewrite Hfp. replace (_ =? VT_FLOAT) with false by lia.
    rewrite (bind_done _ _ _ _ _ E2), (release_result e n bs r bs') by done.
    by rewrite app_assoc.
  - intros s Hs. destruct (R1 s) as (s1 & X1 & V1 & K1); [intros y Hy; apply Hs, Hsub; by right|].
    pose proof (frame_kept _ _ _ _ _ _ _ _ K1 Hs) as Hs1.
    destruct (Hs1 x ltac:(apply Hsub; by left)) as (Hok & _ & _).
    eexists. rewrite run_instrs_app, X1, R2 by done. split; [done|].
    change (rget_sp s1 29) with (xreg s1 29). unfold rget.
    replace (regnum r =? 31) with false by lia. rewrite V1.
    assert (Hw : word (eval ρ e)) by (apply eval_word; intros y Hy; apply (Hs y), Hsub; by right).
    destruct K1 as (K1s & K1m & K1r).
    assert (E29 : xreg s1 29 = xreg s 29) by (apply K1r; intros U%used_range; lia). split.
    + intros y Hy. destruct (Hs1 y Hy) as (Hoky & Hmy & Hwy). split; [exact Hoky|].
      unfold perform, update. cbn [fst snd set_mem xreg mem].
      destruct (String.eqb y x) eqn:Eyx.
      * apply String.eqb_eq in Eyx as ->. by rewrite upd_same.
      * apply String.eqb_neq in Eyx. rewrite upd_other; [done|].
        assert (off y <> off x) by (apply Hap; [done | apply Hsub; by left | done]). lia.
    + split; [done|]. split.
      * intros q Hq. cbn [set_mem mem]. rewrite upd_other; [by rewrite K1m|].
        rewrite E29. apply Hq. by left.
      * intros z Hz. cbn. apply K1r. intros U%used_any. done.
Qed.

(** *** Sequences *)

Lemma assignments_generates xs fuel n bs :
  length bs = 6%nat -> (forall x, x ∈ xs -> in_frame env base off x) -> slots_apart off xs ->
  forall l, forallb (simple_assignment (free_count bs)) l = true ->
  (forall x, x ∈ names_of l -> x ∈ xs) -> Forall (fun a => (height a.2 < fuel)%nat) l ->
  forall ρ k code reg, exists code' r k',
    for_all (generate_statement_code env cfgs fuel) (List.map statement_of l)
      (at_state (n + k) bs code reg) = (at_state (n + k') bs (code ++ code') r, Done tt)
    /\ forall s, frame_holds off ρ xs s -> exists s', run_instrs s code' = Next s'
         /\ frame_holds off (foldl perform ρ l) xs s' /\ changes_only (List.map fst l) bs s s'.
Proof.
  intros Hl Hin Hap l. induction l as [|a l IH]; intros Hs Hsub Hf ρ k code reg.
  - exists [], reg, k. rewrite app_nil_r. split; [done|]. intros s H. by exists s.
  - cbn [forallb] in Hs. apply andb_true_iff in Hs as [Ha Hs].
    apply list.Forall_cons in Hf as [Hfa Hf]. unfold names_of in Hsub. cbn [List.map concat] in Hsub.
    destruct (assignment_generates xs a fuel (n + k) bs code reg Ha Hl Hin
      (fun x H => Hsub x (proj2 (elem_of_app _ _ _) (or_introl H))) Hap Hfa ρ)
      as (code1 & r1 & E1 & R1).
    destruct (IH Hs (fun x H => Hsub x (proj2 (elem_of_app _ _ _) (or_intror H))) Hf (perform ρ a)
      (k + reads a.2)%nat (code ++ code1) r1) as (code2 & r2 & k' & E2 & R2).
    exists (code1 ++ code2), r2, k'. split.
    + cbn [List.map for_all]. rewrite (bind_done _ _ _ _ _ E1), <-Nat.add_assoc, E2. by rewrite app_assoc.
    + intros s H. destruct (R1 s H) as (s1 & X1 & F1 & C1). destruct (R2 s1 F1) as (s2 & X2 & F2 & C2).
      exists s2. rewrite run_instrs_app, X1. split; [done|]. split; [exact F2|].
      apply (changes_trans _ _ _ s1); (eapply changes_weaken; [eassumption|]); intros x Hx.
      * apply list_elem_of_singleton in Hx as ->. by left.
      * by right.
Qed.

(** The code does not depend on what the variables hold. *)
Lemma at_state_code n bs code1 r1 n' bs' code2 r2 :
  at_state n bs code1 r1 = at_state n' bs' code2 r2 -> code1 = code2 /\ r1 = r2.
Proof.
  intros H. split; [|exact (f_equal expression_result_reg H)].
  apply (f_equal (fun c => emitted (gen c))) in H. by apply app_inv_head in H.
Qed.

Lemma at_state_base n bs : manager (gen base) = registers_at ag n bs ->
  base = at_state n bs [] (expression_result_reg base).
Proof.
  unfold ExprProof.at_state, set_result_reg, set_gen. intros <-. rewrite app_nil_r. by destruct base as [[]].
Qed.
End assignments.

(** ** The properties *)

(** For two registers of the pools, the code [emit_binary] emits for an
    integer operator (arithmetic, comparison, [&], shifts) runs on every machine and puts the value
    of the operator on 64-bit words into the left register; apart from it only X16 changes. *)
Theorem operators_compute op l r :
  supported op = true -> pool_reg l -> pool_reg r ->
  exists code, (forall c, emit_binary op false l r c = (put_code code c, Done tt))
  /\ forall s, words l r s -> exists s', run_instrs s code = Next s' /\ operates l r op s s'.
Proof. intros Hop Hl Hr. exact (binary_runs l r Hl Hr op Hop). Qed.

Lemma operators_compute_witness :
  exists code, (forall c, emit_binary Remainder false "X10" "X20" c = (put_code code c, Done tt))
  /\ forall s, words "X10" "X20" s ->
       exists s', run_instrs s code = Next s' /\ operates "X10" "X20" Remainder s s'.
Proof.
  apply (operators_compute Remainder "X10" "X20"); [reflexivity | |];
    apply list_elem_of_In; vm_compute; tauto.
Defined.

(** C3: an integer expression over literals, variables in the frame and the
    operators, which needs no more scratch registers than are free and reads at most seven
    variables while it holds one, is generated with a fuel of its height: only code is
    emitted and registers are taken. The code, run on any machine whose frame holds the
    variables, puts the value of the expression into the result register and changes nothing
    but X16, free scratch registers and the temporaries it takes. *)
Theorem expression_correct env cfgs ag base off e fuel n bs :
  simple e = true -> kept_temps e = true -> (forall x, x ∈ variables e -> in_frame env base off x) ->
  (height e <= fuel)%nat -> length bs = 6%nat -> (need e <= free_count bs)%nat ->
  manager (gen base) = registers_at ag n bs ->
  exists code r bs', generate_expression_code env cfgs fuel e base
    = (at_state ag base (n + reads e) bs' code r, Done tt)
  /\ placed e n bs r bs'
  /\ forall ρ s, frame_holds off ρ (variables e) s -> exists s', run_instrs s code = Next s'
       /\ xreg s' (regnum r) = eval ρ e /\ keeps_rest n (reads e) bs s s'.
Proof.
  intros Hs Hk Hv Hf Hl Hn Hm.
  assert (H : forall ρ, generates ag base off ρ (generate_expression_code env cfgs fuel e) e)
    by (intros ρ; by apply expression_generates).
  pose proof (at_state_base ag base n bs Hm) as Hb.
  destruct (H (fun _ => 0) n bs [] (expression_result_reg base) Hl Hn) as (code & r & bs' & E & P & _).
  rewrite <-Hb in E. exists code, r, bs'. split; [exact E|]. split; [exact P|]. intros ρ s Hfr.
  destruct (H ρ n bs [] (expression_result_reg base) Hl Hn) as (code' & r' & bs'' & E' & _ & R).
  rewrite <-Hb, E in E'. apply (f_equal fst) in E'.
  destruct (at_state_code ag base _ _ _ _ _ _ _ _ E') as [Ec Er]. cbn in Ec. subst. by apply R.
Qed.

(** C4: a sequence of assignments of such expressions to variables of the
    frame is generated, and the code, run on any machine whose frame holds the variables,
    leaves the frame as the assignments, performed one after the other, say; outside the slots
    of the assigned variables memory is unchanged, and so are all registers but X16, free
    scratch registers and the pool of temporaries. *)
Theorem assignments_correct env cfgs ag base off xs l fuel n bs :
  forallb (simple_assignment (free_count bs)) l = true ->
  (forall x, x ∈ xs -> in_frame env base off x) -> slots_apart off xs ->
  (forall x, x ∈ names_of l -> x ∈ xs) -> Forall (fun a => (height a.2 < fuel)%nat) l ->
  length bs = 6%nat -> manager (gen base) = registers_at ag n bs ->
  exists code r n',
    generate_statement_code env cfgs (S fuel) (CompoundStatement (List.map statement_of l)) base
    = (at_state ag base n' bs code r, Done tt)
  /\ forall ρ s, frame_holds off ρ xs s -> exists s', run_instrs s code = Next s'
       /\ frame_holds off (foldl perform ρ l) xs s'
       /\ changes_only off (List.map fst l) bs s s'.
Proof.
  intros Hs Hin Hap Hsub Hf Hl Hm.
  pose proof (fun ρ => assignments_generates env cfgs ag base off xs fuel n bs Hl Hin Hap l Hs Hsub Hf
    ρ 0%nat [] (expression_result_reg base)) as H.
  rewrite Nat.add_0_r, <-(at_state_base ag base n bs Hm) in H.
  assert (Eg : generate_statement_code env cfgs (S fuel) (CompoundStatement (List.map statement_of l)) base
    = for_all (generate_statement_code env cfgs fuel) (List.map statement_of l) base).
  { unfold generate_statement_code. cbn [dispatch]. by destruct (dispatch env cfgs fuel). }
  destruct (H (fun _ => 0)) as (code & r & k' & E & _). exists code, r, (n + k')%nat.
  rewrite Eg. split; [exact E|]. intros ρ s Hfr. destruct (H ρ) as (code' & r' & k'' & E' & R).
  rewrite E in E'. apply (f_equal fst) in E'.
  destruct (at_state_code ag base _ _ _ _ _ _ _ _ E') as [Ec _]. cbn in Ec. subst. by apply R.
Qed.

(** ** Instances *)

Definition frame_interval (x : string) (o : Z) : LiveInterval := mkInterval x 0 1000 true "" o.

Definition sample_env : environment := mkEnvironment ∅ ∅ ∅ RuntimeManager_empty false 0 false.

(** A function after its entry, with the given allocation. *)
Definition sample_base (allocation : gmap string LiveInterval) : code_gen :=
  mkCodeGen (reset_for_new_function true sample_generator).1 LabelManager_empty DataGenerator_new None
    allocation "" "F" VT_INTEGER "" false 0.

Definition in_slots (names : list string) : gmap string LiveInterval :=
  list_to_map (imap (fun k x => (x, frame_interval x (16 + 8 * Z.of_nat k))) names).

Definition named (x : string) : Expression := VariableAccess x "".
Definition literal (n : Z) : Expression := NumberLiteral (Integer n).

(** The slots from X29 + 16 on hold 1, 2, 3 and so on. *)
Definition sample_machine : machine :=
  mkMachine (fun z => if z =? 29 then 1024 else 5) 1024 (fun a => (a - 1032) / 8) (mkFlags false false).

Definition slot_xy (x : string) : Z := if String.eqb x "x" then 16 else 24.

Lemma xy_in_frame x : x ∈ ["x"; "y"]%string -> in_frame sample_env (sample_base (in_slots ["x"; "y"]%string)) slot_xy x.
Proof.
  intros Hx. assert (H : x = "x"%string \/ x = "y"%string) by set_solver.
  destruct H as [-> | ->]; (split; [done|]; split; [eexists; by split|]; split; [done|];
    split; [done|]; split; vm_compute; discriminate).
Qed.

Lemma sample_manager a : manager (gen (sample_base a)) = registers_at true 0 all_free.
Proof. apply registers_at_start. Qed.

(** [x * 70000 - (y REM x)] *)
Definition xy_expression : Expression :=
  BinaryOp Subtract (BinaryOp Multiply (named "x") (literal 70000)) (BinaryOp Remainder (named "y") (named "x")).

Lemma expression_correct_witness :
  exists code r bs', generate_expression_code sample_env ∅ 3 xy_expression (sample_base (in_slots ["x"; "y"]%string))
    = (at_state true (sample_base (in_slots ["x"; "y"]%string)) 3 bs' code r, Done tt)
  /\ placed xy_expression 0 all_free r bs'
  /\ forall ρ s, frame_holds slot_xy ρ (variables xy_expression) s -> exists s', run_instrs s code = Next s'
       /\ xreg s' (regnum r) = eval ρ xy_expression /\ keeps_rest 0 3 all_free s s'.
Proof.
  apply (expression_correct sample_env ∅ true (sample_base (in_slots ["x"; "y"]%string)) slot_xy
    xy_expression 3 0 all_free); [reflexivity | reflexivity | | vm_compute; lia | reflexivity
    | vm_compute; lia | apply sample_manager].
  intros x Hx. apply xy_in_frame. revert Hx. cbn. set_solver.
Defined.

(** [x := x + 1; y := x * y] *)
Definition xy_assignments : list assignment :=
  [("x"%string, BinaryOp Add (named "x") (literal 1)); ("y"%string, BinaryOp Multiply (named "x") (named "y"))].

Lemma assignments_correct_witness :
  exists code r n',
    generate_statement_code sample_env ∅ 4 (CompoundStatement (List.map statement_of xy_assignments))
      (sample_base (in_slots ["x"; "y"]%string))
    = (at_state true (sample_base (in_slots ["x"; "y"]%string)) n' all_free code r, Done tt)
  /\ forall ρ s, frame_holds slot_xy ρ ["x"; "y"]%string s -> exists s', run_instrs s code = Next s'
       /\ frame_holds slot_xy (foldl perform ρ xy_assignments) ["x"; "y"]%string s'
       /\ changes_only slot_xy (List.map fst xy_assignments) all_free s s'.
Proof.
  apply (assignments_correct sample_env ∅ true (sample_base (in_slots ["x"; "y"]%string)) slot_xy
    ["x"; "y"]%string xy_assignments 3 0 all_free);
    [reflexivity | apply xy_in_frame | | | | reflexivity | apply sample_manager].
  - intros x y Hx Hy. assert (H : x = "x"%string \/ x = "y"%string) by set_solver.
    assert (H' : y = "x"%string \/ y = "y"%string) by set_solver.
    destruct H as [-> | ->], H' as [-> | ->]; done.
  - intros x Hx. revert Hx. cbn. set_solver.
  - repeat constructor; vm_compute; lia.
Defined.

(** ** Expressions that are not *)

(** The value an expression's code leaves in its result register. *)
Definition result_of (e : Expression) (base : code_gen) (s : machine) : option Z :=
  match generate_expression_code sample_env ∅ (height e) e base with
  | (c, Done _) =>
      match run_instrs s (emitted (gen c)) with
      | Next s' => Some (xreg s' (regnum (expression_result_reg c)))
      | _ => None
      end
  | _ => None
  end.

Definition nine : list string := ["a"; "b"; "c"; "d"; "e"; "f"; "g"; "h"; "i"]%string.
Definition sum_of (names : list string) : Expression :=
  match names with
  | [] => literal 0
  | x :: l => foldl (fun e y => BinaryOp Add e (named y)) (named x) l
  end.

(** A function's first parameter, as [prime_parameter] records it. *)
Definition in_X0 (x : string) : gmap string LiveInterval := {[x := mkInterval x 0 1000 false "X0" (-1)]}.

(** The sum of nine variables that hold 1 to 9 is computed as 72, for the
    ninth variable, held in a temporary, is overwritten while the eight others are read; with eight
    variables it is right. And [n + n * 2] for the first parameter [n], which is in X0, is computed
    as [4 * n], for the product is formed in X0 itself. *)
Theorem operands_overwritten :
  eval (fun x => default 0 (list_to_map (M := gmap string Z) (imap (fun k y => (y, 1 + Z.of_nat k)) nine) !! x))
    (sum_of nine) = 45
  /\ result_of (sum_of nine) (sample_base (in_slots nine)) sample_machine = Some 72
  /\ result_of (sum_of (take 8 nine)) (sample_base (in_slots nine)) sample_machine = Some 36
  /\ (let twice := BinaryOp Add (named "n") (BinaryOp Multiply (named "n") (literal 2)) in
      xreg sample_machine 0 = 5 /\ eval (fun _ => 5) twice = 15
      /\ result_of twice (sample_base (in_X0 "n")) sample_machine = Some 20).
Proof. vm_compute. repeat split. Qed.

Lemma movk_shift_one r : create_movk_imm r 0xFFFF 1 NONE "" = Throw invalid_argument.
Proof.
  pose proof (create_movk_imm_ok r 0xFFFF 1 NONE "" ltac:(lia)) as H.
  destruct (parse_register_zr r) as [[rd a]|]; [|done]. by destruct a.
Qed.

(** An operation that never succeeds. *)
Definition never_done {A} (m : G A) : Prop := forall c a, (m c).2 <> Done a.

Lemma never_after {A B} (m : G A) (f : A -> G B) : (forall a, never_done (f a)) -> never_done (m ≫= f).
Proof.
  intros H c b. unfold mbind, G_bind. destruct (m c) as [c' [a| |]]; [apply H | done..].
Qed.

Lemma never_first {A B} (m : G A) (f : A -> G B) : never_done m -> never_done (m ≫= f).
Proof.
  intros H c b. unfold mbind, G_bind. specialize (H c). destruct (m c) as [c' [a| |]]; [|done..].
  by destruct (H a).
Qed.

(** The code of the disjunction [LOGOR] is never generated, whatever
    its operands: the constant of its shortcut is refused by the encoder. That of the
    conjunction is generated, but cannot be linked: its labels are not defined. *)
Theorem short_circuit_unusable :
  (forall env gen l r c, (visit_BinaryOp env gen LogicalOr l r c).2 <> Done tt)
  /\ (let '(c, o) := generate_expression_code sample_env ∅ 2
        (BinaryOp LogicalAnd (BooleanLiteral true) (BooleanLiteral true)) (sample_base ∅) in
      o = Done tt
      /\ process (mkInstructionStream (emitted (gen c))) (label_manager c) RuntimeManager_empty 0x10000 0x20000
         = Throw runtime_error).
Proof.
  split; [|vm_compute; by split]. intros env gen l r c. revert c.
  assert (H : never_done (generate_short_circuit_or gen l r)); [|intros c; apply H].
  unfold generate_short_circuit_or, short_circuit. do 9 (apply never_after; intros ?).
  apply never_first, never_after. intros _. rewrite movk_shift_one. by apply never_first.
Qed.
