(* ===== verification/ConstFold.v ===== *)
(** * Constant folding

    [Optimizer] and [ConstantFoldingPass] (src/Optimizer.cpp, src/ConstantFoldingPass.cpp).
    A visitor works on the node that [current_transformed_node_] holds: it changes the node in
    place or replaces it; [visit_expr] and [visit_stmt] take what is there afterwards.  Here a
    visitor returns the node and whether it was replaced.  What overflows a signed integer or
    shifts by too much is undefined, as is a statement that is replaced by an expression. *)

From S2P Require Import Prelude Words State Ast Data.
From Stdlib Require Import SpecFloat.
Local Open Scope Z_scope.

(** ** Constants *)

Definition evaluate_integer_constant (e : Expression) : option Z :=
  match e with
  | NumberLiteral (Integer v) => Some v
  | BooleanLiteral b => Some (if b then -1 else 0)
  | _ => None
  end.

Definition evaluate_float_constant (e : Expression) : option spec_float :=
  match e with
  | NumberLiteral (Float v) => Some v
  | NumberLiteral (Integer v) => Some (double_of_Z v)
  | _ => None
  end.

Definition evaluate_boolean_constant (e : Expression) : option bool :=
  match e with
  | BooleanLiteral b => Some b
  | _ =>
      match evaluate_integer_constant e with
      | Some v => Some (negb (v =? 0))
      | None =>
          match evaluate_float_constant e with
          | Some v => Some (negb (SFeqb v (S754_zero false)))
          | None => None
          end
      end
  end.

Definition is_bcpl_true (e : Expression) : bool :=
  match evaluate_boolean_constant e with
  | Some b => b
  | None =>
      match evaluate_integer_constant e with
      | Some v => negb (v =? 0)
      | None =>
          match evaluate_float_constant e with
          | Some v => negb (SFeqb v (S754_zero false))
          | None => false
          end
      end
  end.

(** A result of type [int64_t], a shift to the left and to the right. *)
Definition int64 (z : Z) : outcome Z :=
  if (- 2 ^ 63 <=? z) && (z <? 2 ^ 63) then Done z else Undefined.
Definition shift_left (a b : Z) : outcome Z :=
  if (0 <=? b) && (b <? 64) && (0 <=? a) && (a * 2 ^ b <? 2 ^ 64) then Done (sext 64 (a * 2 ^ b))
  else Undefined.
Definition shift_right (a b : Z) : outcome Z :=
  if (0 <=? b) && (b <? 64) then Done (Z.shiftr a b) else Undefined.

Definition truth (b : bool) : Z := if b then -1 else 0.

(** [None]: not foldable. *)
Definition fold_integers (op : BinaryOperator) (a b : Z) : outcome (option Z) :=
  let foldable (r : outcome Z) := match r with Done v => Done (Some v) | Raised e => Raised e | Undefined => Undefined end in
  match op with
  | Add => foldable (int64 (a + b))
  | Subtract => foldable (int64 (a - b))
  | Multiply => foldable (int64 (a * b))
  | Divide => if b =? 0 then Done None else foldable (int64 (Z.quot a b))
  | Remainder => if b =? 0 then Done None else
                   match int64 (Z.quot a b) with Done _ => Done (Some (Z.rem a b)) | _ => Undefined end
  | LeftShift => foldable (shift_left a b)
  | RightShift => foldable (shift_right a b)
  | Equal | Equivalence => Done (Some (truth (a =? b)))
  | NotEqual | NotEquivalence => Done (Some (truth (negb (a =? b))))
  | Less => Done (Some (truth (a <? b)))
  | LessEqual => Done (Some (truth (a <=? b)))
  | Greater => Done (Some (truth (b <? a)))
  | GreaterEqual => Done (Some (truth (b <=? a)))
  | LogicalAnd => Done (Some (truth (negb (a =? 0) && negb (b =? 0))))
  | LogicalOr => Done (Some (truth (negb (a =? 0) || negb (b =? 0))))
  | BitwiseOr => Done (Some (Z.lor a b))
  | _ => Done None
  end.

Definition is_literal (e : Expression) (v : Z) : bool :=
  match evaluate_integer_constant e with Some w => w =? v | None => false end.

(** X + 0, 0 + X, X - 0, X * 1, 1 * X, X * 0, 0 * X, X / 1 and, for literals, X - X. *)
Definition simplify (op : BinaryOperator) (left right : Expression) : option Expression :=
  match op with
  | Add => if is_literal left 0 then Some right else if is_literal right 0 then Some left else None
  | Subtract =>
      if is_literal right 0 then Some left
      else match evaluate_integer_constant left, evaluate_integer_constant right with
           | Some a, Some b => if a =? b then Some (NumberLiteral (Integer 0)) else None
           | _, _ => None
           end
  | Multiply =>
      if is_literal left 1 then Some right
      else if is_literal right 1 then Some left
      else if is_literal left 0 || is_literal right 0 then Some (NumberLiteral (Integer 0)) else None
  | Divide => if is_literal right 1 then Some left else None
  | _ => None
  end.

Definition fold_floats (op : BinaryOperator) (a b : spec_float) : option number :=
  match op with
  | FloatAdd => Some (Float (SFadd 53 1024 a b))
  | FloatSubtract => Some (Float (SFsub 53 1024 a b))
  | FloatMultiply => Some (Float (SFmul 53 1024 a b))
  | FloatDivide => if SFeqb b (S754_zero false) then None else Some (Float (SFdiv 53 1024 a b))
  | FloatEqual => Some (Integer (truth (SFeqb a b)))
  | FloatNotEqual => Some (Integer (truth (negb (SFeqb a b))))
  | FloatLess => Some (Integer (truth (SFltb a b)))
  | FloatLessEqual => Some (Integer (truth (SFleb a b)))
  | FloatGreater => Some (Integer (truth (SFltb b a)))
  | FloatGreaterEqual => Some (Integer (truth (SFleb b a)))
  | _ => None
  end.

(** ** Visitors *)

(** [known_constants_] *)
Definition F (A : Type) : Type := ST (gmap string Z) A.

Definition st_outcome {A} (r : outcome A) : F A := fun s => (s, r).

(** A node and whether it is a new one. *)
Definition kept {A} (a : A) : F (A * bool) := mret (a, false).
Definition replaced {A} (a : A) : F (A * bool) := mret (a, true).

(** [visit_expr], [visit_stmt] *)
Definition taken_from {A} (m : F (A * bool)) : F A := p ← m; mret p.1.
Definition visit_option {A} (f : A -> F (A * bool)) (o : option A) : F (option A) :=
  match o with Some a => a ← taken_from (f a); mret (Some a) | None => mret None end.

Definition fold_BinaryOp (op : BinaryOperator) (left right : Expression) : F (Expression * bool) :=
  folded ← match evaluate_integer_constant left, evaluate_integer_constant right with
           | Some a, Some b => st_outcome (fold_integers op a b)
           | _, _ => mret None
           end;
  match folded with
  | Some v => replaced (NumberLiteral (Integer v))
  | None =>
      match simplify op left right with
      | Some e => replaced e
      | None =>
          match evaluate_float_constant left, evaluate_float_constant right with
          | Some a, Some b =>
              match fold_floats op a b with
              | Some n => replaced (NumberLiteral n)
              | None => kept (BinaryOp op left right)
              end
          | _, _ => kept (BinaryOp op left right)
          end
      end
  end.

Definition fold_UnaryOp (op : UnaryOperator) (operand : Expression) : F (Expression * bool) :=
  let floats :=
    match evaluate_float_constant operand, op with
    | Some v, Negate => replaced (NumberLiteral (Float (SFopp v)))
    | _, _ => kept (UnaryOp op operand)
    end in
  match evaluate_integer_constant operand, op with
  | Some v, Negate => r ← st_outcome (int64 (- v)); replaced (NumberLiteral (Integer r))
  | Some v, LogicalNot => replaced (NumberLiteral (Integer (truth (v =? 0))))
  | _, _ => floats
  end.

Section visitors.
Context (manifests : gmap string Z).

Definition fold_VariableAccess (name unique_name : string) : F (Expression * bool) :=
  known ← st_get (fun known_constants => known_constants !! name);
  match known with
  | Some v => replaced (NumberLiteral (Integer v))
  | None =>
      match manifests !! name with
      | Some v => replaced (NumberLiteral (Integer v))
      | None => kept (VariableAccess name unique_name)
      end
  end.

(** [x := e] makes [x] known or unknown; other assignments leave what is known. *)
Definition note_assignment (lhs rhs : list Expression) : F unit :=
  match lhs, rhs with
  | [VariableAccess name _], [NumberLiteral (Integer v)] => st_modify (insert name v)
  | [VariableAccess name _], [_] => st_modify (delete name)
  | _, _ => mret tt
  end.

Definition nop : Statement := CompoundStatement [].

(** A test whose condition is constant is replaced by the branch that is taken. *)
Definition fold_Conditional (visit_condition visit_true visit_false : F Expression) : F (Expression * bool) :=
  c ← visit_condition;
  match evaluate_boolean_constant c with
  | Some true => t ← visit_true; replaced t
  | Some false => f ← visit_false; replaced f
  | None => t ← visit_true; f ← visit_false; kept (ConditionalExpression c t f)
  end.

Definition fold_If (visit_condition : F Expression) (visit_then : F Statement) : F (Statement * bool) :=
  c ← visit_condition;
  match evaluate_boolean_constant c with
  | Some true => t ← visit_then; replaced t
  | Some false => replaced nop
  | None => t ← visit_then; kept (IfStatement c t)
  end.

Definition fold_Test (visit_condition : F Expression) (visit_then : F Statement)
    (visit_else : F (option Statement)) : F (Statement * bool) :=
  c ← visit_condition;
  match evaluate_boolean_constant c with
  | Some true => t ← visit_then; replaced t
  | Some false => e ← visit_else; replaced (match e with Some e => e | None => nop end)
  | None => t ← visit_then; e ← visit_else; kept (TestStatement c t e)
  end.

(** A loop whose condition always holds is kept. *)
Definition fold_While (visit_condition : F Expression) (visit_body : F Statement) : F (Statement * bool) :=
  c ← visit_condition;
  match evaluate_boolean_constant c with
  | Some false => replaced nop
  | _ => body ← visit_body; kept (WhileStatement c body)
  end.

Fixpoint accept_expr (e : Expression) : F (Expression * bool) :=
  let visit_expr e := taken_from (accept_expr e) in
  match e with
  | BinaryOp op l r => l ← visit_expr l; r ← visit_expr r; fold_BinaryOp op l r
  | UnaryOp op a => a ← visit_expr a; fold_UnaryOp op a
  | ConditionalExpression c t f => fold_Conditional (visit_expr c) (visit_expr t) (visit_expr f)
  | VariableAccess name unique_name => fold_VariableAccess name unique_name
  | VectorAccess v i => v ← visit_expr v; i ← visit_expr i; kept (VectorAccess v i)
  | CharIndirection v i => v ← visit_expr v; i ← visit_expr i; kept (CharIndirection v i)
  | FloatVectorIndirection v i =>
      v ← visit_expr v; i ← visit_expr i; kept (FloatVectorIndirection v i)
  | FunctionCall f args =>
      f ← visit_expr f; args ← st_map (fun e => taken_from (accept_expr e)) args; kept (FunctionCall f args)
  | SysCall name n args =>
      n ← visit_expr n; args ← st_map (fun e => taken_from (accept_expr e)) args; kept (SysCall name n args)
  | ValofExpression body => body ← taken_from (accept_stmt body); kept (ValofExpression body)
  | FloatValofExpression body => body ← taken_from (accept_stmt body); kept (FloatValofExpression body)
  | NumberLiteral _ | StringLiteral _ | CharLiteral _ | BooleanLiteral _ | ListExpression _ _
  | VecInitializerExpression _ | BitfieldAccessExpression _ _ _ | VecAllocationExpression _ _
  | FVecAllocationExpression _ _ | StringAllocationExpression _ | TableExpression _ _ => kept e
  end
with accept_stmt (s : Statement) : F (Statement * bool) :=
  let visit_expr e := taken_from (accept_expr e) in
  let visit_stmt s := taken_from (accept_stmt s) in
  match s with
  | IfStatement c t => fold_If (visit_expr c) (visit_stmt t)
  | TestStatement c t e => fold_Test (visit_expr c) (visit_stmt t) (visit_option accept_stmt e)
  | WhileStatement c body => fold_While (visit_expr c) (visit_stmt body)
  | UnlessStatement c t => c ← visit_expr c; t ← visit_stmt t; kept (UnlessStatement c t)
  | UntilStatement c body => c ← visit_expr c; body ← visit_stmt body; kept (UntilStatement c body)
  | RepeatStatement kind body c =>
      body ← visit_stmt body; c ← visit_option accept_expr c; kept (RepeatStatement kind body c)
  | ForStatement v u us ue a b st body =>
      a ← visit_expr a; b ← visit_expr b; st ← visit_option accept_expr st; body ← visit_stmt body;
      kept (ForStatement v u us ue a b st body)
  | SwitchonStatement e cases d =>
      e ← visit_expr e; cases ← st_map accept_case cases; d ← visit_option accept_stmt d;
      kept (SwitchonStatement e cases d)
  | AssignmentStatement lhs rhs =>
      rhs ← st_map (fun e => taken_from (accept_expr e)) rhs;
      note_assignment lhs rhs;;
      kept (AssignmentStatement lhs rhs)
  | LetDeclaration names l is_float =>
      l ← st_map (fun e => taken_from (accept_expr e)) l; kept (LetDeclaration names l is_float)
  | RoutineCallStatement f args =>
      f ← visit_expr f; args ← st_map (fun e => taken_from (accept_expr e)) args;
      kept (RoutineCallStatement f args)
  | GotoStatement e => e ← visit_expr e; kept (GotoStatement e)
  | FreeStatement e => e ← visit_expr e; kept (FreeStatement e)
  | StringStatement e => e ← visit_expr e; kept (StringStatement e)
  | CompoundStatement l =>
      l ← st_map (fun s => taken_from (accept_stmt s)) l; kept (CompoundStatement l)
  | BlockStatement ds l =>
      l ← st_map (fun s => taken_from (accept_stmt s)) l; kept (BlockStatement ds l)
  | ResultisStatement e =>
      p ← accept_expr e;
      if (p.2 : bool) then st_undefined else kept (ResultisStatement p.1)
  | ForEachStatement _ _ _ _ _ _ | CaseStatement _ | DefaultStatement _ | ReturnStatement
  | FinishStatement _ _ | BreakStatement | BrkStatement | LoopStatement | EndcaseStatement
  | LabelTargetStatement _ | ConditionalBranchStatement _ _ _ => kept s
  end
with accept_case (c : CaseClause) : F CaseClause :=
  match c with
  | mkCase e command resolved =>
      e ← taken_from (accept_expr e); command ← taken_from (accept_stmt command);
      mret (mkCase e command resolved)
  end.

Definition visit_expr (e : Expression) : F Expression := taken_from (accept_expr e).
Definition visit_stmt (s : Statement) : F Statement := taken_from (accept_stmt s).

(** A function starts without known constants. *)
Definition accept_decl (d : Declaration) : F Declaration :=
  match d with
  | FunctionDeclaration name parameters body =>
      st_modify (fun _ => ∅);; body ← visit_expr body; mret (FunctionDeclaration name parameters body)
  | RoutineDeclaration name parameters body =>
      st_modify (fun _ => ∅);; body ← visit_stmt body; mret (RoutineDeclaration name parameters body)
  | StaticDeclaration name e is_float => e ← visit_expr e; mret (StaticDeclaration name e is_float)
  | GlobalVariableDeclaration names l is_float =>
      l ← st_map visit_expr l; mret (GlobalVariableDeclaration names l is_float)
  | LabelDeclaration name command => command ← visit_stmt command; mret (LabelDeclaration name command)
  | ManifestDeclaration _ _ | GlobalDeclaration _ => mret d
  end.

Definition apply (p : Program) : F Program :=
  ds ← st_map accept_decl (declarations p);
  ss ← st_map visit_stmt (statements p);
  mret (mkProgram ds ss).
End visitors.
