(* ===== verification/ConstFoldProof.v ===== *)
(** * Folded expressions have the same value

    Integer expressions over literals, variables and the operators whose code [ExprProof]
    verifies, with the values they have there.  [folds_alike] says where the folder computes
    what the generated code computes; [exact], that every operator with constant operands is
    such a place.  Straight-line assignments follow. *)

From Stdlib Require Import SpecFloat.
From S2P Require Import Prelude Words State Ast Data OpsRun ExprProof BlockProof ConstFold.
Local Open Scope Z_scope.

Definition int64_range (v : Z) : Prop := - 2 ^ 63 <= v < 2 ^ 63.

(** ** The fragment *)

Fixpoint integer (e : Expression) : bool :=
  match e with
  | NumberLiteral (Integer v) => (- 2 ^ 63 <=? v) && (v <? 2 ^ 63)
  | VariableAccess _ _ => true
  | BinaryOp op l r => supported op && integer l && integer r
  | _ => false
  end.

(** The value as a signed integer. *)
Definition signed_value (ρ : string -> Z) (e : Expression) : Z := sext 64 (eval ρ e).

(** For constant operands: the folder and the code agree, and nothing is undefined. *)
Definition folds_alike (op : BinaryOperator) (a b : Z) : Prop :=
  match op with
  | Add => int64_range (a + b)
  | Subtract => int64_range (a - b)
  | Multiply => int64_range (a * b)
  | Divide | Remainder => b = 0 \/ int64_range (Z.quot a b)
  | LeftShift => 0 <= a /\ 0 <= b < 64 /\ a * 2 ^ b < 2 ^ 64
  | RightShift => 0 <= a /\ 0 <= b < 64
  | Equal | Equivalence => a <> b
  | Less => b <= a
  | LessEqual => b < a
  | Greater => a <= b
  | GreaterEqual => a < b
  | NotEqual | BitwiseAnd => True
  | _ => False
  end.

(** Whether folding can give a literal; [known] says of which variables. *)
Fixpoint constant (known : string -> bool) (e : Expression) : bool :=
  match e with
  | NumberLiteral _ => true
  | VariableAccess x _ => known x
  | BinaryOp Multiply l r => constant known l || constant known r
  | BinaryOp _ l r => constant known l && constant known r
  | _ => false
  end.

Fixpoint exact (known : string -> bool) (ρ : string -> Z) (e : Expression) : Prop :=
  match e with
  | BinaryOp op l r =>
      exact known ρ l /\ exact known ρ r
      /\ (constant known l = true -> constant known r = true ->
          folds_alike op (signed_value ρ l) (signed_value ρ r))
  | _ => True
  end.

(** ** Operators *)

Lemma sext_u64 v : int64_range v -> sext 64 (u64 v) = v.
Proof. intros H. unfold u64. rewrite sext_mod by lia. apply sext_small; [lia | exact H]. Qed.

Lemma int64_Done z : int64_range z -> int64 z = Done z.
Proof. intros [H1 H2]. unfold int64. destruct (Z.leb_spec (- 2 ^ 63) z), (Z.ltb_spec z (2 ^ 63)); try lia. done. Qed.

Lemma u64_add_literals a b : u64 (u64 a + u64 b) = u64 (a + b).
Proof. unfold u64. by rewrite <-Zplus_mod. Qed.
Lemma u64_sub_literals a b : u64 (u64 a - u64 b) = u64 (a - b).
Proof. unfold u64. by rewrite <-Zminus_mod. Qed.
Lemma u64_mul_literals a b : u64 (u64 a * u64 b) = u64 (a * b).
Proof. unfold u64. by rewrite <-Zmult_mod. Qed.

Lemma u64_eqb a b : int64_range a -> int64_range b -> (u64 a =? u64 b) = (a =? b).
Proof.
  intros Ha Hb. destruct (Z.eqb_spec a b) as [->|Hne]; [apply Z.eqb_refl|]. apply Z.eqb_neq.
  intros E. apply Hne. by rewrite <-(sext_u64 a), <-(sext_u64 b), E.
Qed.

Lemma u64_eqb_0 b : int64_range b -> (u64 b =? 0) = (b =? 0).
Proof. intros Hb. apply (u64_eqb b 0); [done | unfold int64_range; lia]. Qed.

Lemma u64_sext z : u64 (sext 64 z) = u64 z.
Proof. unfold u64, sext. rewrite Zminus_mod_idemp_l. f_equal. lia. Qed.

Lemma rem_range a b : int64_range a -> int64_range b -> int64_range (Z.rem a b).
Proof.
  unfold int64_range. intros Ha Hb. destruct (decide (b = 0)) as [->|Hne]; [by destruct a|].
  pose proof (Z.rem_bound_abs a b Hne). pose proof (Z.rem_sign_mul a b Hne). lia.
Qed.

(** What folding two literals gives. *)
Lemma fold_integers_alike op a b : int64_range a -> int64_range b -> supported op = true -> folds_alike op a b ->
  match fold_integers op a b with
  | Done (Some v) => int64_range v /\ u64 v = eval_op op (u64 a) (u64 b)
  | Done None => True
  | _ => False
  end.
Proof.
  intros Ha Hb Hs H. destruct op; try discriminate Hs; cbn [fold_integers folds_alike eval_op] in *.
  - rewrite int64_Done by done. by rewrite u64_add_literals.
  - rewrite int64_Done by done. by rewrite u64_sub_literals.
  - rewrite int64_Done by done. by rewrite u64_mul_literals.
  - destruct (Z.eqb_spec b 0) as [->|Hne]; [done|]. destruct H as [H|H]; [done|]. rewrite int64_Done by done.
    split; [done|]. rewrite u64_eqb_0, !sext_u64 by done. by destruct (Z.eqb_spec b 0).
  - destruct (Z.eqb_spec b 0) as [->|Hne]; [done|]. destruct H as [H|H]; [done|]. rewrite int64_Done by done.
    split; [by apply rem_range|]. unfold word_rem.
    rewrite u64_eqb_0, !sext_u64 by done. by destruct (Z.eqb_spec b 0).
  - rewrite u64_eqb by done. destruct (Z.eqb_spec a b); [done|]. split; [unfold int64_range; cbn; lia | done].
  - rewrite u64_eqb by done. destruct (Z.eqb_spec a b); (split; [unfold int64_range; cbn; lia | done]).
  - rewrite !sext_u64 by done. destruct (Z.ltb_spec a b); [lia|]. split; [unfold int64_range; cbn; lia | done].
  - rewrite !sext_u64 by done. destruct (Z.leb_spec a b); [lia|]. split; [unfold int64_range; cbn; lia | done].
  - rewrite !sext_u64 by done. destruct (Z.ltb_spec b a); [lia|]. split; [unfold int64_range; cbn; lia | done].
  - rewrite !sext_u64 by done. destruct (Z.leb_spec b a); [lia|]. split; [unfold int64_range; cbn; lia | done].
  - done.
  - rewrite u64_eqb by done. destruct (Z.eqb_spec a b); [done|]. split; [unfold int64_range; cbn; lia | done].
  - destruct H as (H0 & Hb' & Hlt). unfold shift_left.
    destruct (Z.leb_spec 0 b), (Z.ltb_spec b 64), (Z.leb_spec 0 a), (Z.ltb_spec (a * 2 ^ b) (2 ^ 64)); try lia.
    cbn [andb]. split; [apply (sext_range 64); lia|].
    rewrite (u64_small a) by (unfold int64_range in Ha; lia). rewrite (u64_small b) by lia.
    rewrite (Z.mod_small b 64), Z.shiftl_mul_pow2 by lia. apply u64_sext.
  - destruct H as (H0 & Hb'). unfold shift_right.
    destruct (Z.leb_spec 0 b), (Z.ltb_spec b 64); try lia. cbn.
    assert (Hr : 0 <= Z.shiftr a b <= a).
    { rewrite Z.shiftr_div_pow2 by lia. pose proof (Z.pow_pos_nonneg 2 b ltac:(lia) ltac:(lia)).
      split; [apply Z.div_pos; lia|]. apply Z.div_le_upper_bound; nia. }
    split; [unfold int64_range in *; lia|]. rewrite (u64_small a), (u64_small b) by (unfold int64_range in Ha; lia).
    rewrite (Z.mod_small b 64) by lia. apply u64_small. unfold int64_range in Ha. lia.
Qed.

(** ** Expressions *)

Lemma integer_ind (P : Expression -> Prop) :
  (forall v, int64_range v -> P (NumberLiteral (Integer v))) ->
  (forall x u, P (VariableAccess x u)) ->
  (forall op l r, supported op = true -> integer l = true -> integer r = true -> P l -> P r -> P (BinaryOp op l r)) ->
  forall e, integer e = true -> P e.
Proof.
  intros Hlit Hvar Hop. fix IH 1. intros [ | |[v|f]| | | |x u|op l r| | | | | | | | | | | | | | ] H;
    try discriminate H.
  - apply Hlit. cbn in H. apply andb_true_iff in H as [H1 H2]. split; [by apply Z.leb_le | by apply Z.ltb_lt].
  - apply Hvar.
  - cbn in H. rewrite !andb_true_iff in H. destruct H as [[Ho Hl] Hr]. apply Hop; auto.
Qed.

Lemma integer_of v : int64_range v -> integer (NumberLiteral (Integer v)) = true.
Proof. intros [H1 H2]. cbn. apply andb_true_iff. split; [by apply Z.leb_le | by apply Z.ltb_lt]. Qed.

(** A literal of the fragment, and its value. *)
Lemma integer_literal e v : integer e = true -> evaluate_integer_constant e = Some v ->
  e = NumberLiteral (Integer v) /\ int64_range v.
Proof.
  intros H. revert v. pattern e. revert e H. apply integer_ind; try done. cbn. by intros v Hv v' [= <-].
Qed.

Lemma integer_float e : integer e = true ->
  evaluate_float_constant e = None \/ exists v, e = NumberLiteral (Integer v).
Proof.
  revert e. apply integer_ind; [|by left..]. intros v _. right. by exists v.
Qed.

Section expressions.
Context (ρ : string -> Z) (ρ_word : forall x, word (ρ x)).

Lemma value_word e : integer e = true -> word (eval ρ e).
Proof.
  revert e. apply integer_ind; cbn.
  - intros v _. apply word_u64.
  - intros x _. apply ρ_word.
  - intros op l r _ _ _ Hl Hr. by apply eval_op_word.
Qed.

(** Simplification keeps the value. *)
Lemma simplify_value op l r e : integer l = true -> integer r = true -> simplify op l r = Some e ->
  integer e = true /\ eval ρ e = eval_op op (eval ρ l) (eval ρ r)
  /\ (is_Some (evaluate_integer_constant e) -> is_Some (evaluate_integer_constant l) /\ is_Some (evaluate_integer_constant r)
      \/ op = Multiply /\ (is_Some (evaluate_integer_constant l) \/ is_Some (evaluate_integer_constant r))).
Proof.
  intros Hl Hr. pose proof (value_word l Hl) as Wl. pose proof (value_word r Hr) as Wr. unfold word in Wl, Wr.
  assert (Lit : forall e' v, integer e' = true ->
    is_literal e' v = true -> eval ρ e' = u64 v
    /\ is_Some (evaluate_integer_constant e')).
  { intros e' v He'. unfold is_literal. destruct (evaluate_integer_constant e') as [w|] eqn:E; [|done]. intros ->%Z.eqb_eq.
    by destruct (integer_literal e' v He' E) as [-> _]. }
  assert (Z0 : integer (NumberLiteral (Integer 0)) = true) by done.
  unfold simplify. destruct op; try done; cbn [eval_op].
  - case_match eqn:E1; [|case_match eqn:E2; [|done]]; intros [= <-].
    + destruct (Lit l 0 Hl E1) as [-> S1]. split_and!; [done | | tauto].
      change (u64 0) with 0. rewrite Z.add_0_l. by rewrite u64_small.
    + destruct (Lit r 0 Hr E2) as [-> S1]. split_and!; [done | | tauto].
      change (u64 0) with 0. rewrite Z.add_0_r. by rewrite u64_small.
  - case_match eqn:E1; intros H; [injection H as <-|].
    + destruct (Lit r 0 Hr E1) as [-> S1]. split_and!; [done | | tauto].
      change (u64 0) with 0. rewrite Z.sub_0_r. by rewrite u64_small.
    + destruct (evaluate_integer_constant l) as [a|] eqn:El; [|done].
      destruct (evaluate_integer_constant r) as [b|] eqn:Er; [|done].
      destruct (Z.eqb_spec a b) as [->|]; [|done]. injection H as <-.
      destruct (integer_literal l b Hl El) as [-> _], (integer_literal r b Hr Er) as [-> _].
      split_and!; [done | cbn; by rewrite Z.sub_diag | intros _; left; by split; eexists].
  - case_match eqn:E1; [|case_match eqn:E2; [|case_match eqn:E3; [|done]]]; intros [= <-].
    + destruct (Lit l 1 Hl E1) as [-> S1]. split_and!; [done | | tauto].
      change (u64 1) with 1. rewrite Z.mul_1_l. by rewrite u64_small.
    + destruct (Lit r 1 Hr E2) as [-> S1]. split_and!; [done | | tauto].
      change (u64 1) with 1. rewrite Z.mul_1_r. by rewrite u64_small.
    + apply orb_true_iff in E3 as [E3|E3].
      * destruct (Lit l 0 Hl E3) as [-> S1]. split_and!; [done | by cbn | tauto].
      * destruct (Lit r 0 Hr E3) as [-> S1]. split_and!; [done | cbn; by rewrite Z.mul_0_r | tauto].
  - case_match eqn:E1; [|done]. intros [= <-]. destruct (Lit r 1 Hr E1) as [-> S1].
    split_and!; [done | | tauto]. change (u64 1) with 1. cbn [Z.eqb]. rewrite (sext_small 64 1), Z.quot_1_r by lia.
    rewrite u64_sext. by rewrite u64_small.
Qed.

(** Folding an operator whose operands are folded. *)
Lemma fold_BinaryOp_value op l r k (K : gmap string Z) : supported op = true -> integer l = true -> integer r = true ->
  (is_Some (evaluate_integer_constant l) -> is_Some (evaluate_integer_constant r) ->
     folds_alike op (signed_value ρ l) (signed_value ρ r)) ->
  (forall e b, integer e = true -> eval ρ e = eval_op op (eval ρ l) (eval ρ r) ->
    (is_Some (evaluate_integer_constant e) -> is_Some (evaluate_integer_constant l) /\ is_Some (evaluate_integer_constant r)
      \/ op = Multiply /\ (is_Some (evaluate_integer_constant l) \/ is_Some (evaluate_integer_constant r))) ->
    k (e, b) K) ->
  ends (fold_BinaryOp op l r) k K.
Proof.
  intros Ho Hl Hr Hx Hk.
  assert (Kept : k (BinaryOp op l r, false) K).
  { apply Hk; [by cbn; rewrite Ho, Hl, Hr | done | by intros []]. }
  assert (Rest : ends (match simplify op l r with
      | Some e => replaced e
      | None =>
          match evaluate_float_constant l, evaluate_float_constant r with
          | Some a, Some b =>
              match fold_floats op a b with
              | Some n => replaced (NumberLiteral n)
              | None => kept (BinaryOp op l r)
              end
          | _, _ => kept (BinaryOp op l r)
          end
      end) k K).
  { destruct (simplify op l r) as [e|] eqn:E.
    - destruct (simplify_value op l r e Hl Hr E) as (H1 & H2 & H3). apply ends_ret. by apply Hk.
    - repeat case_match; try exact Kept. destruct op; discriminate. }
  unfold fold_BinaryOp. apply ends_bind.
  destruct (evaluate_integer_constant l) as [a|] eqn:El, (evaluate_integer_constant r) as [b|] eqn:Er; try exact Rest.
  destruct (integer_literal l a Hl El) as [-> Ra], (integer_literal r b Hr Er) as [-> Rb].
  unfold signed_value in Hx. cbn [eval] in Hx. rewrite !sext_u64 in Hx by done.
  pose proof (fold_integers_alike op a b Ra Rb Ho) as Hf. unfold st_outcome, ends.
  destruct (fold_integers op a b) as [[v|]|e|].
  - destruct Hf as [Rv Ev]; [apply Hx; by eexists|]. apply Hk; [by apply integer_of | exact Ev |]. intros _. left. by split; eexists.
  - exact Rest.
  - apply Hf, Hx; by eexists.
  - apply Hf, Hx; by eexists.
Qed.

(** *** The pass on an expression *)

Context (manifests K : gmap string Z) (known : string -> bool).

(** What is known agrees with the values. *)
Definition agrees : Prop := forall x v,
  K !! x = Some v \/ (K !! x = None /\ manifests !! x = Some v) -> int64_range v /\ ρ x = u64 v /\ known x = true.

Lemma accept_expr_value e (H : agrees) : integer e = true -> exact known ρ e ->
  ends (accept_expr manifests e) (fun p K' => K' = K /\ integer p.1 = true /\ eval ρ p.1 = eval ρ e
    /\ (is_Some (evaluate_integer_constant p.1) -> constant known e = true)) K.
Proof.
  revert e. apply (integer_ind (fun e => exact known ρ e -> _)).
  - intros v Hv _. apply ends_ret. split_and!; [done | by apply integer_of | done | done].
  - intros x u _. cbn [accept_expr]. apply ends_bind, ends_get.
    destruct (K !! x) as [v|] eqn:Ek; [|destruct (manifests !! x) as [v|] eqn:Em].
    + destruct (H x v) as (Hv & Hx & Hkn); [by left|]. apply ends_ret. split_and!; [done | by apply integer_of | done | done].
    + destruct (H x v) as (Hv & Hx & Hkn); [by right|]. apply ends_ret. split_and!; [done | by apply integer_of | done | done].
    + apply ends_ret. split_and!; [done | done | done | by intros []].
  - intros op l r Ho Hl Hr IHl IHr (Xl & Xr & Xo). cbn [accept_expr]. unfold taken_from.
    do 2 apply ends_bind. eapply ends_mono; [by apply IHl|]. intros [l' bl] K1 (-> & Il & Vl & Cl). cbn [fst] in *.
    apply ends_ret. do 2 apply ends_bind. eapply ends_mono; [by apply IHr|].
    intros [r' br] K2 (-> & Ir & Vr & Cr). cbn [fst] in *. apply ends_ret.
    apply fold_BinaryOp_value; [done | done | done | |].
    + intros Sl Sr. unfold signed_value. rewrite Vl, Vr. auto.
    + intros e b He Ve Ce. cbn [fst]. split_and!; [done | done | by rewrite Ve, Vl, Vr|].
      intros Hs. specialize (Ce Hs). cbn [constant]. destruct op; intuition;
        rewrite ?orb_true_iff, ?andb_true_iff; auto; discriminate.
Qed.
End expressions.

(** ** Assignments *)

Definition learns (known : string -> bool) (a : assignment) : string -> bool :=
  fun y => if String.eqb y a.1 then constant known a.2 else known y.

Fixpoint exact_all (known : string -> bool) (ρ : string -> Z) (l : list assignment) : Prop :=
  match l with
  | [] => True
  | a :: l => exact known ρ a.2 /\ exact_all (learns known a) (perform ρ a) l
  end.

Definition is_manifest (manifests : gmap string Z) (x : string) : bool :=
  match manifests !! x with Some _ => true | None => false end.

Lemma perform_word ρ a : (forall x, word (ρ x)) -> integer a.2 = true -> forall x, word (perform ρ a x).
Proof. intros H Ha x. unfold perform, update. case_match; [by apply value_word | done]. Qed.

(** Environments that agree stay so. *)
Definition same_values (ρ ρ' : string -> Z) : Prop := forall x, ρ x = ρ' x.

Lemma eval_same ρ ρ' e : same_values ρ ρ' -> eval ρ e = eval ρ' e.
Proof.
  intros H. revert e. fix IH 1. intros [ | |[v|f]| | | |x u|op l r| | | | | | | | | | | | | | ]; cbn;
    try reflexivity; [apply H | by rewrite (IH l), (IH r)].
Qed.

Lemma perform_same ρ ρ' a a' : same_values ρ ρ' -> a'.1 = a.1 -> eval ρ a'.2 = eval ρ a.2 ->
  same_values (perform ρ a) (perform ρ' a').
Proof.
  intros H Hn He y. unfold perform, update. rewrite Hn. case_match; [|apply H].
  by rewrite <-(eval_same ρ ρ'), He by done.
Qed.

Section assignments.
Context (manifests : gmap string Z).

(** What is known after an assignment. *)
Lemma agrees_after ρ K known a e : agrees ρ manifests K known -> integer e = true -> eval ρ e = eval ρ a.2 ->
  (is_Some (evaluate_integer_constant e) -> constant known a.2 = true) -> manifests !! a.1 = None ->
  ends (note_assignment [VariableAccess a.1 ""] [e]) (fun _ K' => agrees (perform ρ a) manifests K' (learns known a)) K.
Proof.
  intros H Ie Ve Ce Hm.
  assert (Other : forall K', (forall x, x <> a.1 -> K' !! x = K !! x) ->
     (forall v, K' !! a.1 = Some v -> int64_range v /\ eval ρ a.2 = u64 v /\ constant known a.2 = true) ->
     agrees (perform ρ a) manifests K' (learns known a)).
  { intros K' Hne Ha x v Hx. unfold perform, update, learns. destruct (String.eqb_spec x a.1) as [->|Hxa].
    - destruct Hx as [Hx|[_ Hx]]; [by apply Ha | congruence].
    - apply H. by rewrite <-Hne. }
  assert (Known : forall v, e = NumberLiteral (Integer v) -> agrees (perform ρ a) manifests (<[a.1 := v]> K) (learns known a)).
  { intros v ->. apply Other; [intros x Hx; by rewrite lookup_insert_ne|].
    intros w. rewrite lookup_insert_eq. intros [= <-].
    destruct (integer_literal _ v Ie eq_refl) as [_ Rv]. split_and!; [done | by rewrite <-Ve | apply Ce; by eexists]. }
  assert (Unknown : agrees (perform ρ a) manifests (delete a.1 K) (learns known a)).
  { apply Other; [intros x Hx; by rewrite lookup_delete_ne | intros w; by rewrite lookup_delete_eq]. }
  destruct e; try apply ends_modify, Unknown. destruct value; [by apply ends_modify, Known | by apply ends_modify, Unknown].
Qed.

Lemma assignments_fold l : forall ρ K known, (forall x, word (ρ x)) -> agrees ρ manifests K known ->
  forallb (fun a => integer a.2) l = true -> Forall (fun a => manifests !! a.1 = None) l -> exact_all known ρ l ->
  ends (st_map (fun s => taken_from (accept_stmt manifests s)) (List.map statement_of l)) (fun ss _ =>
    exists l', ss = List.map statement_of l' /\ forallb (fun a => integer a.2) l' = true
      /\ List.map fst l' = List.map fst l
      /\ forall ρ', same_values ρ ρ' -> same_values (foldl perform ρ l) (foldl perform ρ' l')) K.
Proof.
  induction l as [|a l IH]; intros ρ K known Hw H Hi Hm Hx.
  { apply ends_ret. exists []. split_and!; [done..|]. by intros ρ'. }
  cbn [forallb] in Hi. apply andb_true_iff in Hi as [Ha Hi]. apply list.Forall_cons in Hm as [Hma Hm].
  destruct Hx as [Hxa Hx]. cbn [List.map st_map accept_stmt statement_of]. unfold taken_from.
  do 5 apply ends_bind. eapply ends_mono; [by apply (accept_expr_value ρ Hw manifests K known)|].
  intros [e b] K1 (-> & Ie & Ve & Ce). cbn [fst] in *. apply ends_ret, ends_bind, ends_ret, ends_ret.
  apply ends_bind. eapply ends_mono; [by apply (agrees_after ρ K known a e)|].
  intros [] K2 H2. do 2 apply ends_ret. apply ends_bind.
  eapply ends_mono; [eapply (IH (perform ρ a) K2); [by apply perform_word | done..]|].
  intros ss K3 (l' & -> & Il' & Hn & Hs). apply ends_ret. exists ((a.1, e) :: l'). split_and!.
  - done.
  - cbn. by rewrite Ie.
  - cbn. by rewrite Hn.
  - intros ρ' Hρ. cbn [foldl]. apply Hs, perform_same; done.
Qed.
End assignments.
