(* ===== verification/ConstFoldTheorems.v ===== *)
(** * What constant folding keeps, and what it changes

    Integer expressions keep their value, and so do sequences of assignments, where every
    operator with constant operands is one on which folder and generated code agree.  The
    other theorems are the places where they do not, and where constants are carried along
    paths on which they do not hold. *)

From Stdlib Require Import SpecFloat.
From S2P Require Import Prelude Words State Ast Data Cfg OpsRun ExprProof BlockProof ConstFold ConstFoldProof.
Local Open Scope Z_scope.

(** C11: folding an integer expression ends normally, changes nothing
    that is known, and yields an integer expression with the value the generated code of the
    original computes, when constants agree with the values of the variables and every
    operator with constant operands neither overflows nor is a comparison that holds, a
    shift out of range or a shift of a negative number. *)
Theorem folded_expressions_equal manifests K known ρ e :
  (forall x, word (ρ x)) -> agrees ρ manifests K known -> integer e = true -> exact known ρ e ->
  ends (visit_expr manifests e) (fun e' K' => K' = K /\ integer e' = true /\ eval ρ e' = eval ρ e) K.
Proof.
  intros Hw H Hi Hx. apply ends_bind. eapply ends_mono; [by apply (accept_expr_value ρ Hw manifests K known)|].
  intros [e' b] K' (-> & Ie & Ve & _). by apply ends_ret.
Qed.

(** C10: folding a sequence of assignments of such expressions to
    variables that are no manifest constants ends normally and yields assignments to the
    same variables, after which all variables have the same values as after the original
    ones; constants are carried from one assignment to the next. *)
Theorem folded_assignments_equal manifests ρ l :
  (forall x, word (ρ x)) -> (forall x v, manifests !! x = Some v -> int64_range v /\ ρ x = u64 v) ->
  forallb (fun a => integer a.2) l = true -> Forall (fun a => manifests !! a.1 = None) l ->
  exact_all (is_manifest manifests) ρ l ->
  ends (visit_stmt manifests (CompoundStatement (List.map statement_of l))) (fun s _ =>
    exists l', s = CompoundStatement (List.map statement_of l') /\ forallb (fun a => integer a.2) l' = true
      /\ List.map fst l' = List.map fst l /\ same_values (foldl perform ρ l) (foldl perform ρ l')) ∅.
Proof.
  intros Hw Hm Hi Hn Hx. unfold visit_stmt, taken_from. cbn [accept_stmt]. do 2 apply ends_bind.
  eapply ends_mono.
  { apply (assignments_fold manifests l ρ ∅ (is_manifest manifests)); try done.
    intros x v [Hv|[_ Hv]]; [by rewrite lookup_empty in Hv|]. destruct (Hm x v Hv) as [H1 H2].
    split_and!; [done | done | unfold is_manifest; by rewrite Hv]. }
  intros ss K (l' & -> & Il & Nl & Sl). apply ends_ret, ends_ret. exists l'. split_and!; try done. by apply Sl.
Qed.

(** *** Examples *)

Definition seven (x : string) : Z := if String.eqb x "n" then 7 else 100.
Definition lit (v : Z) : Expression := NumberLiteral (Integer v).

(** [n * 2 + (m - 0)], where [n] is known to be 7. *)
Definition sample_expression : Expression :=
  BinaryOp Add (BinaryOp Multiply (var "n") (lit 2)) (BinaryOp Subtract (var "m") (lit 0)).
Definition n_known (x : string) : bool := String.eqb x "n".

Lemma seven_word x : word (seven x).
Proof. unfold seven. case_match; split; cbn; lia. Qed.

Lemma folded_expressions_equal_witness :
  (forall x, word (seven x)) /\ agrees seven ∅ {["n" := 7]} n_known /\ integer sample_expression = true
  /\ exact n_known seven sample_expression
  /\ ends (visit_expr ∅ sample_expression) (fun e' K' => K' = {["n" := 7]} /\ integer e' = true
       /\ eval seven e' = eval seven sample_expression) {["n" := 7]}.
Proof.
  assert (H1 : agrees seven ∅ {["n" := 7]} n_known).
  { intros x v [H|[_ H]]; [|by rewrite lookup_empty in H]. apply lookup_singleton_Some in H as [<- <-].
    split_and!; [split; cbn; lia | done | done]. }
  assert (H2 : integer sample_expression = true) by reflexivity.
  assert (H3 : exact n_known seven sample_expression).
  { cbn. split_and!; try done; intros; try done. }
  split; [exact seven_word|]. split; [exact H1|]. split; [exact H2|]. split; [exact H3|].
  exact (folded_expressions_equal ∅ {["n" := 7]} n_known seven sample_expression seven_word H1 H2 H3).
Defined.

(** [a := 6; b := a * n; a := a + b], where [n] is a manifest constant. *)
Definition sample_assignments : list assignment :=
  [("a", lit 6); ("b", BinaryOp Multiply (var "a") (var "n")); ("a", BinaryOp Add (var "a") (var "b"))]%string.

Lemma folded_assignments_equal_witness :
  (forall x, word (seven x)) /\ (forall x v, ({["n" := 7]} : gmap string Z) !! x = Some v -> int64_range v /\ seven x = u64 v)
  /\ forallb (fun a => integer a.2) sample_assignments = true
  /\ Forall (fun a => ({["n" := 7]} : gmap string Z) !! a.1 = None) sample_assignments
  /\ exact_all (is_manifest {["n" := 7]}) seven sample_assignments
  /\ ends (visit_stmt {["n" := 7]} (CompoundStatement (List.map statement_of sample_assignments))) (fun s _ =>
       exists l', s = CompoundStatement (List.map statement_of l') /\ forallb (fun a => integer a.2) l' = true
         /\ List.map fst l' = List.map fst sample_assignments
         /\ same_values (foldl perform seven sample_assignments) (foldl perform seven l')) ∅.
Proof.
  assert (H1 : forall x v, ({["n" := 7]} : gmap string Z) !! x = Some v -> int64_range v /\ seven x = u64 v).
  { intros x v H. apply lookup_singleton_Some in H as [<- <-]. split; [split; cbn; lia | done]. }
  assert (H2 : forallb (fun a => integer a.2) sample_assignments = true) by reflexivity.
  assert (H3 : Forall (fun a => ({["n" := 7]} : gmap string Z) !! a.1 = None) sample_assignments) by (repeat constructor).
  assert (H4 : exact_all (is_manifest {["n" := 7]}) seven sample_assignments).
  { cbn. split_and!; try done; intros; split; vm_compute; congruence. }
  split; [exact seven_word|]. split; [exact H1|]. split; [exact H2|]. split; [exact H3|]. split; [exact H4|].
  exact (folded_assignments_equal {["n" := 7]} seven sample_assignments seven_word H1 H2 H3 H4).
Defined.

(** ** What is changed *)

(** The value of a literal expression before and after folding. *)
Definition folded_value (e : Expression) : Z * outcome Z :=
  (eval (fun _ => 0) e,
   match (visit_expr ∅ e ∅).2 with Done e' => Done (eval (fun _ => 0) e') | Raised x => Raised x | Undefined => Undefined end).

(** Folding makes -1 of a comparison that holds, for which the
    generated code computes 1, and shifts the sign in where the generated code shifts zeros
    in; RESULTIS with an expression that is folded is replaced by the literal, which is no
    statement; and the largest negative number divided by -1 is undefined. *)
Theorem folding_changes_values :
  folded_value (BinaryOp Equal (lit 2) (lit 2)) = (1, Done (2 ^ 64 - 1))
  /\ folded_value (BinaryOp Less (lit 1) (lit 2)) = (1, Done (2 ^ 64 - 1))
  /\ folded_value (BinaryOp RightShift (lit (-8)) (lit 1)) = (2 ^ 63 - 4, Done (2 ^ 64 - 4))
  /\ (visit_stmt ∅ (ResultisStatement (BinaryOp Add (lit 1) (lit 2))) ∅).2 = Undefined
  /\ folded_value (BinaryOp Divide (lit (- 2 ^ 63)) (lit (-1))) = (2 ^ 63, Undefined).
Proof. repeat split; vm_compute; reflexivity. Qed.

(** A constant is carried into the condition and the body of a
    loop that changes the variable, so that counting to ten never ends; it is carried out of
    the branch of a test that may not be taken, and over an assignment of several variables. *)
Theorem propagation_ignores_control :
  let folds before after :=
    (visit_stmt ∅ (CompoundStatement before) ∅).2 = Done (CompoundStatement after) in
  folds [assign "x" (lit 0);
         WhileStatement (BinaryOp Less (var "x") (lit 10)) (assign "x" (BinaryOp Add (var "x") (lit 1)))]
        [assign "x" (lit 0); WhileStatement (lit (-1)) (assign "x" (lit 1))]
  /\ folds [assign "x" (lit 1); IfStatement (var "c") (assign "x" (lit 2)); assign "y" (var "x")]
           [assign "x" (lit 1); IfStatement (var "c") (assign "x" (lit 2)); assign "y" (lit 2)]
  /\ folds [assign "x" (lit 5); AssignmentStatement [var "x"; var "y"] [lit 1; lit 2]; assign "z" (var "x")]
           [assign "x" (lit 5); AssignmentStatement [var "x"; var "y"] [lit 1; lit 2]; assign "z" (lit 5)].
Proof. repeat split; vm_compute; reflexivity. Qed.
