(* ===== verification/Trees.v ===== *)
(** * Shapes of syntax trees

    Induction over all four kinds of trees, their height, and the trees that have no function
    or routine inside a block, as the passes over whole programs expect. *)

From S2P Require Import Prelude Ast.
Local Open Scope nat_scope.

Combined Scheme tree_mutind from Expression_mut, Statement_mut, CaseClause_mut, Declaration_mut.

(** ** Height *)

Definition tallest {A} (height : A -> nat) : list A -> nat :=
  fix go l := match l with [] => 0 | a :: l => max (height a) (go l) end.
Definition height_option {A} (height : A -> nat) (o : option A) : nat :=
  match o with Some a => height a | None => 0 end.

Fixpoint height_expr (e : Expression) : nat :=
  S match e with
    | ListExpression l _ | VecInitializerExpression l | TableExpression l _ => tallest height_expr l
    | NumberLiteral _ | StringLiteral _ | CharLiteral _ | BooleanLiteral _ | VariableAccess _ _ => 0
    | BinaryOp _ a b | VectorAccess a b | CharIndirection a b | FloatVectorIndirection a b =>
        max (height_expr a) (height_expr b)
    | UnaryOp _ a | VecAllocationExpression a _ | StringAllocationExpression a
    | FVecAllocationExpression a _ => height_expr a
    | BitfieldAccessExpression a b c | ConditionalExpression a b c =>
        max (height_expr a) (max (height_expr b) (height_expr c))
    | FunctionCall f args | SysCall _ f args => max (height_expr f) (tallest height_expr args)
    | ValofExpression s | FloatValofExpression s => height_stmt s
    end
with height_stmt (s : Statement) : nat :=
  S match s with
    | ForEachStatement _ _ c b _ _ => max (height_expr c) (height_stmt b)
    | LetDeclaration _ l _ => tallest height_expr l
    | AssignmentStatement lhs rhs => max (tallest height_expr lhs) (tallest height_expr rhs)
    | FreeStatement e | GotoStatement e | ResultisStatement e | StringStatement e => height_expr e
    | RoutineCallStatement f args => max (height_expr f) (tallest height_expr args)
    | IfStatement c b | UnlessStatement c b | WhileStatement c b | UntilStatement c b =>
        max (height_expr c) (height_stmt b)
    | TestStatement c t e => max (height_expr c) (max (height_stmt t) (height_option height_stmt e))
    | RepeatStatement _ b c => max (height_stmt b) (height_option height_expr c)
    | ForStatement _ _ _ _ a b st body =>
        max (height_expr a) (max (height_expr b) (max (height_option height_expr st) (height_stmt body)))
    | CaseStatement c => height_case c
    | DefaultStatement c => height_stmt c
    | SwitchonStatement e cases d =>
        max (height_expr e) (max (tallest height_case cases) (height_option height_stmt d))
    | FinishStatement e args => max (height_option height_expr e) (tallest height_expr args)
    | CompoundStatement l => tallest height_stmt l
    | BlockStatement ds l => max (tallest height_decl ds) (tallest height_stmt l)
    | ConditionalBranchStatement _ _ e => height_option height_expr e
    | ReturnStatement | BreakStatement | BrkStatement | LoopStatement | EndcaseStatement
    | LabelTargetStatement _ => 0
    end
with height_case (c : CaseClause) : nat :=
  match c with mkCase e s _ => max (height_expr e) (height_stmt s) end
with height_decl (d : Declaration) : nat :=
  match d with
  | StaticDeclaration _ e _ | FunctionDeclaration _ _ e => height_expr e
  | GlobalVariableDeclaration _ l _ => tallest height_expr l
  | RoutineDeclaration _ _ s | LabelDeclaration _ s => height_stmt s
  | ManifestDeclaration _ _ | GlobalDeclaration _ => 0
  end.

Definition height_program (p : Program) : nat :=
  max (tallest height_decl (declarations p)) (tallest height_stmt (statements p)).

Lemma tallest_le {A} (height : A -> nat) l n :
  tallest height l <= n <-> Forall (fun a => height a <= n) l.
Proof.
  induction l as [|a l IH]; cbn; [split; [constructor | lia]|]. rewrite list.Forall_cons, <-IH. lia.
Qed.

(** ** No functions inside blocks *)

Definition is_function (d : Declaration) : bool :=
  match d with FunctionDeclaration _ _ _ | RoutineDeclaration _ _ _ => true | _ => false end.

Fixpoint flat_expr (e : Expression) : bool :=
  match e with
  | ListExpression l _ | VecInitializerExpression l | TableExpression l _ => forallb flat_expr l
  | BinaryOp _ a b | VectorAccess a b | CharIndirection a b | FloatVectorIndirection a b =>
      flat_expr a && flat_expr b
  | UnaryOp _ a | VecAllocationExpression a _ | StringAllocationExpression a
  | FVecAllocationExpression a _ => flat_expr a
  | BitfieldAccessExpression a b c | ConditionalExpression a b c =>
      flat_expr a && flat_expr b && flat_expr c
  | FunctionCall f args | SysCall _ f args => flat_expr f && forallb flat_expr args
  | ValofExpression s | FloatValofExpression s => flat_stmt s
  | NumberLiteral _ | StringLiteral _ | CharLiteral _ | BooleanLiteral _ | VariableAccess _ _ => true
  end
with flat_stmt (s : Statement) : bool :=
  match s with
  | ForEachStatement _ _ c b _ _ => flat_expr c && flat_stmt b
  | LetDeclaration _ l _ => forallb flat_expr l
  | AssignmentStatement lhs rhs => forallb flat_expr lhs && forallb flat_expr rhs
  | FreeStatement e | GotoStatement e | ResultisStatement e | StringStatement e => flat_expr e
  | RoutineCallStatement f args => flat_expr f && forallb flat_expr args
  | IfStatement c b | UnlessStatement c b | WhileStatement c b | UntilStatement c b =>
      flat_expr c && flat_stmt b
  | TestStatement c t e => flat_expr c && flat_stmt t && option_allb flat_stmt e
  | RepeatStatement _ b c => flat_stmt b && option_allb flat_expr c
  | ForStatement _ _ _ _ a b st body =>
      flat_expr a && flat_expr b && option_allb flat_expr st && flat_stmt body
  | CaseStatement c => flat_case c
  | DefaultStatement c => flat_stmt c
  | SwitchonStatement e cases d =>
      flat_expr e && forallb flat_case cases && option_allb flat_stmt d
  | FinishStatement e args => option_allb flat_expr e && forallb flat_expr args
  | CompoundStatement l => forallb flat_stmt l
  | BlockStatement ds l =>
      forallb (fun d => negb (is_function d) && flat_decl d) ds && forallb flat_stmt l
  | ConditionalBranchStatement _ _ e => option_allb flat_expr e
  | ReturnStatement | BreakStatement | BrkStatement | LoopStatement | EndcaseStatement
  | LabelTargetStatement _ => true
  end
with flat_case (c : CaseClause) : bool :=
  match c with mkCase e s _ => flat_expr e && flat_stmt s end
with flat_decl (d : Declaration) : bool :=
  match d with
  | StaticDeclaration _ e _ | FunctionDeclaration _ _ e => flat_expr e
  | GlobalVariableDeclaration _ l _ => forallb flat_expr l
  | RoutineDeclaration _ _ s | LabelDeclaration _ s => flat_stmt s
  | ManifestDeclaration _ _ | GlobalDeclaration _ => true
  end.

Definition flat_program (p : Program) : bool :=
  forallb flat_decl (declarations p) && forallb flat_stmt (statements p).
