(* ===== verification/Lexer.v ===== *)
(** * The lexer

    The token types and the [Lexer] of src/Lexer.h, src/Lexer.cpp, src/lex_scanner.cpp,
    src/lex_tokens.cpp, src/lex_operator.cpp and src/lex_utils.cpp.  A lexer is its five
    fields; [get_next_token] returns the token and the lexer after it.  The [while] loops run
    on the number of characters that are left, which is enough ([collect_step]).  Lines and
    columns are unbounded integers here. *)

From S2P Require Import Prelude.
Local Open Scope Z_scope.

(** ** Token types *)

Module TokenType.
Inductive TokenType : Type :=
  | Eof | Error
  | Let | Manifest | Static | FStatic | Table | FTable | Len | Global | Function | Routine | And
  | Vec | FVec | If | Unless | Test | While | Until | Repeat | For | ForEach | FForeach | In | Switchon
  | Case | Default | Goto | Return | Finish | Loop | Endcase | Resultis
  | Valof | FValof | Be | To | By | Into | Do | Or | Break | Get | FLet
  | Then | Else
  | String | Brk | FREEVEC
  | Identifier | NumberLiteral | StringLiteral | CharLiteral | BooleanLiteral
  | Assign | Plus | Minus | Multiply | Divide | Remainder | Equal | NotEqual
  | Less | LessEqual | Greater | GreaterEqual | LogicalAnd | BitwiseAnd | LogicalOr | BitwiseOr | BitwiseNot | LogicalNot
  | Equivalence | NotEquivalence | LeftShift | RightShift | Conditional
  | AddressOf | Indirection | VecIndirection | CharIndirection | CharVectorIndirection
  | Bitfield
  | FloatPlus | FloatMinus | FloatMultiply | FloatDivide | FloatVecIndirection
  | FloatEqual | FloatNotEqual | FloatLess | FloatLessEqual | FloatGreater | FloatGreaterEqual
  | FLOAT | FSQRT | ENTIER | TRUNC | List | ManifestList
  | TypeInt | TypeFloat | TypeString | TypeList | TypeVec | TypePointer | TypeConst | TypeAny | TypeTable
  | TypeOf | HD | TL | REST | FREELIST
  | LParen | RParen | LBrace | RBrace | Comma | Semicolon | Colon.

Definition all : list TokenType := [
  Eof; Error; Let; Manifest; Static; FStatic; Table; FTable; Len; Global; Function;
  Routine; And; Vec; FVec; If; Unless; Test; While; Until; Repeat; For; ForEach;
  FForeach; In; Switchon; Case; Default; Goto; Return; Finish; Loop; Endcase; Resultis;
  Valof; FValof; Be; To; By; Into; Do; Or; Break; Get; FLet; Then; Else; String; Brk;
  FREEVEC; Identifier; NumberLiteral; StringLiteral; CharLiteral; BooleanLiteral; Assign;
  Plus; Minus; Multiply; Divide; Remainder; Equal; NotEqual; Less; LessEqual; Greater;
  GreaterEqual; LogicalAnd; BitwiseAnd; LogicalOr; BitwiseOr; BitwiseNot; LogicalNot;
  Equivalence; NotEquivalence; LeftShift; RightShift; Conditional; AddressOf;
  Indirection; VecIndirection; CharIndirection; CharVectorIndirection; Bitfield;
  FloatPlus; FloatMinus; FloatMultiply; FloatDivide; FloatVecIndirection; FloatEqual;
  FloatNotEqual; FloatLess; FloatLessEqual; FloatGreater; FloatGreaterEqual; FLOAT;
  FSQRT; ENTIER; TRUNC; List; ManifestList; TypeInt; TypeFloat; TypeString; TypeList;
  TypeVec; TypePointer; TypeConst; TypeAny; TypeTable; TypeOf; HD; TL; REST; FREELIST;
  LParen; RParen; LBrace; RBrace; Comma; Semicolon; Colon].

(** The value of the enumerator. *)
Definition index (type : TokenType) : Z :=
  match type with
  | Eof => 0 | Error => 1
  | Let => 2 | Manifest => 3 | Static => 4 | FStatic => 5 | Table => 6 | FTable => 7
  | Len => 8 | Global => 9 | Function => 10 | Routine => 11 | And => 12
  | Vec => 13 | FVec => 14 | If => 15 | Unless => 16 | Test => 17 | While => 18
  | Until => 19 | Repeat => 20 | For => 21 | ForEach => 22 | FForeach => 23 | In => 24
  | Switchon => 25
  | Case => 26 | Default => 27 | Goto => 28 | Return => 29 | Finish => 30 | Loop => 31
  | Endcase => 32 | Resultis => 33
  | Valof => 34 | FValof => 35 | Be => 36 | To => 37 | By => 38 | Into => 39
  | Do => 40 | Or => 41 | Break => 42 | Get => 43 | FLet => 44
  | Then => 45 | Else => 46
  | String => 47 | Brk => 48 | FREEVEC => 49
  | Identifier => 50 | NumberLiteral => 51 | StringLiteral => 52 | CharLiteral => 53 | BooleanLiteral => 54
  | Assign => 55 | Plus => 56 | Minus => 57 | Multiply => 58 | Divide => 59 | Remainder => 60
  | Equal => 61 | NotEqual => 62
  | Less => 63 | LessEqual => 64 | Greater => 65 | GreaterEqual => 66 | LogicalAnd => 67 | BitwiseAnd => 68
  | LogicalOr => 69 | BitwiseOr => 70 | BitwiseNot => 71 | LogicalNot => 72
  | Equivalence => 73 | NotEquivalence => 74 | LeftShift => 75 | RightShift => 76 | Conditional => 77
  | AddressOf => 78 | Indirection => 79 | VecIndirection => 80 | CharIndirection => 81 | CharVectorIndirection => 82
  | Bitfield => 83
  | FloatPlus => 84 | FloatMinus => 85 | FloatMultiply => 86 | FloatDivide => 87 | FloatVecIndirection => 88
  | FloatEqual => 89 | FloatNotEqual => 90 | FloatLess => 91 | FloatLessEqual => 92 | FloatGreater => 93 | FloatGreaterEqual => 94
  | FLOAT => 95 | FSQRT => 96 | ENTIER => 97 | TRUNC => 98 | List => 99 | ManifestList => 100
  | TypeInt => 101 | TypeFloat => 102 | TypeString => 103 | TypeList => 104 | TypeVec => 105 | TypePointer => 106
  | TypeConst => 107 | TypeAny => 108 | TypeTable => 109
  | TypeOf => 110 | HD => 111 | TL => 112 | REST => 113 | FREELIST => 114
  | LParen => 115 | RParen => 116 | LBrace => 117 | RBrace => 118 | Comma => 119 | Semicolon => 120
  | Colon => 121
  end.
Definition eqb (a b : TokenType) : bool := index a =? index b.

Lemma all_index a : all !! Z.to_nat (index a) = Some a.
Proof. by destruct a. Qed.
Lemma index_nonneg a : 0 <= index a.
Proof. by destruct a. Qed.
Lemma eqb_eq a b : eqb a b = true <-> a = b.
Proof.
  unfold eqb. rewrite Z.eqb_eq. split; [|by intros ->]. intros E.
  apply (inj Some). by rewrite <-!all_index, E.
Qed.
#[export] Instance eq_dec : EqDecision TokenType.
Proof.
  intros a b. destruct (eqb a b) eqn:E; [left | right]; [by apply eqb_eq|].
  intros ->. rewrite (proj2 (eqb_eq b b) eq_refl) in E. discriminate.
Defined.
End TokenType.
Abbreviation TokenType := TokenType.TokenType.

(** [to_string]: the types its switch forgets are all called "Unknown". *)
Definition type_name (type : TokenType) : string :=
  match type with
  | TokenType.Eof => "Eof" | TokenType.Error => "Error"
  | TokenType.Let => "Let" | TokenType.Manifest => "Manifest"
  | TokenType.Static => "Static" | TokenType.Global => "Global"
  | TokenType.Function => "Function" | TokenType.Routine => "Routine"
  | TokenType.And => "And" | TokenType.Vec => "Vec"
  | TokenType.If => "If" | TokenType.Unless => "Unless"
  | TokenType.Test => "Test" | TokenType.While => "While"
  | TokenType.Until => "Until" | TokenType.Repeat => "Repeat"
  | TokenType.For => "For" | TokenType.Switchon => "Switchon"
  | TokenType.FREEVEC => "FreeVec" | TokenType.Case => "Case"
  | TokenType.Default => "Default" | TokenType.Goto => "Goto"
  | TokenType.Return => "Return" | TokenType.Finish => "Finish"
  | TokenType.Loop => "Loop" | TokenType.Endcase => "Endcase"
  | TokenType.Resultis => "Resultis" | TokenType.Valof => "Valof"
  | TokenType.Be => "Be" | TokenType.To => "To"
  | TokenType.By => "By" | TokenType.Into => "Into"
  | TokenType.Do => "Do" | TokenType.Or => "Or"
  | TokenType.Break => "Break" | TokenType.String => "String"
  | TokenType.Brk => "Brk" | TokenType.Identifier => "Identifier"
  | TokenType.NumberLiteral => "NumberLiteral" | TokenType.StringLiteral => "StringLiteral"
  | TokenType.CharLiteral => "CharLiteral" | TokenType.BooleanLiteral => "BooleanLiteral"
  | TokenType.Assign => "Assign" | TokenType.Plus => "Plus"
  | TokenType.Minus => "Minus" | TokenType.Multiply => "Multiply"
  | TokenType.Divide => "Divide" | TokenType.Remainder => "Remainder"
  | TokenType.Equal => "Equal" | TokenType.NotEqual => "NotEqual"
  | TokenType.Less => "Less" | TokenType.LessEqual => "LessEqual"
  | TokenType.Greater => "Greater" | TokenType.GreaterEqual => "GreaterEqual"
  | TokenType.LogicalAnd => "LogicalAnd" | TokenType.LogicalOr => "LogicalOr"
  | TokenType.Equivalence => "Equivalence" | TokenType.NotEquivalence => "NotEquivalence"
  | TokenType.LeftShift => "LeftShift" | TokenType.RightShift => "RightShift"
  | TokenType.Conditional => "Conditional" | TokenType.AddressOf => "AddressOf"
  | TokenType.Indirection => "Indirection" | TokenType.VecIndirection => "VecIndirection"
  | TokenType.CharIndirection => "CharIndirection" | TokenType.FloatPlus => "FloatPlus"
  | TokenType.FloatMinus => "FloatMinus" | TokenType.FloatMultiply => "FloatMultiply"
  | TokenType.FloatDivide => "FloatDivide" | TokenType.FloatVecIndirection => "FloatVecIndirection"
  | TokenType.FloatEqual => "FloatEqual" | TokenType.FloatNotEqual => "FloatNotEqual"
  | TokenType.FloatLess => "FloatLess" | TokenType.FloatLessEqual => "FloatLessEqual"
  | TokenType.FloatGreater => "FloatGreater" | TokenType.FloatGreaterEqual => "FloatGreaterEqual"
  | TokenType.LParen => "LParen" | TokenType.RParen => "RParen"
  | TokenType.LBrace => "LBrace" | TokenType.RBrace => "RBrace"
  | TokenType.Comma => "Comma" | TokenType.Semicolon => "Semicolon"
  | TokenType.Colon => "Colon"
  | _ => "Unknown"
  end.

Record Token : Type := mkToken {
  type : TokenType;
  value : string;
  line : Z;
  column : Z
}.

Definition keywords_ : gmap string TokenType := list_to_map [
    ("LET", TokenType.Let); ("MANIFEST", TokenType.Manifest); ("STATIC", TokenType.Static);
    ("FSTATIC", TokenType.FStatic); ("GLOBAL", TokenType.Global);
    ("FUNCTION", TokenType.Function); ("ROUTINE", TokenType.Routine);
    ("AND", TokenType.LogicalAnd); ("NOT", TokenType.LogicalNot); ("VEC", TokenType.Vec);
    ("IF", TokenType.If); ("FVEC", TokenType.FVec); ("UNLESS", TokenType.Unless);
    ("TEST", TokenType.Test); ("WHILE", TokenType.While); ("UNTIL", TokenType.Until);
    ("REPEAT", TokenType.Repeat); ("FOR", TokenType.For); ("FOREACH", TokenType.ForEach);
    ("IN", TokenType.In); ("SWITCHON", TokenType.Switchon); ("CASE", TokenType.Case);
    ("DEFAULT", TokenType.Default); ("GOTO", TokenType.Goto); ("RETURN", TokenType.Return);
    ("FINISH", TokenType.Finish); ("FLOAT", TokenType.FLOAT); ("FLET", TokenType.FLet);
    ("FSQRT", TokenType.FSQRT); ("ENTIER", TokenType.ENTIER); ("TRUNC", TokenType.TRUNC);
    ("LOOP", TokenType.Loop); ("ENDCASE", TokenType.Endcase);
    ("RESULTIS", TokenType.Resultis); ("VALOF", TokenType.Valof);
    ("FVALOF", TokenType.FValof); ("BE", TokenType.Be); ("TO", TokenType.To);
    ("BY", TokenType.By); ("INTO", TokenType.Into); ("DO", TokenType.Do);
    ("THEN", TokenType.Then); ("ELSE", TokenType.Else); ("FREEVEC", TokenType.FREEVEC);
    ("FREELIST", TokenType.FREEVEC); ("OR", TokenType.Or);
    ("TRUE", TokenType.BooleanLiteral); ("FALSE", TokenType.BooleanLiteral);
    ("REM", TokenType.Remainder); ("EQV", TokenType.Equivalence);
    ("NEQV", TokenType.NotEquivalence); ("BREAK", TokenType.Break); ("GET", TokenType.Get);
    ("STRING", TokenType.String); ("BRK", TokenType.Brk); ("TABLE", TokenType.Table);
    ("FTABLE", TokenType.FTable); ("LEN", TokenType.Len); ("LIST", TokenType.List);
    ("MANIFESTLIST", TokenType.ManifestList); ("HD", TokenType.HD); ("TL", TokenType.TL);
    ("TYPEOF", TokenType.TypeOf); ("FIRST", TokenType.HD); ("REST", TokenType.REST);
    ("CONCAT", TokenType.Identifier); ("COPYLIST", TokenType.Identifier);
    ("DEEPCOPYLIST", TokenType.Identifier); ("FIND", TokenType.Identifier);
    ("FILTER", TokenType.Identifier); ("TYPE_INT", TokenType.TypeInt);
    ("TYPE_FLOAT", TokenType.TypeFloat); ("TYPE_STRING", TokenType.TypeString);
    ("TYPE_LIST", TokenType.TypeList); ("TYPE_VEC", TokenType.TypeVec);
    ("TYPE_POINTER", TokenType.TypePointer); ("TYPE_CONST", TokenType.TypeConst);
    ("TYPE_ANY", TokenType.TypeAny); ("TYPE_TABLE", TokenType.TypeTable)].

(** ** The state of the lexer *)

Record Lexer : Type := mkLexer {
  source_ : string;
  position_ : nat;
  line_ : Z;
  column_ : Z;
  last_token_was_value_ : bool
}.

Definition NUL : ascii := Ascii.zero.
Definition newline : ascii := "010".
Definition quote : ascii := "034".

Definition new_lexer (source : string) : Lexer := mkLexer source 0 1 1 false.

Definition set_last_token_was_value (b : bool) (lx : Lexer) : Lexer :=
  mkLexer (source_ lx) (position_ lx) (line_ lx) (column_ lx) b.

(** [source_[i]], NUL past the end. *)
Definition char_at (lx : Lexer) (i : nat) : ascii := default NUL (String.get i (source_ lx)).

Definition is_at_end (lx : Lexer) : bool := (String.length (source_ lx) <=? position_ lx)%nat.

Definition peek_char (lx : Lexer) : ascii :=
  if is_at_end lx then NUL else char_at lx (position_ lx).

Definition peek_next_char (lx : Lexer) : ascii :=
  if (String.length (source_ lx) <=? S (position_ lx))%nat then NUL
  else char_at lx (S (position_ lx)).

Definition advance (lx : Lexer) : ascii * Lexer :=
  if is_at_end lx then (NUL, lx)
  else
    let c := char_at lx (position_ lx) in
    let '(l, k) :=
      if Ascii.eqb c newline then (line_ lx + 1, 1) else (line_ lx, column_ lx + 1) in
    (c, mkLexer (source_ lx) (S (position_ lx)) l k (last_token_was_value_ lx)).

(** An [advance();] whose character is not looked at. *)
Definition skip (lx : Lexer) : Lexer := snd (advance lx).

(** The characters that are left, and so the fuel of the loops. *)
Definition remaining (lx : Lexer) : nat := String.length (source_ lx) - position_ lx.

(** [while (cond) value += advance();] *)
Fixpoint collect_loop (fuel : nat) (cond : Lexer -> bool) (lx : Lexer) : string * Lexer :=
  match fuel with
  | O => ("", lx)
  | S fuel =>
      if cond lx then
        let '(c, lx) := advance lx in
        let '(v, lx) := collect_loop fuel cond lx in
        (String c v, lx)
      else ("", lx)
  end.
Definition collect (cond : Lexer -> bool) (lx : Lexer) : string * Lexer :=
  collect_loop (remaining lx) cond lx.
Definition collect_chars (p : ascii -> bool) : Lexer -> string * Lexer :=
  collect (fun lx => p (peek_char lx)).
(** [while (cond) advance();] *)
Definition skip_while (cond : Lexer -> bool) (lx : Lexer) : Lexer := snd (collect cond lx).

Definition eqc (c d : ascii) : bool := Ascii.eqb c d.
Definition is_one_of (c : ascii) (l : list ascii) : bool := existsb (Ascii.eqb c) l.

(** ** Blanks and comments *)

Definition in_line_comment (lx : Lexer) : bool :=
  negb (eqc (peek_char lx) newline) && negb (is_at_end lx).
Definition in_block_comment (lx : Lexer) : bool :=
  negb (is_at_end lx) && negb (eqc (peek_char lx) "*" && eqc (peek_next_char lx) "/").

Fixpoint skip_loop (fuel : nat) (lx : Lexer) : Lexer :=
  match fuel with
  | O => lx
  | S fuel =>
      if is_at_end lx then lx
      else
        let c := peek_char lx in
        if isspace c then skip_loop fuel (skip lx)
        else if eqc c "/" && eqc (peek_next_char lx) "/" then
          skip_loop fuel (skip_while in_line_comment lx)
        else if eqc c "/" && eqc (peek_next_char lx) "*" then
          let lx := skip_while in_block_comment (skip (skip lx)) in
          skip_loop fuel (if is_at_end lx then lx else skip (skip lx))
        else lx
  end.
Definition skip_whitespace_and_comments (lx : Lexer) : Lexer := skip_loop (remaining lx) lx.

(** ** Tokens *)

Definition make_token (type : TokenType) (lx : Lexer) : Token :=
  mkToken type "" (line_ lx) (column_ lx).
Definition make_error_token (message : string) (lx : Lexer) : Token :=
  mkToken TokenType.Error message (line_ lx) (column_ lx).

Definition ident_char (c : ascii) : bool := isalnum c || eqc c "_".

Definition scan_identifier_or_keyword (lx : Lexer) : Token * Lexer :=
  let start_col := column_ lx in
  let '(value, lx) := collect_chars ident_char lx in
  let type := match keywords_ !! value with Some type => type | None => TokenType.Identifier end in
  (mkToken type value (line_ lx) start_col, lx).

Definition isxdigit (c : ascii) : bool :=
  isdigit c || ((65 <=? code c) && (code c <=? 70)) || ((97 <=? code c) && (code c <=? 102)).
Definition isoctal (c : ascii) : bool := (48 <=? code c) && (code c <=? 55).

(** [if (cond) value += advance();] *)
Definition optional_char (p : ascii -> bool) (lx : Lexer) : string * Lexer :=
  if p (peek_char lx) then let '(c, lx) := advance lx in (String c "", lx) else ("", lx).

(** The two optional parts of a decimal number. *)
Definition scan_fraction (lx : Lexer) : string * Lexer :=
  if eqc (peek_char lx) "." then
    let '(dot, lx) := advance lx in
    let '(digits, lx) := collect_chars isdigit lx in (String dot digits, lx)
  else ("", lx).
Definition scan_exponent (lx : Lexer) : string * Lexer :=
  if is_one_of (peek_char lx) ["e"; "E"]%char then
    let '(e, lx) := advance lx in
    let '(sign, lx) := optional_char (fun c => is_one_of c ["+"; "-"]%char) lx in
    let '(digits, lx) := collect_chars isdigit lx in (String e (sign ++ digits)%string, lx)
  else ("", lx).

Definition scan_number (lx : Lexer) : Token * Lexer :=
  let start_col := column_ lx in
  let number value lx := (mkToken TokenType.NumberLiteral value (line_ lx) start_col, lx) in
  if eqc (peek_char lx) "#" then
    let '(hash, lx) := advance lx in
    if is_one_of (peek_char lx) ["X"; "x"]%char then
      let '(x, lx) := advance lx in
      let '(digits, lx) := collect_chars isxdigit lx in
      number (String hash (String x digits)) lx
    else
      let '(digits, lx) := collect_chars isoctal lx in
      number (String hash digits) lx
  else
    let '(digits, lx) := collect_chars isdigit lx in
    let '(fraction, lx) := scan_fraction lx in
    let '(exponent, lx) := scan_exponent lx in
    number (digits ++ fraction ++ exponent)%string lx.

(** The character an escape of a string stands for; [None] when the asterisk is itself. *)
Definition escape (c : ascii) : option ascii :=
  if is_one_of c ["n"; "N"]%char then Some "010"%char
  else if is_one_of c ["t"; "T"]%char then Some "009"%char
  else if is_one_of c ["s"; "S"]%char then Some " "%char
  else if is_one_of c ["b"; "B"]%char then Some "008"%char
  else if is_one_of c ["p"; "P"]%char then Some "012"%char
  else if is_one_of c ["c"; "C"]%char then Some "013"%char
  else if eqc c quote then Some quote
  else if eqc c "*" then Some "*"%char
  else None.

(** One turn of the loop of [scan_string]. *)
Definition string_char (lx : Lexer) : ascii * Lexer :=
  let '(c, lx) := advance lx in
  if eqc c "*" then
    match escape (peek_char lx) with
    | Some d => (d, skip lx)
    | None => ("*"%char, lx)
    end
  else (c, lx).

Fixpoint string_loop (fuel : nat) (lx : Lexer) : string * Lexer :=
  match fuel with
  | O => ("", lx)
  | S fuel =>
      if negb (eqc (peek_char lx) quote) && negb (is_at_end lx) then
        let '(c, lx) := string_char lx in
        let '(v, lx) := string_loop fuel lx in
        (String c v, lx)
      else ("", lx)
  end.

Definition scan_string (lx : Lexer) : Token * Lexer :=
  let start_col := column_ lx in
  let lx := skip lx in
  let '(value, lx) := string_loop (remaining lx) lx in
  if is_at_end lx then (make_error_token "Unterminated string literal." lx, lx)
  else
    let lx := skip lx in
    (mkToken TokenType.StringLiteral value (line_ lx) start_col, lx).

Definition scan_char (lx : Lexer) : Token * Lexer :=
  let start_col := column_ lx in
  let lx := skip lx in
  if eqc (peek_char lx) "'" then (make_error_token "Empty character literal." lx, lx)
  else
    let '(c, lx) := advance lx in
    let '(value, lx) :=
      if eqc c "*" then
        if is_one_of (peek_char lx) ["n"; "N"]%char then (String newline "", skip lx)
        else let '(d, lx) := advance lx in (String d "", lx)
      else (String c "", lx) in
    if negb (eqc (peek_char lx) "'") then
      (make_error_token "Multi-character literal, or unterminated char literal." lx, lx)
    else
      let lx := skip lx in
      (mkToken TokenType.CharLiteral value (line_ lx) start_col, lx).

(** The operators.  [followed lx c a b] is [if (peek_char() == c) { advance(); a } b]. *)
Definition followed {A} (lx : Lexer) (c : ascii) (a : Lexer -> A) (b : A) : A :=
  if eqc (peek_char lx) c then a (skip lx) else b.

Definition made (type : TokenType) (lx : Lexer) : Token * Lexer := (make_token type lx, lx).

(** The [switch] on the first character, after which [lx] stands. *)
Definition switch_operator (c : ascii) (lx : Lexer) : Token * Lexer :=
  let error :=
    (make_error_token ("Unexpected character: " ++ String c "")%string lx, lx) in
  if eqc c "(" then made TokenType.LParen lx
  else if eqc c ")" then made TokenType.RParen lx
  else if eqc c "," then made TokenType.Comma lx
  else if eqc c ";" then made TokenType.Semicolon lx
  else if eqc c "@" then made TokenType.AddressOf lx
  else if eqc c "!" then
    if last_token_was_value_ lx then made TokenType.VecIndirection lx
    else made TokenType.Indirection lx
  else if eqc c "%" then
    followed lx "%" (made TokenType.Bitfield)
      (if last_token_was_value_ lx then made TokenType.CharVectorIndirection lx
       else made TokenType.CharIndirection lx)
  else if eqc c "&" then
    followed lx "&" (made TokenType.LogicalAnd) (made TokenType.BitwiseAnd lx)
  else if eqc c "|" then
    followed lx "|" (made TokenType.LogicalOr) (made TokenType.BitwiseOr lx)
  else if eqc c "+" then followed lx "#" (made TokenType.FloatPlus) (made TokenType.Plus lx)
  else if eqc c "*" then
    followed lx "#" (made TokenType.FloatMultiply) (made TokenType.Multiply lx)
  else if eqc c "/" then
    followed lx "#" (made TokenType.FloatDivide) (made TokenType.Divide lx)
  else if eqc c ":" then followed lx "=" (made TokenType.Assign) (made TokenType.Colon lx)
  else if eqc c "~" then
    followed lx "="
      (fun lx => followed lx "#" (made TokenType.FloatNotEqual) (made TokenType.NotEqual lx))
      (made TokenType.BitwiseNot lx)
  else if eqc c "<" then
    followed lx "="
      (fun lx => followed lx "#" (made TokenType.FloatLessEqual) (made TokenType.LessEqual lx))
      (followed lx "<" (made TokenType.LeftShift)
        (followed lx "#" (made TokenType.FloatLess) (made TokenType.Less lx)))
  else if eqc c ">" then
    followed lx "="
      (fun lx =>
         followed lx "#" (made TokenType.FloatGreaterEqual) (made TokenType.GreaterEqual lx))
      (followed lx ">" (made TokenType.RightShift)
        (followed lx "#" (made TokenType.FloatGreater) (made TokenType.Greater lx)))
  else if eqc c "=" then followed lx "#" (made TokenType.FloatEqual) (made TokenType.Equal lx)
  else if eqc c "-" then
    followed lx ">" (made TokenType.Conditional)
      (followed lx "#" (made TokenType.FloatMinus) (made TokenType.Minus lx))
  else if eqc c "$" then followed lx "(" (made TokenType.LBrace) error
  else if eqc c "#" then followed lx "%" (made TokenType.FloatVecIndirection) error
  else error.

Definition scan_operator (lx : Lexer) : Token * Lexer :=
  let '(c, lx) := advance lx in
  if is_one_of c ["O"; "o"]%char && is_one_of (peek_char lx) ["R"; "r"]%char then
    let lx := skip lx in
    if negb (isalnum (peek_char lx)) && negb (eqc (peek_char lx) "_") then
      made TokenType.LogicalOr lx
    else switch_operator c lx
  else switch_operator c lx.

(** The types after which [!] and [%] are infix. *)
Definition is_value_type (type : TokenType) : bool :=
  match type with
  | TokenType.Identifier | TokenType.NumberLiteral | TokenType.StringLiteral
  | TokenType.CharLiteral | TokenType.BooleanLiteral | TokenType.RParen | TokenType.RBrace =>
      true
  | _ => false
  end.

Definition get_next_token (lx : Lexer) : Token * Lexer :=
  let lx := skip_whitespace_and_comments lx in
  if is_at_end lx then
    let lx := set_last_token_was_value false lx in (make_token TokenType.Eof lx, lx)
  else
    let c := peek_char lx in
    let '(token, lx) :=
      if eqc c "$" && eqc (peek_next_char lx) "(" then
        let lx := skip (skip lx) in (make_token TokenType.LBrace lx, lx)
      else if eqc c "$" && eqc (peek_next_char lx) ")" then
        let lx := skip (skip lx) in (make_token TokenType.RBrace lx, lx)
      else if eqc c "{" then let lx := skip lx in (make_token TokenType.LBrace lx, lx)
      else if eqc c "}" then let lx := skip lx in (make_token TokenType.RBrace lx, lx)
      else if isalpha c || eqc c "_" then scan_identifier_or_keyword lx
      else if isdigit c || eqc c "#" then scan_number lx
      else if eqc c quote then scan_string lx
      else if eqc c "'" then scan_char lx
      else scan_operator lx in
    (token, set_last_token_was_value (is_value_type (type token)) lx).

Definition peek (lx : Lexer) : Token := fst (get_next_token lx).
