(* ===== verification/LexerProof.v ===== *)
(** * What the lexer reads

    Lemmas on Lexer.v: a lexer seen as the text that is left ([rest]); every operation is a
    number of single steps ([moves]), so that what a step keeps every operation keeps; the
    loops have enough fuel ([collect_step], [skip_step], [string_step]); reading a word does
    not depend on what follows the blank after it ([agree]). *)

From S2P Require Import Prelude Lexer.
Local Open Scope Z_scope.

(** ** The text that is left *)

Fixpoint string_drop (n : nat) (s : string) : string :=
  match n, s with
  | O, _ => s
  | S n, String _ s => string_drop n s
  | S _, EmptyString => EmptyString
  end.

Definition rest (lx : Lexer) : string := string_drop (position_ lx) (source_ lx).

Lemma get_drop n s :
  String.get n s = match string_drop n s with String c _ => Some c | _ => None end.
Proof. revert s. induction n as [|n IH]; intros [|c s]; cbn; auto. Qed.

Lemma length_drop n s : String.length (string_drop n s) = (String.length s - n)%nat.
Proof. revert s. induction n as [|n IH]; intros [|c s]; cbn; auto. Qed.

Lemma drop_S n s : string_drop (S n) s = substr1 (string_drop n s).
Proof. revert s. induction n as [|n IH]; intros [|c s]; try done. exact (IH s). Qed.

Lemma rest_length lx : String.length (rest lx) = remaining lx.
Proof. apply length_drop. Qed.

Lemma at_end_rest lx : is_at_end lx = string_empty (rest lx).
Proof.
  unfold is_at_end. pose proof (rest_length lx) as E. unfold remaining in E.
  destruct (rest lx); cbn in *; destruct (Nat.leb_spec (String.length (source_ lx)) (position_ lx)); lia || done.
Qed.

Lemma peek_rest lx : peek_char lx = front (rest lx).
Proof.
  unfold peek_char. rewrite at_end_rest. unfold char_at. rewrite get_drop.
  change (string_drop (position_ lx) (source_ lx)) with (rest lx). by destruct (rest lx).
Qed.

Lemma peek_next_rest lx : peek_next_char lx = front (substr1 (rest lx)).
Proof.
  unfold peek_next_char, char_at, rest. rewrite <-drop_S, get_drop.
  pose proof (length_drop (S (position_ lx)) (source_ lx)) as E.
  destruct (Nat.leb_spec (String.length (source_ lx)) (S (position_ lx))) as [Hl|Hl];
    [|by destruct (string_drop _ _)].
  destruct (string_drop _ _); [done | cbn in E; lia].
Qed.

Lemma advance_rest lx :
  fst (advance lx) = front (rest lx) /\ rest (skip lx) = substr1 (rest lx)
  /\ last_token_was_value_ (skip lx) = last_token_was_value_ lx.
Proof.
  unfold skip, advance. rewrite at_end_rest. destruct (rest lx) as [|c s] eqn:E; cbn -[Ascii.eqb].
  - by rewrite E.
  - unfold char_at. rewrite get_drop.
    change (string_drop (position_ lx) (source_ lx)) with (rest lx). rewrite E.
    destruct (Ascii.eqb _ _); cbn -[string_drop]; unfold rest; cbn [position_ source_];
      rewrite drop_S; change (string_drop (position_ lx) (source_ lx)) with (rest lx);
      by rewrite E.
Qed.

Lemma advance_skip lx : advance lx = (front (rest lx), skip lx).
Proof. destruct (advance_rest lx) as [E _]. rewrite <-E. unfold skip. by destruct (advance lx). Qed.

Lemma rest_skip lx : rest (skip lx) = substr1 (rest lx).
Proof. apply advance_rest. Qed.

Lemma flag_skip lx : last_token_was_value_ (skip lx) = last_token_was_value_ lx.
Proof. apply advance_rest. Qed.

Lemma rest_flag b lx : rest (set_last_token_was_value b lx) = rest lx.
Proof. done. Qed.

(** ** Steps *)

Inductive moves : Lexer -> Lexer -> Prop :=
  | moves_refl lx : moves lx lx
  | moves_skip lx lx' : moves (skip lx) lx' -> moves lx lx'.
Create HintDb lexer.
#[export] Hint Constructors moves : lexer.

Lemma moves_trans a b c : moves a b -> moves b c -> moves a c.
Proof. induction 1; eauto with lexer. Qed.

Lemma moves_flag a b : moves a b -> last_token_was_value_ b = last_token_was_value_ a.
Proof. induction 1 as [|lx lx' _ IH]; [done|]. by rewrite IH, flag_skip. Qed.

(** What a step keeps is kept. *)
Lemma moves_keep (P : Lexer -> Prop) :
  (forall lx, P lx -> P (skip lx)) -> forall a b, moves a b -> P a -> P b.
Proof. intros HP a b. induction 1; eauto. Qed.

Lemma remaining_skip lx : remaining (skip lx) = pred (remaining lx).
Proof. rewrite <-!rest_length, rest_skip. by destruct (rest lx). Qed.

Lemma moves_remaining a b : moves a b -> (remaining b <= remaining a)%nat.
Proof. induction 1 as [|lx lx' _ IH]; [done|]. rewrite remaining_skip in IH. lia. Qed.

Lemma at_end_remaining lx : is_at_end lx = (remaining lx =? 0)%nat.
Proof. rewrite at_end_rest, <-rest_length. by destruct (rest lx). Qed.

(** ** The loops *)

Section Collect.
Variable cond : Lexer -> bool.
Hypothesis cond_at_end : forall lx, is_at_end lx = true -> cond lx = false.

Lemma collect_loop_enough n m lx :
  (remaining lx <= n)%nat -> (remaining lx <= m)%nat ->
  collect_loop n cond lx = collect_loop m cond lx.
Proof.
  revert m lx. induction n as [|n IH]; intros [|m] lx Hn Hm; cbn; [done| | |].
  1,2: by rewrite cond_at_end by (rewrite at_end_remaining; apply Nat.eqb_eq; lia).
  destruct (cond lx); [|done]. rewrite advance_skip. rewrite (IH m); [done| |];
    rewrite remaining_skip; lia.
Qed.

(** The loop as its C++ text: a turn when the condition holds. *)
Lemma collect_step lx :
  collect cond lx =
    if cond lx then
      let '(c, lx) := advance lx in let '(v, lx) := collect cond lx in (String c v, lx)
    else ("", lx).
Proof.
  unfold collect at 1. destruct (cond lx) eqn:E.
  - destruct (remaining lx) as [|n] eqn:Er.
    { rewrite cond_at_end in E; [done|]. by rewrite at_end_remaining, Er. }
    cbn. rewrite E, advance_skip. unfold collect.
    rewrite (collect_loop_enough n (remaining (skip lx))); [done| |];
      rewrite remaining_skip, Er; cbn; lia.
  - by destruct (remaining lx); cbn; [|rewrite E].
Qed.

Lemma collect_moves lx : moves lx (snd (collect cond lx)).
Proof.
  unfold collect. generalize (remaining lx) as n. intros n. revert lx.
  induction n as [|n IH]; intros lx; cbn; [constructor|].
  destruct (cond lx); [|constructor]. rewrite advance_skip.
  specialize (IH (skip lx)). destruct (collect_loop n cond (skip lx)). by constructor.
Qed.
End Collect.

Fixpoint span (p : ascii -> bool) (s : string) : string * string :=
  match s with
  | String c s' => if p c then let '(v, r) := span p s' in (String c v, r) else ("", s)
  | EmptyString => ("", s)
  end.

Lemma collect_chars_span p lx :
  p NUL = false ->
  fst (collect_chars p lx) = fst (span p (rest lx))
  /\ rest (snd (collect_chars p lx)) = snd (span p (rest lx)).
Proof.
  intros Hp. unfold collect_chars.
  assert (Hend : forall lx, is_at_end lx = true -> p (peek_char lx) = false).
  { intros l E. rewrite peek_rest. rewrite at_end_rest in E. by destruct (rest l). }
  remember (rest lx) as s eqn:E. revert lx E.
  induction s as [|c s IH]; intros lx E; rewrite (collect_step _ Hend), peek_rest, <-E.
  - change (front "") with NUL. rewrite Hp. cbn. auto.
  - cbn. destruct (p c); cbn; [|auto]. rewrite advance_skip.
    specialize (IH (skip lx)). rewrite rest_skip, <-E in IH. specialize (IH eq_refl).
    destruct (collect _ (skip lx)), (span p s); cbn in *. destruct IH as [-> ->].
    by rewrite <-E.
Qed.

(** ** Blanks and comments *)

Lemma line_comment_end lx : is_at_end lx = true -> in_line_comment lx = false.
Proof. unfold in_line_comment. intros ->. by rewrite andb_false_r. Qed.
Lemma block_comment_end lx : is_at_end lx = true -> in_block_comment lx = false.
Proof. unfold in_block_comment. by intros ->. Qed.

Lemma skip_while_moves cond lx : moves lx (skip_while cond lx).
Proof. apply collect_moves. Qed.

Lemma skip_shrinks lx : is_at_end lx = false -> (remaining (skip lx) < remaining lx)%nat.
Proof. rewrite at_end_remaining, remaining_skip. destruct (remaining lx); cbn; [done|lia]. Qed.

Lemma line_comment_shrinks lx :
  is_at_end lx = false -> eqc (peek_char lx) "/" = true ->
  (remaining (skip_while in_line_comment lx) < remaining lx)%nat.
Proof.
  intros He Hc. unfold skip_while. rewrite (collect_step _ line_comment_end).
  unfold in_line_comment at 1. apply Ascii.eqb_eq in Hc. rewrite Hc, He. cbn. rewrite advance_skip.
  pose proof (moves_remaining _ _ (collect_moves in_line_comment (skip lx))).
  apply skip_shrinks in He. destruct (collect _ _). cbn in *. lia.
Qed.

Definition after_block_comment (lx : Lexer) : Lexer :=
  let lx := skip_while in_block_comment (skip (skip lx)) in
  if is_at_end lx then lx else skip (skip lx).

Lemma after_block_moves lx : moves (skip lx) (after_block_comment lx).
Proof.
  unfold after_block_comment. eapply moves_trans; [eapply moves_skip, (skip_while_moves in_block_comment)|].
  destruct (is_at_end _); eauto with lexer.
Qed.

Lemma skip_loop_enough n m lx :
  (remaining lx <= n)%nat -> (remaining lx <= m)%nat -> skip_loop n lx = skip_loop m lx.
Proof.
  revert m lx. induction n as [|n IH]; intros [|m] lx Hn Hm; cbn [skip_loop]; [done| | |].
  1,2: by replace (is_at_end lx) with true by (rewrite at_end_remaining; symmetry; apply Nat.eqb_eq; lia).
  destruct (is_at_end lx) eqn:E; [done|]. pose proof (skip_shrinks _ E).
  destruct (isspace _); [apply IH; lia|].
  destruct (eqc (peek_char lx) "/") eqn:Ec; cbn [andb]; [|done].
  pose proof (line_comment_shrinks _ E Ec). destruct (eqc (peek_next_char lx) "/"); [apply IH; lia|].
  destruct (eqc _ "*"); [|done].
  pose proof (moves_remaining _ _ (after_block_moves lx)). apply IH; unfold after_block_comment in *; lia.
Qed.

Lemma skip_step lx :
  skip_whitespace_and_comments lx =
    if is_at_end lx then lx
    else if isspace (peek_char lx) then skip_whitespace_and_comments (skip lx)
    else if eqc (peek_char lx) "/" && eqc (peek_next_char lx) "/" then
      skip_whitespace_and_comments (skip_while in_line_comment lx)
    else if eqc (peek_char lx) "/" && eqc (peek_next_char lx) "*" then
      skip_whitespace_and_comments (after_block_comment lx)
    else lx.
Proof.
  unfold skip_whitespace_and_comments at 1.
  rewrite (skip_loop_enough _ (S (remaining lx))) by lia. cbn [skip_loop].
  destruct (is_at_end lx) eqn:E; [done|]. pose proof (skip_shrinks _ E).
  unfold skip_whitespace_and_comments.
  destruct (isspace _); [apply skip_loop_enough; lia|].
  destruct (eqc (peek_char lx) "/") eqn:Ec; cbn [andb]; [|done].
  pose proof (line_comment_shrinks _ E Ec).
  destruct (eqc (peek_next_char lx) "/"); [apply skip_loop_enough; lia|].
  destruct (eqc _ "*"); [|done]. pose proof (moves_remaining _ _ (after_block_moves lx)).
  apply skip_loop_enough; unfold after_block_comment in *; lia.
Qed.

Lemma skip_loop_moves n lx : moves lx (skip_loop n lx).
Proof.
  revert lx. induction n as [|n IH]; intros lx; cbn [skip_loop]; [constructor|].
  destruct (is_at_end lx); [constructor|]. destruct (isspace _); [by apply moves_skip|].
  destruct (_ && _); [eapply moves_trans; [apply skip_while_moves | apply IH]|].
  destruct (_ && _); [|constructor].
  eapply moves_skip, moves_trans; [apply after_block_moves | apply IH].
Qed.

Lemma skip_ws_moves lx : moves lx (skip_whitespace_and_comments lx).
Proof. apply skip_loop_moves. Qed.

(** ** Every scan moves *)

Lemma string_char_moves lx : moves (skip lx) (snd (string_char lx)).
Proof.
  unfold string_char. rewrite advance_skip. destruct (eqc _ "*"); [|constructor].
  destruct (escape _); eauto with lexer.
Qed.

Lemma string_loop_moves n lx : moves lx (snd (string_loop n lx)).
Proof.
  revert lx. induction n as [|n IH]; intros lx; cbn [string_loop]; [constructor|].
  destruct (_ && _); [|constructor]. pose proof (string_char_moves lx) as Hc.
  destruct (string_char lx) as [c lx']. specialize (IH lx').
  destruct (string_loop n lx'). cbn in *. eapply moves_skip, moves_trans; eauto.
Qed.

Lemma collect_chars_moves p lx : moves lx (snd (collect_chars p lx)).
Proof. apply collect_moves. Qed.

Lemma optional_char_moves p lx : moves lx (snd (optional_char p lx)).
Proof. unfold optional_char. rewrite advance_skip. destruct (p _); eauto with lexer. Qed.

Ltac chain_moves n :=
  first
    [ apply moves_refl
    | match goal with
      | H : moves ?a _ |- moves ?a _ => apply (moves_trans _ _ _ H); clear H; chain_moves n
      end
    | match n with S ?n => apply moves_skip; chain_moves n end ].

(** Splits the [let '(v, lx) := ... in] of a scan, keeping that each part moves. *)
Ltac split_moves :=
  cbv zeta;
  repeat match goal with
  | |- context [advance ?lx] => rewrite (advance_skip lx)
  | |- context [let '(_, _) := collect_chars ?p ?lx in _] =>
      let H := fresh "Hm" in
      pose proof (collect_chars_moves p lx) as H; destruct (collect_chars p lx); cbn [snd] in H
  | |- context [let '(_, _) := optional_char ?p ?lx in _] =>
      let H := fresh "Hm" in
      pose proof (optional_char_moves p lx) as H; destruct (optional_char p lx); cbn [snd] in H
  | |- context [let '(_, _) := string_loop ?n ?lx in _] =>
      let H := fresh "Hm" in
      pose proof (string_loop_moves n lx) as H; destruct (string_loop n lx); cbn [snd] in H
  | |- context [if ?b then _ else _] => destruct b
  end; cbn [snd fst]; chain_moves 4%nat.

Lemma scan_identifier_moves lx : moves lx (snd (scan_identifier_or_keyword lx)).
Proof. unfold scan_identifier_or_keyword. split_moves. Qed.

Lemma scan_fraction_moves lx : moves lx (snd (scan_fraction lx)).
Proof. unfold scan_fraction. split_moves. Qed.
Lemma scan_exponent_moves lx : moves lx (snd (scan_exponent lx)).
Proof. unfold scan_exponent. split_moves. Qed.

(** The parts of a decimal number, split like the others. *)
Ltac split_number :=
  repeat match goal with
  | |- context [let '(_, _) := scan_fraction ?lx in _] =>
      let H := fresh "Hm" in
      pose proof (scan_fraction_moves lx) as H; destruct (scan_fraction lx); cbn [snd] in H
  | |- context [let '(_, _) := scan_exponent ?lx in _] =>
      let H := fresh "Hm" in
      pose proof (scan_exponent_moves lx) as H; destruct (scan_exponent lx); cbn [snd] in H
  | |- context [let '(_, _) := collect_chars isdigit ?lx in _] =>
      let H := fresh "Hm" in
      pose proof (collect_chars_moves isdigit lx) as H; destruct (collect_chars isdigit lx);
      cbn [snd] in H
  end.

Lemma scan_number_moves lx : moves lx (snd (scan_number lx)).
Proof. unfold scan_number. cbv zeta. split_number. split_moves. Qed.

Lemma scan_string_moves lx : moves (skip lx) (snd (scan_string lx)).
Proof. unfold scan_string. split_moves. Qed.

Lemma scan_char_moves lx : moves (skip lx) (snd (scan_char lx)).
Proof. unfold scan_char. split_moves. Qed.

Lemma scan_operator_moves lx : moves (skip lx) (snd (scan_operator lx)).
Proof. unfold scan_operator, switch_operator, made, followed. rewrite advance_skip. split_moves. Qed.

(** ** One token *)

(** The token and the lexer of [get_next_token] before it notes the kind of the token. *)
Definition scan (lx : Lexer) : Token * Lexer :=
  let c := peek_char lx in
  if eqc c "$" && eqc (peek_next_char lx) "(" then
    let lx := skip (skip lx) in (make_token TokenType.LBrace lx, lx)
  else if eqc c "$" && eqc (peek_next_char lx) ")" then
    let lx := skip (skip lx) in (make_token TokenType.RBrace lx, lx)
  else if eqc c "{" then let lx := skip lx in (make_token TokenType.LBrace lx, lx)
  else if eqc c "}" then let lx := skip lx in (make_token TokenType.RBrace lx, lx)
  else if isalpha c || eqc c "_" then scan_identifier_or_keyword lx
  else if isdigit c || eqc c "#" then scan_number lx
  else if eqc c quote then scan_string lx
  else if eqc c "'" then scan_char lx
  else scan_operator lx.

Lemma get_next_token_scan lx :
  get_next_token lx =
    let lx := skip_whitespace_and_comments lx in
    if is_at_end lx then
      let lx := set_last_token_was_value false lx in (make_token TokenType.Eof lx, lx)
    else
      let '(token, lx) := scan lx in
      (token, set_last_token_was_value (is_value_type (type token)) lx).
Proof. done. Qed.

Lemma collect_first p lx :
  p NUL = false -> p (peek_char lx) = true -> moves (skip lx) (snd (collect_chars p lx)).
Proof.
  intros Hp Hc. unfold collect_chars. rewrite collect_step.
  - rewrite Hc, advance_skip. pose proof (collect_moves (fun lx => p (peek_char lx)) (skip lx)).
    by destruct (collect _ _).
  - intros l E. rewrite peek_rest. rewrite at_end_rest in E. by destruct (rest l).
Qed.

Lemma scan_identifier_shrinks lx :
  isalpha (peek_char lx) || eqc (peek_char lx) "_" = true ->
  moves (skip lx) (snd (scan_identifier_or_keyword lx)).
Proof.
  intros Hc. unfold scan_identifier_or_keyword.
  pose proof (collect_first ident_char lx eq_refl) as H.
  destruct (collect_chars ident_char lx). apply H. unfold ident_char, isalnum.
  by destruct (isalpha _), (isdigit _), (eqc _ _).
Qed.

Lemma scan_number_shrinks lx :
  isdigit (peek_char lx) || eqc (peek_char lx) "#" = true ->
  moves (skip lx) (snd (scan_number lx)).
Proof.
  intros Hc. unfold scan_number. destruct (eqc _ "#").
  - split_moves.
  - rewrite orb_false_r in Hc. pose proof (collect_first isdigit lx eq_refl Hc) as H.
    destruct (collect_chars isdigit lx). cbn [snd] in H. split_number. split_moves.
Qed.

Lemma scan_moves lx : moves (skip lx) (snd (scan lx)).
Proof.
  unfold scan.
  destruct (_ && _); [eauto with lexer|]. destruct (_ && _); [eauto with lexer|].
  destruct (eqc _ "{"); [constructor|]. destruct (eqc _ "}"); [constructor|].
  destruct (isalpha _ || _) eqn:Ea; [by apply scan_identifier_shrinks|].
  destruct (isdigit _ || _) eqn:Ed; [by apply scan_number_shrinks|].
  destruct (eqc _ quote); [apply scan_string_moves|].
  destruct (eqc _ "'"); [apply scan_char_moves | apply scan_operator_moves].
Qed.

(** The types of the tokens each scan makes. *)
Definition type_among (m : gmap string TokenType) (t : TokenType) : bool :=
  existsb (fun k => TokenType.eqb t (snd k)) (map_to_list m).

Lemma lookup_among m v t : m !! v = Some t -> type_among m t = true.
Proof.
  intros H. apply existsb_exists. exists (v, t). split; [|by apply TokenType.eqb_eq].
  by apply list_elem_of_In, elem_of_map_to_list.
Qed.

#[local] Opaque keywords_.
Definition keyword_type : TokenType -> bool := type_among keywords_.

Lemma scan_identifier_type lx :
  keyword_type (type (fst (scan_identifier_or_keyword lx)))
  || TokenType.eqb (type (fst (scan_identifier_or_keyword lx))) TokenType.Identifier = true.
Proof.
  unfold scan_identifier_or_keyword. destruct (collect_chars _ _) as [v l]. cbn.
  destruct (keywords_ !! v) eqn:E; [|by rewrite orb_true_r].
  unfold keyword_type. by rewrite (lookup_among _ _ _ E).
Qed.

Lemma scan_number_type lx : type (fst (scan_number lx)) = TokenType.NumberLiteral.
Proof.
  unfold scan_number. cbv zeta.
  repeat match goal with
  | |- context [let '(_, _) := ?p in _] => destruct p
  | |- context [if ?b then _ else _] => destruct b
  end; done.
Qed.

Lemma scan_string_type lx :
  type (fst (scan_string lx)) = TokenType.StringLiteral
  \/ type (fst (scan_string lx)) = TokenType.Error.
Proof.
  unfold scan_string. cbv zeta. destruct (string_loop _ _). destruct (is_at_end _); cbn; auto.
Qed.

Lemma scan_char_type lx :
  type (fst (scan_char lx)) = TokenType.CharLiteral
  \/ type (fst (scan_char lx)) = TokenType.Error.
Proof.
  unfold scan_char. cbv zeta. rewrite advance_skip. destruct (eqc _ "'"); [by right|].
  destruct (if eqc _ "*" then _ else _). destruct (negb _); cbn; auto.
Qed.

Definition operator_types : list TokenType :=
  [TokenType.LParen; TokenType.RParen; TokenType.Comma; TokenType.Semicolon; TokenType.AddressOf;
   TokenType.VecIndirection; TokenType.Indirection; TokenType.Bitfield;
   TokenType.CharVectorIndirection; TokenType.CharIndirection; TokenType.LogicalAnd;
   TokenType.BitwiseAnd; TokenType.LogicalOr; TokenType.BitwiseOr; TokenType.FloatPlus;
   TokenType.Plus; TokenType.FloatMultiply; TokenType.Multiply; TokenType.FloatDivide;
   TokenType.Divide; TokenType.Assign; TokenType.Colon; TokenType.FloatNotEqual;
   TokenType.NotEqual; TokenType.BitwiseNot; TokenType.FloatLessEqual; TokenType.LessEqual;
   TokenType.LeftShift; TokenType.FloatLess; TokenType.Less; TokenType.FloatGreaterEqual;
   TokenType.GreaterEqual; TokenType.RightShift; TokenType.FloatGreater; TokenType.Greater;
   TokenType.FloatEqual; TokenType.Equal; TokenType.Conditional; TokenType.FloatMinus;
   TokenType.Minus; TokenType.LBrace; TokenType.Error].

Definition among (l : list TokenType) (t : TokenType) : bool := existsb (TokenType.eqb t) l.

Lemma scan_operator_type lx :
  eqc (peek_char lx) "#" = false -> among operator_types (type (fst (scan_operator lx))) = true.
Proof.
  intros Hc. unfold scan_operator, switch_operator, followed, made. rewrite advance_skip, <-peek_rest. cbv zeta beta.
  set (c := peek_char lx) in *. clearbody c. rewrite Hc.
  destruct (_ && _); [destruct (_ && _); [done|]|];
  repeat match goal with |- context [if ?b then _ else _] => destruct b end; reflexivity.
Qed.

(** The types of the tokens [get_next_token] returns. *)
Definition lexed_types : list TokenType :=
  operator_types ++ [TokenType.RBrace; TokenType.Identifier; TokenType.NumberLiteral;
    TokenType.StringLiteral; TokenType.CharLiteral].
Definition lexed (t : TokenType) : bool := keyword_type t || among lexed_types t.

Lemma among_app l k t : among (l ++ k) t = among l t || among k t.
Proof. apply existsb_app. Qed.

Lemma scan_type lx : lexed (type (fst (scan lx))) = true.
Proof.
  unfold scan, lexed.
  destruct (_ && _); [apply orb_true_r|]. destruct (_ && _); [apply orb_true_r|].
  destruct (eqc _ "{"); [apply orb_true_r|]. destruct (eqc _ "}"); [apply orb_true_r|].
  destruct (isalpha _ || _).
  { pose proof (scan_identifier_type lx) as H. apply orb_true_iff in H as [->|H]; [done|].
    apply TokenType.eqb_eq in H. rewrite H. apply orb_true_r. }
  destruct (isdigit _ || _) eqn:Ed; [rewrite scan_number_type; apply orb_true_r|].
  destruct (eqc _ quote); [destruct (scan_string_type lx) as [-> | ->]; apply orb_true_r|].
  destruct (eqc _ "'"); [destruct (scan_char_type lx) as [-> | ->]; apply orb_true_r|].
  unfold lexed_types. rewrite among_app, scan_operator_type; [apply orb_true_r|].
  by apply orb_false_iff in Ed as [_ ->].
Qed.

Lemma lexed_not_Eof t : lexed t = true -> t <> TokenType.Eof.
Proof. intros H ->. vm_compute in H. discriminate. Qed.

(** A call of [get_next_token]: the end of the text, or a token at least one step on. *)
Lemma get_next_token_spec lx :
  let lx1 := skip_whitespace_and_comments lx in
  (is_at_end lx1 = true
   /\ type (fst (get_next_token lx)) = TokenType.Eof
   /\ snd (get_next_token lx) = set_last_token_was_value false lx1)
  \/ (is_at_end lx1 = false
      /\ lexed (type (fst (get_next_token lx))) = true
      /\ exists lx2, moves (skip lx1) lx2
         /\ snd (get_next_token lx)
            = set_last_token_was_value (is_value_type (type (fst (get_next_token lx)))) lx2).
Proof.
  cbv zeta. rewrite get_next_token_scan. cbv zeta.
  set (lx1 := skip_whitespace_and_comments lx). destruct (is_at_end lx1); [by left|]. right.
  pose proof (scan_moves lx1) as Hm. pose proof (scan_type lx1) as Ht.
  destruct (scan lx1) as [t lx2]. cbn in *. eauto.
Qed.

Lemma remaining_set b lx : remaining (set_last_token_was_value b lx) = remaining lx.
Proof. done. Qed.

Lemma get_next_token_pending lx :
  type (fst (get_next_token lx)) <> TokenType.Eof ->
  (remaining (snd (get_next_token lx)) < remaining lx)%nat.
Proof.
  destruct (get_next_token_spec lx) as [(He & -> & _) | (He & _ & lx2 & Hm & ->)]; [done|].
  intros _. rewrite remaining_set. apply moves_remaining in Hm. apply skip_shrinks in He.
  pose proof (moves_remaining _ _ (skip_ws_moves lx)). lia.
Qed.

Lemma skip_ws_end lx : is_at_end lx = true -> skip_whitespace_and_comments lx = lx.
Proof. intros E. by rewrite skip_step, E. Qed.

Lemma get_next_token_eof lx :
  type (fst (get_next_token lx)) = TokenType.Eof ->
  remaining (snd (get_next_token lx)) = O
  /\ type (fst (get_next_token (snd (get_next_token lx)))) = TokenType.Eof.
Proof.
  destruct (get_next_token_spec lx) as [(He & _ & E) | (_ & Ht & _)].
  2: { intros E. by apply lexed_not_Eof in Ht. }
  intros _. rewrite E. split.
  - rewrite at_end_remaining in He. by apply Nat.eqb_eq in He.
  - rewrite get_next_token_scan. cbv zeta. rewrite skip_ws_end by exact He.
    change (is_at_end (set_last_token_was_value false ?l)) with (is_at_end l). by rewrite He.
Qed.

(** ** Lines and columns *)

Fixpoint string_take (n : nat) (s : string) : string :=
  match n, s with
  | S n, String c s => String c (string_take n s)
  | _, _ => EmptyString
  end.

Fixpoint newlines (s : string) : Z :=
  match s with
  | String c s => (if eqc c newline then 1 else 0) + newlines s
  | EmptyString => 0
  end.
(** The length of the last line. *)
Fixpoint last_line (s : string) : Z :=
  match s with
  | String c s =>
      if newlines s =? 0 then (if eqc c newline then 0 else 1) + last_line s else last_line s
  | EmptyString => 0
  end.

(** The fields of the lexer say where it is in the text. *)
Record placed (source : string) (lx : Lexer) : Prop := {
  placed_source : source_ lx = source;
  placed_position : (position_ lx <= String.length source)%nat;
  placed_line : line_ lx = 1 + newlines (string_take (position_ lx) source);
  placed_column : column_ lx = 1 + last_line (string_take (position_ lx) source)
}.

Lemma take_S n s c r :
  string_drop n s = String c r -> string_take (S n) s = (string_take n s ++ String c "")%string.
Proof.
  revert s. induction n as [|n IH]; intros [|d s] H; cbn in *; try discriminate.
  - by injection H as -> ->.
  - exact (f_equal (String d) (IH s H)).
Qed.

Lemma newlines_nonneg s : 0 <= newlines s.
Proof.
  induction s as [|c s IH]; [done|]. cbn -[eqc]. apply Z.add_nonneg_nonneg; [|exact IH].
  by destruct (eqc _ _).
Qed.

Lemma append_nil s : ("" ++ s)%string = s.
Proof. done. Qed.
Lemma append_cons c s t : (String c s ++ t)%string = String c (s ++ t).
Proof. done. Qed.

Lemma newlines_snoc s c :
  newlines (s ++ String c "") = newlines s + (if eqc c newline then 1 else 0).
Proof.
  induction s as [|d s IH]; rewrite ?append_nil, ?append_cons; cbn -[eqc]; [|rewrite IH];
    destruct (eqc c newline); lia.
Qed.

Lemma last_line_snoc s c :
  last_line (s ++ String c "") = if eqc c newline then 0 else last_line s + 1.
Proof.
  induction s as [|d s IH]; rewrite ?append_nil, ?append_cons; cbn -[eqc];
    [by destruct (eqc c newline)|].
  rewrite IH, newlines_snoc. pose proof (newlines_nonneg s). destruct (eqc c newline).
  - by replace (newlines s + 1 =? 0) with false by lia.
  - rewrite Z.add_0_r. destruct (newlines s =? 0), (eqc d newline); lia.
Qed.

Lemma placed_new source : placed source (new_lexer source).
Proof. split; cbn; lia || done. Qed.

Lemma placed_skip source lx : placed source lx -> placed source (skip lx).
Proof.
  intros [Hs Hp Hl Hc]. unfold skip, advance. rewrite at_end_rest.
  destruct (rest lx) as [|c r] eqn:E; [by split|]. cbn [string_empty].
  unfold char_at. rewrite get_drop. fold (rest lx). rewrite E. cbn [default id].
  pose proof (take_S _ _ _ _ E) as Et. rewrite Hs in Et.
  pose proof (rest_length lx) as Elen. unfold remaining in Elen. rewrite E, Hs in Elen. cbn in Elen.
  destruct (Ascii.eqb c newline) eqn:Ec; split; cbn [position_ line_ column_ source_ snd];
    try assumption; try lia;
    rewrite Et, ?newlines_snoc, ?last_line_snoc; unfold eqc; rewrite Ec; lia.
Qed.

Lemma placed_moves source lx lx' : moves lx lx' -> placed source lx -> placed source lx'.
Proof. apply moves_keep. apply placed_skip. Qed.

Lemma placed_set source b lx : placed source lx -> placed source (set_last_token_was_value b lx).
Proof. intros [? ? ? ?]. by split. Qed.

Lemma placed_next source lx : placed source lx -> placed source (snd (get_next_token lx)).
Proof.
  intros H. pose proof (placed_moves _ _ _ (skip_ws_moves lx) H) as H1.
  destruct (get_next_token_spec lx) as [(_ & _ & ->) | (_ & _ & lx2 & Hm & ->)]; apply placed_set.
  - done.
  - eapply placed_moves; [exact Hm | by apply placed_skip].
Qed.

(** ** Reading a word does not depend on what follows the blank after it

    [lx1] reads a text by itself, [lx2] the same text with a blank and [s] after it. *)

Record before (s : string) (lx1 lx2 : Lexer) : Prop := {
  before_rest : rest lx2 = (rest lx1 ++ String " " s)%string;
  before_flag : last_token_was_value_ lx2 = last_token_was_value_ lx1
}.

Definition agree (s : string) (r1 r2 : Token * Lexer) : Prop :=
  type (fst r2) = type (fst r1) /\ value (fst r2) = value (fst r1) /\ before s (snd r1) (snd r2).

Section Before.
Context (s : string).

Lemma before_peek {A} (p : ascii -> A) lx1 lx2 :
  p NUL = p " "%char -> before s lx1 lx2 -> p (peek_char lx2) = p (peek_char lx1).
Proof. intros Hp [E _]. rewrite !peek_rest, E. destruct (rest lx1); [by symmetry | done]. Qed.

Lemma before_peek_next {A} (p : ascii -> A) lx1 lx2 :
  p NUL = p " "%char -> is_at_end lx1 = false -> before s lx1 lx2 ->
  p (peek_next_char lx2) = p (peek_next_char lx1).
Proof.
  intros Hp Hn [E _]. rewrite !peek_next_rest, E. rewrite at_end_rest in Hn.
  destruct (rest lx1) as [|c r]; [done|]. destruct r; [by symmetry | done].
Qed.

Lemma before_front lx1 lx2 :
  is_at_end lx1 = false -> before s lx1 lx2 -> front (rest lx2) = front (rest lx1).
Proof. intros Hn [E _]. rewrite at_end_rest in Hn. rewrite E. by destruct (rest lx1). Qed.

Lemma before_not_end lx1 lx2 : before s lx1 lx2 -> is_at_end lx2 = false.
Proof. intros [E _]. rewrite at_end_rest, E. by destruct (rest lx1). Qed.

Lemma before_skip lx1 lx2 :
  is_at_end lx1 = false -> before s lx1 lx2 -> before s (skip lx1) (skip lx2).
Proof.
  intros Hn [E Ef]. split; [|by rewrite !flag_skip]. rewrite !rest_skip, E.
  rewrite at_end_rest in Hn. by destruct (rest lx1).
Qed.

Lemma before_set b lx1 lx2 :
  before s lx1 lx2 -> before s (set_last_token_was_value b lx1) (set_last_token_was_value b lx2).
Proof. by intros [E Ef]. Qed.

Lemma span_before p u :
  p " "%char = false ->
  span p (u ++ String " " s) = (fst (span p u), snd (span p u) ++ String " " s)%string.
Proof.
  intros Hp. induction u as [|c u IH]; [rewrite append_nil; cbn; by rewrite Hp|].
  rewrite append_cons. cbn. destruct (p c); [|done]. rewrite IH. by destruct (span p u).
Qed.

Lemma collect_before p lx1 lx2 :
  p NUL = false -> p " "%char = false -> before s lx1 lx2 ->
  fst (collect_chars p lx2) = fst (collect_chars p lx1)
  /\ before s (snd (collect_chars p lx1)) (snd (collect_chars p lx2)).
Proof.
  intros Hn Hb H. destruct H as [E Ef].
  destruct (collect_chars_span p lx1 Hn) as [E1 E2], (collect_chars_span p lx2 Hn) as [E3 E4].
  rewrite E, span_before in E3, E4 by done. split; [by rewrite E1, E3|]. split.
  - by rewrite E2, E4.
  - by rewrite !(moves_flag _ _ (collect_chars_moves p _)).
Qed.

Lemma peek_not_end (p : ascii -> bool) lx :
  p NUL = false -> p (peek_char lx) = true -> is_at_end lx = false.
Proof.
  intros Hp. rewrite peek_rest, at_end_rest. destruct (rest lx); [|done]. intros E.
  change (p NUL = true) in E. congruence.
Qed.

Lemma optional_before p lx1 lx2 :
  p NUL = false -> p " "%char = false -> before s lx1 lx2 ->
  fst (optional_char p lx2) = fst (optional_char p lx1)
  /\ before s (snd (optional_char p lx1)) (snd (optional_char p lx2)).
Proof.
  intros Hn Hb H. unfold optional_char. rewrite !advance_skip.
  rewrite (before_peek p lx1 lx2) by (done || by rewrite Hn, Hb).
  destruct (p (peek_char lx1)) eqn:E; cbn; [|done].
  assert (is_at_end lx1 = false) by by apply (peek_not_end p).
  split; [by rewrite (before_front lx1 lx2) | by apply before_skip].
Qed.

(** Runs [collect_chars p] or [optional_char p] on both sides. *)
Ltac both_collect H :=
  match type of H with
  | before _ ?lx1 ?lx2 =>
      match goal with
      | |- context [collect_chars ?p lx1] =>
          let E := fresh "Ev" in let H' := fresh "H" in
          destruct (collect_before p lx1 lx2 eq_refl eq_refl H) as [E H'];
          destruct (collect_chars p lx1), (collect_chars p lx2); cbn [fst snd] in E, H'; rewrite ?E
      | |- context [optional_char ?p lx1] =>
          let E := fresh "Ev" in let H' := fresh "H" in
          destruct (optional_before p lx1 lx2 eq_refl eq_refl H) as [E H'];
          destruct (optional_char p lx1), (optional_char p lx2); cbn [fst snd] in E, H'; rewrite ?E
      end
  end.

Lemma identifier_agrees lx1 lx2 :
  before s lx1 lx2 -> agree s (scan_identifier_or_keyword lx1) (scan_identifier_or_keyword lx2).
Proof.
  intros H. unfold scan_identifier_or_keyword. both_collect H. by split; [|split].
Qed.

Lemma test_before p lx1 lx2 :
  p NUL = false -> p " "%char = false -> before s lx1 lx2 ->
  p (peek_char lx2) = p (peek_char lx1)
  /\ (p (peek_char lx1) = true ->
      front (rest lx2) = front (rest lx1) /\ before s (skip lx1) (skip lx2)).
Proof.
  intros Hn Hb H. split; [apply before_peek; [by rewrite Hn, Hb | done]|]. intros E.
  assert (is_at_end lx1 = false) by by apply (peek_not_end p).
  split; [by apply before_front | by apply before_skip].
Qed.

(** Tests the next character on both sides. *)
Ltac both_test H p :=
  match type of H with
  | before _ ?lx1 ?lx2 =>
      let E := fresh "Et" in let K := fresh "K" in
      destruct (test_before p lx1 lx2 eq_refl eq_refl H) as [E K];
      cbv beta in E, K; rewrite ?E; clear E;
      match type of K with ?c = true -> _ =>
        let Ec := fresh "Ec" in destruct c eqn:Ec;
        [destruct (K eq_refl) as [? ?]; clear K | clear K]
      end
  end.

Lemma fraction_before lx1 lx2 :
  before s lx1 lx2 ->
  fst (scan_fraction lx2) = fst (scan_fraction lx1)
  /\ before s (snd (scan_fraction lx1)) (snd (scan_fraction lx2)).
Proof.
  intros H. unfold scan_fraction. rewrite !advance_skip. both_test H (fun c => eqc c "."); [|done].
  both_collect H1. cbn. split; [congruence | done].
Qed.

Lemma exponent_before lx1 lx2 :
  before s lx1 lx2 ->
  fst (scan_exponent lx2) = fst (scan_exponent lx1)
  /\ before s (snd (scan_exponent lx1)) (snd (scan_exponent lx2)).
Proof.
  intros H. unfold scan_exponent. rewrite !advance_skip.
  both_test H (fun c => is_one_of c ["e"; "E"]%char); [|done].
  both_collect H1. both_collect H2. cbn. split; [congruence | done].
Qed.

Lemma number_agrees lx1 lx2 : before s lx1 lx2 -> agree s (scan_number lx1) (scan_number lx2).
Proof.
  intros H. unfold scan_number. cbv zeta. rewrite !advance_skip.
  both_test H (fun c => eqc c "#").
  - match goal with E : front _ = _ |- _ => rewrite E end.
    both_test H1 (fun c => is_one_of c ["X"; "x"]%char); rewrite ?advance_skip.
    + match goal with E : front (rest (skip lx2)) = _ |- _ => rewrite E end.
      both_collect H3. by split; [|split].
    + both_collect H1. by split; [|split].
  - both_collect H.
    destruct (fraction_before _ _ H0) as [Ef Hf].
    destruct (scan_fraction l), (scan_fraction l0). cbn [fst snd] in Ef, Hf. rewrite Ef.
    destruct (exponent_before _ _ Hf) as [Ee He].
    destruct (scan_exponent l1), (scan_exponent l2). cbn [fst snd] in Ee, He. rewrite Ee.
    by split; [|split].
Qed.

(** Strings: the loop, when it ends before the text does. *)
Lemma string_loop_enough n m lx :
  (remaining lx <= n)%nat -> (remaining lx <= m)%nat -> string_loop n lx = string_loop m lx.
Proof.
  revert m lx. induction n as [|n IH]; intros [|m] lx Hn Hm; cbn [string_loop]; [done| | |].
  1,2: replace (is_at_end lx) with true by (rewrite at_end_remaining; symmetry; apply Nat.eqb_eq; lia);
    by rewrite andb_false_r.
  destruct (is_at_end lx) eqn:E; [by rewrite andb_false_r|]. rewrite andb_true_r.
  destruct (negb _); [|done]. pose proof (moves_remaining _ _ (string_char_moves lx)).
  pose proof (skip_shrinks _ E). destruct (string_char lx) as [c l]. cbn [snd] in *.
  by rewrite (IH m) by lia.
Qed.

Definition string_body (lx : Lexer) : string * Lexer := string_loop (remaining lx) lx.

(** A turn of the loop of [scan_string]. *)
Lemma string_step lx :
  string_body lx =
    if negb (eqc (peek_char lx) quote) && negb (is_at_end lx) then
      let '(c, lx) := string_char lx in let '(v, lx) := string_body lx in (String c v, lx)
    else ("", lx).
Proof.
  unfold string_body at 1. rewrite (string_loop_enough _ (S (remaining lx))) by lia.
  cbn [string_loop]. destruct (_ && _) eqn:E; [|done]. apply andb_true_iff in E as [_ E].
  apply negb_true_iff in E. pose proof (skip_shrinks _ E).
  pose proof (moves_remaining _ _ (string_char_moves lx)). destruct (string_char lx) as [c l].
  cbn [snd] in *. unfold string_body. by rewrite (string_loop_enough _ (remaining l)) by lia.
Qed.

Lemma string_char_before lx1 lx2 :
  is_at_end lx1 = false -> before s lx1 lx2 ->
  fst (string_char lx2) = fst (string_char lx1)
  /\ before s (snd (string_char lx1)) (snd (string_char lx2)).
Proof.
  intros Hn H. unfold string_char. rewrite !advance_skip, (before_front _ _ Hn H).
  pose proof (before_skip _ _ Hn H) as Hk. destruct (eqc _ "*"); [|done].
  rewrite (before_peek escape (skip lx1) (skip lx2) eq_refl Hk).
  destruct (escape (peek_char (skip lx1))) eqn:E; [|done]. cbn. split; [done|].
  apply before_skip; [|done]. apply not_true_iff_false. intros Hend.
  rewrite at_end_rest in Hend. rewrite peek_rest in E. by destruct (rest (skip lx1)).
Qed.

Lemma string_body_before n lx1 lx2 :
  (remaining lx1 <= n)%nat -> before s lx1 lx2 -> is_at_end (snd (string_body lx1)) = false ->
  fst (string_body lx2) = fst (string_body lx1)
  /\ before s (snd (string_body lx1)) (snd (string_body lx2)).
Proof.
  revert lx1 lx2. induction n as [|n IH]; intros lx1 lx2 Hr H.
  { rewrite string_step. intros He. exfalso.
    assert (is_at_end lx1 = true) as E by (rewrite at_end_remaining; apply Nat.eqb_eq; lia).
    rewrite E, andb_false_r in He. cbn in He. congruence. }
  rewrite (string_step lx1), (string_step lx2), (before_not_end _ _ H).
  rewrite (before_peek (fun c => eqc c quote) _ _ eq_refl H).
  destruct (is_at_end lx1) eqn:E; [rewrite andb_false_r; cbn; congruence|]. cbn [negb].
  rewrite andb_true_r. destruct (negb _); [|done].
  destruct (string_char_before _ _ E H) as [Ec Hc].
  pose proof (moves_remaining _ _ (string_char_moves lx1)). pose proof (skip_shrinks _ E).
  destruct (string_char lx1) as [c1 l1], (string_char lx2) as [c2 l2]. cbn [fst snd] in *. subst c2.
  specialize (IH l1 l2 ltac:(lia) Hc).
  destruct (string_body l1), (string_body l2). cbn [fst snd] in *.
  intros He. destruct (IH He) as [-> ?]. done.
Qed.

Lemma string_agrees lx1 lx2 :
  is_at_end lx1 = false -> before s lx1 lx2 ->
  type (fst (scan_string lx1)) <> TokenType.Error -> agree s (scan_string lx1) (scan_string lx2).
Proof.
  intros Hn H. unfold scan_string. fold (string_body (skip lx1)) (string_body (skip lx2)).
  pose proof (string_body_before _ _ _ (le_n _) (before_skip _ _ Hn H)) as Hb.
  destruct (string_body (skip lx1)) as [v1 l1], (string_body (skip lx2)) as [v2 l2]. cbn in Hb.
  destruct (is_at_end l1) eqn:E; [done|]. intros _. destruct (Hb eq_refl) as [-> Hl].
  rewrite (before_not_end _ _ Hl). split; [done|]. split; [done|]. by apply before_skip.
Qed.

Lemma at_end_peek lx : is_at_end lx = true -> peek_char lx = NUL.
Proof. unfold peek_char. by intros ->. Qed.
Lemma at_end_skip lx : is_at_end lx = true -> skip lx = lx.
Proof. unfold skip, advance. by intros ->. Qed.

Lemma char_agrees lx1 lx2 :
  is_at_end lx1 = false -> before s lx1 lx2 ->
  type (fst (scan_char lx1)) <> TokenType.Error -> agree s (scan_char lx1) (scan_char lx2).
Proof.
  intros Hn H. unfold scan_char. rewrite !advance_skip. cbv zeta.
  pose proof (before_skip _ _ Hn H) as Hk. set (a := skip lx1) in *. set (b := skip lx2) in *.
  destruct (is_at_end a) eqn:Ea.
  { rewrite (at_end_skip _ Ea), (at_end_peek _ Ea), <-peek_rest, (at_end_peek _ Ea).
    by cbn -[is_at_end peek_char]; rewrite (at_end_peek _ Ea). }
  rewrite (before_peek (fun c => eqc c "'") _ _ eq_refl Hk). destruct (eqc _ "'"); [done|].
  rewrite (before_front _ _ Ea Hk). pose proof (before_skip _ _ Ea Hk) as Hk2.
  set (a' := skip a) in *. set (b' := skip b) in *.
  assert (Hend : forall v1 v2 l1 l2, before s l1 l2 -> v1 = v2 ->
    type (fst (if negb (eqc (peek_char l1) "'") then
        (make_error_token "Multi-character literal, or unterminated char literal." l1, l1)
      else (mkToken TokenType.CharLiteral v1 (line_ (skip l1)) (column_ lx1), skip l1)))
      <> TokenType.Error ->
    agree s
      (if negb (eqc (peek_char l1) "'") then
        (make_error_token "Multi-character literal, or unterminated char literal." l1, l1)
      else (mkToken TokenType.CharLiteral v1 (line_ (skip l1)) (column_ lx1), skip l1))
      (if negb (eqc (peek_char l2) "'") then
        (make_error_token "Multi-character literal, or unterminated char literal." l2, l2)
      else (mkToken TokenType.CharLiteral v2 (line_ (skip l2)) (column_ lx2), skip l2))).
  { intros v1 v2 l1 l2 Hl ->. rewrite (before_peek (fun c => eqc c "'") _ _ eq_refl Hl).
    destruct (eqc (peek_char l1) "'") eqn:E; [|done]. intros _. split; [done|]. split; [done|].
    apply before_skip; [|done]. by apply (peek_not_end (fun c => eqc c "'")). }
  destruct (eqc (front (rest a)) "*"); [|by apply Hend].
  rewrite (before_peek (fun c => is_one_of c ["n"; "N"]%char) _ _ eq_refl Hk2).
  destruct (is_one_of _ _) eqn:E.
  - apply Hend; [|done]. apply before_skip; [|done].
    by apply (peek_not_end (fun c => is_one_of c ["n"; "N"]%char)).
  - destruct (is_at_end a') eqn:Ea'.
    + rewrite (at_end_skip _ Ea'). by rewrite (at_end_peek _ Ea').
    + apply Hend; [by apply before_skip | by rewrite (before_front _ _ Ea' Hk2)].
Qed.

Lemma followed_agrees c lx1 lx2 a1 a2 b1 b2 :
  eqc NUL c = false -> eqc " " c = false -> before s lx1 lx2 ->
  (before s (skip lx1) (skip lx2) -> agree s (a1 (skip lx1)) (a2 (skip lx2))) ->
  agree s b1 b2 -> agree s (followed lx1 c a1 b1) (followed lx2 c a2 b2).
Proof.
  intros Hn Hb H Ha Hc. unfold followed.
  destruct (test_before (fun d => eqc d c) _ _ Hn Hb H) as [-> K].
  destruct (eqc (peek_char lx1) c); [|done]. by apply Ha, K.
Qed.

Lemma made_agrees t lx1 lx2 : before s lx1 lx2 -> agree s (made t lx1) (made t lx2).
Proof. intros H. by split; [|split]. Qed.

Lemma error_agrees m lx1 lx2 :
  before s lx1 lx2 -> agree s (make_error_token m lx1, lx1) (make_error_token m lx2, lx2).
Proof. intros H. by split; [|split]. Qed.

Lemma switch_agrees c lx1 lx2 :
  before s lx1 lx2 -> agree s (switch_operator c lx1) (switch_operator c lx2).
Proof.
  intros H. unfold switch_operator. cbv zeta. rewrite (before_flag _ _ _ H).
  repeat first
    [ match goal with |- agree _ (if ?b then _ else _) _ => destruct b end
    | apply made_agrees; assumption
    | apply error_agrees; assumption
    | apply followed_agrees; [reflexivity | reflexivity | assumption | intros |] ].
Qed.

Lemma operator_agrees lx1 lx2 :
  is_at_end lx1 = false -> before s lx1 lx2 -> agree s (scan_operator lx1) (scan_operator lx2).
Proof.
  intros Hn H. unfold scan_operator. rewrite !advance_skip, (before_front _ _ Hn H).
  pose proof (before_skip _ _ Hn H) as Hk.
  destruct (test_before (fun d => is_one_of d ["R"; "r"]%char) _ _ eq_refl eq_refl Hk) as [-> K].
  destruct (is_one_of (front _) _); cbn [andb]; [|by apply switch_agrees].
  destruct (is_one_of (peek_char (skip lx1)) _); [|by apply switch_agrees].
  destruct (K eq_refl) as [_ Hs]. cbv zeta.
  rewrite (before_peek isalnum _ _ eq_refl Hs), (before_peek (fun d => eqc d "_") _ _ eq_refl Hs).
  destruct (_ && _); [by apply made_agrees | by apply switch_agrees].
Qed.

Lemma scan_agrees lx1 lx2 :
  is_at_end lx1 = false -> before s lx1 lx2 -> type (fst (scan lx1)) <> TokenType.Error ->
  agree s (scan lx1) (scan lx2).
Proof.
  intros Hn H. assert (Hc : peek_char lx2 = peek_char lx1).
  { rewrite !peek_rest. by apply before_front. }
  unfold scan. rewrite Hc.
  rewrite (before_peek_next (fun d => eqc d "(") _ _ eq_refl Hn H).
  rewrite (before_peek_next (fun d => eqc d ")") _ _ eq_refl Hn H).
  assert (Htwo : forall p, p NUL = false -> p (peek_next_char lx1) = true ->
    before s (skip (skip lx1)) (skip (skip lx2))).
  { intros p Hq E. apply before_skip; [|by apply before_skip]. rewrite at_end_rest, rest_skip.
    rewrite peek_next_rest in E. destruct (substr1 (rest lx1)); [|done].
    change (p NUL = true) in E. congruence. }
  destruct (eqc (peek_char lx1) "$" && eqc (peek_next_char lx1) "(") eqn:E1.
  { intros _. apply andb_true_iff in E1 as [_ E1]. apply made_agrees.
    by apply (Htwo (fun d => eqc d "(")). }
  destruct (eqc (peek_char lx1) "$" && eqc (peek_next_char lx1) ")") eqn:E2.
  { intros _. apply andb_true_iff in E2 as [_ E2]. apply made_agrees.
    by apply (Htwo (fun d => eqc d ")")). }
  destruct (eqc (peek_char lx1) "{"); [intros _; apply made_agrees; by apply before_skip|].
  destruct (eqc (peek_char lx1) "}"); [intros _; apply made_agrees; by apply before_skip|].
  destruct (isalpha _ || _); [intros _; by apply identifier_agrees|].
  destruct (isdigit _ || _); [intros _; by apply number_agrees|].
  destruct (eqc _ quote); [by apply string_agrees|].
  destruct (eqc _ "'"); [by apply char_agrees | intros _; by apply operator_agrees].
Qed.
End Before.

(** ** Words *)

(** Text that no blank and no comment starts. *)
Definition word (u : string) : bool :=
  match u with
  | String c r =>
      negb (isspace c) && negb (eqc c "/" && (eqc (front r) "/" || eqc (front r) "*"))
  | EmptyString => false
  end.

(** The token that a word is by itself, after a value or not. *)
Definition alone (b : bool) (u : string) : Token * Lexer :=
  get_next_token (set_last_token_was_value b (new_lexer u)).
Definition read_word (b : bool) (u : string) : option (TokenType * string) :=
  let '(t, lx) := alone b u in
  if word u && is_at_end lx && negb (TokenType.eqb (type t) TokenType.Error)
  then Some (type t, value t) else None.

Fixpoint read_words (b : bool) (us : list string) : option (list (TokenType * string)) :=
  match us with
  | [] => Some []
  | u :: us =>
      t ← read_word b u; l ← read_words (is_value_type (fst t)) us; Some (t :: l)
  end.

(** Words with a blank after each. *)
Fixpoint text (us : list string) : string :=
  match us with [] => "" | u :: us => u ++ String " " (text us) end.

(** The types and values [get_next_token] returns from here to the end. *)
Fixpoint lexes (lx : Lexer) (l : list (TokenType * string)) : Prop :=
  match l with
  | [] => type (fst (get_next_token lx)) = TokenType.Eof
  | t :: l =>
      (type (fst (get_next_token lx)), value (fst (get_next_token lx))) = t
      /\ lexes (snd (get_next_token lx)) l
  end.

Lemma word_starts lx u : word u = true -> rest lx = u -> skip_whitespace_and_comments lx = lx.
Proof.
  intros Hw E. rewrite skip_step, at_end_rest, peek_rest, peek_next_rest, E.
  destruct u as [|c r]; [done|]. cbn -[eqc isspace] in *. apply andb_true_iff in Hw as [H1 H2].
  apply negb_true_iff in H1 as ->. destruct (eqc c "/"); [|done]. cbn [andb] in *.
  apply negb_true_iff, orb_false_iff in H2 as [-> ->]. done.
Qed.

Lemma word_append u s : word u = true -> word (u ++ String " " s) = true.
Proof. destruct u as [|c [|d r]]; done. Qed.

Lemma alone_rest b u : rest (set_last_token_was_value b (new_lexer u)) = u.
Proof. done. Qed.

(** Reading a word that a blank follows. *)
Lemma word_read lx u s t :
  rest lx = (u ++ String " " s)%string -> read_word (last_token_was_value_ lx) u = Some t ->
  (type (fst (get_next_token lx)), value (fst (get_next_token lx))) = t
  /\ rest (snd (get_next_token lx)) = String " " s
  /\ last_token_was_value_ (snd (get_next_token lx)) = is_value_type (fst t).
Proof.
  unfold read_word, alone. set (lx1 := set_last_token_was_value _ (new_lexer u)). intros E Hr.
  destruct (word u) eqn:Hw; [|by destruct (get_next_token lx1)].
  assert (Hb : before s lx1 lx) by (split; [exact E | done]).
  rewrite (get_next_token_scan lx1) in Hr. rewrite (get_next_token_scan lx). cbv zeta in *.
  rewrite (word_starts lx1 u Hw) in Hr by done.
  rewrite (word_starts lx _ (word_append u s Hw) E), (before_not_end _ _ _ Hb).
  destruct (is_at_end lx1) eqn:He.
  { rewrite at_end_rest in He. subst lx1. rewrite alone_rest in He. by destruct u. }
  pose proof (scan_agrees s lx1 lx He Hb) as Ha.
  destruct (scan lx1) as [t1 l1], (scan lx) as [t2 l2]. cbn [fst snd andb] in *.
  destruct (is_at_end (set_last_token_was_value _ l1)) eqn:Hend; [|done]. cbn [andb] in Hr.
  destruct (TokenType.eqb _ _) eqn:Ht; [done|].
  injection Hr as <-. destruct Ha as (Ety & Ev & [Hrest _]).
  { intros E1. apply TokenType.eqb_eq in E1. congruence. }
  cbn [fst snd] in *. rewrite Ety, Ev.
  split; [done|]. split; [|done]. rewrite rest_flag, Hrest.
  change (is_at_end l1 = true) in Hend. rewrite at_end_rest in Hend. by destruct (rest l1).
Qed.

Lemma skip_blank lx s :
  rest lx = String " " s -> skip_whitespace_and_comments lx = skip_whitespace_and_comments (skip lx).
Proof. intros E. rewrite skip_step, at_end_rest, peek_rest, E. done. Qed.

Lemma blank_before lx s : rest lx = String " " s -> get_next_token lx = get_next_token (skip lx).
Proof. intros E. unfold get_next_token. by rewrite (skip_blank _ _ E). Qed.

Lemma words_lex us l lx :
  rest lx = text us -> read_words (last_token_was_value_ lx) us = Some l -> lexes lx l.
Proof.
  revert l lx. induction us as [|u us IH]; intros l lx E; cbn [read_words].
  - intros [= <-]. cbn. rewrite get_next_token_scan. cbv zeta.
    assert (He : is_at_end lx = true) by by rewrite at_end_rest, E.
    by rewrite (skip_ws_end _ He), He.
  - destruct (read_word _ u) as [t|] eqn:Ht; [|done]. cbn.
    destruct (read_words _ us) as [l'|] eqn:Hl; [|done]. cbn. intros [= <-].
    destruct (word_read lx u (text us) t E Ht) as (Ht' & Hr & Hf). cbn. split; [done|].
    revert Hr Hf. generalize (snd (get_next_token lx)) as lx'. intros lx' Hr Hf.
    assert (lexes (skip lx') l') as Hs.
    { apply IH; [by rewrite rest_skip, Hr | by rewrite flag_skip, Hf]. }
    destruct l' as [|t' l']; cbn in *; by rewrite (blank_before _ _ Hr).
Qed.

(** ** Literals *)

(** A character as a string literal holds it: the escapes of [escape], where it has one. *)
Definition escaped (c : ascii) : string :=
  if eqc c quote then String "*" (String quote "")
  else if eqc c "*" then "**"
  else if eqc c newline then "*n"
  else if eqc c "009" then "*t"
  else if eqc c "008" then "*b"
  else if eqc c "012" then "*p"
  else if eqc c "013" then "*c"
  else String c "".

Fixpoint escape_string (v : string) : string :=
  match v with String c v => escaped c ++ escape_string v | EmptyString => "" end.
Definition spell_string (v : string) : string :=
  String quote (escape_string v ++ String quote "").

Definition spell_char (c : ascii) : string :=
  String "'" ((if eqc c "'" then "*'" else if eqc c "*" then "**"
               else if eqc c newline then "*n" else String c "") ++ "'").

Lemma append_assoc a b c : ((a ++ b) ++ c = a ++ (b ++ c))%string.
Proof. apply string_app_assoc. Qed.

(** A turn of the loop reads one character back. *)
Lemma string_char_escaped lx c s :
  rest lx = (escaped c ++ s)%string ->
  negb (eqc (peek_char lx) quote) && negb (is_at_end lx) = true
  /\ fst (string_char lx) = c /\ rest (snd (string_char lx)) = s.
Proof.
  rewrite peek_rest, at_end_rest. unfold string_char. rewrite advance_skip, peek_rest. unfold escaped.
  destruct (eqc c quote) eqn:E1; [|destruct (eqc c "*") eqn:E2; [|destruct (eqc c newline) eqn:E3;
    [|destruct (eqc c "009") eqn:E4; [|destruct (eqc c "008") eqn:E5; [|destruct (eqc c "012") eqn:E6;
    [|destruct (eqc c "013") eqn:E7]]]]]];
    rewrite ?append_cons, ?append_nil; intros E; rewrite ?rest_skip, E; cbn [front substr1].
  1-7: match goal with H : eqc ?x _ = true |- _ => apply Ascii.eqb_eq in H; subst x end;
    cbn; by rewrite !rest_skip, E.
  rewrite E1, E2. cbn. by rewrite rest_skip, E.
Qed.

Lemma string_body_escaped v s lx :
  rest lx = (escape_string v ++ String quote s)%string ->
  fst (string_body lx) = v /\ rest (snd (string_body lx)) = String quote s.
Proof.
  revert lx. induction v as [|c v IH]; intros lx E; cbn [escape_string] in E.
  - rewrite append_nil in E. rewrite string_step, peek_rest, E. done.
  - rewrite append_assoc in E. destruct (string_char_escaped lx c _ E) as (Hc & Ev & Er).
    rewrite string_step, Hc. destruct (string_char lx) as [c' l]. cbn [fst snd] in *. subst c'.
    destruct (IH l Er) as [E1 E2]. destruct (string_body l). cbn in *. by rewrite E1.
Qed.

Lemma get_next_token_word lx :
  word (rest lx) = true ->
  get_next_token lx =
    let '(token, lx) := scan lx in
    (token, set_last_token_was_value (is_value_type (type token)) lx).
Proof.
  intros Hw. rewrite get_next_token_scan. cbv zeta. rewrite (word_starts lx _ Hw) by done.
  rewrite at_end_rest. by destruct (rest lx).
Qed.

Lemma scan_quote lx r : rest lx = String quote r -> scan lx = scan_string lx.
Proof. intros E. unfold scan. rewrite peek_rest, E. reflexivity. Qed.
Lemma scan_apostrophe lx r : rest lx = String "'" r -> scan lx = scan_char lx.
Proof. intros E. unfold scan. rewrite peek_rest, E. reflexivity. Qed.

Lemma spelled_string_read v s lx :
  rest lx = (spell_string v ++ s)%string ->
  type (fst (get_next_token lx)) = TokenType.StringLiteral
  /\ value (fst (get_next_token lx)) = v /\ rest (snd (get_next_token lx)) = s.
Proof.
  unfold spell_string. rewrite append_cons, append_assoc, append_cons, append_nil. intros E.
  rewrite get_next_token_word by by rewrite E. rewrite (scan_quote _ _ E). unfold scan_string.
  fold (string_body (skip lx)).
  destruct (string_body_escaped v s (skip lx)) as [Ev Er]; [by rewrite rest_skip, E|].
  destruct (string_body (skip lx)) as [v' l]. cbn [fst snd] in *. subst v'.
  rewrite at_end_rest, Er. cbn [string_empty fst snd type value is_value_type].
  by rewrite rest_flag, rest_skip, Er.
Qed.

Lemma spelled_char_read c s lx :
  rest lx = (spell_char c ++ s)%string ->
  type (fst (get_next_token lx)) = TokenType.CharLiteral
  /\ value (fst (get_next_token lx)) = String c "" /\ rest (snd (get_next_token lx)) = s.
Proof.
  unfold spell_char. rewrite append_cons, append_assoc. intros E.
  rewrite get_next_token_word by by rewrite E. rewrite (scan_apostrophe _ _ E). unfold scan_char. cbv zeta.
  rewrite !advance_skip, !peek_rest, !rest_skip, E. cbn [substr1].
  destruct (eqc c "'") eqn:E1; [|destruct (eqc c "*") eqn:E2; [|destruct (eqc c newline) eqn:E3]];
    rewrite ?append_cons, ?append_nil; cbn [front substr1].
  1-3: match goal with H : eqc ?x _ = true |- _ => apply Ascii.eqb_eq in H; subst x end.
  1-3: assert (Hp : peek_char (skip (skip (skip lx))) = "'"%char)
    by (rewrite peek_rest, !rest_skip, E; done).
  4: assert (Hp : peek_char (skip (skip lx)) = "'"%char)
    by (rewrite peek_rest, !rest_skip, E; done).
  4: rewrite E1, E2.
  all: cbn -[rest peek_char skip set_last_token_was_value]; rewrite Hp;
    cbn -[rest peek_char skip set_last_token_was_value];
    by rewrite rest_flag, !rest_skip, E.
Qed.
