(* ===== verification/Parser.v ===== *)
(** * The parser

    The recursive-descent and Pratt parser of src/Parser.h, src/Parser.cpp and
    src/pz_parse_*.cpp, over any source of tokens ([TokenSource]): the lexer is one.
    A method is a computation on the parser's fields that returns, throws, or runs out of
    fuel; the fuel bounds the nesting of expressions and statements and the turns of each
    loop.  A pointer the parser makes is null, a whole tree of Ast.v, or a tree with a null
    pointer somewhere inside, of which the parser only asks if its root is a call.
    Tracing is left out. *)

From Stdlib Require Import SpecFloat.
From S2P Require Import Prelude CallFrame Ast Analysis Data Lexer.
Local Open Scope Z_scope.

(** ** Numerals: [std::stoll] and [std::stod] of a token *)

Definition stoll (s : string) : result Z :=
  let '(neg, ds) := scan_sign (skip_spaces s) in
  match scan_digits None ds with
  | None => Throw invalid_argument
  | Some v =>
      let r := if neg then - v else v in
      if (r <? - 2 ^ 63) || (2 ^ 63 - 1 <? r) then Throw out_of_range else Ok r
  end.

(** The digits at the front of [s], their number, and the rest. *)
Fixpoint span_digits (acc count : Z) (s : string) : Z * Z * string :=
  match s with
  | String c s' =>
      if isdigit c then span_digits (acc * 10 + (code c - 48)) (count + 1) s'
      else (acc, count, s)
  | EmptyString => (acc, count, s)
  end.

(** [m * 10 ^ e] rounded to the nearest double, ties to even. *)
Definition double_of_decimal (m e : Z) : spec_float :=
  if 0 <=? e then double_of_Z (m * 10 ^ e)
  else
    match m, 10 ^ (- e) with
    | Zpos a, Zpos b =>
        let '(q, e', l) := SFdiv_core_binary 53 1024 (Zpos a) 0 (Zpos b) 0 in
        binary_round_aux 53 1024 false q e' l
    | _, _ => S754_zero false
    end.

Definition is_infinite (f : spec_float) : bool :=
  match f with S754_infinity _ => true | _ => false end.

(** [std::stod] on text that starts with a digit or a [#], which is all a number token holds:
    the longest decimal numeral at its front, whatever follows it; a value that is too large
    is out of range, one that is too small is rounded. *)
Definition stod (s : string) : result spec_float :=
  let '(m, n, s) := span_digits 0 0 s in
  let '(m, f, s) :=
    match s with
    | String c s' => if eqc c "." then span_digits m 0 s' else (m, 0, s)
    | EmptyString => (m, 0, s)
    end in
  if n + f =? 0 then Throw invalid_argument
  else
    let e :=
      match s with
      | String c s' =>
          if is_one_of c ["e"; "E"]%char then
            let '(neg, s'') := scan_sign s' in
            let '(x, k, _) := span_digits 0 0 s'' in
            if k =? 0 then 0 else if neg then - x else x
          else 0
      | EmptyString => 0
      end in
    let v := double_of_decimal m (e - f) in
    if is_infinite v then Throw out_of_range else Ok v.

(** ** Sources of tokens *)

(** What the parser relies on: [pending] tokens at most are left, and the end of the text is
    the end for good. *)
Class TokenSource (S : Type) := {
  next : S -> Token * S;
  pending : S -> nat;
  next_pending s : type (fst (next s)) <> TokenType.Eof ->
    (pending (snd (next s)) < pending s)%nat;
  next_eof s : type (fst (next s)) = TokenType.Eof ->
    (pending (snd (next s)) <= pending s)%nat
    /\ type (fst (next (snd (next s)))) = TokenType.Eof
}.


(** ** Pointers to trees *)

Inductive ptr (A : Type) : Type :=
  | Null
  | Whole (a : A)
  | Holed (is_call : bool).
Arguments Null {A}.
Arguments Whole {A} a.
Arguments Holed {A} is_call.

Definition is_null {A} (p : ptr A) : bool := match p with Null => true | _ => false end.

(** The tree of a pointer that may be null by design. *)
Definition optional {A} (p : ptr A) : option (option A) :=
  match p with Null => Some None | Whole a => Some (Some a) | Holed _ => None end.
Definition whole {A} (p : ptr A) : option A :=
  match p with Whole a => Some a | _ => None end.
Fixpoint wholes {A} (l : list (ptr A)) : option (list A) :=
  match l with
  | [] => Some []
  | p :: l => a ← whole p; l ← wholes l; Some (a :: l)
  end.

(** [std::make_unique] of a node other than a call, from its children. *)
Definition node {A} (o : option A) : ptr A :=
  match o with Some a => Whole a | None => Holed false end.
Definition node1 {A C} (f : A -> C) (a : ptr A) : ptr C := node (a ← whole a; Some (f a)).
Definition node2 {A B C} (f : A -> B -> C) (a : ptr A) (b : ptr B) : ptr C :=
  node (a ← whole a; b ← whole b; Some (f a b)).

Definition number_literal (n : Z) : Expression := NumberLiteral (Integer n).
Definition function_call (f : ptr Expression) (args : list (ptr Expression)) : ptr Expression :=
  match whole f, wholes args with
  | Some f, Some args => Whole (FunctionCall f args)
  | _, _ => Holed true
  end.

(** ** Operators *)

Definition to_binary_op (type : TokenType) : option BinaryOperator :=
  match type with
  | TokenType.Plus => Some Add
  | TokenType.Minus => Some Subtract
  | TokenType.Multiply => Some Multiply
  | TokenType.Divide => Some Divide
  | TokenType.Remainder => Some Remainder
  | TokenType.Equal => Some Equal
  | TokenType.NotEqual => Some NotEqual
  | TokenType.Less => Some Less
  | TokenType.LessEqual => Some LessEqual
  | TokenType.Greater => Some Greater
  | TokenType.GreaterEqual => Some GreaterEqual
  | TokenType.LogicalAnd => Some LogicalAnd
  | TokenType.BitwiseAnd => Some BitwiseAnd
  | TokenType.LogicalOr => Some LogicalOr
  | TokenType.BitwiseOr => Some BitwiseOr
  | TokenType.Equivalence => Some Equivalence
  | TokenType.NotEquivalence => Some NotEquivalence
  | TokenType.LeftShift => Some LeftShift
  | TokenType.RightShift => Some RightShift
  | TokenType.FloatPlus => Some FloatAdd
  | TokenType.FloatMinus => Some FloatSubtract
  | TokenType.FloatMultiply => Some FloatMultiply
  | TokenType.FloatDivide => Some FloatDivide
  | TokenType.FloatEqual => Some FloatEqual
  | TokenType.FloatNotEqual => Some FloatNotEqual
  | TokenType.FloatLess => Some FloatLess
  | TokenType.FloatLessEqual => Some FloatLessEqual
  | TokenType.FloatGreater => Some FloatGreater
  | TokenType.FloatGreaterEqual => Some FloatGreaterEqual
  | _ => None
  end.

Definition get_token_precedence (type : TokenType) : Z :=
  match type with
  | TokenType.Conditional => 1
  | TokenType.LogicalOr => 2
  | TokenType.BitwiseOr | TokenType.LogicalAnd => 3
  | TokenType.Equivalence | TokenType.NotEquivalence => 4
  | TokenType.Equal | TokenType.NotEqual | TokenType.Less | TokenType.LessEqual
  | TokenType.Greater | TokenType.GreaterEqual
  | TokenType.FloatEqual | TokenType.FloatNotEqual | TokenType.FloatLess
  | TokenType.FloatLessEqual | TokenType.FloatGreater | TokenType.FloatGreaterEqual => 5
  | TokenType.LeftShift | TokenType.RightShift => 6
  | TokenType.Plus | TokenType.Minus | TokenType.FloatPlus | TokenType.FloatMinus => 7
  | TokenType.Multiply | TokenType.Divide | TokenType.Remainder
  | TokenType.FloatMultiply | TokenType.FloatDivide => 8
  | TokenType.LParen | TokenType.VecIndirection | TokenType.CharIndirection
  | TokenType.FloatVecIndirection | TokenType.Bitfield => 9
  | _ => 0
  end.

Definition prefix_operator (type : TokenType) : option UnaryOperator :=
  match type with
  | TokenType.BitwiseNot => Some BitwiseNot
  | TokenType.LogicalNot => Some LogicalNot
  | TokenType.AddressOf => Some AddressOf
  | TokenType.Indirection => Some Indirection
  | TokenType.Minus => Some Negate
  | TokenType.HD => Some HeadOf
  | TokenType.TL => Some TailOf
  | TokenType.REST => Some TailOfNonDestructive
  | TokenType.FLOAT => Some FloatConvert
  | _ => None
  end.

(** The built-in type constants. *)
Definition type_constant (type : TokenType) : option Z :=
  match type with
  | TokenType.TypeInt => Some 1
  | TokenType.TypeFloat => Some 2
  | TokenType.TypeString => Some 4
  | TokenType.TypeList => Some 512
  | TokenType.TypeVec => Some 256
  | TokenType.TypePointer => Some 4096
  | TokenType.TypeConst => Some 8192
  | TokenType.TypeAny => Some 8
  | TokenType.TypeTable => Some 1024
  | _ => None
  end.

(** The operators written like functions, and the names their errors give them. *)
Definition intrinsic (type : TokenType) : option (UnaryOperator * string) :=
  match type with
  | TokenType.Len => Some (LengthOf, "LEN")
  | TokenType.TypeOf => Some (TypeOf, "TYPEOF")
  | TokenType.FSQRT => Some (FloatSqrt, "FSQRT")
  | TokenType.ENTIER => Some (FloatFloor, "ENTIER")
  | TokenType.TRUNC => Some (FloatTruncate, "TRUNC")
  | _ => None
  end.

Fixpoint contains (s : string) (c : ascii) : bool :=
  match s with EmptyString => false | String d s => eqc d c || contains s c end.

(** The node of a number token. *)
Definition number_node (value : string) : result Expression :=
  if contains value "." || contains value "e" || contains value "E" then
    match stod value with Ok f => Ok (NumberLiteral (Float f)) | Throw e => Throw e end
  else match stoll value with Ok n => Ok (number_literal n) | Throw e => Throw e end.

(** ** The state and the computations *)

Record Parser (S : Type) : Type := mkParser {
  lexer_ : S;
  program_declarations : list (ptr Declaration);
  program_statements : list (ptr Statement);
  current_token_ : Token;
  previous_token_ : option Token;  (* [None]: not assigned yet *)
  fatal_error_ : bool;
  errors_ : list (option (Z * Z) * string)  (* where, what *)
}.
Arguments mkParser {S}.
Arguments lexer_ {S}.
Arguments program_declarations {S}.
Arguments program_statements {S}.
Arguments current_token_ {S}.
Arguments previous_token_ {S}.
Arguments fatal_error_ {S}.
Arguments errors_ {S}.

(** What is thrown: [to_binary_op] throws a plain [std::logic_error]. *)
Inductive thrown : Type :=
  | logic_error
  | standard (e : exn).

Inductive reply (S A : Type) : Type :=
  | Parsed (a : A) (p : Parser S)
  | Thrown (e : thrown) (p : Parser S)
  | OutOfFuel.
Arguments Parsed {S A} a p.
Arguments Thrown {S A} e p.
Arguments OutOfFuel {S A}.

Definition M (S A : Type) : Type := Parser S -> reply S A.

#[export] Instance M_ret S : MRet (M S) := fun A a p => Parsed a p.
#[export] Instance M_bind S : MBind (M S) := fun A B f m p =>
  match m p with
  | Parsed a p => f a p
  | Thrown e p => Thrown e p
  | OutOfFuel => OutOfFuel
  end.

Section Parser.

Context {S : Type} `{TokenSource S}.
Local Abbreviation M := (M S).

Definition get {A} (f : Parser S -> A) : M A := fun p => Parsed (f p) p.
Definition throw {A} (e : thrown) : M A := fun p => Thrown e p.
Definition out_of_fuel {A} : M A := fun _ => OutOfFuel.
Definition lift {A} (r : result A) : M A :=
  match r with Ok a => mret a | Throw e => throw (standard e) end.

Definition set_current (lx : S) (t : Token) (p : Parser S) : Parser S :=
  mkParser lx (program_declarations p) (program_statements p) t (previous_token_ p)
    (fatal_error_ p) (errors_ p).
Definition set_previous (p : Parser S) : Parser S :=
  mkParser (lexer_ p) (program_declarations p) (program_statements p) (current_token_ p)
    (Some (current_token_ p)) (fatal_error_ p) (errors_ p).
Definition set_program (ds : list (ptr Declaration)) (ss : list (ptr Statement))
    (p : Parser S) : Parser S :=
  mkParser (lexer_ p) ds ss (current_token_ p) (previous_token_ p) (fatal_error_ p) (errors_ p).

Definition log (message : string) (p : Parser S) : Parser S :=
  let where_ := match previous_token_ p with
                | Some t => Some (line t, column t)
                | None => None
                end in
  mkParser (lexer_ p) (program_declarations p) (program_statements p) (current_token_ p)
    (previous_token_ p) true (errors_ p ++ [(where_, message)]).
Definition error (message : string) : M unit := fun p => Parsed tt (log message p).

Definition current_type : M TokenType := get (fun p => type (current_token_ p)).
Definition current_value : M string := get (fun p => value (current_token_ p)).
Definition previous_value : M string :=
  get (fun p => match previous_token_ p with Some t => value t | None => "" end).
Definition peek_type : M TokenType := get (fun p => type (fst (next (lexer_ p)))).

Definition at_end (p : Parser S) : bool :=
  TokenType.eqb (type (current_token_ p)) TokenType.Eof.
Definition is_at_end : M bool := get at_end.
Definition check (type : TokenType) : M bool :=
  get (fun p => negb (at_end p) && TokenType.eqb (Lexer.type (current_token_ p)) type).

(** [while (true)]: tokens that are errors are reported and skipped. *)
Fixpoint advance_loop (fuel : nat) : M unit :=
  match fuel with
  | O => out_of_fuel
  | Datatypes.S fuel => fun p =>
      let '(t, lx) := next (lexer_ p) in
      let p := set_current lx t p in
      if TokenType.eqb (type t) TokenType.Error then
        advance_loop fuel (log ("Lexical error: " ++ value t) p)
      else Parsed tt p
  end.
Definition advance : M unit := fun p =>
  let p := set_previous p in advance_loop (Datatypes.S (pending (lexer_ p))) p.

Definition matches (type : TokenType) : M bool :=
  found ← check type;
  if found : bool then _ ← advance; mret true else mret false.

Definition consume (expected : TokenType) (error_message : string) : M unit :=
  found ← check expected;
  if found : bool then advance
  else
    got ← current_type;
    _ ← error ("Expected token " ++ type_name expected ++ " but got " ++ type_name got
               ++ ". " ++ error_message)%string;
    throw (standard runtime_error).

(** [std::string name = current_token_.value; consume(TokenType::Identifier, message);] *)
Definition identifier (message : string) : M string :=
  name ← current_value; _ ← consume TokenType.Identifier message; mret name.

(** The constructor: the token before the first one is not assigned. *)
Definition new_parser (lexer : S) : reply S unit :=
  advance_loop (Datatypes.S (pending lexer))
    (mkParser lexer [] [] (mkToken TokenType.Eof "" 0 0) None false []).

Fixpoint synchronize_loop (fuel : nat) : M unit :=
  match fuel with
  | O => out_of_fuel
  | Datatypes.S fuel =>
      ends ← is_at_end;
      if ends : bool then mret tt
      else
        previous ← get (fun p => match previous_token_ p with
                                 | Some t => TokenType.eqb (type t) TokenType.Semicolon
                                 | None => false
                                 end);
        if previous : bool then mret tt
        else
          current ← current_type;
          match current with
          | TokenType.Let | TokenType.Function | TokenType.Routine | TokenType.If
          | TokenType.For | TokenType.While | TokenType.Return => mret tt
          | _ => _ ← advance; synchronize_loop fuel
          end
  end.
Definition synchronize (fuel : nat) : M unit := _ ← advance; synchronize_loop fuel.

(** [while (!check(TokenType::RBrace) && !is_at_end()) advance();] *)
Fixpoint skip_to_brace (fuel : nat) : M unit :=
  match fuel with
  | O => out_of_fuel
  | Datatypes.S fuel =>
      brace ← check TokenType.RBrace;
      ends ← is_at_end;
      if (brace || ends : bool) then mret tt else _ ← advance; skip_to_brace fuel
  end.

Definition is_declaration_start : M bool :=
  current ← current_type;
  mret match current with
       | TokenType.Manifest | TokenType.Static | TokenType.Global | TokenType.Routine
       | TokenType.Function => true
       | _ => false
       end.

(** ** One level of the grammar

    The methods that call [parse_expression] and [parse_statement], for any such two. *)

Section Level.

Variable fuel : nat.
Variable parse_expression : Z -> M (ptr Expression).
Variable parse_statement : M (ptr Statement).

Definition nodes {C} (f : list Expression -> C) (l : list (ptr Expression)) : ptr C :=
  node (l ← wholes l; Some (f l)).

(** [do { l.push_back(parse_expression()); } while (match(TokenType::Comma));] *)
Fixpoint expressions_loop (n : nat) : M (list (ptr Expression)) :=
  match n with
  | O => out_of_fuel
  | Datatypes.S n =>
      e ← parse_expression 0;
      more ← matches TokenType.Comma;
      if more : bool then l ← expressions_loop n; mret (e :: l) else mret [e]
  end.
Definition expressions : M (list (ptr Expression)) := expressions_loop fuel.

(** [do { names.push_back(current_token_.value); consume(...); } while (match(...));] *)
Fixpoint names_loop (message : string) (n : nat) : M (list string) :=
  match n with
  | O => out_of_fuel
  | Datatypes.S n =>
      name ← identifier message;
      more ← matches TokenType.Comma;
      if more : bool then l ← names_loop message n; mret (name :: l) else mret [name]
  end.

(** [while (match(TokenType::Comma)) { names.push_back(...); consume(...); }] *)
Definition more_names (message : string) : M (list string) :=
  more ← matches TokenType.Comma;
  if more : bool then names_loop message fuel else mret [].

(** An optional list of expressions up to the closing parenthesis, after the opening one. *)
Definition bracketed (empty_message message : string) : M (list (ptr Expression)) :=
  closed ← check TokenType.RParen;
  if closed : bool then _ ← consume TokenType.RParen empty_message; mret []
  else l ← expressions; _ ← consume TokenType.RParen message; mret l.

Definition parse_list_expression (is_manifest : bool) : M (ptr Expression) :=
  _ ← consume TokenType.LParen "Expect '(' after LIST or MANIFESTLIST.";
  l ← bracketed "Expect ')' to close empty list." "Expect ')' to close LIST expression.";
  mret (nodes (fun l => ListExpression l is_manifest) l).

Definition parse_vec_initializer_expression : M (ptr Expression) :=
  _ ← consume TokenType.LParen "Expect '(' after VEC for initializer list.";
  l ← bracketed "Expect ')' to close empty VEC()." "Expect ')' to close VEC initializer list.";
  mret (nodes VecInitializerExpression l).

Definition parse_table_expression (is_float_table : bool) : M (ptr Expression) :=
  _ ← advance;
  _ ← consume TokenType.LParen "Expect '(' after TABLE or FTABLE.";
  l ← bracketed "Expect ')' to close empty TABLE." "Expect ')' to close TABLE expression.";
  mret (nodes (fun l => TableExpression l is_float_table) l).

Definition parse_grouped_expression : M (ptr Expression) :=
  e ← parse_expression 0;
  _ ← consume TokenType.RParen "Expect ')' after expression.";
  mret e.

Definition parse_valof_expression : M (ptr Expression) :=
  body ← parse_statement; mret (node1 ValofExpression body).
Definition parse_fvalof_expression : M (ptr Expression) :=
  body ← parse_statement; mret (node1 FloatValofExpression body).

Definition parse_intrinsic (op : UnaryOperator) (name : string) : M (ptr Expression) :=
  _ ← advance;
  _ ← consume TokenType.LParen ("Expect '(' after " ++ name ++ ".")%string;
  e ← parse_expression 0;
  _ ← consume TokenType.RParen ("Expect ')' after " ++ name ++ " expression.")%string;
  mret (node1 (UnaryOp op) e).

(** The token types the chain of tests looks for are distinct. *)
Definition parse_primary_expression : M (ptr Expression) :=
  current ← current_type;
  match type_constant current, intrinsic current with
  | Some n, _ => _ ← advance; mret (Whole (number_literal n))
  | None, Some (op, name) => parse_intrinsic op name
  | None, None =>
      match current with
      | TokenType.NumberLiteral =>
          _ ← advance; v ← previous_value; e ← lift (number_node v); mret (Whole e)
      | TokenType.StringLiteral =>
          _ ← advance; v ← previous_value; mret (Whole (StringLiteral v))
      | TokenType.CharLiteral =>
          _ ← advance; v ← previous_value; mret (Whole (CharLiteral (front v)))
      | TokenType.BooleanLiteral =>
          _ ← advance; v ← previous_value; mret (Whole (BooleanLiteral (String.eqb v "TRUE")))
      | TokenType.List => _ ← advance; parse_list_expression false
      | TokenType.ManifestList => _ ← advance; parse_list_expression true
      | TokenType.Identifier =>
          v ← current_value; _ ← advance; mret (Whole (VariableAccess v ""))
      | TokenType.LParen => _ ← advance; parse_grouped_expression
      | TokenType.Valof => _ ← advance; parse_valof_expression
      | TokenType.FValof => _ ← advance; parse_fvalof_expression
      | TokenType.Vec =>
          _ ← advance;
          initializer ← check TokenType.LParen;
          if initializer : bool then parse_vec_initializer_expression
          else e ← parse_expression 0; mret (node1 (fun e => VecAllocationExpression e "") e)
      | TokenType.FVec =>
          _ ← advance;
          e ← parse_expression 0; mret (node1 (fun e => FVecAllocationExpression e "") e)
      | TokenType.String =>
          _ ← advance; e ← parse_expression 0; mret (node1 StringAllocationExpression e)
      | TokenType.Table => parse_table_expression false
      | TokenType.FTable => parse_table_expression true
      | _ => _ ← error "Expected an expression."; mret Null
      end
  end.

(** The operand of a prefix operator, or a primary expression. *)
Definition parse_prefix : M (ptr Expression) :=
  current ← current_type;
  match prefix_operator current with
  | Some op => _ ← advance; e ← parse_expression 8; mret (node1 (UnaryOp op) e)
  | None => parse_primary_expression
  end.

(** What follows an infix or postfix operator; a null pointer ends the loop, like the
    [return nullptr] of the source. *)
Definition parse_infix (type : TokenType) (left : ptr Expression) : M (ptr Expression) :=
  match type with
  | TokenType.LParen =>
      closed ← check TokenType.RParen;
      args ← (if negb closed then expressions else mret []);
      _ ← consume TokenType.RParen "Expect ')' after function arguments.";
      mret (function_call left args)
  | TokenType.VecIndirection => e ← parse_expression 9; mret (node2 VectorAccess left e)
  | TokenType.CharIndirection => e ← parse_expression 9; mret (node2 CharIndirection left e)
  | TokenType.FloatVecIndirection =>
      e ← parse_expression 9; mret (node2 FloatVectorIndirection left e)
  | TokenType.Bitfield =>
      _ ← consume TokenType.LParen "Expect '(' after '%%' operator.";
      start ← parse_expression 0;
      _ ← consume TokenType.Comma "Expect ',' separating start and width in bit-field.";
      width ← parse_expression 0;
      _ ← consume TokenType.RParen "Expect ')' to close bit-field expression.";
      mret (node (b ← whole left; s ← whole start; w ← whole width;
                  Some (BitfieldAccessExpression b s w)))
  | TokenType.Conditional =>
      t ← parse_expression 0;
      _ ← consume TokenType.Comma "Expect ',' in conditional expression.";
      f ← parse_expression 1;
      mret (node (c ← whole left; t ← whole t; f ← whole f; Some (ConditionalExpression c t f)))
  | _ =>
      match to_binary_op type with
      | None => throw logic_error
      | Some op =>
          right ← parse_expression (get_token_precedence type);
          if is_null right then
            _ ← error "Expected an expression for right operand of binary operator."; mret Null
          else mret (node2 (BinaryOp op) left right)
      end
  end.

Fixpoint infix_loop (n : nat) (precedence : Z) (left : ptr Expression) : M (ptr Expression) :=
  match n with
  | O => out_of_fuel
  | Datatypes.S n =>
      current ← current_type;
      if negb (is_null left) && (precedence <? get_token_precedence current) then
        _ ← advance; left ← parse_infix current left; infix_loop n precedence left
      else mret left
  end.

Definition expression_level (precedence : Z) : M (ptr Expression) :=
  left ← parse_prefix; infix_loop fuel precedence left.

(** ** Statements *)

Definition parse_foreach_statement : M (ptr Statement) :=
  _ ← advance;
  first_var ← identifier "Expect at least one variable name after FOREACH.";
  pair ← matches TokenType.Comma;
  second ← (if pair : bool then identifier "Expect value variable name after comma."
            else mret first_var);
  let type_var_name := if pair : bool then first_var else ""%string in
  _ ← consume TokenType.In "Expect IN after loop variable(s).";
  collection ← parse_expression 0;
  _ ← consume TokenType.Do "Expect DO after collection expression.";
  body ← parse_statement;
  mret (node2 (fun c b => ForEachStatement second type_var_name c b VT_ANY VT_UNKNOWN)
          collection body).

Definition parse_repeat_statement : M (ptr Statement) :=
  _ ← consume TokenType.Repeat "Expect 'REPEAT'.";
  body ← parse_statement;
  _ ← consume TokenType.Until "Expect 'UNTIL' after REPEAT body.";
  condition ← parse_expression 0;
  mret (node (b ← whole body; c ← optional condition; Some (RepeatStatement RepeatUntil b c))).

Definition parse_assignment_or_routine_call : M (ptr Statement) :=
  e ← parse_expression 0;
  match e with
  | Null => _ ← error "Expected an expression for assignment or routine call."; mret Null
  | Whole (FunctionCall f args) => mret (Whole (RoutineCallStatement f args))
  | Holed true => mret (Holed false)
  | _ =>
      more ← matches TokenType.Comma;
      others ← (if more : bool then expressions else mret []);
      let lhs := e :: others in
      _ ← consume TokenType.Assign "Expect ':=' for an assignment statement.";
      rhs ← expressions;
      if negb (length lhs =? length rhs)%nat then
        _ ← error "Mismatch in number of l-values and r-values for assignment."; mret Null
      else mret (node (l ← wholes lhs; r ← wholes rhs; Some (AssignmentStatement l r)))
  end.

Definition parse_let_statement : M (ptr Statement) :=
  is_float ← check TokenType.FLet;
  _ ← consume (if is_float : bool then TokenType.FLet else TokenType.Let) "Expect 'LET' or 'FLET'.";
  names ← names_loop "Expect identifier in LET declaration." fuel;
  _ ← consume TokenType.Equal "Expect '=' after name(s) in LET declaration.";
  initializers ← expressions;
  if negb (length names =? length initializers)%nat then
    _ ← error "Mismatch between number of names and initializers in LET declaration."; mret Null
  else mret (nodes (fun l => LetDeclaration names l is_float) initializers).

(** Only the first constant of the braces is kept. *)
Definition parse_manifest_declaration : M (ptr Declaration) :=
  _ ← consume TokenType.Manifest "Expect 'MANIFEST'.";
  _ ← consume TokenType.LBrace "Expect '$(' or '{' after MANIFEST.";
  name ← identifier "Expect identifier in manifest declaration.";
  _ ← consume TokenType.Equal "Expect '=' in manifest declaration.";
  text ← current_value;
  v ← lift (stoll text);
  _ ← consume TokenType.NumberLiteral "Expect a number for manifest value.";
  _ ← skip_to_brace fuel;
  _ ← consume TokenType.RBrace "Expect '$)' or '}' to close MANIFEST block.";
  mret (Whole (ManifestDeclaration name v)).

Definition parse_static_declaration : M (ptr Declaration) :=
  _ ← consume TokenType.Static "Expect 'STATIC'.";
  _ ← consume TokenType.LBrace "Expect '$(' after STATIC.";
  name ← identifier "Expect identifier in static declaration.";
  _ ← consume TokenType.Equal "Expect '=' in static declaration.";
  e ← parse_expression 0;
  _ ← skip_to_brace fuel;
  _ ← consume TokenType.RBrace "Expect '$)' to close STATIC block.";
  mret (node1 (fun e => StaticDeclaration name e false) e).

Fixpoint globals_loop (n : nat) : M (list (string * Z)) :=
  match n with
  | O => out_of_fuel
  | Datatypes.S n =>
      name ← identifier "Expect identifier in global declaration.";
      _ ← consume TokenType.Colon "Expect ':' separating global name and offset.";
      text ← current_value;
      offset ← lift (stoi text);
      _ ← consume TokenType.NumberLiteral "Expect number for global offset.";
      semicolon ← matches TokenType.Semicolon;
      more ← (if semicolon : bool then mret true else matches TokenType.Comma);
      if more : bool then l ← globals_loop n; mret ((name, offset) :: l)
      else mret [(name, offset)]
  end.
Definition parse_global_declaration : M (ptr Declaration) :=
  _ ← consume TokenType.Global "Expect 'GLOBAL'.";
  _ ← consume TokenType.LBrace "Expect '$(' after GLOBAL.";
  globals ← globals_loop fuel;
  _ ← consume TokenType.RBrace "Expect '$)' to close GLOBAL block.";
  mret (Whole (GlobalDeclaration globals)).

Definition parse_label_declaration : M (ptr Declaration) :=
  name ← identifier "Expect identifier for label name.";
  _ ← consume TokenType.Colon "Expect ':' after label name.";
  command ← parse_statement;
  mret (node1 (LabelDeclaration name) command).

(** An identifier that a colon follows. *)
Definition at_label : M bool :=
  name ← check TokenType.Identifier;
  following ← peek_type;
  mret (name && TokenType.eqb following TokenType.Colon).

Definition parse_declaration : M (ptr Declaration) :=
  label ← at_label;
  if label : bool then parse_label_declaration
  else
    current ← current_type;
    match current with
    | TokenType.Manifest => parse_manifest_declaration
    | TokenType.Static => parse_static_declaration
    | TokenType.Global => parse_global_declaration
    | _ => _ ← error "Unknown or unexpected declaration type."; mret Null
    end.

Fixpoint block_loop (n : nat) : M (list (ptr Declaration) * list (ptr Statement)) :=
  match n with
  | O => out_of_fuel
  | Datatypes.S n =>
      closed ← check TokenType.RBrace;
      ends ← is_at_end;
      if (closed || ends : bool) then mret ([], [])
      else
        is_let ← check TokenType.Let;
        is_flet ← check TokenType.FLet;
        declaration ← is_declaration_start;
        if (is_let || is_flet : bool) then
          s ← parse_let_statement; rest ← block_loop n; mret (fst rest, s :: snd rest)
        else if declaration : bool then
          d ← parse_declaration; rest ← block_loop n; mret (d :: fst rest, snd rest)
        else
          s ← parse_statement;
          if is_null s then mret ([], [])
          else rest ← block_loop n; mret (fst rest, s :: snd rest)
  end.

Definition parse_block_or_compound_statement : M (ptr Statement) :=
  _ ← consume TokenType.LBrace "Expect '$(' or '{' to start a block.";
  body ← block_loop fuel;
  _ ← consume TokenType.RBrace "Expect '$)' or '}' to end a block.";
  mret match body with
       | ([], ss) => node (ss ← wholes ss; Some (CompoundStatement ss))
       | (ds, ss) => node (ds ← wholes ds; ss ← wholes ss; Some (BlockStatement ds ss))
       end.

(** IF and UNLESS, whose methods differ in the token and the node. *)
Definition parse_guarded (keyword : TokenType) (name : string)
    (make : Expression -> Statement -> Statement) : M (ptr Statement) :=
  _ ← consume keyword ("Expect '" ++ name ++ "'.")%string;
  condition ← parse_expression 0;
  is_do ← matches TokenType.Do;
  is_then ← (if is_do : bool then mret true else matches TokenType.Then);
  if negb is_then then
    _ ← error ("Expect 'THEN' or 'DO' after " ++ name ++ " condition.")%string; mret Null
  else then_branch ← parse_statement; mret (node2 make condition then_branch).
Definition parse_if_statement : M (ptr Statement) := parse_guarded TokenType.If "IF" IfStatement.
Definition parse_unless_statement : M (ptr Statement) :=
  parse_guarded TokenType.Unless "UNLESS" UnlessStatement.

Definition parse_test_statement : M (ptr Statement) :=
  _ ← consume TokenType.Test "Expect 'TEST'.";
  condition ← parse_expression 0;
  is_do ← matches TokenType.Do;
  is_then ← (if is_do : bool then mret true else matches TokenType.Then);
  if negb is_then then
    _ ← error "Expect 'THEN' or 'DO' after TEST condition."; mret Null
  else
    then_branch ← parse_statement;
    has_else ← matches TokenType.Else;
    else_branch ← (if has_else : bool then parse_statement else mret Null);
    mret (node (c ← whole condition; t ← whole then_branch; e ← optional else_branch;
                Some (TestStatement c t e))).

Definition parse_while_statement : M (ptr Statement) :=
  _ ← consume TokenType.While "Expect 'WHILE'.";
  condition ← parse_expression 0;
  _ ← consume TokenType.Do "Expect 'DO' after WHILE condition.";
  body ← parse_statement;
  mret (node2 WhileStatement condition body).

Definition parse_for_statement : M (ptr Statement) :=
  _ ← consume TokenType.For "Expect 'FOR'.";
  var_name ← identifier "Expect loop variable name.";
  _ ← consume TokenType.Equal "Expect '=' after loop variable.";
  start_expr ← parse_expression 0;
  _ ← consume TokenType.To "Expect 'TO' in FOR loop.";
  end_expr ← parse_expression 0;
  has_step ← matches TokenType.By;
  step_expr ← (if has_step : bool then parse_expression 0 else mret Null);
  _ ← consume TokenType.Do "Expect 'DO' in FOR loop.";
  body ← parse_statement;
  mret (node (a ← whole start_expr; b ← whole end_expr; st ← optional step_expr;
              s ← whole body; Some (ForStatement var_name "" "" "" a b st s))).

(** The cases in order and the last DEFAULT. *)
Fixpoint cases_loop (n : nat) (default_case : ptr Statement) :
    M (list (ptr CaseClause) * ptr Statement) :=
  match n with
  | O => out_of_fuel
  | Datatypes.S n =>
      closed ← check TokenType.RBrace;
      ends ← is_at_end;
      if (closed || ends : bool) then mret ([], default_case)
      else
        is_case ← matches TokenType.Case;
        if is_case : bool then
          constant ← parse_expression 0;
          _ ← consume TokenType.Colon "Expect ':' after CASE constant.";
          command ← parse_statement;
          if is_null command then mret ([], default_case)
          else
            rest ← cases_loop n default_case;
            mret (node2 (fun e s => mkCase e s None) constant command :: fst rest, snd rest)
        else
          is_default ← matches TokenType.Default;
          if is_default : bool then
            _ ← consume TokenType.Colon "Expect ':' after DEFAULT.";
            _ ← (if negb (is_null default_case) then
                   error "Multiple DEFAULT cases in SWITCHON statement."
                 else mret tt);
            command ← parse_statement;
            if is_null command then mret ([], default_case) else cases_loop n command
          else
            _ ← error "Only CASE or DEFAULT allowed inside SWITCHON body.";
            _ ← advance;
            cases_loop n default_case
  end.

Definition parse_switchon_statement : M (ptr Statement) :=
  _ ← consume TokenType.Switchon "Expect 'SWITCHON'.";
  e ← parse_expression 0;
  _ ← consume TokenType.Into "Expect 'INTO' after SWITCHON expression.";
  _ ← consume TokenType.LBrace "Expect '$(' or '{' to begin SWITCHON body.";
  body ← cases_loop fuel Null;
  _ ← consume TokenType.RBrace "Expect '$)' or '}' to end SWITCHON body.";
  mret (node (e ← whole e; cases ← wholes (fst body); d ← optional (snd body);
              Some (SwitchonStatement e cases d))).

Definition parse_free_statement : M (ptr Statement) :=
  _ ← matches TokenType.FREEVEC;
  e ← parse_expression 0;
  if is_null e then _ ← error "Expected an expression after 'FREEVEC' or 'FREESTR'."; mret Null
  else mret (node1 FreeStatement e).

(** The statements that are one keyword. *)
Definition parse_keyword (keyword : TokenType) (name : string) (s : Statement) :
    M (ptr Statement) :=
  _ ← consume keyword ("Expect '" ++ name ++ "'.")%string; mret (Whole s).
Definition parse_return_statement := parse_keyword TokenType.Return "RETURN" ReturnStatement.
Definition parse_finish_statement :=
  parse_keyword TokenType.Finish "FINISH" (FinishStatement None []).
Definition parse_break_statement := parse_keyword TokenType.Break "BREAK" BreakStatement.
Definition parse_brk_statement := parse_keyword TokenType.Brk "BRK" BrkStatement.
Definition parse_loop_statement := parse_keyword TokenType.Loop "LOOP" LoopStatement.
Definition parse_endcase_statement :=
  parse_keyword TokenType.Endcase "ENDCASE" EndcaseStatement.

Definition parse_goto_statement : M (ptr Statement) :=
  _ ← consume TokenType.Goto "Expect 'GOTO'.";
  e ← parse_expression 0; mret (node1 GotoStatement e).
Definition parse_resultis_statement : M (ptr Statement) :=
  _ ← consume TokenType.Resultis "Expect 'RESULTIS'.";
  e ← parse_expression 0; mret (node1 ResultisStatement e).

Definition parse_primary_statement : M (ptr Statement) :=
  label ← at_label;
  if label : bool then
    name ← identifier "Expect identifier for label name.";
    _ ← consume TokenType.Colon "Expect ':' after label name.";
    mret (Whole (LabelTargetStatement name))
  else
    brace ← check TokenType.LBrace;
    if brace : bool then parse_block_or_compound_statement
    else
      current ← current_type;
      match current with
      | TokenType.Repeat => parse_repeat_statement
      | TokenType.If => parse_if_statement
      | TokenType.Unless => parse_unless_statement
      | TokenType.Test => parse_test_statement
      | TokenType.While => parse_while_statement
      | TokenType.For => parse_for_statement
      | TokenType.ForEach => parse_foreach_statement
      | TokenType.Switchon => parse_switchon_statement
      | TokenType.Goto => parse_goto_statement
      | TokenType.FREEVEC => parse_free_statement
      | TokenType.Return => parse_return_statement
      | TokenType.Finish => parse_finish_statement
      | TokenType.Break => parse_break_statement
      | TokenType.Brk => parse_brk_statement
      | TokenType.Loop => parse_loop_statement
      | TokenType.Endcase => parse_endcase_statement
      | TokenType.Resultis => parse_resultis_statement
      | _ => parse_assignment_or_routine_call
      end.

Definition statement_level : M (ptr Statement) :=
  fatal ← get fatal_error_;
  if fatal : bool then mret Null
  else
    statement ← parse_primary_statement;
    fatal ← get fatal_error_;
    if fatal : bool then mret Null
    else
      repeated ← matches TokenType.Repeat;
      if repeated : bool then
        is_while ← matches TokenType.While;
        is_until ← (if is_while : bool then mret false else matches TokenType.Until);
        let again t c := node (b ← whole statement; c ← optional c; Some (RepeatStatement t b c)) in
        if is_while : bool then c ← parse_expression 0; mret (again RepeatWhile c)
        else if is_until : bool then c ← parse_expression 0; mret (again RepeatUntil c)
        else mret (again Repeat Null)
      else mret statement.

(** ** Declarations of the top level *)

Definition parse_function_or_routine_body (name : string) (params : list string) :
    M (ptr Declaration) :=
  is_function ← matches TokenType.Equal;
  if is_function : bool then
    body ← parse_expression 0; mret (node1 (FunctionDeclaration name params) body)
  else
    is_routine ← matches TokenType.Be;
    if is_routine : bool then
      body ← parse_statement; mret (node1 (RoutineDeclaration name params) body)
    else _ ← error "Expect '=' or 'BE' in function/routine declaration."; mret Null.

(** The parameters, parentheses included. *)
Definition parse_parameters : M (list string) :=
  _ ← consume TokenType.LParen "Expect '(' after function name.";
  closed ← check TokenType.RParen;
  params ← (if negb closed then names_loop "Expect parameter name." fuel else mret []);
  _ ← consume TokenType.RParen "Expect ')' after function parameters.";
  mret params.

Definition parse_toplevel_let_declaration : M (ptr Declaration) :=
  is_float ← check TokenType.FLet;
  _ ← advance;
  name ← identifier "Expect identifier after LET/FLET.";
  paren ← check TokenType.LParen;
  if paren : bool then
    params ← parse_parameters; parse_function_or_routine_body name params
  else
    others ← more_names "Expect identifier after comma in LET/FLET.";
    let names := name :: others in
    _ ← consume TokenType.Equal "Expect '=' after name(s).";
    initializers ← expressions;
    _ ← (if negb (length names =? length initializers)%nat then
           error "Mismatch between number of names and initializers in global LET/FLET declaration."
         else mret tt);
    mret (nodes (fun l => GlobalVariableDeclaration names l is_float) initializers).

Definition push_declaration (d : ptr Declaration) : M unit := fun p =>
  Parsed tt (set_program (program_declarations p ++ [d]) (program_statements p) p).
Definition push_statement (s : ptr Statement) : M unit := fun p =>
  Parsed tt (set_program (program_declarations p) (program_statements p ++ [s]) p).

Definition parse_let_construct : M unit :=
  is_float ← check TokenType.FLet;
  _ ← advance;
  name ← identifier "Expect identifier after LET/FLET.";
  paren ← check TokenType.LParen;
  if paren : bool then
    params ← parse_parameters;
    d ← parse_function_or_routine_body name params;
    push_declaration d
  else
    others ← more_names "Expect identifier after comma in LET/FLET list.";
    let names := name :: others in
    _ ← consume TokenType.Equal "Expect '=' after name(s) in LET/FLET declaration.";
    initializers ← expressions;
    if negb (length names =? length initializers)%nat then
      error "Mismatch between number of names and initializers in LET/FLET declaration."
    else push_statement (nodes (fun l => LetDeclaration names l is_float) initializers).

(** One turn of the loop of [parse_program]: [true] when it breaks out of the loop. *)
Definition program_turn : M bool :=
  is_let ← check TokenType.Let;
  is_flet ← check TokenType.FLet;
  declaration ← is_declaration_start;
  if (is_let || is_flet : bool) then
    d ← parse_toplevel_let_declaration; _ ← push_declaration d; mret false
  else if declaration : bool then
    d ← parse_declaration; _ ← push_declaration d; mret false
  else
    _ ← error "Executable statements are not allowed in the global scope.";
    _ ← synchronize fuel; mret true.

(** [try { m } catch (const std::runtime_error&) { handler }] *)
Definition catch_runtime_error {A} (m handler : M A) : M A := fun p =>
  match m p with Thrown (standard runtime_error) p => handler p | r => r end.

Fixpoint program_loop (n : nat) : M unit :=
  match n with
  | O => out_of_fuel
  | Datatypes.S n =>
      ends ← is_at_end;
      fatal ← get fatal_error_;
      if (ends || fatal : bool) then mret tt
      else
        breaks ← catch_runtime_error program_turn (_ ← synchronize fuel; mret false);
        if breaks : bool then mret tt else program_loop n
  end.

Definition program_level : M (list (ptr Declaration) * list (ptr Statement)) :=
  _ ← (fun p => Parsed tt (set_program [] [] p));
  _ ← program_loop fuel;
  get (fun p => (program_declarations p, program_statements p)).

End Level.

(** ** The recursion *)

Fixpoint parse_expression (fuel : nat) (precedence : Z) : M (ptr Expression) :=
  match fuel with
  | O => out_of_fuel
  | Datatypes.S n =>
      expression_level n (parse_expression n) (parse_statement n) precedence
  end
with parse_statement (fuel : nat) : M (ptr Statement) :=
  match fuel with
  | O => out_of_fuel
  | Datatypes.S n => statement_level n (parse_expression n) (parse_statement n)
  end.

Definition parse_program (fuel : nat) :
    M (list (ptr Declaration) * list (ptr Statement)) :=
  program_level fuel (parse_expression fuel) (parse_statement fuel).

(** What the driver does with a token source: construct the parser, then parse. *)
Definition parse (fuel : nat) (lexer : S) :
    reply S (list (ptr Declaration) * list (ptr Statement)) :=
  match new_parser lexer with
  | Parsed _ p => parse_program fuel p
  | Thrown e p => Thrown e p
  | OutOfFuel => OutOfFuel
  end.

End Parser.
