(* ===== verification/ParserProof.v ===== *)
(** * The parser terminates

    A small program logic for the parser's computations ([ends]): a computation returns or
    throws, and what it leaves satisfies a postcondition.  The measure is the number of
    tokens that are left, the current one included ([size]).  Text that holds the keyword
    FUNCTION or ROUTINE is excluded ([clean]): inside a block these two make the parser loop
    for ever, which FrontEnd.v proves. *)

From S2P Require Import Prelude CallFrame Ast Analysis Data Lexer Parser.
Local Open Scope nat_scope.

Section Termination.

Context {S : Type} `{TokenSource S}.
Local Abbreviation M := (M S).
Local Abbreviation state := (Parser S).

(** ** The states *)

Definition after (i : nat) (s : S) : S := Nat.iter i (fun s => snd (next s)) s.
Definition loops_on (t : TokenType) : bool :=
  match t with TokenType.Function | TokenType.Routine => true | _ => false end.
Definition clean_source (s : S) : Prop :=
  forall i, loops_on (type (fst (next (after i s)))) = false.
Definition clean (p : state) : Prop :=
  clean_source (lexer_ p) /\ loops_on (type (current_token_ p)) = false.

Definition size (p : state) : nat := pending (lexer_ p) + (if at_end p then 0 else 1).

Lemma clean_next s : clean_source s -> clean_source (snd (next s)).
Proof.
  intros Hc i. specialize (Hc (Datatypes.S i)). unfold after in *. by rewrite Nat.iter_succ_r in Hc.
Qed.

(** ** The logic *)

(** What an exception leaves: a runtime error is always reported first. *)
Definition thrown_at (k : nat) (e : thrown) (p : state) : Prop :=
  clean p /\ size p <= k /\ (e = standard runtime_error -> fatal_error_ p = true).

Definition ends {A} (k : nat) (m : M A) (Q : A -> state -> Prop) (p : state) : Prop :=
  match m p with
  | Parsed a p' => Q a p'
  | Thrown e p' => thrown_at k e p'
  | OutOfFuel => False
  end.

Lemma stops_bind {A B} k (m : M A) (f : A -> M B) Q p :
  ends k m (fun a => ends k (f a) Q) p -> ends k (mbind f m) Q p.
Proof. unfold ends, mbind, M_bind. by destruct (m p). Qed.

Lemma stops_ret {A} k (a : A) (Q : A -> state -> Prop) p : Q a p -> ends k (mret a) Q p.
Proof. done. Qed.

Lemma stops_get {A} k (f : state -> A) (Q : A -> state -> Prop) p : Q (f p) p -> ends k (get f) Q p.
Proof. done. Qed.

Lemma stops_mono {A} j k (m : M A) (Q Q' : A -> state -> Prop) p :
  ends j m Q p -> j <= k -> (forall a p', Q a p' -> Q' a p') -> ends k m Q' p.
Proof.
  unfold ends. destruct (m p); auto. intros (Hc & Hs & He) Hk _. split; [done|]. split; [lia | done].
Qed.

(** ** The core methods *)

Lemma advance_loop_ends k n (Q : unit -> state -> Prop) p :
  clean_source (lexer_ p) -> pending (lexer_ p) < n ->
  (forall p', clean p' -> size p' <= pending (lexer_ p) -> Q tt p') ->
  ends k (advance_loop n) Q p.
Proof.
  revert p. induction n as [|n IH]; intros p Hc Hn HQ; [lia|]. cbn [advance_loop]. unfold ends.
  pose proof (clean_next _ Hc) as Hc'. pose proof (Hc 0) as H0.
  change (after 0 (lexer_ p)) with (lexer_ p) in H0.
  pose proof (next_pending (lexer_ p)) as Hp. pose proof (next_eof (lexer_ p)) as He.
  destruct (next (lexer_ p)) as [t lx]. cbn [fst snd] in *.
  destruct (TokenType.eqb (type t) TokenType.Error) eqn:Et.
  - apply TokenType.eqb_eq in Et. assert (pending lx < pending (lexer_ p)) by (apply Hp; by rewrite Et).
    apply IH; cbn; [done | lia |]. intros p' Hc1 Hs. apply HQ; [done | lia].
  - apply HQ; [split; [exact Hc' | exact H0]|]. unfold size, at_end. cbn.
    destruct (TokenType.eqb (type t) TokenType.Eof) eqn:E.
    + apply TokenType.eqb_eq in E. destruct (He E). lia.
    + assert (pending lx < pending (lexer_ p)); [|lia]. apply Hp. intros E'.
      apply TokenType.eqb_eq in E'. congruence.
Qed.

Lemma advance_ends k (Q : unit -> state -> Prop) p :
  clean p ->
  (forall p', clean p' -> size p' <= size p -> (at_end p = false -> size p' < size p) -> Q tt p') ->
  ends k advance Q p.
Proof.
  intros [Hc _] HQ. unfold advance. apply advance_loop_ends; cbn; [done | lia |].
  intros p' Hc' Hs. apply HQ; [done | |]; unfold size at 2; [lia|]. intros ->. lia.
Qed.

Lemma advance_on_ends k (Q : unit -> state -> Prop) p :
  clean p -> at_end p = false ->
  (forall p', clean p' -> size p' < size p -> Q tt p') -> ends k advance Q p.
Proof. intros Hc He HQ. apply advance_ends; [done|]. auto. Qed.

Lemma check_ends k t (Q : bool -> state -> Prop) p :
  (at_end p = false -> type (current_token_ p) = t -> Q true p) ->
  (type (current_token_ p) <> t \/ at_end p = true -> Q false p) -> ends k (check t) Q p.
Proof.
  intros Ht Hf. unfold check, get, ends. destruct (at_end p); [by apply Hf; right|]. cbn.
  destruct (TokenType.eqb _ t) eqn:E; [apply Ht; [done | by apply TokenType.eqb_eq]|].
  apply Hf. left. intros E'. apply TokenType.eqb_eq in E'. congruence.
Qed.

Definition checks (t : TokenType) (p : state) : bool :=
  negb (at_end p) && TokenType.eqb (type (current_token_ p)) t.

Lemma check_eq_ends k t (Q : bool -> state -> Prop) p :
  Q (checks t p) p -> ends k (check t) Q p.
Proof. done. Qed.

Lemma matches_ends k t (Q : bool -> state -> Prop) p :
  clean p ->
  (forall p', clean p' -> size p' < size p -> type (current_token_ p) = t -> Q true p') ->
  (type (current_token_ p) <> t \/ at_end p = true -> Q false p) ->
  ends k (matches t) Q p.
Proof.
  intros Hc Ht Hf. unfold matches. apply stops_bind, check_ends; [|done]. intros He Et.
  apply stops_bind, advance_ends; [done|]. intros p' Hc' _ Hs. apply stops_ret. auto.
Qed.

Lemma error_ends k s (Q : unit -> state -> Prop) p :
  clean p ->
  (forall p', clean p' -> size p' = size p -> at_end p' = at_end p -> fatal_error_ p' = true ->
    Q tt p') ->
  ends k (error s) Q p.
Proof. intros Hc HQ. unfold error, ends. by apply HQ. Qed.

Lemma consume_ends k t s (Q : unit -> state -> Prop) p :
  clean p -> size p <= k ->
  (forall p', clean p' -> size p' < size p -> Q tt p') -> ends k (consume t s) Q p.
Proof.
  intros Hc Hk HQ. unfold consume. apply stops_bind, check_ends.
  - intros He _. apply advance_ends; auto.
  - intros _. apply stops_bind, stops_get. apply stops_bind, error_ends; [done|].
    intros p' Hc' Hs _ Hf. unfold ends, throw, thrown_at. split; [done|]. split; [lia | done].
Qed.

Lemma identifier_ends k s (Q : string -> state -> Prop) p :
  clean p -> size p <= k ->
  (forall v p', clean p' -> size p' < size p -> Q v p') -> ends k (identifier s) Q p.
Proof.
  intros Hc Hk HQ. unfold identifier, current_value. apply stops_bind, stops_get, stops_bind.
  apply consume_ends; [done..|]. intros p' Hc' Hs. apply stops_ret. auto.
Qed.

Lemma lift_ends {A} k (r : result A) (Q : A -> state -> Prop) p :
  (forall e, r = Throw e -> e <> runtime_error) -> clean p -> size p <= k ->
  (forall a, Q a p) -> ends k (lift r) Q p.
Proof.
  intros Hr Hc Hk HQ. unfold lift. destruct r as [a|e]; [apply stops_ret, HQ|].
  unfold ends, throw, thrown_at. split; [done|]. split; [done|]. intros [= E].
  by destruct (Hr e).
Qed.

Lemma skip_to_brace_ends k n (Q : unit -> state -> Prop) p :
  clean p -> size p < n -> (forall p', clean p' -> size p' <= size p -> Q tt p') ->
  ends k (skip_to_brace n) Q p.
Proof.
  revert p. induction n as [|n IH]; intros p Hc Hn HQ; [lia|]. cbn [skip_to_brace].
  apply stops_bind, check_ends; intros _; [intros _|];
    apply stops_bind, stops_get; cbn [orb]; [apply stops_ret; auto|].
  destruct (at_end p) eqn:He; [apply stops_ret; auto|].
  apply stops_bind, advance_ends; [done|]. intros p' Hc' _ Hs. specialize (Hs He).
  apply IH; [done | lia |]. intros p'' ? ?. apply HQ; [done | lia].
Qed.

Lemma synchronize_ends k n (Q : unit -> state -> Prop) p :
  clean p -> size p < n ->
  (forall p', clean p' -> size p' <= size p -> Q tt p') -> ends k (synchronize n) Q p.
Proof.
  intros Hc Hn HQ. unfold synchronize. apply stops_bind, advance_ends; [done|].
  intros p1 Hc1 Hs1 _.
  assert (Hloop : forall m p2, clean p2 -> size p2 < m -> size p2 <= size p ->
    ends k (synchronize_loop m) Q p2).
  { clear Hn Hs1 Hc1 p1. induction m as [|m IH]; intros p2 Hc2 Hm Hs2; [lia|].
    cbn [synchronize_loop]. apply stops_bind, stops_get.
    destruct (at_end p2) eqn:He; [apply stops_ret; auto|]. apply stops_bind, stops_get.
    destruct (match previous_token_ p2 with Some _ => _ | None => _ end); [apply stops_ret; auto|].
    apply stops_bind, stops_get.
    assert (Hgo : ends k (_ ← advance; synchronize_loop m) Q p2).
    { apply stops_bind, advance_ends; [done|]. intros p3 Hc3 _ Hs3. specialize (Hs3 He).
      apply IH; [done | lia | lia]. }
    destruct (type _); try exact Hgo; apply stops_ret; auto. }
  apply Hloop; [done | lia | lia].
Qed.

Lemma current_type_ends k (Q : TokenType -> state -> Prop) p :
  Q (type (current_token_ p)) p -> ends k current_type Q p.
Proof. done. Qed.

Lemma value_ends k (Q : string -> state -> Prop) p :
  (forall v, Q v p) -> ends k current_value Q p.
Proof. intros HQ. apply HQ. Qed.

Lemma previous_ends k (Q : string -> state -> Prop) p :
  (forall v, Q v p) -> ends k previous_value Q p.
Proof. intros HQ. apply HQ. Qed.

Lemma at_label_ends k (Q : bool -> state -> Prop) p : (forall b, Q b p) -> ends k at_label Q p.
Proof.
  intros HQ. unfold at_label. apply stops_bind, check_ends; intros; apply stops_bind, stops_get, stops_ret, HQ.
Qed.

(** What no numeral throws. *)
Lemma stoll_thrown v e : stoll v = Throw e -> e <> runtime_error.
Proof.
  unfold stoll. destruct (scan_sign _) as [neg ds]. destruct (scan_digits _ _); [|by intros [= <-]].
  destruct (_ || _); [by intros [= <-] | done].
Qed.

Lemma stoi_thrown v e : stoi v = Throw e -> e <> runtime_error.
Proof.
  unfold stoi. destruct (scan_sign _) as [neg ds]. destruct (scan_digits _ _); [|by intros [= <-]].
  destruct (_ || _); [by intros [= <-] | done].
Qed.

Lemma number_node_thrown v e : number_node v = Throw e -> e <> runtime_error.
Proof.
  unfold number_node. destruct (_ || _).
  - destruct (stod v) as [f|e'] eqn:E; [done|]. intros [= <-]. unfold stod in E.
    destruct (span_digits 0 0 v) as [[m n] s']. destruct (match s' with "" => _ | _ => _ end) as [[m' f] s''].
    destruct (_ =? 0)%Z; [by injection E as <-|].
    destruct (is_infinite _); [by injection E as <-|done].
  - destruct (stoll v) eqn:E; [done|]. intros [= <-]. by apply stoll_thrown in E.
Qed.

Lemma precedence_nonneg t : (0 <= get_token_precedence t)%Z.
Proof. by destruct t. Qed.

(** ** One level *)

Section Level.

Context (fuel : nat) (parse_expression : Z -> M (ptr Expression))
  (parse_statement : M (ptr Statement)).

(** Enough fuel for what starts here. *)
Definition enough (extra : nat) (p : state) : Prop := 2 * size p + extra <= fuel.

Hypothesis expression_ends : forall precedence p k (Q : ptr Expression -> state -> Prop),
  (0 <= precedence)%Z -> clean p -> size p <= k -> enough 5 p ->
  (forall e p', clean p' -> size p' <= size p -> is_null e = true \/ size p' < size p -> Q e p') ->
  ends k (parse_expression precedence) Q p.
Hypothesis statement_ends : forall p k (Q : ptr Statement -> state -> Prop),
  clean p -> size p <= k -> enough 6 p ->
  (forall s p', clean p' -> size p' <= size p -> is_null s = true \/ size p' < size p -> Q s p') ->
  ends k parse_statement Q p.

(** The states of the goal get smaller. *)
Ltac sizes := unfold enough in *; cbn [is_null orb] in *; lia.

(** Runs one computation; what is left is what comes after it. *)
Ltac run :=
  cbv beta;
  lazymatch goal with
  | |- ends _ (mbind _ _) _ _ => apply stops_bind
  | |- ends _ (mret _) _ _ => apply stops_ret
  | |- ends _ current_type _ _ => apply current_type_ends
  | |- ends _ current_value _ _ => apply value_ends; intros ?
  | |- ends _ previous_value _ _ => apply previous_ends; intros ?
  | |- ends _ is_at_end _ _ => apply stops_get
  | |- ends _ at_label _ _ => apply at_label_ends; intros ?
  | |- ends _ advance _ _ =>
      first [ apply advance_on_ends; [assumption | solve [assumption | congruence] | intros ? ? ?]
            | apply advance_ends; [assumption | intros ? ? ? _] ]
  | |- ends _ (check _) _ _ => apply check_ends; [intros ? ? | intros ?]
  | |- ends _ (matches _) _ _ => apply matches_ends; [assumption | intros ? ? ? ? | intros ?]
  | |- ends _ (consume _ _) _ _ => apply consume_ends; [assumption | sizes | intros ? ? ?]
  | |- ends _ (identifier _) _ _ => apply identifier_ends; [assumption | sizes | intros ? ? ? ?]
  | |- ends _ (error _) _ _ => apply error_ends; [assumption | intros ? ? ? ? ?]
  | |- ends _ (lift (stoll _)) _ _ =>
      apply lift_ends; [apply stoll_thrown | assumption | sizes | intros ?]
  | |- ends _ (lift (stoi _)) _ _ =>
      apply lift_ends; [apply stoi_thrown | assumption | sizes | intros ?]
  | |- ends _ (lift (number_node _)) _ _ =>
      apply lift_ends; [apply number_node_thrown | assumption | sizes | intros ?]
  | |- ends _ (skip_to_brace _) _ _ =>
      apply skip_to_brace_ends; [assumption | sizes | intros ? ? ?]
  | |- ends _ (parse_expression _) _ _ =>
      apply expression_ends; [first [done | apply precedence_nonneg] | assumption | sizes | sizes | intros ? ? ? ? ?]
  | |- ends _ parse_statement _ _ =>
      apply statement_ends; [assumption | sizes | sizes | intros ? ? ? ? ?]
  | |- ends _ (if ?b then _ else _) _ _ => destruct b
  end.

(** The postcondition, from the one the lemma assumes. *)
Ltac post :=
  match goal with
  | HQ : forall _, _ |- _ => apply HQ; first [assumption | sizes | right; sizes | left; reflexivity | idtac]
  end.

Lemma expressions_loop_ends n k (Q : list (ptr Expression) -> state -> Prop) p :
  clean p -> size p <= k -> enough 5 p -> size p < n ->
  (forall l p', clean p' -> size p' <= size p -> Q l p') ->
  ends k (expressions_loop parse_expression n) Q p.
Proof.
  revert p Q. induction n as [|n IH]; intros p Q Hc Hk He Hn HQ; [lia|]. cbn [expressions_loop].
  do 4 run.
  - run. apply IH; [assumption | sizes | sizes | sizes |]. intros. run. apply HQ; [done | lia].
  - run. apply HQ; [done | lia].
Qed.

Lemma names_loop_ends message n k (Q : list string -> state -> Prop) p :
  clean p -> size p <= k -> size p < n ->
  (forall l p', clean p' -> size p' < size p -> Q l p') ->
  ends k (names_loop message n) Q p.
Proof.
  revert p Q. induction n as [|n IH]; intros p Q Hc Hk Hn HQ; [lia|]. cbn [names_loop].
  do 4 run.
  - run. apply IH; [assumption | sizes | sizes |]. intros. run. apply HQ; [done | lia].
  - run. apply HQ; [done | lia].
Qed.

Lemma bracketed_ends m1 m2 k (Q : list (ptr Expression) -> state -> Prop) p :
  clean p -> size p <= k -> enough 5 p ->
  (forall l p', clean p' -> size p' <= size p -> Q l p') ->
  ends k (bracketed fuel parse_expression m1 m2) Q p.
Proof.
  intros Hc Hk He HQ. unfold bracketed. do 2 run.
  - do 3 run. apply HQ; [done | lia].
  - run. apply expressions_loop_ends; [assumption | sizes | sizes | sizes |]. intros.
    do 3 run. apply HQ; [done | lia].
Qed.

Lemma expressions_ends k (Q : list (ptr Expression) -> state -> Prop) p :
  clean p -> size p <= k -> enough 5 p ->
  (forall l p', clean p' -> size p' <= size p -> Q l p') ->
  ends k (expressions fuel parse_expression) Q p.
Proof. intros. apply expressions_loop_ends; try assumption. sizes. Qed.

(** [run], and the lists. *)
Ltac runs :=
  first
    [ progress run
    | lazymatch goal with
      | |- ends _ (bracketed _ _ _ _) _ _ =>
          apply bracketed_ends; [assumption | sizes | sizes | intros ? ? ? ?]
      | |- ends _ (expressions _ _) _ _ =>
          apply expressions_ends; [assumption | sizes | sizes | intros ? ? ? ?]
      | |- ends _ (names_loop _ _) _ _ =>
          apply names_loop_ends; [assumption | sizes | sizes | intros ? ? ? ?]
      end ].

(** What every method leaves: a clean state no larger, and smaller unless it made nothing. *)
Definition consumes {A} (m : M (ptr A)) (p : state) : Prop :=
  forall k (Q : ptr A -> state -> Prop), size p <= k ->
    (forall e p', clean p' -> size p' <= size p -> is_null e = true \/ size p' < size p -> Q e p') ->
    ends k m Q p.

Ltac consumed :=
  match goal with
  | HQ : forall e p', clean p' -> _ -> _ -> ?Q e p' |- ?Q _ _ =>
      apply HQ; [assumption | sizes | first [left; reflexivity | right; sizes]]
  end.

(** Runs a method to its end. *)
Ltac method := intros ? Q ? HQ; repeat runs; consumed.

Lemma intrinsic_consumes op name p :
  clean p -> at_end p = false -> enough 4 p -> consumes (parse_intrinsic parse_expression op name) p.
Proof. intros Hc He Hs. unfold parse_intrinsic. method. Qed.

Lemma table_consumes b p :
  clean p -> at_end p = false -> enough 4 p -> consumes (parse_table_expression fuel parse_expression b) p.
Proof. intros Hc He Hs. unfold parse_table_expression. method. Qed.

Lemma not_at_end (p : state) t : type (current_token_ p) = t -> t <> TokenType.Eof -> at_end p = false.
Proof.
  intros E Ht. unfold at_end. apply not_true_iff_false. intros E'. apply TokenType.eqb_eq in E'.
  congruence.
Qed.

Lemma primary_consumes p :
  clean p -> enough 4 p -> consumes (parse_primary_expression fuel parse_expression parse_statement) p.
Proof.
  intros Hc Hs k Q Hk HQ. unfold parse_primary_expression. do 2 runs.
  destruct (type (current_token_ p)) eqn:Et; cbn [type_constant intrinsic];
    try assert (at_end p = false) by (apply (not_at_end p _ Et); discriminate);
    lazymatch goal with
    | |- ends _ (parse_intrinsic _ _ _) _ _ => apply intrinsic_consumes; assumption
    | |- ends _ (parse_table_expression _ _ _) _ _ => apply table_consumes; assumption
    | _ =>
        unfold parse_list_expression, parse_grouped_expression, parse_valof_expression,
          parse_fvalof_expression, parse_vec_initializer_expression;
        repeat runs; consumed
    end.
Qed.

Lemma prefix_consumes p :
  clean p -> enough 4 p -> consumes (parse_prefix fuel parse_expression parse_statement) p.
Proof.
  intros Hc Hs k Q Hk HQ. unfold parse_prefix. do 2 runs.
  destruct (prefix_operator _) eqn:E; [|by apply primary_consumes].
  assert (at_end p = false).
  { apply not_true_iff_false. intros He. apply TokenType.eqb_eq in He. by rewrite He in E. }
  repeat runs; consumed.
Qed.

Lemma infix_ends type left k (Q : ptr Expression -> state -> Prop) p :
  clean p -> size p <= k -> enough 5 p ->
  (forall e p', clean p' -> size p' <= size p -> Q e p') ->
  ends k (parse_infix fuel parse_expression type left) Q p.
Proof.
  intros Hc Hk Hs HQ. unfold parse_infix.
  assert (Hbinary : ends k
    (match to_binary_op type with
     | None => throw logic_error
     | Some op =>
         right ← parse_expression (get_token_precedence type);
         if is_null right then
           _ ← error "Expected an expression for right operand of binary operator."; mret Null
         else mret (node2 (BinaryOp op) left right)
     end) Q p).
  { destruct (to_binary_op type) eqn:E; [|by unfold ends, throw, thrown_at].
    repeat runs; apply HQ; solve [assumption | sizes]. }
  destruct type; try exact Hbinary; clear Hbinary; repeat runs; apply HQ; solve [assumption | sizes].
Qed.

Lemma infix_loop_ends precedence n k left (Q : ptr Expression -> state -> Prop) p :
  (0 <= precedence)%Z -> clean p -> size p <= k -> enough 4 p -> size p < n ->
  (forall e p', clean p' -> size p' <= size p ->
    (is_null e = true \/ size p' < size p) \/ e = left -> Q e p') ->
  ends k (infix_loop fuel parse_expression n precedence left) Q p.
Proof.
  intros Hp. revert p left Q. induction n as [|n IH]; intros p left Q Hc Hk Hs Hn HQ; [lia|].
  cbn [infix_loop]. do 2 runs. destruct (negb (is_null left) && _) eqn:E.
  - apply andb_true_iff in E as [_ E]. apply Z.ltb_lt in E.
    assert (at_end p = false).
    { apply not_true_iff_false. intros He. apply TokenType.eqb_eq in He. rewrite He in E. cbn in E. lia. }
    do 3 runs. apply infix_ends; [assumption | sizes | sizes|]. intros e p2 Hc2 Hs2. cbv beta.
    apply IH; [assumption | sizes | sizes | sizes |]. intros e' p3 Hc3 Hs3 _.
    apply HQ; [assumption | sizes |]. left; right; sizes.
  - run. apply HQ; [assumption | sizes | by right].
Qed.

Lemma expression_level_consumes precedence p :
  (0 <= precedence)%Z -> clean p -> enough 4 p ->
  consumes (expression_level fuel parse_expression parse_statement precedence) p.
Proof.
  intros Hp Hc Hs k Q Hk HQ. unfold expression_level. run.
  apply prefix_consumes; [assumption | assumption | assumption |]. intros e p1 Hc1 Hs1 He.
  apply infix_loop_ends; [assumption | assumption | sizes | sizes | sizes |].
  intros e' p2 Hc2 Hs2 [[Hn|Hn] | ->]; (apply HQ; [assumption | sizes |]).
  - by left.
  - right; sizes.
  - destruct He; [by left | right; sizes].
Qed.

(** ** Statements *)

Lemma get_fatal_ends k (Q : bool -> state -> Prop) p :
  Q (fatal_error_ p) p -> ends k (get fatal_error_) Q p.
Proof. done. Qed.

Lemma assignment_consumes p :
  clean p -> enough 5 p ->
  consumes (parse_assignment_or_routine_call fuel parse_expression) p.
Proof.
  intros Hc Hs k Q Hk HQ. unfold parse_assignment_or_routine_call. do 2 runs.
  assert (Hassign : ends k
    (more ← matches TokenType.Comma;
     others ← (if more : bool then expressions fuel parse_expression else mret []);
     _ ← consume TokenType.Assign "Expect ':=' for an assignment statement.";
     rhs ← expressions fuel parse_expression;
     if negb (length (e :: others) =? length rhs) then
       _ ← error "Mismatch in number of l-values and r-values for assignment."; mret Null
     else mret (node (l ← wholes (e :: others); r ← wholes rhs; Some (AssignmentStatement l r)))) Q p').
  { repeat runs; consumed. }
  destruct e as [| [] | []]; try exact Hassign; clear Hassign; repeat runs; consumed.
Qed.

(** What a method leaves that always takes a token. *)
Definition takes {A} (m : M A) (p : state) : Prop :=
  forall k (Q : A -> state -> Prop), size p <= k ->
    (forall a p', clean p' -> size p' < size p -> Q a p') -> ends k m Q p.

Ltac taken :=
  match goal with
  | HQ : forall a p', clean p' -> _ -> ?Q a p' |- ?Q _ _ => apply HQ; [assumption | sizes]
  end.

Lemma takes_consumes {A} (m : M (ptr A)) p : takes m p -> consumes m p.
Proof. intros Hm k Q Hk HQ. apply Hm; [done|]. intros a p' Hc Hs. apply HQ; auto with lia. Qed.

Lemma let_takes p :
  clean p -> enough 5 p -> takes (parse_let_statement fuel parse_expression) p.
Proof. intros Hc Hs. unfold parse_let_statement. intros k Q Hk HQ. repeat runs; taken. Qed.

Lemma globals_loop_ends n k (Q : list (string * Z) -> state -> Prop) p :
  clean p -> size p <= k -> size p < n ->
  (forall l p', clean p' -> size p' < size p -> Q l p') -> ends k (globals_loop n) Q p.
Proof.
  revert p Q. induction n as [|n IH]; intros p Q Hc Hk Hn HQ; [lia|]. cbn [globals_loop].
  repeat run; try (apply HQ; solve [assumption | sizes]);
    (apply IH; [assumption | sizes | sizes |]; intros; run; apply HQ; solve [assumption | sizes]).
Qed.

Definition starts_declaration (p : state) : bool :=
  match type (current_token_ p) with
  | TokenType.Manifest | TokenType.Static | TokenType.Global | TokenType.Routine
  | TokenType.Function => true
  | _ => false
  end.

Lemma declaration_start_ends k (Q : bool -> state -> Prop) p :
  Q (starts_declaration p) p -> ends k is_declaration_start Q p.
Proof. done. Qed.

Lemma declaration_takes p :
  clean p -> enough 5 p -> starts_declaration p = true ->
  takes (parse_declaration fuel parse_expression parse_statement) p.
Proof.
  intros Hc Hs Hd. unfold parse_declaration, parse_label_declaration. intros k Q Hk HQ. do 3 runs.
  - repeat runs; taken.
  - do 2 runs. pose proof (proj2 Hc) as Hc2. unfold starts_declaration in Hd.
    destruct (type _); try discriminate;
      unfold parse_manifest_declaration, parse_static_declaration,
        parse_global_declaration; repeat runs; try taken.
    apply globals_loop_ends; [assumption | sizes | sizes |]. intros. repeat runs; taken.
Qed.

Lemma declaration_consumes p :
  clean p -> enough 5 p -> consumes (parse_declaration fuel parse_expression parse_statement) p.
Proof.
  intros Hc Hs. destruct (starts_declaration p) eqn:Hd; [by apply takes_consumes, declaration_takes|].
  unfold parse_declaration, parse_label_declaration. intros k Q Hk HQ. do 3 runs.
  - repeat runs; consumed.
  - do 2 runs. unfold starts_declaration in Hd. destruct (type _); try discriminate;
      repeat runs; consumed.
Qed.

Lemma block_loop_ends n k (Q : list (ptr Declaration) * list (ptr Statement) -> state -> Prop) p :
  clean p -> size p <= k -> enough 6 p -> size p < n ->
  (forall l p', clean p' -> size p' <= size p -> Q l p') ->
  ends k (block_loop fuel parse_expression parse_statement n) Q p.
Proof.
  revert p Q. induction n as [|n IH]; intros p Q Hc Hk Hs Hn HQ; [lia|]. cbn [block_loop].
  assert (Hrest : forall A (f : list (ptr Declaration) * list (ptr Statement) -> A)
    (R : A -> state -> Prop) p', clean p' -> size p' < size p ->
    (forall a p'', clean p'' -> size p'' <= size p -> R a p'') ->
    ends k (rest ← block_loop fuel parse_expression parse_statement n; mret (f rest)) R p').
  { intros A f R p' Hc' Hs' HR. run. apply IH; [assumption | sizes | sizes | sizes |].
    intros. run. apply HR; [assumption | sizes]. }
  assert (Hlet : ends k (s ← parse_let_statement fuel parse_expression;
      rest ← block_loop fuel parse_expression parse_statement n; mret (fst rest, s :: snd rest)) Q p).
  { run. apply let_takes; [assumption | sizes | assumption |]. intros. apply Hrest; auto. }
  apply stops_bind, check_eq_ends, stops_bind, stops_get.
  destruct (checks _ p || at_end p); [run; apply HQ; [done | lia]|].
  apply stops_bind, check_eq_ends, stops_bind, check_eq_ends, stops_bind, declaration_start_ends.
  destruct (checks _ p || checks _ p); [exact Hlet|].
  destruct (starts_declaration p) eqn:Hd.
  - run. apply declaration_takes; [assumption | sizes | assumption | assumption |]. intros.
    apply Hrest; auto.
  - do 2 run. destruct (is_null _) eqn:En; [run; apply HQ; [done | sizes]|].
    apply Hrest; [assumption | | auto]. match goal with H : _ \/ _ |- _ => destruct H; [congruence | sizes] end.
Qed.

Lemma block_takes p :
  clean p -> enough 5 p ->
  takes (parse_block_or_compound_statement fuel parse_expression parse_statement) p.
Proof.
  intros Hc Hs k Q Hk HQ. unfold parse_block_or_compound_statement. do 3 run.
  apply block_loop_ends; [assumption | sizes | sizes | sizes |]. intros. repeat run; taken.
Qed.

Lemma cases_loop_ends n d k (Q : list (ptr CaseClause) * ptr Statement -> state -> Prop) p :
  clean p -> size p <= k -> enough 6 p -> size p < n ->
  (forall l p', clean p' -> size p' <= size p -> Q l p') ->
  ends k (cases_loop parse_expression parse_statement n d) Q p.
Proof.
  revert p d Q. induction n as [|n IH]; intros p d Q Hc Hk Hs Hn HQ; [lia|]. cbn [cases_loop].
  apply stops_bind, check_eq_ends, stops_bind, stops_get.
  destruct (at_end p) eqn:He; [rewrite orb_true_r; run; apply HQ; [done | lia]|].
  destruct (checks _ p); cbn [orb]; [run; apply HQ; [done | lia]|].
  repeat run; try (apply HQ; solve [assumption | sizes]);
    (apply IH; [assumption | sizes | sizes | sizes |]; intros; repeat run;
     apply HQ; solve [assumption | sizes]).
Qed.

Lemma switchon_takes p :
  clean p -> enough 5 p ->
  takes (parse_switchon_statement fuel parse_expression parse_statement) p.
Proof.
  intros Hc Hs k Q Hk HQ. unfold parse_switchon_statement. do 9 run.
  apply cases_loop_ends; [assumption | sizes | sizes | sizes |]. intros. repeat run; taken.
Qed.

Lemma primary_statement_consumes p :
  clean p -> enough 5 p ->
  consumes (parse_primary_statement fuel parse_expression parse_statement) p.
Proof.
  intros Hc Hs k Q Hk HQ. unfold parse_primary_statement. do 3 run; [repeat run; consumed|].
  apply stops_bind, check_eq_ends. destruct (checks _ p).
  { by apply (takes_consumes _ p (block_takes p Hc Hs)). }
  do 2 run.
  destruct (type (current_token_ p)) eqn:Et;
    lazymatch goal with
    | |- ends _ (parse_assignment_or_routine_call _ _) _ _ => by apply assignment_consumes
    | |- ends _ (parse_switchon_statement _ _ _) _ _ =>
        by apply (takes_consumes _ p (switchon_takes p Hc Hs))
    | _ =>
        unfold parse_repeat_statement, parse_if_statement, parse_unless_statement, parse_guarded,
          parse_test_statement, parse_while_statement, parse_for_statement,
          parse_foreach_statement, parse_goto_statement, parse_free_statement,
          parse_return_statement, parse_finish_statement, parse_break_statement,
          parse_brk_statement, parse_loop_statement, parse_endcase_statement,
          parse_resultis_statement, parse_keyword;
        try assert (at_end p = false) by (apply (not_at_end p _ Et); discriminate);
        repeat runs; consumed
    end.
Qed.

Lemma statement_level_consumes p :
  clean p -> enough 5 p ->
  consumes (statement_level fuel parse_expression parse_statement) p.
Proof.
  intros Hc Hs k Q Hk HQ. unfold statement_level. run. apply get_fatal_ends. do 2 run; [consumed|].
  apply primary_statement_consumes; [assumption | assumption | assumption |].
  intros s p1 Hc1 Hs1 He. run. apply get_fatal_ends. do 2 run; [consumed|].
  repeat run; first [consumed | apply HQ; [assumption | sizes | exact He]].
Qed.

(** ** The top level *)

Lemma body_consumes name params p :
  clean p -> enough 6 p ->
  consumes (parse_function_or_routine_body parse_expression parse_statement name params) p.
Proof. intros Hc Hs. unfold parse_function_or_routine_body. method. Qed.

Lemma toplevel_let_takes p :
  clean p -> enough 6 p -> at_end p = false ->
  takes (parse_toplevel_let_declaration fuel parse_expression parse_statement) p.
Proof.
  intros Hc Hs He k Q Hk HQ. unfold parse_toplevel_let_declaration, parse_parameters, more_names.
  run. apply check_eq_ends. do 5 run. apply check_eq_ends. destruct (checks _ _).
  - repeat runs; (apply body_consumes; [assumption | sizes | sizes |]; intros; taken).
  - repeat runs; taken.
Qed.

Lemma catch_ends {A} (m h : M A) k (Q : A -> state -> Prop) p :
  ends k m Q p ->
  (forall p', clean p' -> size p' <= k -> fatal_error_ p' = true -> ends k h Q p') ->
  ends k (catch_runtime_error m h) Q p.
Proof.
  unfold ends at 1 3, catch_runtime_error. intros Hm Hh. destruct (m p) as [a p'|e p'|]; [done| |done].
  destruct Hm as (Hc & Hs & He).
  destruct e as [|[]]; try (by split); by apply (Hh p' Hc Hs), He.
Qed.

End Level.

(** A reported error stays reported. *)
Definition keeps_fatal {A} (m : M A) : Prop := forall p, fatal_error_ p = true ->
  match m p with Parsed _ p' => fatal_error_ p' = true | _ => True end.

Lemma keeps_bind {A B} (m : M A) (f : A -> M B) :
  keeps_fatal m -> (forall a, keeps_fatal (f a)) -> keeps_fatal (mbind f m).
Proof.
  intros Hm Hf p Hp. unfold mbind, M_bind. specialize (Hm p Hp). destruct (m p) as [a p'| |]; [|done..].
  by apply Hf.
Qed.

Lemma keeps_get {A} (f : state -> A) : keeps_fatal (get f).
Proof. by intros p Hp. Qed.

Lemma keeps_ret {A} (a : A) : keeps_fatal (mret a : M A).
Proof. by intros p Hp. Qed.

Lemma keeps_advance : keeps_fatal advance.
Proof.
  intros p Hp. unfold advance. generalize (Datatypes.S (pending (lexer_ (set_previous p)))) as n.
  assert (Hq : fatal_error_ (set_previous p) = true) by done. revert Hq. generalize (set_previous p).
  clear p Hp. intros p Hp n. revert p Hp. induction n as [|n IH]; intros p Hp; [done|].
  cbn [advance_loop]. destruct (next (lexer_ p)) as [t lx]. destruct (TokenType.eqb _ _); [|done].
  by apply IH.
Qed.

Lemma keeps_synchronize n : keeps_fatal (synchronize n).
Proof.
  unfold synchronize. apply keeps_bind; [apply keeps_advance|]. intros _.
  induction n as [|n IH]; [by intros p Hp|]. cbn [synchronize_loop].
  apply keeps_bind; [apply keeps_get|]. intros []; [apply keeps_ret|].
  apply keeps_bind; [apply keeps_get|]. intros []; [apply keeps_ret|].
  apply keeps_bind; [apply keeps_get|].
  intros t. destruct t; try apply keeps_ret; apply keeps_bind; auto using keeps_advance.
Qed.

(** ** The recursion *)

Lemma recursion_ends n :
  (forall precedence p, (0 <= precedence)%Z -> clean p -> 2 * size p + 5 <= n ->
     consumes (parse_expression n precedence) p)
  /\ (forall p, clean p -> 2 * size p + 6 <= n -> consumes (parse_statement n) p).
Proof.
  induction n as [|n [IHe IHs]]; [split; intros; lia|]. split.
  - intros precedence p Hp Hc Hn. cbn [parse_expression].
    apply expression_level_consumes; unfold enough; try assumption; try lia;
      intros; [eapply IHe | eapply IHs]; eassumption.
  - intros p Hc Hn. cbn [parse_statement].
    apply statement_level_consumes; unfold enough; try assumption; try lia;
      intros; [eapply IHe | eapply IHs]; eassumption.
Qed.

Section Program.
Context (fuel : nat).
Let expression := parse_expression fuel.
Let statement := parse_statement fuel.

Lemma expression_fits precedence p k (Q : ptr Expression -> state -> Prop) :
  (0 <= precedence)%Z -> clean p -> size p <= k -> enough fuel 5 p ->
  (forall e p', clean p' -> size p' <= size p -> is_null e = true \/ size p' < size p -> Q e p') ->
  ends k (expression precedence) Q p.
Proof. intros Hp Hc Hk He. by apply (proj1 (recursion_ends fuel)). Qed.

Lemma statement_fits p k (Q : ptr Statement -> state -> Prop) :
  clean p -> size p <= k -> enough fuel 6 p ->
  (forall s p', clean p' -> size p' <= size p -> is_null s = true \/ size p' < size p -> Q s p') ->
  ends k statement Q p.
Proof. intros Hc Hk He. by apply (proj2 (recursion_ends fuel)). Qed.

Lemma size_set ds ss p : size (set_program ds ss p) = size p.
Proof. done. Qed.

(** A turn of the loop takes a token, or stops the loop. *)
Lemma program_turn_ends k (Q : bool -> state -> Prop) p :
  clean p -> size p <= k -> enough fuel 6 p ->
  (forall b p', clean p' -> size p' <= size p -> b = true \/ size p' < size p -> Q b p') ->
  ends k (program_turn fuel expression statement) Q p.
Proof.
  intros Hc Hk Hs HQ. unfold program_turn. cbv beta.
  apply stops_bind, check_eq_ends, stops_bind, check_eq_ends, stops_bind, declaration_start_ends.
  destruct (checks TokenType.Let p || checks TokenType.FLet p) eqn:El.
  { assert (at_end p = false).
    { unfold checks in El. destruct (at_end p); [done | done]. }
    apply stops_bind.
    apply (toplevel_let_takes fuel expression statement expression_fits statement_fits); try assumption.
    intros d p' Hc' Hs'. apply stops_bind. apply HQ; [exact Hc' | | right]; rewrite ?size_set; lia. }
  destruct (starts_declaration p) eqn:Hd.
  { apply stops_bind.
    apply (declaration_takes fuel expression statement expression_fits statement_fits); try assumption.
    { unfold enough in *. lia. }
    intros d p' Hc' Hs'. apply stops_bind. apply HQ; [exact Hc' | | right]; rewrite ?size_set; lia. }
  apply stops_bind, error_ends; [done|]. intros p1 Hc1 Hs1 _ _.
  apply stops_bind, synchronize_ends; [done | unfold enough in *; lia|]. intros p2 Hc2 Hs2.
  apply stops_ret, HQ; [done | lia | by left].
Qed.

Lemma handler_ends k (Q : bool -> state -> Prop) p :
  clean p -> size p < fuel -> fatal_error_ p = true ->
  (forall p', clean p' -> size p' <= size p -> fatal_error_ p' = true -> Q false p') ->
  ends k (_ ← synchronize fuel; mret false) Q p.
Proof.
  intros Hc Hs Hf HQ. apply stops_bind.
  pose proof (synchronize_ends k fuel (fun _ p' => clean p' /\ size p' <= size p) p Hc Hs) as He.
  pose proof (keeps_synchronize fuel p Hf) as Hk. unfold ends in *.
  destruct (synchronize fuel p) as [[] p'|e p'|]; [|by apply He|by apply He].
  destruct He as [Hc' Hs']; [by intros|]. by apply HQ.
Qed.

Lemma program_loop_ends n k p :
  clean p -> size p <= k -> enough fuel 6 p -> size p < n ->
  ends k (program_loop fuel expression statement n) (fun _ _ => True) p.
Proof.
  revert p. induction n as [|n IH]; intros p Hc Hk Hs Hn; [lia|]. cbn [program_loop].
  apply stops_bind, stops_get, stops_bind, stops_get.
  destruct (at_end p || fatal_error_ p) eqn:Ee; [done|]. apply orb_false_iff in Ee as [Ee _].
  assert (0 < size p) by (unfold size; rewrite Ee; lia).
  assert (Hstop : forall p', fatal_error_ p' = true ->
    ends k (program_loop fuel expression statement n) (fun _ _ => True) p').
  { intros p' Hf. destruct n; [lia|]. cbn [program_loop]. apply stops_bind, stops_get, stops_bind, stops_get.
    by rewrite Hf, orb_true_r. }
  apply stops_bind. apply (stops_mono (size p) k _ (fun b p' => clean p' /\ size p' <= size p
      /\ (b = true \/ size p' < size p \/ fatal_error_ p' = true))); [|done|].
  - apply catch_ends.
    + apply program_turn_ends; [done | done | done|]. intros b p' Hc' Hs' [Hb|Hb]; auto.
    + intros p' Hc' Hs' Hf. apply handler_ends; [done | unfold enough in *; lia | done|].
      intros p2 Hc2 Hs2 Hf2. split; [done|]. split; [lia|]. auto.
  - intros b p' (Hc' & Hs' & Hb). destruct b; [done|]. destruct Hb as [Hb|[Hb|Hb]]; [done| |by apply Hstop].
    apply IH; [done | lia | unfold enough in *; lia | lia].
Qed.

End Program.

(** From a clean source, as much fuel as twice its tokens and a few is enough. *)
Lemma parse_ends fuel s :
  clean_source s -> 2 * pending s + 8 <= fuel -> parse fuel s <> OutOfFuel.
Proof.
  intros Hc Hf. unfold parse.
  pose proof (advance_loop_ends (pending s) (Datatypes.S (pending s))
    (fun _ p => clean p /\ size p <= pending s)
    (mkParser s [] [] (mkToken TokenType.Eof "" 0 0) None false []) Hc) as Ha.
  unfold new_parser. unfold ends in Ha.
  destruct (advance_loop _ _) as [[] p|e p|]; [|done|].
  2: { exfalso. apply Ha; [cbn; lia | auto]. }
  destruct Ha as [Hc' Hs]; [cbn; lia | auto |].
  unfold parse_program, program_level. cbn.
  pose proof (program_loop_ends fuel fuel (size p) (set_program [] [] p)) as Hl.
  unfold ends in Hl. unfold mbind, M_bind.
  destruct (program_loop _ _ _ _ _); [done | done |].
  destruct Hl; [exact Hc' | done | unfold enough; change (size (set_program [] [] p)) with (size p); lia |
    change (size (set_program [] [] p)) with (size p); lia].
Qed.

End Termination.
