(* ===== verification/ParserWhole.v ===== *)
(** * A parse without errors leaves no null pointer

    A second logic for the parser's computations ([post]): whatever the fuel, a computation
    that returns keeps the reported errors ([leads]), and when none has been reported what it
    made is whole, with no function inside a block ([makes]). *)

From S2P Require Import Prelude CallFrame Ast Trees Analysis Data Lexer Parser ParserProof.

(** The trees without functions in blocks, of each kind. *)
Class Shape (A : Type) := shaped : A -> bool.
#[export] Instance expression_shape : Shape Expression := flat_expr.
#[export] Instance statement_shape : Shape Statement := flat_stmt.
#[export] Instance case_shape : Shape CaseClause := flat_case.
#[export] Instance declaration_shape : Shape Declaration := flat_decl.

Section Whole.

Context {S : Type} `{TokenSource S}.
Local Abbreviation M := (M S).
Local Abbreviation state := (Parser S).

(** ** The logic *)

Definition quiet (p : state) : Prop := errors_ p = [].
(** A fatal error has been reported. *)
Definition ok (p : state) : Prop := fatal_error_ p = true -> ~ quiet p.
Definition program_of (p : state) : list (ptr Declaration) * list (ptr Statement) :=
  (program_declarations p, program_statements p).
Definition leads (p p' : state) : Prop :=
  (ok p -> ok p') /\ (quiet p' -> quiet p) /\ program_of p' = program_of p.

Definition post {A} (m : M A) (Q : A -> state -> Prop) (p : state) : Prop :=
  match m p with
  | Parsed a p' => Q a p'
  | Thrown e p' => e = standard runtime_error -> ~ quiet p'
  | OutOfFuel => True
  end.

(** [m] keeps the errors, and what it makes without any satisfies [W]. *)
Definition makes {A} (m : M A) (W : A -> Prop) : Prop := forall p (Q : A -> state -> Prop),
  (forall a p', leads p p' -> (ok p -> quiet p' -> W a) -> Q a p') -> post m Q p.

Definition is_whole `{Shape A} (p : ptr A) : Prop := exists a, p = Whole a /\ shaped a = true.
Definition all_whole `{Shape A} (l : list (ptr A)) : Prop :=
  exists l', wholes l = Some l' /\ forallb shaped l' = true.
Definition is_optional `{Shape A} (p : ptr A) : Prop :=
  exists o, optional p = Some o /\ option_allb shaped o = true.
Definition anything {A} (a : A) : Prop := True.

Lemma post_bind {A B} (m : M A) (f : A -> M B) Q p :
  post m (fun a => post (f a) Q) p -> post (mbind f m) Q p.
Proof. unfold post, mbind, M_bind. by destruct (m p). Qed.

Lemma post_ret {A} (a : A) (Q : A -> state -> Prop) p : Q a p -> post (mret a) Q p.
Proof. done. Qed.

Lemma post_get {A} (f : state -> A) (Q : A -> state -> Prop) p : Q (f p) p -> post (get f) Q p.
Proof. done. Qed.

Lemma leads_refl p : leads p p.
Proof. by repeat split. Qed.

Lemma leads_trans a b c : leads a b -> leads b c -> leads a c.
Proof. intros (H1 & H2 & H3) (H4 & H5 & H6). split; [auto|]. split; [auto | congruence]. Qed.

Lemma log_quiet m p : ~ quiet (log m p).
Proof. unfold quiet. cbn. by destruct (errors_ p). Qed.

Lemma log_leads m p : leads p (log m p).
Proof.
  split; [intros _ _; apply log_quiet|]. split; [intros Hq; destruct (log_quiet _ _ Hq) | done].
Qed.

(** ** The core methods *)

Lemma advance_makes : makes advance anything.
Proof.
  intros p Q HQ. unfold advance.
  change (post (advance_loop (Datatypes.S (pending (lexer_ (set_previous p))))) Q (set_previous p)).
  generalize (Datatypes.S (pending (lexer_ (set_previous p)))) as n.
  assert (Hs : leads p (set_previous p)) by by repeat split. revert Hs. generalize (set_previous p) as p1.
  intros p1 Hs n. revert p1 Hs. induction n as [|n IH]; intros p1 Hs; [done|]. unfold post.
  cbn [advance_loop]. destruct (next (lexer_ p1)) as [t lx]. destruct (TokenType.eqb _ _).
  - apply IH. eapply leads_trans; [exact Hs|]. apply (log_leads _ (set_current lx t p1)).
  - apply HQ; [exact Hs | done].
Qed.

Lemma post_check t (Q : bool -> state -> Prop) p : Q (checks t p) p -> post (check t) Q p.
Proof. done. Qed.

Lemma matches_makes t : makes (matches t) anything.
Proof.
  intros p Q HQ. unfold matches. apply post_bind, post_check. destruct (checks t p).
  - apply post_bind, advance_makes. intros [] p' Hl _. by apply post_ret, HQ.
  - apply post_ret, HQ; [apply leads_refl | done].
Qed.

Lemma post_error s (Q : unit -> state -> Prop) p :
  (forall p', leads p p' -> ~ quiet p' -> Q tt p') -> post (error s) Q p.
Proof. intros HQ. apply HQ; [apply log_leads | apply log_quiet]. Qed.

Lemma consume_makes t s : makes (consume t s) anything.
Proof.
  intros p Q HQ. unfold consume. apply post_bind, post_check. destruct (checks t p).
  - by apply advance_makes.
  - apply post_bind, post_get, post_bind, post_error. intros p' Hl Hq. by unfold post, throw.
Qed.

Lemma identifier_makes s : makes (identifier s) anything.
Proof.
  intros p Q HQ. unfold identifier, current_value. apply post_bind, post_get, post_bind, consume_makes.
  intros _ p' Hl _. by apply post_ret, HQ.
Qed.

Lemma post_lift {A} (r : result A) (Q : A -> state -> Prop) p :
  (forall e, r = Throw e -> e <> runtime_error) -> (forall a, r = Ok a -> Q a p) -> post (lift r) Q p.
Proof.
  intros Hr HQ. destruct r as [a|e]; [by apply HQ|]. intros [= E]. by destruct (Hr e).
Qed.

Lemma number_node_shape v e : number_node v = Ok e -> shaped e = true.
Proof. unfold number_node. case_match; case_match; intros E; inversion E; done. Qed.

Lemma at_label_post (Q : bool -> state -> Prop) p : (forall b, Q b p) -> post at_label Q p.
Proof. intros HQ. apply HQ. Qed.

Lemma skip_to_brace_makes n : makes (skip_to_brace n) anything.
Proof.
  induction n as [|n IH]; intros p Q HQ; [done|]. cbn [skip_to_brace].
  apply post_bind, post_check, post_bind, post_get.
  destruct (_ || _); [apply post_ret, HQ; [apply leads_refl | done]|].
  apply post_bind, advance_makes. intros _ p1 Hl _. apply IH. intros a p2 Hl2 _.
  apply HQ; [by eapply leads_trans | done].
Qed.

Lemma synchronize_makes n : makes (synchronize n) anything.
Proof.
  unfold synchronize. intros p Q HQ. apply post_bind, advance_makes. intros _ p1 Hl1 _.
  revert p1 Hl1. induction n as [|n IH]; intros p1 Hl1; [done|]. cbn [synchronize_loop].
  assert (Hstop : Q tt p1) by by apply HQ.
  assert (Hgo : post (_ ← advance; synchronize_loop n) Q p1).
  { apply post_bind, advance_makes. intros _ p2 Hl2 _. apply IH. by eapply leads_trans. }
  apply post_bind, post_get. destruct (at_end p1); [exact Hstop|].
  apply post_bind, post_get. destruct (match previous_token_ p1 with Some _ => _ | None => _ end); [exact Hstop|].
  apply post_bind, post_get. destruct (type _); first [exact Hstop | exact Hgo].
Qed.

(** ** Trees from trees *)

Lemma node1_whole `{Shape A, Shape C} (f : A -> C) a :
  (forall x, shaped x = true -> shaped (f x) = true) -> is_whole a -> is_whole (node1 f a).
Proof. intros Hf (x & -> & Hx). exists (f x). auto. Qed.
Lemma node2_whole `{Shape A, Shape B, Shape C} (f : A -> B -> C) a b :
  (forall x y, shaped x = true -> shaped y = true -> shaped (f x y) = true) ->
  is_whole a -> is_whole b -> is_whole (node2 f a b).
Proof. intros Hf (x & -> & Hx) (y & -> & Hy). exists (f x y). auto. Qed.
Lemma nodes_whole `{Shape C} (f : list Expression -> C) l :
  (forall x, forallb shaped x = true -> shaped (f x) = true) -> all_whole l -> is_whole (nodes f l).
Proof. intros Hf (x & E & Hx). unfold nodes. rewrite E. exists (f x). auto. Qed.
Lemma call_whole f l : is_whole f -> all_whole l -> is_whole (function_call f l).
Proof.
  intros (x & -> & Hx) (y & E & Hy). unfold function_call. rewrite E. exists (FunctionCall x y).
  split; [done|]. cbn. unfold shaped, expression_shape in *. by rewrite Hx, Hy.
Qed.
Lemma whole_Whole `{Shape A} (a : A) : shaped a = true -> is_whole (Whole a).
Proof. by exists a. Qed.
Lemma all_whole_nil `{Shape A} : all_whole (@nil (ptr A)).
Proof. by exists []. Qed.
Lemma all_whole_cons `{Shape A} (a : ptr A) l : is_whole a -> all_whole l -> all_whole (a :: l).
Proof. intros (x & -> & Hx) (y & E & Hy). exists (x :: y). cbn. by rewrite E, Hx, Hy. Qed.
Lemma optional_Null `{Shape A} : is_optional (@Null A).
Proof. by exists None. Qed.
Lemma optional_whole `{Shape A} (p : ptr A) : is_whole p -> is_optional p.
Proof. intros (x & -> & Hx). by exists (Some x). Qed.

End Whole.

Create HintDb whole.
#[export] Hint Resolve node1_whole node2_whole nodes_whole call_whole whole_Whole all_whole_nil
  all_whole_cons optional_Null optional_whole : whole.

(** ** One level *)

Section Level.

Context {S : Type} `{TokenSource S}.
Local Abbreviation M := (M S).
Local Abbreviation state := (Parser S).
Context (fuel : nat) (parse_expression : Z -> M (ptr Expression))
  (parse_statement : M (ptr Statement)).
Hypothesis expression_makes : forall precedence, makes (parse_expression precedence) is_whole.
Hypothesis statement_makes : makes parse_statement is_whole.

Ltac run :=
  cbv beta;
  lazymatch goal with
  | |- post (mbind _ _) _ _ => apply post_bind
  | |- post (mret _) _ _ => apply post_ret
  | |- post current_type _ _ => apply post_get
  | |- post current_value _ _ => apply post_get
  | |- post previous_value _ _ => apply post_get
  | |- post is_at_end _ _ => apply post_get
  | |- post is_declaration_start _ _ => apply post_bind, post_get, post_ret
  | |- post (get _) _ _ => apply post_get
  | |- post at_label _ _ => apply at_label_post; intros ?
  | |- post (check _) _ _ => apply post_check
  | |- post (error _) _ _ => apply post_error; intros ? ? ?
  | |- post advance _ _ => apply advance_makes; intros ? ? ? _
  | |- post (matches _) _ _ => apply matches_makes; intros ? ? ? _
  | |- post (consume _ _) _ _ => apply consume_makes; intros ? ? ? _
  | |- post (identifier _) _ _ => apply identifier_makes; intros ? ? ? _
  | |- post (skip_to_brace _) _ _ => apply skip_to_brace_makes; intros ? ? ? _
  | |- post (lift (stoll _)) _ _ => apply post_lift; [apply stoll_thrown | intros ? _]
  | |- post (lift (stoi _)) _ _ => apply post_lift; [apply stoi_thrown | intros ? _]
  | |- post (lift (number_node _)) _ _ => apply post_lift; [apply number_node_thrown | intros ? ?%number_node_shape]
  | |- post (throw logic_error) _ _ => done
  | |- post (parse_expression _) _ _ => apply expression_makes; intros ? ? ? ?
  | |- post parse_statement _ _ => apply statement_makes; intros ? ? ? ?
  | |- post (if ?b then _ else _) _ _ => destruct b eqn:?
  end.

Ltac chain :=
  first
    [ assumption
    | apply leads_refl
    | match goal with
      | H : leads ?a _ |- leads ?a _ => refine (leads_trans _ _ _ H _); clear H; chain
      end ].

(** What is known when no error has been reported. *)
Ltac forward :=
  repeat match goal with H : leads _ _ |- _ => destruct H end;
  repeat match goal with
  | H : ?A -> _, Ha : ?A |- _ => specialize (H Ha)
  | H : _ /\ _ |- _ => destruct H
  end; try contradiction.

(** Computes a node from its whole children. *)
Ltac shapes :=
  unfold shaped, expression_shape, statement_shape, case_shape, declaration_shape in *;
  intros; cbn in *; repeat match goal with H : ?x = true |- _ => rewrite H; clear H end; reflexivity.
Ltac trees :=
  unfold is_whole, all_whole, is_optional in *;
  repeat match goal with
  | H : exists _, _ |- _ => destruct H as [? H]; try discriminate
  | H : _ /\ _ |- _ => destruct H; try discriminate
  | H : Whole _ = Whole _ |- _ => injection H as <-
  end; subst;
  cbn; repeat match goal with H : _ = Some _ |- _ => progress (rewrite ?H; cbn) end;
  eexists; (split; [reflexivity | shapes]).
#[local] Hint Extern 5 => solve [shapes] : whole.

Ltac finish :=
  match goal with
  | HQ : forall a p', leads _ p' -> _ -> ?Q a p' |- ?Q _ _ =>
      apply HQ; [chain | intros ? ?; forward; intros; first [done | solve [auto 9 with whole] | trees]]
  end.

Ltac method := intros ? ? HQ; repeat run; finish.

Lemma expressions_loop_makes n : makes (expressions_loop parse_expression n) all_whole.
Proof.
  induction n as [|n IH]; intros p Q HQ; [done|]. cbn [expressions_loop]. do 5 run; [|run; finish].
  run. apply IH. intros. run. finish.
Qed.

Lemma names_loop_makes m n : makes (names_loop m n : M (list string)) anything.
Proof.
  induction n as [|n IH]; intros p Q HQ; [done|]. cbn [names_loop]. do 5 run; [|run; finish].
  run. apply IH. intros ? ? ? _. run. finish.
Qed.

Lemma expressions_makes : makes (expressions fuel parse_expression) all_whole.
Proof. apply expressions_loop_makes. Qed.

Lemma bracketed_makes m1 m2 : makes (bracketed fuel parse_expression m1 m2) all_whole.
Proof.
  intros p Q HQ. unfold bracketed. do 3 run; [do 3 run; finish|].
  run. apply expressions_makes. intros. do 3 run. finish.
Qed.

Ltac runs :=
  first
    [ progress run
    | lazymatch goal with
      | |- post (bracketed _ _ _ _) _ _ => apply bracketed_makes; intros ? ? ? ?
      | |- post (expressions _ _) _ _ => apply expressions_makes; intros ? ? ? ?
      | |- post (names_loop _ _) _ _ => apply names_loop_makes; intros ? ? ? _
      end ].
Ltac methods := intros ? ? HQ; repeat runs; finish.

Lemma primary_makes : makes (parse_primary_expression fuel parse_expression parse_statement) is_whole.
Proof.
  intros p Q HQ. unfold parse_primary_expression. do 2 run.
  destruct (type (current_token_ p)); cbn [type_constant intrinsic];
    unfold parse_intrinsic, parse_table_expression, parse_list_expression, parse_grouped_expression,
      parse_valof_expression, parse_fvalof_expression, parse_vec_initializer_expression;
    repeat runs; finish.
Qed.

Lemma prefix_makes : makes (parse_prefix fuel parse_expression parse_statement) is_whole.
Proof.
  intros p Q HQ. unfold parse_prefix. do 2 run. destruct (prefix_operator _).
  - repeat runs. finish.
  - by apply primary_makes.
Qed.

Lemma infix_makes t left :
  makes (parse_infix fuel parse_expression t left) (fun e => is_whole left -> is_whole e).
Proof.
  intros p Q HQ. unfold parse_infix.
  assert (Hbinary : post
    (match to_binary_op t with
     | None => throw logic_error
     | Some op =>
         right ← parse_expression (get_token_precedence t);
         if is_null right then
           _ ← error "Expected an expression for right operand of binary operator."; mret Null
         else mret (node2 (BinaryOp op) left right)
     end) Q p).
  { destruct (to_binary_op t); repeat runs; finish. }
  destruct t; try exact Hbinary; clear Hbinary; repeat runs; finish.
Qed.

Lemma infix_loop_makes precedence n left :
  makes (infix_loop fuel parse_expression n precedence left) (fun e => is_whole left -> is_whole e).
Proof.
  revert left. induction n as [|n IH]; intros left p Q HQ; [done|]. cbn [infix_loop]. do 3 run.
  - do 3 run. apply infix_makes. intros. apply IH. intros. finish.
  - run. finish.
Qed.

Lemma expression_level_makes precedence :
  makes (expression_level fuel parse_expression parse_statement precedence) is_whole.
Proof.
  intros p Q HQ. unfold expression_level. run. apply prefix_makes. intros.
  apply infix_loop_makes. intros. finish.
Qed.

(** ** Statements *)

Lemma assignment_makes : makes (parse_assignment_or_routine_call fuel parse_expression) is_whole.
Proof.
  intros p Q HQ. unfold parse_assignment_or_routine_call. do 2 run.
  assert (Hassign : post
    (more ← matches TokenType.Comma;
     others ← (if more : bool then expressions fuel parse_expression else mret []);
     _ ← consume TokenType.Assign "Expect ':=' for an assignment statement.";
     rhs ← expressions fuel parse_expression;
     if negb (length (a :: others) =? length rhs)%nat then
       _ ← error "Mismatch in number of l-values and r-values for assignment."; mret Null
     else mret (node (l ← wholes (a :: others); r ← wholes rhs; Some (AssignmentStatement l r)))) Q p').
  { repeat runs; finish. }
  destruct a as [| [] | []]; try exact Hassign; clear Hassign; repeat runs; finish.
Qed.

Lemma let_makes : makes (parse_let_statement fuel parse_expression) is_whole.
Proof. unfold parse_let_statement. methods. Qed.

Lemma globals_makes n : makes (globals_loop n : M (list (string * Z))) anything.
Proof.
  induction n as [|n IH]; intros p Q HQ; [done|]. cbn [globals_loop].
  repeat run; try finish; apply IH; intros ? ? ? _; run; finish.
Qed.

(** A declaration that may stand in a block. *)
Definition inner (d : Declaration) : bool := negb (is_function d) && flat_decl d.
Definition inner_whole (d : ptr Declaration) : Prop := exists x, d = Whole x /\ inner x = true.
Definition inners (l : list (ptr Declaration)) : Prop :=
  exists l', wholes l = Some l' /\ forallb inner l' = true.

Lemma inner_is_whole d : inner_whole d -> is_whole d.
Proof. intros (x & -> & [_ Hx]%andb_true_iff). by exists x. Qed.

Lemma declaration_makes : makes (parse_declaration fuel parse_expression parse_statement) inner_whole.
Proof.
  intros p Q HQ. unfold parse_declaration, parse_label_declaration. do 3 run; [repeat run; finish|].
  do 2 run.
  destruct (type _); unfold parse_manifest_declaration, parse_static_declaration,
    parse_global_declaration; repeat run; try finish.
  apply globals_makes. intros ? ? ? _. repeat run. finish.
Qed.

Definition both_whole (r : list (ptr Declaration) * list (ptr Statement)) : Prop :=
  inners (fst r) /\ all_whole (snd r).

Lemma inners_nil : inners [].
Proof. by exists []. Qed.
Lemma inners_cons d l : inner_whole d -> inners l -> inners (d :: l).
Proof. intros (x & -> & Hx) (y & E & Hy). exists (x :: y). cbn. by rewrite E, Hx, Hy. Qed.

Ltac both :=
  match goal with
  | HQ : forall a p', leads _ p' -> _ -> ?Q a p' |- ?Q _ _ =>
      apply HQ; [chain | intros ? ?; unfold both_whole in *; forward; split; cbn; auto using inners_nil, inners_cons with whole]
  end.

Lemma block_loop_makes n : makes (block_loop fuel parse_expression parse_statement n) both_whole.
Proof.
  induction n as [|n IH]; intros p Q HQ; [done|]. cbn [block_loop].
  assert (Hnil : Q ([], []) p) by (apply HQ; [apply leads_refl | by repeat split; apply all_whole_nil]).
  apply post_bind, post_check, post_bind, post_get. destruct (_ || _); [exact Hnil|].
  apply post_bind, post_check, post_bind, post_check, post_bind. run. destruct (_ || _).
  { run. apply let_makes. intros. run. apply IH. intros. run.
    both. }
  destruct (match type _ with TokenType.Eof => _ | _ => _ end).
  { run. apply declaration_makes. intros. run. apply IH. intros. run.
    both. }
  do 3 run.
  - run. apply HQ; [chain | intros ? ?; split; [apply inners_nil | apply all_whole_nil]].
  - run. apply IH. intros. run.
    both.
Qed.

Lemma block_makes : makes (parse_block_or_compound_statement fuel parse_expression parse_statement) is_whole.
Proof.
  intros p Q HQ. unfold parse_block_or_compound_statement. do 3 run. apply block_loop_makes.
  intros [ds ss] ? ? ?. do 3 run. apply HQ; [chain | intros ? ?; forward].
  destruct H2 as [(ds' & Ed & Fd) (ss' & Es & Fs)]. cbn in Ed, Es. rewrite Es.
  assert (Hb : is_whole (Whole (BlockStatement ds' ss'))).
  { eexists. split; [reflexivity|]. unfold shaped, statement_shape in *. cbn. fold inner. by rewrite Fd, Fs. }
  destruct ds as [|d ds]; [by eexists|]. by rewrite Ed.
Qed.

Lemma guarded_makes keyword name make :
  (forall c s, shaped c = true -> shaped s = true -> shaped (make c s) = true) ->
  makes (parse_guarded parse_expression parse_statement keyword name make) is_whole.
Proof.
  intros Hm. unfold parse_guarded. intros p Q HQ. repeat run; try finish.
  all: apply HQ; [chain | intros ? ?; forward]; apply node2_whole; assumption.
Qed.

Lemma cases_loop_makes n d :
  makes (cases_loop parse_expression parse_statement n d)
    (fun r => is_optional d -> all_whole (fst r) /\ is_optional (snd r)).
Proof.
  revert d. induction n as [|n IH]; intros d p Q HQ; [done|]. cbn [cases_loop].
  apply post_bind, post_check, post_bind, post_get.
  destruct (_ || _); [run; apply HQ; [chain | intros; split; auto with whole]|].
  repeat run;
    first
      [ apply HQ; [chain | intros ? ?; forward; intros; split; cbn; auto with whole]
      | apply IH; intros; try run;
        apply HQ; [chain | intros ? ?; forward; intros; forward;
          try match goal with
          | H : is_optional ?x -> _, W : is_whole ?x |- _ => destruct (H (optional_whole _ W))
          end; split; cbn; auto with whole; trees] ].
Qed.

Lemma switchon_makes : makes (parse_switchon_statement fuel parse_expression parse_statement) is_whole.
Proof.
  intros p Q HQ. unfold parse_switchon_statement. do 9 run. apply cases_loop_makes.
  intros [cs d] ? ? ?. do 3 run. apply HQ; [chain | intros ? ?; forward].
  match goal with H : is_optional Null -> _ |- _ => destruct (H optional_Null) as [[cs' Ec] [d' Ed]] end.
  cbn in Ec, Ed. trees.
Qed.

Lemma primary_statement_makes :
  makes (parse_primary_statement fuel parse_expression parse_statement) is_whole.
Proof.
  intros p Q HQ. unfold parse_primary_statement. do 3 run; [repeat run; finish|].
  apply post_bind, post_check. destruct (checks _ p); [by apply block_makes|].
  do 2 run.
  destruct (type (current_token_ p));
    lazymatch goal with
    | |- post (parse_assignment_or_routine_call _ _) _ _ => by apply assignment_makes
    | |- post (parse_switchon_statement _ _ _) _ _ => by apply switchon_makes
    | |- post (parse_if_statement _ _) _ _ => apply guarded_makes; [shapes | assumption]
    | |- post (parse_unless_statement _ _) _ _ => apply guarded_makes; [shapes | assumption]
    | _ =>
        unfold parse_repeat_statement, parse_test_statement, parse_while_statement, parse_for_statement,
          parse_foreach_statement, parse_goto_statement, parse_free_statement,
          parse_return_statement, parse_finish_statement, parse_break_statement,
          parse_brk_statement, parse_loop_statement, parse_endcase_statement,
          parse_resultis_statement, parse_keyword;
        repeat run; finish
    end.
Qed.

Lemma statement_level_makes : makes (statement_level fuel parse_expression parse_statement) is_whole.
Proof.
  intros p Q HQ. unfold statement_level. do 3 run.
  { run. apply HQ; [chain | intros Hok Hq]. by destruct (Hok Heqb). }
  run. apply primary_statement_makes. intros. do 3 run.
  { run. apply HQ; [chain | intros ? ?; forward].
    match goal with Ho : ok ?q, Hf : fatal_error_ ?q = true |- _ => by destruct (Ho Hf) end. }
  repeat run; finish.
Qed.

(** ** The top level *)

Lemma body_makes name params :
  makes (parse_function_or_routine_body parse_expression parse_statement name params) is_whole.
Proof. unfold parse_function_or_routine_body. methods. Qed.

Lemma toplevel_let_makes :
  makes (parse_toplevel_let_declaration fuel parse_expression parse_statement) is_whole.
Proof.
  intros p Q HQ. unfold parse_toplevel_let_declaration, parse_parameters, more_names.
  repeat runs; try (apply body_makes; intros); try finish.
  all: repeat runs; finish.
Qed.

(** The program so far is whole, and holds no statement. *)
Definition whole_so_far (p : state) : Prop :=
  ok p /\ (quiet p -> all_whole (program_declarations p) /\ program_statements p = []).

Lemma leads_so_far p p' : leads p p' -> whole_so_far p -> whole_so_far p'.
Proof.
  intros (H1 & H2 & [= H3 H4]) [Ho Hw]. split; [auto|]. intros Hq. rewrite H3, H4. auto.
Qed.

Lemma all_whole_app `{Shape A} (l k : list (ptr A)) : all_whole l -> all_whole k -> all_whole (l ++ k).
Proof.
  intros Hl Hk. induction l as [|a l IH]; [done|]. destruct Hl as (x & E & F). cbn in E.
  destruct a as [|a|]; try discriminate. cbn in E. destruct (wholes l) as [y|] eqn:El; [|discriminate].
  injection E as <-. cbn in F. apply andb_true_iff in F as [Fa Fy].
  cbn. apply all_whole_cons; [by exists a|]. apply IH. by exists y.
Qed.

Lemma push_so_far d p :
  whole_so_far p -> (quiet p -> is_whole d) ->
  whole_so_far (set_program (program_declarations p ++ [d]) (program_statements p) p).
Proof.
  intros [Ho Hw] Hd. split; [exact Ho|]. intros Hq. destruct (Hw Hq) as [H1 H2]. split; [|exact H2].
  cbn. apply all_whole_app; [done|]. apply all_whole_cons; [by apply Hd | apply all_whole_nil].
Qed.

Lemma program_turn_post p :
  whole_so_far p ->
  post (program_turn fuel parse_expression parse_statement) (fun _ p' => whole_so_far p') p.
Proof.
  intros Hp. unfold program_turn.
  apply post_bind, post_check, post_bind, post_check, post_bind. run. destruct (_ || _).
  { run. apply toplevel_let_makes. intros d p' Hl Hw. apply post_bind.
    apply push_so_far; [by eapply leads_so_far|]. apply Hw, Hp. }
  destruct (match type _ with TokenType.Eof => _ | _ => _ end).
  { run. apply declaration_makes. intros d p' Hl Hw. apply post_bind.
    apply push_so_far; [by eapply leads_so_far|]. intros Hq. by apply inner_is_whole, Hw; [apply Hp|]. }
  do 2 run. run. apply synchronize_makes. intros ? ? ? _. run. do 2 (eapply leads_so_far; [eassumption|]).
  done.
Qed.

Lemma program_loop_post n p :
  whole_so_far p ->
  post (program_loop fuel parse_expression parse_statement n) (fun _ p' => whole_so_far p') p.
Proof.
  revert p. induction n as [|n IH]; intros p Hp; [done|]. cbn [program_loop].
  apply post_bind, post_get, post_bind, post_get. destruct (_ || _); [done|]. apply post_bind.
  pose proof (program_turn_post p Hp) as Ht. unfold post at 1, catch_runtime_error. unfold post in Ht.
  destruct (program_turn _ _ _ p) as [b p'|e p'|]; [by destruct b; [|apply IH]| |done].
  destruct e as [|[]]; try discriminate.
  change (post (_ ← synchronize fuel; mret false)
    (fun b : bool => post (if b then mret tt else program_loop fuel parse_expression parse_statement n)
       (fun _ p' => whole_so_far p')) p').
  run. apply synchronize_makes. intros ? ? ? _. run. apply IH. eapply leads_so_far; [eassumption|].
  split; [intros _; by apply Ht | intros Hq; by destruct (Ht eq_refl)].
Qed.

End Level.

Section Program.

Context {S : Type} `{TokenSource S}.

Lemma recursion_makes n :
  (forall precedence, makes (parse_expression n precedence : M S _) is_whole)
  /\ makes (parse_statement n : M S _) is_whole.
Proof.
  induction n as [|n [IHe IHs]]; [by split|]. split.
  - intros precedence. by apply expression_level_makes.
  - by apply statement_level_makes.
Qed.

(** What a parse without errors returns. *)
Lemma parse_whole fuel (s : S) ds ss p :
  parse fuel s = Parsed (ds, ss) p -> errors_ p = [] -> all_whole ds /\ ss = [].
Proof.
  unfold parse. intros E Hq. destruct (new_parser s) as [[] p0| |] eqn:E0; [|discriminate..].
  assert (H0 : ok p0).
  { unfold new_parser in E0. revert E0. clear.
    set (p := mkParser _ _ _ _ _ _ _). assert (Hp : ok p) by done. revert Hp. generalize p as q. clear p.
    generalize (Datatypes.S (pending s)) as n. intros n. induction n as [|n IH]; intros q Hq; [done|].
    cbn [advance_loop]. destruct (next (lexer_ q)) as [t lx]. destruct (TokenType.eqb _ _).
    - apply IH. intros _. apply log_quiet.
    - intros [= <-]. exact Hq. }
  unfold parse_program, program_level in E. unfold mbind, M_bind in E. cbn in E.
  destruct (recursion_makes fuel) as [He Hs].
  assert (Hw : whole_so_far (set_program [] [] p0)).
  { split; [exact H0|]. intros _. split; [apply all_whole_nil | done]. }
  pose proof (program_loop_post fuel _ _ He Hs fuel _ Hw) as Hl. unfold post in Hl.
  destruct (program_loop _ _ _ _ _) as [[] p1| |]; [|discriminate..].
  injection E as <- <- <-. by apply Hl.
Qed.

End Program.
