(* ===== verification/FrontEnd.v ===== *)
(** * From text to trees

    The lexer as the parser's source of tokens, and what the two promise together: positions
    and literals of the lexer, termination of the parser and the text that makes it loop, no
    null pointer without an error, and the syntax the parser has no rule for. *)

From S2P Require Import Prelude CallFrame Ast Trees Analysis Data Lexer LexerProof Parser ParserProof ParserWhole.
Local Open Scope Z_scope.

(** ** The lexer is a source of tokens *)

#[export] Instance LexerSource : TokenSource Lexer.
Proof.
  refine {| next := get_next_token; pending := remaining |}.
  - apply get_next_token_pending.
  - intros lx He. destruct (get_next_token_eof lx He) as [-> Ht]. split; [lia | exact Ht].
Defined.

(** The lexer after [k] tokens. *)
Definition after_tokens (k : nat) (source : string) : Lexer := after k (new_lexer source).

Lemma placed_tokens source k lx : placed source lx -> placed source (after k lx).
Proof. intros Hp. unfold after. induction k as [|k IH]; [done|]. cbn. by apply placed_next. Qed.

(** C15: after any number of calls of [get_next_token] the lexer still holds the
    text it was given, stands inside it, its line is one more than the number of newlines it
    has passed, and its column one more than the number of characters after the last of them. *)
Theorem lexer_positions source k :
  let lx := after_tokens k source in
  source_ lx = source
  /\ (position_ lx <= String.length source)%nat
  /\ line_ lx = 1 + newlines (string_take (position_ lx) source)
  /\ column_ lx = 1 + last_line (string_take (position_ lx) source).
Proof. cbv zeta. destruct (placed_tokens source k _ (placed_new source)). auto. Qed.

(** Words separated by blanks are read one by one: the types and values of
    the tokens of a text are those of its words, each lexed by itself in the state (after a
    value, or not) the token before it leaves. *)
Theorem words_read_alone us l :
  read_words false us = Some l -> lexes (new_lexer (text us)) l.
Proof. intros Hr. by apply (words_lex us). Qed.

Lemma words_read_alone_witness :
  exists l, read_words false ["x"; ":="; "a"; "!"; "3"; "+"; "!"; "b"]%string = Some l
    /\ lexes (new_lexer (text ["x"; ":="; "a"; "!"; "3"; "+"; "!"; "b"]%string)) l.
Proof.
  eexists. split; [vm_compute; reflexivity|]. apply words_read_alone. vm_compute. reflexivity.
Defined.

(** C14: every string, written between quotes with the escapes of the
    language, is read back as a string literal of that value, and every character, written
    between apostrophes, as a character literal; what follows is left unread. *)
Theorem literals_round_trip :
  (forall v s lx, rest lx = (spell_string v ++ s)%string ->
     let '(t, lx') := get_next_token lx in
     type t = TokenType.StringLiteral /\ value t = v /\ rest lx' = s)
  /\ (forall c s lx, rest lx = (spell_char c ++ s)%string ->
     let '(t, lx') := get_next_token lx in
     type t = TokenType.CharLiteral /\ value t = String c "" /\ rest lx' = s).
Proof.
  split; intros ? s lx E.
  - destruct (spelled_string_read _ _ _ E) as (H1 & H2 & H3). by destruct (get_next_token lx).
  - destruct (spelled_char_read _ _ _ E) as (H1 & H2 & H3). by destruct (get_next_token lx).
Qed.

Lemma literals_round_trip_witness :
  type (fst (get_next_token (new_lexer (spell_string "a*b" ++ " x")))) = TokenType.StringLiteral
  /\ value (fst (get_next_token (new_lexer (spell_string "a*b" ++ " x")))) = "a*b"%string
  /\ value (fst (get_next_token (new_lexer (spell_char "'" ++ " x")))) = "'"%string.
Proof.
  pose proof (proj1 literals_round_trip "a*b"%string " x"%string
    (new_lexer (spell_string "a*b" ++ " x")) eq_refl) as H1.
  pose proof (proj2 literals_round_trip "'"%char " x"%string
    (new_lexer (spell_char "'" ++ " x")) eq_refl) as H2.
  destruct (get_next_token (new_lexer (spell_string _ ++ _))) as [t lx].
  destruct (get_next_token (new_lexer (spell_char _ ++ _))) as [t' lx']. tauto.
Defined.

(** ** Termination *)

(** No token of the text is the keyword FUNCTION or ROUTINE. *)
Definition without_function (source : string) : Prop :=
  forall k, loops_on (type (fst (get_next_token (after_tokens k source)))) = false.

(** C12: on every text without the keywords FUNCTION and ROUTINE the parser
    terminates: it returns or throws, with fuel linear in the length of the text. *)
Theorem parser_terminates source fuel :
  without_function source -> (2 * String.length source + 8 <= fuel)%nat ->
  parse fuel (new_lexer source) <> OutOfFuel.
Proof.
  intros Hc Hf. apply parse_ends; [exact Hc|]. cbn. unfold remaining. cbn. lia.
Qed.

Lemma after_eof k lx : type (fst (get_next_token lx)) = TokenType.Eof ->
  type (fst (get_next_token (after k lx))) = TokenType.Eof.
Proof.
  revert lx. induction k as [|k IH]; intros lx E; [done|]. unfold after. rewrite Nat.iter_succ_r.
  apply IH. by apply get_next_token_eof.
Qed.

(** Checks the tokens up to the end. *)
Fixpoint function_free (n : nat) (lx : Lexer) : bool :=
  match n with
  | O => false
  | S n =>
      let '(t, lx') := get_next_token lx in
      if TokenType.eqb (type t) TokenType.Eof then true
      else negb (loops_on (type t)) && function_free n lx'
  end.

Lemma function_free_sound n source :
  function_free n (new_lexer source) = true -> without_function source.
Proof.
  unfold without_function, after_tokens. generalize (new_lexer source) as lx.
  induction n as [|n IH]; intros lx Hn; [done|]. cbn [function_free] in Hn.
  intros k. destruct (get_next_token lx) as [t lx'] eqn:E.
  destruct (TokenType.eqb (type t) TokenType.Eof) eqn:Et.
  - apply TokenType.eqb_eq in Et. by rewrite after_eof by by rewrite E.
  - apply andb_true_iff in Hn as [H1 H2]. apply negb_true_iff in H1. destruct k as [|k].
    + cbn. by rewrite E.
    + unfold after. rewrite Nat.iter_succ_r. cbn [next LexerSource]. rewrite E. by apply IH.
Qed.

Definition sample_text : string := "LET f(x) = VALOF { x := x + 1 RESULTIS x } LET g() BE f(2)".

Lemma parser_terminates_witness :
  without_function sample_text /\ parse 200 (new_lexer sample_text) <> OutOfFuel.
Proof.
  assert (Hw : without_function sample_text)
    by (apply (function_free_sound 40); vm_compute; reflexivity).
  split; [exact Hw|]. apply (parser_terminates sample_text 200 Hw). vm_compute. lia.
Defined.

(** ** The text that makes the parser loop *)

Section Running.

Context {S : Type} `{TokenSource S}.
Local Abbreviation M := (M S).

Lemma bind_parsed {A B} (m : M A) (f : A -> M B) p a p' :
  m p = Parsed a p' -> mbind f m p = f a p'.
Proof. unfold mbind, M_bind. by intros ->. Qed.

Lemma bind_out {A B} (m : M A) (f : A -> M B) p : m p = OutOfFuel -> mbind f m p = OutOfFuel.
Proof. unfold mbind, M_bind. by intros ->. Qed.

Lemma catch_out {A} (m h : M A) p : m p = OutOfFuel -> catch_runtime_error m h p = OutOfFuel.
Proof. unfold catch_runtime_error. by intros ->. Qed.

Lemma check_parsed t (p : Parser S) : check t p = Parsed (checks t p) p.
Proof. done. Qed.

Lemma checks_type t u (p : Parser S) :
  type (current_token_ p) = u -> u <> TokenType.Eof -> checks t p = TokenType.eqb u t.
Proof.
  unfold checks, at_end. intros -> Hu. destruct (TokenType.eqb u TokenType.Eof) eqn:E; [|done].
  by apply TokenType.eqb_eq in E.
Qed.

End Running.

(** Compares token types that are known. *)
Ltac eval_types :=
  repeat match goal with
  | |- context [TokenType.eqb ?a ?b] =>
      let c := eval vm_compute in (TokenType.eqb a b) in
      lazymatch c with true => idtac | false => idtac end;
      change (TokenType.eqb a b) with c
  end; cbn [orb andb negb].

(** Runs a test of the current token, whose type [E] gives. *)
Ltac look p E :=
  rewrite (bind_parsed _ _ _ _ _ (check_parsed _ p)), (checks_type _ _ _ E) by discriminate;
  eval_types.

(** One turn of the loop of a block: the declaration is reported and left where it is. *)
Ltac turn p E :=
  look p E; erewrite bind_parsed by reflexivity;
  replace (at_end p) with false by (unfold at_end; by rewrite E); cbn [orb];
  look p E; look p E;
  erewrite bind_parsed by (unfold is_declaration_start, mbind, M_bind, current_type, get; by rewrite E);
  unfold mbind, M_bind.

Section Hangs.

Context {S : Type} `{TokenSource S}.
Local Abbreviation M := (M S).

(** The keywords that start a declaration the parser has no rule for. *)
Definition without_rule (t : TokenType) : Prop := t = TokenType.Function \/ t = TokenType.Routine.

Lemma declaration_reported fuel (expression : Z -> M (ptr Expression)) statement p :
  without_rule (type (current_token_ p)) ->
  parse_declaration fuel expression statement p
  = Parsed (@Null Declaration) (log "Unknown or unexpected declaration type." p).
Proof.
  intros [E|E]; unfold parse_declaration, at_label, mbind, M_bind, mret, M_ret; rewrite check_parsed;
    rewrite (checks_type _ _ _ E) by discriminate; eval_types; unfold peek_type, current_type, get;
    cbv beta iota; by rewrite E.
Qed.

Lemma block_loop_hangs fuel (expression : Z -> M (ptr Expression)) statement n p :
  without_rule (type (current_token_ p)) ->
  block_loop fuel expression statement n p = OutOfFuel.
Proof.
  revert p. induction n as [|n IH]; intros p W; [done|]. cbn [block_loop].
  specialize (IH (log "Unknown or unexpected declaration type." p) W). unfold mbind, M_bind in IH.
  destruct W as [E|E]; turn p E; (rewrite declaration_reported; [by rewrite IH|]); rewrite E; [by left | by right].
Qed.

Lemma statement_hangs n p :
  fatal_error_ p = false -> type (current_token_ p) = TokenType.LBrace ->
  without_rule (type (fst (next (lexer_ p)))) -> parse_statement n p = OutOfFuel.
Proof.
  intros Hf E En. destruct n as [|n]; [done|]. cbn [parse_statement].
  unfold statement_level. erewrite bind_parsed by reflexivity. rewrite Hf.
  apply bind_out. unfold parse_primary_statement.
  rewrite (bind_parsed _ _ p false p) by
    (unfold at_label, mbind, M_bind; rewrite check_parsed, (checks_type _ _ _ E) by discriminate; done).
  look p E.
  unfold parse_block_or_compound_statement, consume, mbind, M_bind.
  rewrite check_parsed, (checks_type _ _ _ E) by discriminate.
  eval_types.
  unfold advance. cbn [advance_loop lexer_ set_previous]. destruct (next (lexer_ p)) as [t lx] eqn:Ex.
  cbn [fst] in En. replace (TokenType.eqb (type t) TokenType.Error) with false by (destruct En as [-> | ->]; done).
  by rewrite block_loop_hangs.
Qed.

End Hangs.

(** Runs the next computation on a known state. *)
Ltac step := erewrite bind_parsed by (vm_compute; reflexivity); cbv iota beta.

Definition looping_text (keyword rest : string) : string := ("LET f() BE $( " ++ keyword ++ " " ++ rest)%string.

(** The parser up to the block of the looping text. *)
Ltac program_hangs n rest :=
  match goal with |- context [new_parser ?l] =>
    let r := eval vm_compute in (new_parser l) in
    let E := fresh in assert (E : new_parser l = r) by (vm_compute; reflexivity); rewrite E; clear E
  end;
  let Hs := fresh in
  pose proof (statement_hangs (S:=Lexer) (Datatypes.S n)) as Hs; revert Hs;
  generalize (parse_statement (S:=Lexer) (Datatypes.S n));
  generalize (parse_expression (S:=Lexer) (Datatypes.S n));
  let e := fresh in let st := fresh in intros e st Hs;
  unfold program_level; step; apply bind_out; cbn [program_loop]; do 2 step; apply bind_out;
  cbn [orb]; apply catch_out; unfold program_turn; do 3 step; cbn [orb]; apply bind_out;
  unfold parse_toplevel_let_declaration; do 4 step; unfold parse_parameters;
  step; unfold parse_function_or_routine_body; do 2 step; apply bind_out, Hs;
  first [vm_compute; reflexivity | vm_compute; by left | vm_compute; by right].

(** C16: the loop of a block that comes to the keyword FUNCTION or ROUTINE, where a statement
    or a declaration would begin, does not terminate, wherever the parser is and however it
    parses the rest: no fuel is enough.  A token that starts a declaration the parser has no
    rule for is reported and left where it is, and the loop does not stop on errors.  So the
    parser hangs on every text that begins with LET f() BE $( FUNCTION, or with ROUTINE in its
    place, whatever follows. *)
Theorem function_in_block_hangs :
  (forall fuel expression statement n (p : Parser Lexer),
     type (current_token_ p) = TokenType.Function \/ type (current_token_ p) = TokenType.Routine ->
     block_loop fuel expression statement n p = OutOfFuel)
  /\ (forall fuel keyword rest, keyword ∈ ["FUNCTION"; "ROUTINE"]%string ->
       parse fuel (new_lexer (looping_text keyword rest)) = OutOfFuel).
Proof.
  split; [intros fuel expression statement n p; apply block_loop_hangs|].
  intros fuel keyword rest Hk. destruct fuel as [|n]; [reflexivity|].
  rewrite !elem_of_cons, elem_of_nil in Hk. unfold parse, parse_program.
  destruct Hk as [->|[->|[]]]; program_hangs n rest.
Qed.

Lemma function_in_block_hangs_witness :
  parse 100%nat (new_lexer "LET f() BE $( ROUTINE $) x := 1") = OutOfFuel.
Proof. apply (proj2 function_in_block_hangs 100%nat "ROUTINE" "$) x := 1"). right. by left. Defined.

(** ** Without errors there is no null pointer *)

(** C13: when the parser returns and has reported nothing, every
    declaration it made is a whole tree, with no null pointer where the node's class forbids
    one and no function or routine inside a block, and the list of statements of the program
    is empty; this is what the later passes rely on when they follow pointers without
    looking. *)
Theorem error_free_trees_whole source fuel ds ss p :
  parse fuel (new_lexer source) = Parsed (ds, ss) p -> errors_ p = [] ->
  exists trees, wholes ds = Some trees /\ forallb flat_decl trees = true /\ ss = [].
Proof. intros E Hq. destruct (parse_whole _ _ _ _ _ E Hq) as [(trees & Ht & Hf) Hs]. eauto. Qed.

Lemma error_free_trees_whole_witness :
  exists ds ss p trees, parse 20 (new_lexer sample_text) = Parsed (ds, ss) p /\ errors_ p = []
    /\ wholes ds = Some trees /\ forallb flat_decl trees = true /\ ss = [] /\ List.length trees = 2%nat.
Proof.
  do 3 eexists.
  assert (E : parse 20 (new_lexer sample_text) = Parsed _ _) by (vm_compute; reflexivity).
  destruct (error_free_trees_whole sample_text 20 _ _ _ E) as (trees & Ht & Hf & Hs); [reflexivity|].
  exists trees. split; [exact E|]. split; [reflexivity|]. split; [exact Ht|]. split; [exact Hf|].
  split; [exact Hs|]. vm_compute in Ht. injection Ht as <-. reflexivity.
Defined.

(** ** Syntax without a rule *)

Lemma hash_number v : number_node (String "#" v) = Throw invalid_argument.
Proof.
  unfold number_node. destruct (_ || _); [|reflexivity]. reflexivity.
Qed.

Lemma lexed_never t : lexed t = false -> t <> TokenType.Eof ->
  forall lx, type (fst (get_next_token lx)) <> t.
Proof.
  intros Ht He lx E. destruct (get_next_token_spec lx) as [(_ & H & _) | (_ & H & _)]; congruence.
Qed.

Lemma parse_statement_step {S} `{TokenSource S} n :
  parse_statement (S:=S) (Datatypes.S n) = statement_level n (parse_expression n) (parse_statement n).
Proof. done. Qed.
Lemma parse_expression_step {S} `{TokenSource S} n q :
  parse_expression (S:=S) (Datatypes.S n) q = expression_level n (parse_expression n) (parse_statement n) q.
Proof. done. Qed.

(** Four notations of the language that no program can use.  A number
    token that starts with [#], hexadecimal or octal, always makes the parser throw.  The
    lexer never makes the token of [#%], because [#] starts a number.  The operators [&]
    and, after a value, [%] end an expression instead of continuing it.  A statement that
    starts with UNTIL is an error. *)
Theorem syntax_without_rule :
  (forall v, number_node (String "#" v) = Throw invalid_argument)
  /\ (forall lx, type (fst (get_next_token lx)) <> TokenType.FloatVecIndirection)
  /\ (forall fuel expression n q left (p : Parser Lexer), 0 <= q ->
       type (current_token_ p) = TokenType.BitwiseAnd
       \/ type (current_token_ p) = TokenType.CharVectorIndirection ->
       infix_loop fuel expression (S n) q left p = Parsed left p)
  /\ (forall n (p : Parser Lexer), type (current_token_ p) = TokenType.Until ->
       exists p', parse_statement (S (S (S n))) p = Parsed Null p'
         /\ (fatal_error_ p = false -> errors_ p' <> [])).
Proof.
  split; [apply hash_number|]. split; [apply lexed_never; [vm_compute; reflexivity | done]|]. split.
  - intros fuel expression n q left p Hq Ht. cbn [infix_loop]. unfold mbind, M_bind, current_type, get.
    replace (get_token_precedence (type (current_token_ p))) with 0 by by destruct Ht as [-> | ->].
    replace (q <? 0) with false by lia. by rewrite andb_false_r.
  - intros n p E. destruct (fatal_error_ p) eqn:Hf.
    { exists p. split; [|done]. rewrite parse_statement_step. unfold statement_level.
      erewrite bind_parsed by reflexivity. by rewrite Hf. }
    set (p1 := log "Expected an expression." p).
    set (p2 := log "Expected an expression for assignment or routine call." p1).
    exists p2. split; [|intros _; apply (log_quiet _ p1)].
    assert (Ee : parse_expression (S (S n)) 0 p = Parsed Null p1).
    { rewrite parse_expression_step. unfold expression_level.
      rewrite (bind_parsed _ _ p Null p1); [reflexivity|]. unfold parse_prefix.
      erewrite bind_parsed by reflexivity. rewrite E. cbn [prefix_operator].
      unfold parse_primary_expression. erewrite bind_parsed by reflexivity. rewrite E. reflexivity. }
    rewrite parse_statement_step. revert Ee.
    generalize (parse_expression (S:=Lexer) (S (S n))) (parse_statement (S:=Lexer) (S (S n))).
    intros expression statement Ee. unfold statement_level.
    erewrite bind_parsed by reflexivity. rewrite Hf. rewrite (bind_parsed _ _ p Null p2); [reflexivity|]. unfold parse_primary_statement.
    rewrite (bind_parsed _ _ p false p) by
      (unfold at_label, mbind, M_bind; rewrite check_parsed, (checks_type _ _ _ E) by discriminate; done).
    look p E. erewrite bind_parsed by reflexivity. rewrite E.
    unfold parse_assignment_or_routine_call. rewrite (bind_parsed _ _ _ _ _ Ee). reflexivity.
Qed.

Lemma syntax_without_rule_witness :
  number_node "#X1F" = Throw invalid_argument
  /\ exists p, parse_statement 3 (mkParser (new_lexer "") [] []
       (mkToken TokenType.Until "UNTIL" 1 1) None false []) = Parsed Null p /\ errors_ p <> [].
Proof.
  destruct syntax_without_rule as (H1 & _ & _ & H2). split; [apply H1|].
  destruct (H2 0%nat (mkParser (new_lexer "") [] [] (mkToken TokenType.Until "UNTIL" 1 1) None false []))
    as (p & Hp & He); [reflexivity|]. exists p. split; [exact Hp | by apply He].
Defined.
