(* ===== verification/Manifests.v ===== *)
(** * Manifest constants

    [ManifestResolutionPass] (src/passes/ManifestResolutionPass.cpp), the first pass over the
    parsed tree: it removes MANIFEST declarations and replaces the variables they name by
    their values.  A visitor works on the node that [current_transformed_node_] holds; here it
    returns what is there afterwards, for a declaration possibly nothing.  The innermost
    scope comes first in the stack. *)

From S2P Require Import Prelude State Ast.
Local Open Scope Z_scope.

(** ** The pass *)

Record resolver : Type := mkResolver {
  global_manifests_ : gmap string Z;
  current_scope_manifests_stack_ : list (gmap string Z);
  current_scope_name_ : string
}.

Definition R (A : Type) : Type := ST resolver A.

Definition ManifestResolutionPass_new (global_manifests : gmap string Z) : resolver :=
  mkResolver global_manifests [∅] "Global".

Definition get_manifest_value (name : string) (r : resolver) : option Z :=
  match current_scope_manifests_stack_ r with
  | top :: _ =>
      match top !! name with Some v => Some v | None => global_manifests_ r !! name end
  | [] => global_manifests_ r !! name
  end.

Definition set_scope_name (name : string) (r : resolver) : resolver :=
  mkResolver (global_manifests_ r) (current_scope_manifests_stack_ r) name.
Definition push_scope (r : resolver) : resolver :=
  mkResolver (global_manifests_ r) (∅ :: current_scope_manifests_stack_ r) (current_scope_name_ r).
Definition pop_scope (r : resolver) : resolver :=
  mkResolver (global_manifests_ r) (tail (current_scope_manifests_stack_ r)) (current_scope_name_ r).

(** [visit(ManifestDeclaration&)] *)
Definition note_manifest (name : string) (value : Z) (r : resolver) : resolver :=
  mkResolver
    (if String.eqb (current_scope_name_ r) "Global" then <[name := value]> (global_manifests_ r)
     else global_manifests_ r)
    (match current_scope_manifests_stack_ r with
     | top :: stack => <[name := value]> top :: stack
     | [] => []
     end)
    (current_scope_name_ r).

(** [visit(VariableAccess&)] *)
Definition visit_VariableAccess (name unique_name : string) : R Expression :=
  manifest_value ← st_get (get_manifest_value name);
  mret match manifest_value with
       | Some v => NumberLiteral (Integer v)
       | None => VariableAccess name unique_name
       end.

Definition visit_optional {A} (visit : A -> R A) (o : option A) : R (option A) :=
  match o with Some a => a ← visit a; mret (Some a) | None => mret None end.

(** The scope of a function or routine, and of a block. *)
Definition in_function {A} (name : string) (body : R A) : R A :=
  st_modify (set_scope_name name);;
  st_modify push_scope;;
  a ← body;
  st_modify pop_scope;;
  st_modify (set_scope_name "Global");;
  mret a.
Definition block_name (r : resolver) : string :=
  (current_scope_name_ r ++ "_block_"
   ++ to_string (Z.of_nat (List.length (current_scope_manifests_stack_ r))))%string.
Definition in_block {A} (body : R A) : R A :=
  previous_scope_name ← st_get current_scope_name_;
  name ← st_get block_name;
  st_modify (set_scope_name name);;
  st_modify push_scope;;
  a ← body;
  st_modify pop_scope;;
  st_modify (set_scope_name previous_scope_name);;
  mret a.

(** The pointers of a vector that are not null. *)
Definition present {A} (l : list (option A)) : list A := omap id l.

(** [GlobalVariableDeclaration]: only initializers that have a name are visited. *)
Definition visit_named (visit : Expression -> R Expression)
    : list string -> list Expression -> R (list Expression) :=
  fix go names l {struct l} :=
    match l, names with
    | e :: l, _ :: names => e ← visit e; l ← go names l; mret (e :: l)
    | _, _ => mret l
    end.

Fixpoint visit_expr (e : Expression) : R Expression :=
  match e with
  | VariableAccess name unique_name => visit_VariableAccess name unique_name
  | BinaryOp op l r => l ← visit_expr l; r ← visit_expr r; mret (BinaryOp op l r)
  | UnaryOp op a => a ← visit_expr a; mret (UnaryOp op a)
  | VectorAccess v i => v ← visit_expr v; i ← visit_expr i; mret (VectorAccess v i)
  | CharIndirection v i => v ← visit_expr v; i ← visit_expr i; mret (CharIndirection v i)
  | FloatVectorIndirection v i =>
      v ← visit_expr v; i ← visit_expr i; mret (FloatVectorIndirection v i)
  | FunctionCall f args =>
      f ← visit_expr f; args ← st_map visit_expr args; mret (FunctionCall f args)
  | ConditionalExpression c t f =>
      c ← visit_expr c; t ← visit_expr t; f ← visit_expr f; mret (ConditionalExpression c t f)
  | ValofExpression body => body ← visit_stmt body; mret (ValofExpression body)
  | VecAllocationExpression n v => n ← visit_expr n; mret (VecAllocationExpression n v)
  | StringAllocationExpression n => n ← visit_expr n; mret (StringAllocationExpression n)
  | TableExpression l is_float => l ← st_map visit_expr l; mret (TableExpression l is_float)
  | SysCall name n args =>
      n ← visit_expr n; args ← st_map visit_expr args; mret (SysCall name n args)
  | NumberLiteral _ | StringLiteral _ | CharLiteral _ | BooleanLiteral _ | ListExpression _ _
  | VecInitializerExpression _ | BitfieldAccessExpression _ _ _ | FloatValofExpression _
  | FVecAllocationExpression _ _ => mret e
  end
with visit_stmt (s : Statement) : R Statement :=
  match s with
  | LetDeclaration names l is_float => l ← st_map visit_expr l; mret (LetDeclaration names l is_float)
  | AssignmentStatement lhs rhs =>
      lhs ← st_map visit_expr lhs; rhs ← st_map visit_expr rhs; mret (AssignmentStatement lhs rhs)
  | RoutineCallStatement f args =>
      f ← visit_expr f; args ← st_map visit_expr args; mret (RoutineCallStatement f args)
  | IfStatement c t => c ← visit_expr c; t ← visit_stmt t; mret (IfStatement c t)
  | UnlessStatement c t => c ← visit_expr c; t ← visit_stmt t; mret (UnlessStatement c t)
  | TestStatement c t e =>
      c ← visit_expr c; t ← visit_stmt t; e ← visit_optional visit_stmt e; mret (TestStatement c t e)
  | WhileStatement c b => c ← visit_expr c; b ← visit_stmt b; mret (WhileStatement c b)
  | UntilStatement c b => c ← visit_expr c; b ← visit_stmt b; mret (UntilStatement c b)
  | RepeatStatement kind b c =>
      b ← visit_stmt b; c ← visit_optional visit_expr c; mret (RepeatStatement kind b c)
  | ForStatement v u us ue a b st body =>
      a ← visit_expr a; b ← visit_expr b; st ← visit_optional visit_expr st;
      body ← visit_stmt body; mret (ForStatement v u us ue a b st body)
  | SwitchonStatement e cases d =>
      e ← visit_expr e; cases ← st_map visit_case cases; d ← visit_optional visit_stmt d;
      mret (SwitchonStatement e cases d)
  | GotoStatement e => e ← visit_expr e; mret (GotoStatement e)
  | ResultisStatement e => e ← visit_expr e; mret (ResultisStatement e)
  | CompoundStatement l => l ← st_map visit_stmt l; mret (CompoundStatement l)
  | BlockStatement ds l =>
      in_block (ds ← st_map visit_decl ds; l ← st_map visit_stmt l;
                mret (BlockStatement (present ds) l))
  | StringStatement e => e ← visit_expr e; mret (StringStatement e)
  | FreeStatement e => e ← visit_expr e; mret (FreeStatement e)
  | ForEachStatement _ _ _ _ _ _ | CaseStatement _ | DefaultStatement _ | ReturnStatement
  | FinishStatement _ _ | BreakStatement | BrkStatement | LoopStatement | EndcaseStatement
  | LabelTargetStatement _ | ConditionalBranchStatement _ _ _ => mret s
  end
with visit_case (c : CaseClause) : R CaseClause :=
  match c with
  | mkCase e command resolved =>
      e ← visit_expr e; command ← visit_stmt command; mret (mkCase e command resolved)
  end
with visit_decl (d : Declaration) : R (option Declaration) :=
  match d with
  | ManifestDeclaration name value => st_modify (note_manifest name value);; mret None
  | StaticDeclaration name e is_float =>
      e ← visit_expr e; mret (Some (StaticDeclaration name e is_float))
  | GlobalDeclaration g => mret (Some (GlobalDeclaration g))
  | GlobalVariableDeclaration names l is_float =>
      l ← visit_named visit_expr names l; mret (Some (GlobalVariableDeclaration names l is_float))
  | FunctionDeclaration name parameters body =>
      body ← in_function name (visit_expr body); mret (Some (FunctionDeclaration name parameters body))
  | RoutineDeclaration name parameters body =>
      body ← in_function name (visit_stmt body); mret (Some (RoutineDeclaration name parameters body))
  | LabelDeclaration name command =>
      command ← visit_stmt command; mret (Some (LabelDeclaration name command))
  end.

Definition visit_program (p : Program) : R Program :=
  ds ← st_map visit_decl (declarations p);
  ss ← st_map visit_stmt (statements p);
  mret (mkProgram (present ds) ss).

Definition apply (p : Program) : R Program :=
  st_modify (fun _ => mkResolver ∅ [∅] "Global");; visit_program p.
