(* ===== verification/ManifestsProof.v ===== *)
(** * What manifest resolution computes

    The pass of Manifests.v against a traversal without state: [resolve_*] carry the
    constants of the program and those of the innermost block down the tree.  The results:
    the pass is that traversal, it leaves no visible constant, and it keeps the values of
    expressions and assignments; and the variables it should have left alone. *)

From S2P Require Import Prelude Words State Ast Trees Data OpsRun ExprProof BlockProof ConstFold ConstFoldProof Manifests.
Local Open Scope Z_scope.
Import Manifests.

(** ** The specification *)

(** The constants a name may stand for: those of the block, then those of the program. *)
Definition visible (g top : gmap string Z) : gmap string Z := top ∪ g.

Definition resolve_VariableAccess (m : gmap string Z) (name unique_name : string) : Expression :=
  match m !! name with
  | Some v => NumberLiteral (Integer v)
  | None => VariableAccess name unique_name
  end.

(** The constants of a block after a declaration. *)
Definition declare (d : Declaration) (top : gmap string Z) : gmap string Z :=
  match d with ManifestDeclaration name value => <[name := value]> top | _ => top end.

(** The declarations of a block in their order, and its constants after them. *)
Definition scan (f : gmap string Z -> Declaration -> option Declaration)
    : gmap string Z -> list Declaration -> list (option Declaration) * gmap string Z :=
  fix go top ds :=
    match ds with
    | [] => ([], top)
    | d :: ds => let '(l, top') := go (declare d top) ds in (f top d :: l, top')
    end.

Definition resolve_named (f : Expression -> Expression) : list string -> list Expression -> list Expression :=
  fix go names l {struct l} :=
    match l, names with
    | e :: l, _ :: names => f e :: go names l
    | _, _ => l
    end.

Fixpoint resolve_expr (g top : gmap string Z) (e : Expression) : Expression :=
  let resolve := resolve_expr g top in
  match e with
  | VariableAccess name unique_name => resolve_VariableAccess (visible g top) name unique_name
  | BinaryOp op l r => BinaryOp op (resolve l) (resolve r)
  | UnaryOp op a => UnaryOp op (resolve a)
  | VectorAccess v i => VectorAccess (resolve v) (resolve i)
  | CharIndirection v i => CharIndirection (resolve v) (resolve i)
  | FloatVectorIndirection v i => FloatVectorIndirection (resolve v) (resolve i)
  | FunctionCall f args => FunctionCall (resolve f) (List.map resolve args)
  | ConditionalExpression c t f => ConditionalExpression (resolve c) (resolve t) (resolve f)
  | ValofExpression body => ValofExpression (resolve_stmt g top body)
  | VecAllocationExpression n v => VecAllocationExpression (resolve n) v
  | StringAllocationExpression n => StringAllocationExpression (resolve n)
  | TableExpression l is_float => TableExpression (List.map resolve l) is_float
  | SysCall name n args => SysCall name (resolve n) (List.map resolve args)
  | _ => e
  end
with resolve_stmt (g top : gmap string Z) (s : Statement) : Statement :=
  let resolve := resolve_expr g top in
  let command := resolve_stmt g top in
  match s with
  | LetDeclaration names l is_float => LetDeclaration names (List.map resolve l) is_float
  | AssignmentStatement lhs rhs => AssignmentStatement (List.map resolve lhs) (List.map resolve rhs)
  | RoutineCallStatement f args => RoutineCallStatement (resolve f) (List.map resolve args)
  | IfStatement c t => IfStatement (resolve c) (command t)
  | UnlessStatement c t => UnlessStatement (resolve c) (command t)
  | TestStatement c t e => TestStatement (resolve c) (command t) (option_map command e)
  | WhileStatement c b => WhileStatement (resolve c) (command b)
  | UntilStatement c b => UntilStatement (resolve c) (command b)
  | RepeatStatement kind b c => RepeatStatement kind (command b) (option_map resolve c)
  | ForStatement v u us ue a b st body =>
      ForStatement v u us ue (resolve a) (resolve b) (option_map resolve st) (command body)
  | SwitchonStatement e cases d =>
      SwitchonStatement (resolve e) (List.map (resolve_case g top) cases) (option_map command d)
  | GotoStatement e => GotoStatement (resolve e)
  | ResultisStatement e => ResultisStatement (resolve e)
  | CompoundStatement l => CompoundStatement (List.map command l)
  | BlockStatement ds l =>
      let '(ds, inner) := scan (resolve_decl g) ∅ ds in
      BlockStatement (present ds) (List.map (resolve_stmt g inner) l)
  | StringStatement e => StringStatement (resolve e)
  | FreeStatement e => FreeStatement (resolve e)
  | _ => s
  end
with resolve_case (g top : gmap string Z) (c : CaseClause) : CaseClause :=
  match c with
  | mkCase e command resolved => mkCase (resolve_expr g top e) (resolve_stmt g top command) resolved
  end
with resolve_decl (g top : gmap string Z) (d : Declaration) : option Declaration :=
  match d with
  | ManifestDeclaration _ _ => None
  | StaticDeclaration name e is_float => Some (StaticDeclaration name (resolve_expr g top e) is_float)
  | GlobalDeclaration globals => Some (GlobalDeclaration globals)
  | GlobalVariableDeclaration names l is_float =>
      Some (GlobalVariableDeclaration names (resolve_named (resolve_expr g top) names l) is_float)
  | FunctionDeclaration name parameters body =>
      Some (FunctionDeclaration name parameters (resolve_expr g ∅ body))
  | RoutineDeclaration name parameters body =>
      Some (RoutineDeclaration name parameters (resolve_stmt g ∅ body))
  | LabelDeclaration name command => Some (LabelDeclaration name (resolve_stmt g top command))
  end.

(** A whole program: a constant is known from its declaration on. *)
Definition resolve_program (p : Program) : Program * gmap string Z :=
  let '(ds, g) := scan (fun g d => resolve_decl g g d) ∅ (declarations p) in
  (mkProgram (present ds) (List.map (resolve_stmt g g) (statements p)), g).

(** ** The pass is the specification *)

(** A method that changes no member. *)
Definition runs {A} (r : resolver) (m : R A) (a : A) : Prop := m r = (r, Done a).

Lemma runs_bind {A B} r (m : R A) (f : A -> R B) a b : runs r m a -> runs r (f a) b -> runs r (m ≫= f) b.
Proof. unfold runs. intros H. by rewrite (st_bind_then _ _ _ _ _ H). Qed.

Lemma runs_map {A} r (f : A -> R A) h l :
  list_all A (fun a => runs r (f a) (h a)) l -> runs r (st_map f l) (List.map h l).
Proof.
  induction 1 as [|a Ha l _ IH]; [done|]. eapply runs_bind; [exact Ha|].
  eapply runs_bind; [exact IH | done].
Qed.

Lemma runs_optional {A} r (f : A -> R A) h o :
  option_all A (fun a => runs r (f a) (h a)) o -> runs r (visit_optional f o) (option_map h o).
Proof. intros [a Ha|]; [|done]. by eapply runs_bind. Qed.

Lemma runs_named r f h names l :
  list_all Expression (fun a => runs r (f a) (h a)) l ->
  runs r (visit_named f names l) (resolve_named h names l).
Proof.
  intros H. revert names. induction H as [|a Ha l _ IH]; intros [|n names]; try done.
  eapply runs_bind; [exact Ha|]. eapply runs_bind; [apply IH | done].
Qed.

Lemma block_name_not_global r : block_name r <> "Global"%string.
Proof.
  unfold block_name. destruct r as [g stack name]. cbn. intros H.
  do 6 (destruct name as [|? name]; [discriminate H | injection H as -> H]).
  by destruct name.
Qed.

Lemma runs_in_block {A} g stack name inner (body : R A) a :
  (forall name, name <> "Global"%string ->
     body (mkResolver g (∅ :: stack) name) = (mkResolver g (inner :: stack) name, Done a)) ->
  runs (mkResolver g stack name) (in_block body) a.
Proof.
  intros H. unfold runs, in_block, mbind, ST_bind, st_get, st_modify, set_scope_name, push_scope.
  cbn [global_manifests_ current_scope_manifests_stack_ current_scope_name_].
  rewrite H by apply block_name_not_global. done.
Qed.

Lemma runs_in_function {A} g stack name (body : R A) a :
  runs (mkResolver g (∅ :: stack) name) body a ->
  runs (mkResolver g stack "Global") (in_function name body) a.
Proof.
  unfold runs. intros H. unfold in_function, mbind, ST_bind, st_modify, set_scope_name, push_scope.
  cbn [global_manifests_ current_scope_manifests_stack_ current_scope_name_]. by rewrite H.
Qed.

Lemma runs_VariableAccess g top stack scope name unique_name :
  runs (mkResolver g (top :: stack) scope) (visit_VariableAccess name unique_name)
    (resolve_VariableAccess (visible g top) name unique_name).
Proof.
  unfold runs, visit_VariableAccess, mbind, ST_bind, st_get, resolve_VariableAccess, visible. cbn.
  rewrite lookup_union. by destruct (top !! name), (g !! name).
Qed.

(** Where a declaration may stand: constants inside a block, functions outside. *)
Definition admits (name : string) (d : Declaration) : Prop :=
  match d with
  | ManifestDeclaration _ _ => name <> "Global"%string
  | FunctionDeclaration _ _ _ | RoutineDeclaration _ _ _ => name = "Global"%string
  | _ => True
  end.

Definition decl_runs g stack name top d : Prop :=
  visit_decl d (mkResolver g (top :: stack) name)
  = (mkResolver g (declare d top :: stack) name, Done (resolve_decl g top d)).

Lemma scan_runs g stack name top ds :
  list_all Declaration (fun d => forall top, decl_runs g stack name top d) ds ->
  st_map visit_decl ds (mkResolver g (top :: stack) name)
  = (mkResolver g ((scan (resolve_decl g) top ds).2 :: stack) name,
     Done (scan (resolve_decl g) top ds).1).
Proof.
  intros H. revert top. induction H as [|d Hd ds _ IH]; intros top; [done|]. cbn [st_map scan].
  rewrite (st_bind_then _ _ _ _ _ (Hd top)). rewrite (st_bind_then _ _ _ _ _ (IH (declare d top))).
  by destruct (scan (resolve_decl g) (declare d top) ds).
Qed.

(** A traversal [f] of the pass and one of the specification, on the trees of [flat]. *)
Definition follows {A} (flat : A -> bool) (f : A -> R A) (h : gmap string Z -> gmap string Z -> A -> A)
    (a : A) : Prop :=
  flat a = true -> forall g top stack name, runs (mkResolver g (top :: stack) name) (f a) (h g top a).

Lemma follows_all {A} flat f h (l : list A) : list_all A (follows flat f h) l -> forallb flat l = true ->
  forall g top stack name,
    list_all A (fun a => runs (mkResolver g (top :: stack) name) (f a) (h g top a)) l.
Proof.
  intros H Hp g top stack name. induction H as [|a Ha l _ IH]; [constructor|]. cbn in Hp.
  apply andb_true_iff in Hp as [H1 H2]. constructor; [by apply Ha | by apply IH].
Qed.
Lemma follows_option {A} flat f h (o : option A) : option_all A (follows flat f h) o ->
  option_allb flat o = true -> forall g top stack name,
    option_all A (fun a => runs (mkResolver g (top :: stack) name) (f a) (h g top a)) o.
Proof. intros [a Ha|] Hp g top stack name; constructor. by apply Ha. Qed.

(** Splits the flatness of a node into that of its children. *)
Ltac flat_parts :=
  cbn [flat_expr flat_stmt flat_case flat_decl] in *;
  repeat match goal with
  | H : _ && _ = true |- _ => apply andb_true_iff in H as [? ?]
  end.

Ltac run_child :=
  first
    [ apply runs_VariableAccess
    | reflexivity
    | match goal with IH : follows _ ?f _ _ |- runs _ (?f _) _ => by apply IH end
    | apply runs_map; by eapply follows_all
    | apply runs_optional; by eapply follows_option
    | apply runs_named; by eapply follows_all ].

Ltac run_node :=
  intros; unfold follows; intros; flat_parts;
  cbn [visit_expr visit_stmt visit_case resolve_expr resolve_stmt resolve_case];
  repeat (eapply runs_bind; [run_child|]); run_child.

Definition declares (d : Declaration) : Prop :=
  flat_decl d = true -> forall g top stack name, admits name d -> decl_runs g stack name top d.

Lemma pass_resolves :
  (forall e, follows flat_expr visit_expr resolve_expr e)
  /\ (forall s, follows flat_stmt visit_stmt resolve_stmt s)
  /\ (forall c, follows flat_case visit_case resolve_case c)
  /\ (forall d, declares d).
Proof.
  apply tree_mutind; try run_node; unfold declares, decl_runs; cbn [admits].
  - intros ds IHd l IHl Hf g top stack name. flat_parts.
    match goal with H : forallb _ ds = true |- _ => rename H into Hd end.
    cbn [visit_stmt resolve_stmt]. destruct (scan (resolve_decl g) ∅ ds) as [ds' inner] eqn:E.
    apply (runs_in_block _ _ _ inner). intros name' Hn. erewrite st_bind_then.
    2: { rewrite (scan_runs g (top :: stack) name' ∅ ds); [by rewrite E|].
         clear E. induction IHd as [|d Hdecl l' _ IH]; [constructor|]. cbn in Hd.
         rewrite !andb_true_iff in Hd. destruct Hd as [[Hfun Hflat] Hl]. constructor; [|by apply IH].
         intros top'. apply Hdecl; [done|]. by destruct d. }
    erewrite st_bind_then by (apply runs_map; by eapply follows_all). done.
  - intros name value _ g top stack scope Hn. apply String.eqb_neq in Hn.
    cbn [visit_decl]. unfold mbind, ST_bind, st_modify, note_manifest.
    cbn [current_scope_name_ global_manifests_ current_scope_manifests_stack_]. by rewrite Hn.
  - intros name e IH fl Hf g top stack scope _. apply (runs_bind _ _ _ (resolve_expr g top e)); [by apply IH | done].
  - done.
  - intros names l IH fl Hf g top stack scope _. flat_parts.
    apply (runs_bind _ _ _ (resolve_named (resolve_expr g top) names l)); [|done].
    apply runs_named. by eapply follows_all.
  - intros name ps e IH Hf g top stack scope ->.
    apply (runs_bind _ _ _ (resolve_expr g ∅ e)); [|done]. apply runs_in_function. by apply IH.
  - intros name ps s IH Hf g top stack scope ->.
    apply (runs_bind _ _ _ (resolve_stmt g ∅ s)); [|done]. apply runs_in_function. by apply IH.
  - intros name s IH Hf g top stack scope _.
    apply (runs_bind _ _ _ (resolve_stmt g top s)); [by apply IH | done].
Qed.

Lemma manifest_or_not d :
  (exists name value, d = ManifestDeclaration name value)
  \/ forall name value, d <> ManifestDeclaration name value.
Proof. destruct d; (by left; eauto) || by right. Qed.

Lemma program_scan ds g :
  forallb flat_decl ds = true ->
  st_map visit_decl ds (mkResolver g [g] "Global")
  = let '(l, g') := scan (fun g d => resolve_decl g g d) g ds in
    (mkResolver g' [g'] "Global", Done l).
Proof.
  revert g. induction ds as [|d ds IH]; intros g Hf; [done|]. cbn in Hf.
  apply andb_true_iff in Hf as [Hd Hl]. cbn [st_map scan].
  assert (E : visit_decl d (mkResolver g [g] "Global")
    = (mkResolver (declare d g) [declare d g] "Global", Done (resolve_decl g g d))).
  { destruct (manifest_or_not d) as [(name & value & ->) | Hn]; [done|].
    destruct pass_resolves as (_ & _ & _ & Hp). rewrite (Hp d Hd g g [] "Global").
    - destruct d; try done. by destruct (Hn name value).
    - destruct d; try done. by destruct (Hn name value). }
  rewrite (st_bind_then _ _ _ _ _ E). specialize (IH (declare d g) Hl).
  destruct (scan _ (declare d g) ds) as [l g'].
  by rewrite (st_bind_then _ _ _ _ _ IH).
Qed.

(** The pass and the traversal agree. *)
Lemma apply_resolves p r :
  flat_program p = true ->
  let '(p', g) := resolve_program p in
  apply p r = (mkResolver g [g] "Global", Done p').
Proof.
  unfold flat_program, resolve_program, apply, visit_program. intros [Hd Hs]%andb_true_iff.
  unfold mbind at 1, ST_bind at 1, st_modify. pose proof (program_scan (declarations p) ∅ Hd) as E.
  destruct (scan _ ∅ (declarations p)) as [ds g]. rewrite (st_bind_then _ _ _ _ _ E).
  destruct pass_resolves as (_ & Hp & _).
  assert (Hl : forall l, list_all Statement (follows flat_stmt visit_stmt resolve_stmt) l)
    by (intros l; induction l; constructor; auto).
  rewrite (st_bind_then _ _ _ _ _ (runs_map _ _ _ _ (follows_all _ _ _ _ (Hl _) Hs g g [] "Global"))). done.
Qed.

(** *** The resolved tree has no function in a block either *)

Definition kept_flat {A} (flat : A -> bool) (h : gmap string Z -> gmap string Z -> A -> A) (a : A) : Prop :=
  flat a = true -> forall g top, flat (h g top a) = true.

Lemma kept_flat_all {A} flat h (l : list A) : list_all A (kept_flat flat h) l -> forallb flat l = true ->
  forall g top, forallb flat (List.map (h g top) l) = true.
Proof.
  intros H Hl g top. induction H as [|a Ha l _ IH]; [done|]. cbn in *. apply andb_true_iff in Hl as [H1 H2].
  rewrite IH, Ha by done. done.
Qed.
Lemma kept_flat_option {A} flat h (o : option A) : option_all A (kept_flat flat h) o -> option_allb flat o = true ->
  forall g top, option_allb flat (option_map (h g top) o) = true.
Proof. intros [a Ha|] Ho g top; [by apply Ha | done]. Qed.

Lemma resolve_named_flat h names l g top : list_all Expression (kept_flat flat_expr h) l ->
  forallb flat_expr l = true -> forallb flat_expr (resolve_named (h g top) names l) = true.
Proof.
  intros H. revert names. induction H as [|e He l _ IH]; intros [|n names] Hl; try done.
  cbn in *. apply andb_true_iff in Hl as [H1 H2]. by rewrite He, IH.
Qed.

Definition kept_flat_decl (d : Declaration) : Prop :=
  flat_decl d = true -> forall g top d', resolve_decl g top d = Some d' ->
  flat_decl d' = true /\ is_function d' = is_function d.

Ltac flat_node :=
  intros; unfold kept_flat; intros; flat_parts;
  cbn [flat_expr flat_stmt flat_case resolve_expr resolve_stmt resolve_case];
  repeat (apply andb_true_iff; split);
  first [ assumption
        | reflexivity
        | unfold resolve_VariableAccess; case_match; reflexivity
        | match goal with IH : kept_flat _ _ _ |- _ => by apply IH end
        | by apply kept_flat_all
        | by apply kept_flat_option ].

Lemma scan_flat (f : gmap string Z -> Declaration -> option Declaration) (ok ok' : Declaration -> bool) top ds :
  (forall top d d', d ∈ ds -> ok d = true -> f top d = Some d' -> ok' d' = true) -> forallb ok ds = true ->
  forallb ok' (present (scan f top ds).1) = true.
Proof.
  intros Hf. revert top. induction ds as [|d ds IH]; intros top Hds; [done|]. cbn in Hds.
  apply andb_true_iff in Hds as [Hd Hds]. cbn [scan]. specialize (IH (fun top d' d'' H => Hf top d' d'' (list_elem_of_further _ _ _ H)) (declare d top) Hds).
  destruct (scan f (declare d top) ds) as [l top']. cbn in *. destruct (f top d) as [d'|] eqn:E; [|done].
  cbn. rewrite (Hf top d d'); [done | apply list_elem_of_here | done | done].
Qed.

Lemma resolve_flat :
  (forall e, kept_flat flat_expr resolve_expr e)
  /\ (forall s, kept_flat flat_stmt resolve_stmt s)
  /\ (forall c, kept_flat flat_case resolve_case c)
  /\ (forall d, kept_flat_decl d).
Proof.
  apply tree_mutind; try flat_node; unfold kept_flat_decl; cbn [resolve_decl].
  - intros ds IHd l IHl Hf g top. cbn [flat_stmt] in Hf. apply andb_true_iff in Hf as [Hd Hl]. cbn [resolve_stmt].
    pose proof (scan_flat (resolve_decl g) (fun d => negb (is_function d) && flat_decl d)
      (fun d => negb (is_function d) && flat_decl d) ∅ ds) as Hs.
    destruct (scan (resolve_decl g) ∅ ds) as [ds' inner]. cbn [fst] in Hs. cbn [flat_stmt].
    apply andb_true_iff. split; [|by apply kept_flat_all]. apply Hs; [|done].
    clear -IHd. induction IHd as [|d Hd ds _ IH]; intros top d0 d' Hin Hok E; [by apply elem_of_nil in Hin|].
    apply elem_of_cons in Hin as [->|Hin]; [|by eapply IH]. apply andb_true_iff in Hok as [Hn Hk].
    destruct (Hd Hk g top d' E) as [-> ->]. by rewrite Hn.
  - done.
  - intros name e IH fl Hf g top d' [= <-]. split; [by apply IH | done].
  - by intros l _ g top d' [= <-].
  - intros names l IH fl Hf g top d' [= <-]. split; [by apply resolve_named_flat | done].
  - intros name ps e IH Hf g top d' [= <-]. split; [by apply IH | done].
  - intros name ps s IH Hf g top d' [= <-]. split; [by apply IH | done].
  - intros name s IH Hf g top d' [= <-]. split; [by apply IH | done].
Qed.

Lemma resolve_program_flat p : flat_program p = true -> flat_program (resolve_program p).1 = true.
Proof.
  unfold flat_program, resolve_program. intros [Hd Hs]%andb_true_iff. destruct resolve_flat as (_ & Fs & _ & Fd).
  pose proof (scan_flat (fun g d => resolve_decl g g d) flat_decl flat_decl ∅ (declarations p)) as H.
  destruct (scan _ ∅ (declarations p)) as [ds g]. cbn [fst declarations statements] in *. rewrite H; [|intros top d d' _ Hk E; by eapply Fd | done].
  apply kept_flat_all; [|done]. generalize (statements p) as l. induction l; constructor; auto.
Qed.

(** C17: the pass, its stack of scopes and the names of scopes, compute the
    traversal [resolve_program]: a constant of the program is known from its declaration on,
    one of a block in that block outside the blocks inside it, and hides that of the program;
    all MANIFEST declarations disappear, and the table of constants that later passes use
    holds those of the program. *)
Theorem manifests_resolved p r :
  flat_program p = true ->
  let '(p', g) := resolve_program p in
  apply p r = (mkResolver g [g] "Global", Done p').
Proof. apply apply_resolves. Qed.

Definition variable (name : string) : Expression := VariableAccess name "".
Definition integer_literal_of (v : Z) : Expression := NumberLiteral (Integer v).

(** The program [MANIFEST $( N = 3 $) LET f() BE $( MANIFEST $( M = 4 $) x := N + M $)]. *)
Definition sample_program : Program := mkProgram
  [ManifestDeclaration "N" 3;
   RoutineDeclaration "f" [] (BlockStatement [ManifestDeclaration "M" 4]
     [AssignmentStatement [variable "x"] [BinaryOp Add (variable "N") (variable "M")]])] [].

Lemma manifests_resolved_witness :
  flat_program sample_program = true
  /\ apply sample_program (ManifestResolutionPass_new ∅)
     = (mkResolver {["N" := 3]} [{["N" := 3]}] "Global",
        Done (mkProgram [RoutineDeclaration "f" [] (BlockStatement []
          [AssignmentStatement [variable "x"] [BinaryOp Add (integer_literal_of 3) (integer_literal_of 4)]])] [])).
Proof.
  assert (H : flat_program sample_program = true) by reflexivity. split; [exact H|].
  pose proof (manifests_resolved sample_program (ManifestResolutionPass_new ∅) H) as E.
  vm_compute in E. vm_compute. exact E.
Defined.

(** ** Values *)

Section values.
Context (g top : gmap string Z) (ρ : string -> Z).

(** The variables that name constants have their values. *)
Definition constants_hold : Prop :=
  forall x v, visible g top !! x = Some v -> int64_range v /\ ρ x = u64 v.

Lemma resolve_value e : constants_hold -> integer e = true ->
  integer (resolve_expr g top e) = true /\ eval ρ (resolve_expr g top e) = eval ρ e.
Proof.
  intros H. revert e. apply integer_ind.
  - intros v Hv. split; [by apply integer_of | done].
  - intros x u. cbn [resolve_expr]. unfold resolve_VariableAccess.
    destruct (visible g top !! x) as [v|] eqn:E; [|done]. destruct (H x v E) as [Hv Hx].
    split; [by apply integer_of | done].
  - intros op l r Ho _ _ [Il Vl] [Ir Vr]. cbn [resolve_expr integer eval]. by rewrite Ho, Il, Ir, Vl, Vr.
Qed.
End values.

Definition resolve_assignment (g top : gmap string Z) (a : assignment) : assignment :=
  (a.1, resolve_expr g top a.2).

Lemma assignments_resolve g top l : Forall (fun a => visible g top !! a.1 = None) l ->
  List.map (resolve_stmt g top) (List.map statement_of l)
  = List.map statement_of (List.map (resolve_assignment g top) l).
Proof.
  induction 1 as [|a l Ha _ IH]; [done|]. cbn [List.map]. rewrite IH. f_equal.
  unfold statement_of. cbn. unfold resolve_VariableAccess. by rewrite Ha.
Qed.

(** C18: a sequence of assignments of integer expressions to variables
    that are no constants is resolved to assignments to the same variables, and all variables
    have the same values after both, when the names of constants have their values. *)
Theorem resolution_keeps_values g top scope ρ l :
  forallb (fun a => integer a.2) l = true -> Forall (fun a => visible g top !! a.1 = None) l ->
  constants_hold g top ρ ->
  let r := mkResolver g [top] scope in
  exists l', visit_stmt (CompoundStatement (List.map statement_of l)) r
      = (r, Done (CompoundStatement (List.map statement_of l')))
    /\ List.map fst l' = List.map fst l /\ forallb (fun a => integer a.2) l' = true
    /\ same_values (foldl perform ρ l) (foldl perform ρ l').
Proof.
  intros Hi Hn Hc r. exists (List.map (resolve_assignment g top) l). split.
  - destruct pass_resolves as (_ & Hp & _).
    assert (Hf : flat_stmt (CompoundStatement (List.map statement_of l)) = true).
    2: { etransitivity; [apply (Hp _ Hf g top [] scope)|]. cbn [resolve_stmt].
         by rewrite assignments_resolve. }
    cbn [flat_stmt]. clear Hn. induction l as [|a l IH]; [done|]. cbn in *.
    apply andb_true_iff in Hi as [Ha Hl]. rewrite IH by done. rewrite !andb_true_r.
    revert Ha. generalize (a.2). apply integer_ind; [done | done |].
    intros op e1 e2 _ _ _ H1 H2. cbn. by rewrite H1, H2.
  - split; [rewrite List.map_map; by apply List.map_ext|].
    assert (Hs : forall ρ', same_values ρ ρ' -> forallb (fun a => integer a.2) (List.map (resolve_assignment g top) l) = true
      /\ same_values (foldl perform ρ l) (foldl perform ρ' (List.map (resolve_assignment g top) l))).
    2: { by apply Hs. }
    revert ρ Hc. induction l as [|a l IH]; intros ρ Hc ρ' Hρ; [done|]. cbn [List.map forallb foldl] in *.
    apply andb_true_iff in Hi as [Ha Hl]. apply list.Forall_cons in Hn as [Hna Hn].
    destruct (resolve_value g top ρ a.2 Hc Ha) as [Ia Va].
    destruct (IH Hl Hn (perform ρ a)) with (ρ' := perform ρ' (resolve_assignment g top a)) as [I S].
    + intros x v Hx. destruct (Hc x v Hx) as [Hv Ex]. split; [done|]. unfold perform, update.
      destruct (String.eqb_spec x a.1) as [->|]; [congruence | done].
    + by apply perform_same.
    + split; [|done]. apply andb_true_iff. by split.
Qed.

(** With [N] = 3 visible, [x := N + y; y := x]. *)
Definition constant_assignments : list assignment :=
  [("x", BinaryOp Add (variable "N") (variable "y")); ("y", variable "x")].
Definition sample_values (x : string) : Z := if String.eqb x "N" then 3 else 0.

Lemma resolution_keeps_values_witness :
  exists l', visit_stmt (CompoundStatement (List.map statement_of constant_assignments))
      (mkResolver {["N" := 3]} [∅] "Global")
    = (mkResolver {["N" := 3]} [∅] "Global", Done (CompoundStatement (List.map statement_of l')))
    /\ same_values (foldl perform sample_values constant_assignments) (foldl perform sample_values l').
Proof.
  assert (Hc : constants_hold {["N" := 3]} ∅ sample_values).
  { intros x v. unfold visible. rewrite lookup_union_r by done. intros [<- <-]%lookup_singleton_Some.
    split; [vm_compute; split; [discriminate | reflexivity] | reflexivity]. }
  assert (Hn : Forall (fun a => visible {["N" := 3]} ∅ !! a.1 = None) constant_assignments)
    by (repeat constructor).
  destruct (resolution_keeps_values {["N" := 3]} ∅ "Global" sample_values constant_assignments eq_refl Hn Hc)
    as (l' & E & _ & _ & V).
  exists l'. split; [exact E | exact V].
Defined.
