(* ===== verification/SymbolBuild.v ===== *)
(** * Filling the symbol table

    [SymbolTableBuilder] (src/SymbolTableBuilder.cpp): which declarations of the tree become
    symbols of which scope.  The visitor has methods for declarations, LET, FOR, blocks and
    the two kinds of VALOF; of any other node nothing is visited.  The types of the local
    variables come from the analyzer's tables, which are variables of the section. *)

From S2P Require Import Prelude CallFrame Ast Trees Analysis SymbolTable.
Local Open Scope nat_scope.

(** ** The builder *)

Section builder.
Context (variable_types function_return_types : gmap string VarType).

Local Abbreviation infer := (infer_expression_type variable_types function_return_types).

Definition float_type (is_float : bool) : VarType := if is_float then VT_FLOAT else VT_INTEGER.

(** Duplicates are reported and left out. *)
Definition add (name : string) (kind : SymbolKind) (type : VarType) (t : SymbolTable) : SymbolTable :=
  (addSymbol_new name kind type t).1.
Definition add_absolute (name : string) (kind : SymbolKind) (value : Z) (t : SymbolTable) : SymbolTable :=
  match addSymbol_new name kind VT_INTEGER t with
  | (t, true) => setSymbolAbsoluteValue name value t
  | (t, false) => t
  end.

(** [for (i = 0; i < names.size(); i++)]; the initializer is [initializers[i]] if there is one. *)
Definition let_type (is_float : bool) (initializer : option Expression) : VarType :=
  match initializer with Some e => infer e | None => float_type is_float end.
Fixpoint add_let (names : list string) (initializers : list Expression) (is_float : bool)
    (t : SymbolTable) : SymbolTable :=
  match names with
  | [] => t
  | name :: names =>
      add_let names (tail initializers) is_float
        (add name LOCAL_VAR (let_type is_float (head initializers)) t)
  end.

Definition add_all (kind : SymbolKind) (type : VarType) (names : list string) (t : SymbolTable) : SymbolTable :=
  fold_left (fun t name => add name kind type t) names t.

Definition static_type (initializer : Expression) (is_float : bool) : VarType :=
  if is_float then VT_FLOAT
  else match initializer with NumberLiteral (Float _) => VT_FLOAT | _ => VT_INTEGER end.

Definition temporaries : list string := ["_temp0"; "_temp1"; "_temp2"; "_temp3"]%string.

(** The scope of a function or routine: temporaries, parameters, body. *)
Definition visit_body (name : string) (parameters : list string) (body : SymbolTable -> SymbolTable)
    (t : SymbolTable) : SymbolTable :=
  let t := add_all LOCAL_VAR VT_ANY temporaries (enterScope t) in
  let t := setCurrentFunction name t in
  let t := fold_left (fun t p => addParameter name p VT_INTEGER t) parameters t in
  exitScope (setCurrentFunction "" (body t)).

Definition function_kind (body : Expression) : SymbolKind * VarType :=
  match body with
  | FloatValofExpression _ => (FLOAT_FUNCTION, VT_FLOAT)
  | _ => (FUNCTION, VT_INTEGER)
  end.

Definition each {A} (f : A -> SymbolTable -> SymbolTable) : list A -> SymbolTable -> SymbolTable :=
  fix go l t := match l with [] => t | a :: l => go l (f a t) end.

Fixpoint visit_expr (e : Expression) (t : SymbolTable) : SymbolTable :=
  match e with
  | ValofExpression body | FloatValofExpression body => exitScope (visit_stmt body (enterScope t))
  | _ => t
  end
with visit_stmt (s : Statement) (t : SymbolTable) : SymbolTable :=
  match s with
  | LetDeclaration names initializers is_float => add_let names initializers is_float t
  | ForStatement loop_variable _ _ _ _ _ _ body =>
      visit_stmt body (add loop_variable LOCAL_VAR VT_INTEGER t)
  | BlockStatement ds ss => exitScope (each visit_stmt ss (each visit_decl ds (enterScope t)))
  | _ => t
  end
with visit_decl (d : Declaration) (t : SymbolTable) : SymbolTable :=
  match d with
  | ManifestDeclaration name value => add_absolute name MANIFEST value t
  | StaticDeclaration name e is_float => add name STATIC_VAR (static_type e is_float) t
  | GlobalDeclaration globals => add_all GLOBAL_VAR VT_INTEGER (List.map fst globals) t
  | GlobalVariableDeclaration names _ is_float => add_all GLOBAL_VAR (float_type is_float) names t
  | FunctionDeclaration name parameters body =>
      let '(kind, type) := function_kind body in
      visit_body name parameters (visit_expr body) (add name kind type t)
  | RoutineDeclaration name parameters body =>
      visit_body name parameters (visit_stmt body) (add name ROUTINE VT_INTEGER t)
  | LabelDeclaration name command => visit_stmt command (add_absolute name LABEL 0 t)
  end.

Definition visit_program (p : Program) (t : SymbolTable) : SymbolTable :=
  each visit_stmt (statements p) (each visit_decl (declarations p) t).

Definition build (p : Program) : SymbolTable := visit_program p SymbolTable_new.

(** ** What a node declares in the scope it stands in *)

Definition symbol (level : nat) (kind : SymbolKind) (type : VarType) (name : string) : Symbol :=
  Symbol_new name kind type level.
Definition absolute (level : nat) (kind : SymbolKind) (value : Z) (name : string) : Symbol :=
  set_location (ABSOLUTE value) (symbol level kind VT_INTEGER name).

Fixpoint declared_let (level : nat) (names : list string) (initializers : list Expression)
    (is_float : bool) : list Symbol :=
  match names with
  | [] => []
  | name :: names =>
      symbol level LOCAL_VAR (let_type is_float (head initializers)) name
      :: declared_let level names (tail initializers) is_float
  end.

Fixpoint declared_stmt (level : nat) (s : Statement) : list Symbol :=
  match s with
  | LetDeclaration names initializers is_float => declared_let level names initializers is_float
  | ForStatement loop_variable _ _ _ _ _ _ body =>
      symbol level LOCAL_VAR VT_INTEGER loop_variable :: declared_stmt level body
  | _ => []
  end.

Definition declared_decl (level : nat) (d : Declaration) : list Symbol :=
  match d with
  | ManifestDeclaration name value => [absolute level MANIFEST value name]
  | StaticDeclaration name e is_float => [symbol level STATIC_VAR (static_type e is_float) name]
  | GlobalDeclaration globals => List.map (symbol level GLOBAL_VAR VT_INTEGER) (List.map fst globals)
  | GlobalVariableDeclaration names _ is_float =>
      List.map (symbol level GLOBAL_VAR (float_type is_float)) names
  | FunctionDeclaration name _ body =>
      [symbol level (function_kind body).1 (function_kind body).2 name]
  | RoutineDeclaration name _ _ => [symbol level ROUTINE VT_INTEGER name]
  | LabelDeclaration name command => absolute level LABEL 0 name :: declared_stmt level command
  end.

(** The first declaration of a name counts. *)
Definition first_wins (s : scope) (x : Symbol) : scope :=
  match s !! symbol_name x with Some _ => s | None => <[symbol_name x := x]> s end.
Definition declare (l : list Symbol) (s : scope) : scope := fold_left first_wins l s.

(** [t'] is [t] with the symbols of [l] declared in its innermost scope. *)
Definition grows (l : nat -> list Symbol) (t t' : SymbolTable) : Prop :=
  forall outer cur, scope_stack t = outer ++ [cur] -> current_scope_level t = length outer ->
    scope_stack t' = outer ++ [declare (l (length outer)) cur]
    /\ current_scope_level t' = length outer.

Lemma grows_nothing t : grows (fun _ => []) t t.
Proof. by intros outer cur -> ->. Qed.

Lemma grows_both l l' t t' t'' :
  grows l t t' -> grows l' t' t'' -> grows (fun level => l level ++ l' level) t t''.
Proof.
  intros H H' outer cur Es El. destruct (H outer cur Es El) as [Es' El'].
  destruct (H' _ _ Es' El') as [Es'' El'']. split; [|done]. rewrite Es''. unfold declare.
  by rewrite fold_left_app.
Qed.

Lemma scope_at_last t outer cur :
  scope_stack t = outer ++ [cur] -> current_scope_level t = length outer ->
  scope_at t (current_scope_level t) = cur.
Proof. intros Es El. unfold scope_at. rewrite Es, El, list_lookup_middle by done. done. Qed.

Lemma grows_add name kind type t : grows (fun level => [symbol level kind type name]) t (add name kind type t).
Proof.
  intros outer cur Es El. unfold add, addSymbol_new, addSymbol. cbn [symbol_name].
  rewrite (scope_at_last _ _ _ Es El), El. cbn [declare fold_left]. unfold first_wins. cbn [symbol_name symbol Symbol_new].
  destruct (cur !! name); cbn; [by rewrite Es|]. split; [|done]. rewrite Es. by rewrite insert_app_r_alt, Nat.sub_diag by lia.
Qed.

Lemma declare_one s x : declare [x] s = first_wins s x.
Proof. done. Qed.

Lemma grows_add_absolute name kind value t :
  grows (fun level => [absolute level kind value name]) t (add_absolute name kind value t).
Proof.
  intros outer cur Es El. pose proof (scope_at_last t outer cur Es El) as Ec.
  rewrite declare_one. unfold first_wins. cbn [absolute symbol set_location Symbol_new symbol_name].
  unfold add_absolute, addSymbol_new, addSymbol. cbn [Symbol_new symbol_name]. rewrite Ec.
  destruct (cur !! name) eqn:E; [done|].
  assert (Hi : <[current_scope_level t := <[name := Symbol_new name kind VT_INTEGER (current_scope_level t)]> cur]> (scope_stack t)
    = outer ++ [<[name := Symbol_new name kind VT_INTEGER (length outer)]> cur])
    by (rewrite Es, El, insert_app_r_alt, Nat.sub_diag by lia; done).
  rewrite Hi. unfold setSymbolAbsoluteValue, update_symbol. cbn [set_scopes current_scope_level].
  assert (Hat : forall p f, scope_at (mkSymbolTable (outer ++ [<[name := Symbol_new name kind VT_INTEGER (length outer)]> cur])
    (current_scope_level t) p f) (current_scope_level t)
    = <[name := Symbol_new name kind VT_INTEGER (length outer)]> cur)
    by (intros; unfold scope_at; cbn; by rewrite El, list_lookup_middle).
  rewrite (find_level_intro _ name _ (current_scope_level t)); [|done| |lia].
  - cbn [scope_stack set_scopes current_scope_level]. split; [|done]. unfold set_scopes. rewrite Hat.
    rewrite El, insert_app_r_alt, Nat.sub_diag by lia. cbn. by rewrite alter_insert_eq.
  - unfold set_scopes. rewrite Hat. by rewrite lookup_insert_eq.
Qed.

Lemma grows_let is_float names : forall initializers t,
  grows (fun level => declared_let level names initializers is_float) t
    (add_let names initializers is_float t).
Proof.
  induction names as [|name names IH]; intros initializers t; [apply grows_nothing|].
  apply (grows_both (fun level => [_]) _ _ _ _ (grows_add _ _ _ _) (IH _ _)).
Qed.

Lemma grows_all kind type names : forall t,
  grows (fun level => List.map (symbol level kind type) names) t (add_all kind type names t).
Proof.
  induction names as [|name names IH]; intros t; [apply grows_nothing|].
  apply (grows_both (fun level => [_]) _ _ _ _ (grows_add _ _ _ _) (IH _)).
Qed.

(** Something is declared in the innermost scope, and nothing else. *)
Definition local (t t' : SymbolTable) : Prop := exists l, grows l t t'.

Lemma local_trans t t' t'' : local t t' -> local t' t'' -> local t t''.
Proof. intros [l H] [l' H']. eexists. by eapply grows_both. Qed.

Lemma local_function name t : local t (setCurrentFunction name t).
Proof. exists (fun _ => []). intros outer cur Es El. cbn. by rewrite Es, El. Qed.

Lemma local_parameters name parameters : forall t,
  local t (fold_left (fun t p => addParameter name p VT_INTEGER t) parameters t).
Proof.
  induction parameters as [|p parameters IH]; intros t; [exists (fun _ => []); apply grows_nothing|].
  eapply local_trans; [|apply IH]. exists (fun level => [symbol level PARAMETER VT_INTEGER p]).
  intros outer cur Es El. exact (grows_add p PARAMETER VT_INTEGER
    (mkSymbolTable (scope_stack t) (current_scope_level t) (current_function t)
       (<[name := default [] (function_parameters t !! name) ++ [p]]> (function_parameters t))) outer cur Es El).
Qed.

(** A scope that is left leaves nothing. *)
Lemma grows_scope t body : (forall t, local t (body t)) ->
  grows (fun _ => []) t (exitScope (body (enterScope t))).
Proof.
  intros H outer cur Es El. destruct (H (enterScope t)) as [l Hl].
  destruct (Hl (outer ++ [cur]) ∅) as [Es' El'].
  { cbn. by rewrite Es. }
  { cbn. rewrite El, length_app. cbn. lia. }
  rewrite length_app in El'. cbn in El'. replace (length outer + 1) with (S (length outer)) in El' by lia.
  unfold exitScope. rewrite El'. cbn. rewrite Es', removelast_last. done.
Qed.

Lemma grows_body name parameters body t : (forall t, local t (body t)) ->
  grows (fun _ => []) t (visit_body name parameters body t).
Proof.
  intros H. unfold visit_body.
  apply (grows_scope t (fun t => setCurrentFunction "" (body (fold_left _ _ (setCurrentFunction name (add_all _ _ _ t)))))).
  intros t'. eapply local_trans; [eexists; apply (grows_all LOCAL_VAR VT_ANY temporaries)|].
  eapply local_trans; [apply (local_function name)|]. eapply local_trans; [apply local_parameters|].
  eapply local_trans; [apply H|]. apply local_function.
Qed.

Lemma local_each {A} (f : A -> SymbolTable -> SymbolTable) l : list_all A (fun a => forall t, local t (f a t)) l ->
  forall t, local t (each f l t).
Proof.
  induction 1 as [|a Ha l _ IH]; intros t; [exists (fun _ => []); apply grows_nothing|].
  eapply local_trans; [apply Ha | apply IH].
Qed.

Lemma list_all_mono {A} (P Q : A -> Prop) l : (forall a, P a -> Q a) -> list_all A P l -> list_all A Q l.
Proof. intros H. induction 1; constructor; auto. Qed.

Lemma visits_declare :
  (forall e t, grows (fun _ => []) t (visit_expr e t))
  /\ (forall s t, grows (fun level => declared_stmt level s) t (visit_stmt s t))
  /\ (forall c : CaseClause, True)
  /\ (forall d t, grows (fun level => declared_decl level d) t (visit_decl d t)).
Proof.
  apply tree_mutind; try (intros; exact I); try (intros; apply grows_nothing).
  - intros s IH t. apply (grows_scope t (visit_stmt s)). intros t'. eexists. apply IH.
  - intros s IH t. apply (grows_scope t (visit_stmt s)). intros t'. eexists. apply IH.
  - intros names l _ fl t. apply grows_let.
  - intros v u us ue a _ b _ st _ body IH t.
    apply (grows_both (fun level => [_]) _ _ _ _ (grows_add _ _ _ _) (IH _)).
  - intros ds IHd ss IHs t. apply (grows_scope t (fun t => each visit_stmt ss (each visit_decl ds t))).
    intros t'. apply (local_trans _ (each visit_decl ds t')).
    + apply local_each. eapply list_all_mono, IHd. intros d Hd t2. eexists. apply Hd.
    + apply local_each. eapply list_all_mono, IHs. intros s Hs t2. eexists. apply Hs.
  - intros name value t. apply grows_add_absolute.
  - intros name e _ fl t. apply grows_add.
  - intros g t. apply grows_all.
  - intros names l _ fl t. apply grows_all.
  - intros name ps e IH t. cbn [visit_decl declared_decl]. destruct (function_kind e) as [kind type].
    apply (grows_both (fun level => [_]) (fun _ => []) _ _ _ (grows_add _ _ _ _)).
    apply grows_body. intros t'. eexists. apply IH.
  - intros name ps s IH t. apply (grows_both (fun level => [_]) (fun _ => []) _ _ _ (grows_add _ _ _ _)).
    apply grows_body. intros t'. eexists. apply IH.
  - intros name s IH t. apply (grows_both (fun level => [_]) _ _ _ _ (grows_add_absolute _ _ _ _) (IH _)).
Qed.

Lemma grows_each {A} (f : A -> SymbolTable -> SymbolTable) (declared : nat -> A -> list Symbol) l :
  (forall a t, grows (fun level => declared level a) t (f a t)) ->
  forall t, grows (fun level => List.concat (List.map (declared level) l)) t (each f l t).
Proof.
  intros H. induction l as [|a l IH]; intros t; [apply grows_nothing|].
  eapply grows_both; [apply H | apply IH].
Qed.

(** What a program declares globally. *)
Definition declared_globally (p : Program) : list Symbol :=
  List.concat (List.map (declared_decl 0) (declarations p))
  ++ List.concat (List.map (declared_stmt 0) (statements p)).

Lemma declare_lookup l s name :
  declare l s !! name
  = match s !! name with
    | Some x => Some x
    | None => List.find (fun x => String.eqb (symbol_name x) name) l
    end.
Proof.
  revert s. induction l as [|x l IH]; intros s; [by cbn; destruct (s !! name)|].
  cbn [declare fold_left List.find]. fold (declare l (first_wins s x)). rewrite IH. unfold first_wins.
  destruct (String.eqb_spec (symbol_name x) name) as [<-|Hne].
  - destruct (s !! symbol_name x) eqn:E; [by rewrite E | by rewrite lookup_insert_eq].
  - destruct (s !! symbol_name x); [done|]. by rewrite lookup_insert_ne.
Qed.

(** Only the global scope is left. *)
Lemma build_scope p :
  scope_stack (build p) = [declare (declared_globally p) ∅] /\ current_scope_level (build p) = 0.
Proof.
  destruct visits_declare as (_ & Hs & _ & Hd).
  pose proof (grows_both _ _ _ _ _ (grows_each _ _ (declarations p) Hd SymbolTable_new)
    (grows_each _ _ (statements p) Hs _)) as H.
  by destruct (H [] ∅ eq_refl eq_refl).
Qed.

(** C21: after the pass only the global scope is left, it holds exactly the names that
    declarations outside functions and blocks give, each with the kind, type and value of its
    first declaration; lookup finds these and nothing else: no variable, parameter or label
    of a function is in the table. *)
Theorem built_table p name :
  current_scope_level (build p) = 0
  /\ SymbolTable.lookup name (build p)
     = List.find (fun x => String.eqb (symbol_name x) name) (declared_globally p).
Proof.
  destruct (build_scope p) as [Es El]. split; [exact El|].
  unfold SymbolTable.lookup. rewrite El. cbn [find_level]. unfold scope_at. rewrite Es. cbn [lookup list_lookup default].
  pose proof (declare_lookup (declared_globally p) ∅ name) as E. rewrite lookup_empty in E. cbn.
  unfold declared_globally in *. destruct (declare _ ∅ !! name) eqn:E'; cbn; rewrite ?E'; congruence.
Qed.
End builder.
