(* ===== verification/Analyzer.v ===== *)
(** * The analyzer's traversal

    [ASTAnalyzer::analyze] and its visitors (src/analysis/az_impl/): the pass that fills the
    tables of types, metrics and names that the control-flow graphs and the code generator
    read, follows the scopes of the symbol table, and renames the variables of FOR loops in
    the tree.  A visitor returns the node it leaves behind.  The runtime's functions are a
    variable of the section; so is [SymbolTable::updateSymbolType], which is called but
    declared nowhere.  The map from loop variables to their statements, which nothing reads,
    and the messages are left out; counters are unbounded. *)

From S2P Require Import Prelude CallFrame Labels Ast State SymbolTable Analysis.
Local Open Scope Z_scope.

(** ** State *)

Record analyzer : Type := mkAnalyzer {
  current_function_scope_ : string;
  current_lexical_scope_ : string;
  function_metrics_ : gmap string FunctionMetrics;
  function_return_types_ : gmap string VarType;
  variable_definitions_ : gmap string string;
  local_function_names_ : gset string;
  local_routine_names_ : gset string;
  local_float_function_names_ : gset string;
  for_loop_var_counter_ : Z;
  for_variable_unique_aliases_ : gmap string string;
  active_for_loop_scopes_ : list (gmap string string);  (* the top first *)
  for_loop_instance_suffix_counter : Z;
  symbol_table_ : option SymbolTable
}.

Definition set_scopes (function lexical : string) (a : analyzer) : analyzer :=
  mkAnalyzer function lexical (function_metrics_ a) (function_return_types_ a)
    (variable_definitions_ a) (local_function_names_ a) (local_routine_names_ a)
    (local_float_function_names_ a) (for_loop_var_counter_ a) (for_variable_unique_aliases_ a)
    (active_for_loop_scopes_ a) (for_loop_instance_suffix_counter a) (symbol_table_ a).
Definition set_metrics (m : gmap string FunctionMetrics) (a : analyzer) : analyzer :=
  mkAnalyzer (current_function_scope_ a) (current_lexical_scope_ a) m (function_return_types_ a)
    (variable_definitions_ a) (local_function_names_ a) (local_routine_names_ a)
    (local_float_function_names_ a) (for_loop_var_counter_ a) (for_variable_unique_aliases_ a)
    (active_for_loop_scopes_ a) (for_loop_instance_suffix_counter a) (symbol_table_ a).
Definition set_return_types (m : gmap string VarType) (a : analyzer) : analyzer :=
  mkAnalyzer (current_function_scope_ a) (current_lexical_scope_ a) (function_metrics_ a) m
    (variable_definitions_ a) (local_function_names_ a) (local_routine_names_ a)
    (local_float_function_names_ a) (for_loop_var_counter_ a) (for_variable_unique_aliases_ a)
    (active_for_loop_scopes_ a) (for_loop_instance_suffix_counter a) (symbol_table_ a).
Definition set_definitions (m : gmap string string) (a : analyzer) : analyzer :=
  mkAnalyzer (current_function_scope_ a) (current_lexical_scope_ a) (function_metrics_ a)
    (function_return_types_ a) m (local_function_names_ a) (local_routine_names_ a)
    (local_float_function_names_ a) (for_loop_var_counter_ a) (for_variable_unique_aliases_ a)
    (active_for_loop_scopes_ a) (for_loop_instance_suffix_counter a) (symbol_table_ a).
Definition set_local_names (functions routines floats : gset string) (a : analyzer) : analyzer :=
  mkAnalyzer (current_function_scope_ a) (current_lexical_scope_ a) (function_metrics_ a)
    (function_return_types_ a) (variable_definitions_ a) functions routines floats
    (for_loop_var_counter_ a) (for_variable_unique_aliases_ a) (active_for_loop_scopes_ a)
    (for_loop_instance_suffix_counter a) (symbol_table_ a).
Definition set_loops (counter : Z) (aliases : gmap string string)
    (active : list (gmap string string)) (suffix : Z) (a : analyzer) : analyzer :=
  mkAnalyzer (current_function_scope_ a) (current_lexical_scope_ a) (function_metrics_ a)
    (function_return_types_ a) (variable_definitions_ a) (local_function_names_ a)
    (local_routine_names_ a) (local_float_function_names_ a) counter aliases active suffix
    (symbol_table_ a).
Definition set_symbol_table (t : option SymbolTable) (a : analyzer) : analyzer :=
  mkAnalyzer (current_function_scope_ a) (current_lexical_scope_ a) (function_metrics_ a)
    (function_return_types_ a) (variable_definitions_ a) (local_function_names_ a)
    (local_routine_names_ a) (local_float_function_names_ a) (for_loop_var_counter_ a)
    (for_variable_unique_aliases_ a) (active_for_loop_scopes_ a)
    (for_loop_instance_suffix_counter a) t.

(** The tables of return types and of functions returning floats survive. *)
Definition reset_state (a : analyzer) : analyzer :=
  mkAnalyzer "Global" "Global" ∅ (function_return_types_ a) ∅ ∅ ∅ (local_float_function_names_ a)
    0 ∅ [] 0 (symbol_table_ a).
Definition ASTAnalyzer_new : analyzer := mkAnalyzer "Global" "Global" ∅ ∅ ∅ ∅ ∅ ∅ 0 ∅ [] 0 None.

Definition An (A : Type) : Type := ST analyzer A.

(** ** Metrics *)

Definition with_counts (variables floats runtime functions routines parameters : Z)
    (vectors globals : bool) (m : FunctionMetrics) : FunctionMetrics :=
  mkMetrics (metrics_variable_types m) (metrics_parameter_types m) (num_variables m + variables)
    (accesses_globals m || globals) (max_live_variables m) (num_parameters m + parameters)
    (num_float_variables m + floats) (num_runtime_calls m + runtime)
    (num_local_function_calls m + functions) (num_local_routine_calls m + routines)
    (has_vector_allocations m || vectors) (parameter_indices m).
Definition count_float_variable : FunctionMetrics -> FunctionMetrics := with_counts 0 1 0 0 0 0 false false.
Definition count_function_call : FunctionMetrics -> FunctionMetrics := with_counts 0 0 0 1 0 0 false false.
Definition count_routine_call : FunctionMetrics -> FunctionMetrics := with_counts 0 0 0 0 1 0 false false.
(** A call of the runtime also needs the pointer to the globals. *)
Definition count_runtime_call : FunctionMetrics -> FunctionMetrics := with_counts 0 0 1 0 0 0 false true.
Definition note_global_access : FunctionMetrics -> FunctionMetrics := with_counts 0 0 0 0 0 0 false true.
Definition note_vector_allocation : FunctionMetrics -> FunctionMetrics := with_counts 0 0 0 0 0 0 true true.

Definition set_parameters (n : Z) (m : FunctionMetrics) : FunctionMetrics :=
  mkMetrics (metrics_variable_types m) (metrics_parameter_types m) (num_variables m)
    (accesses_globals m) (max_live_variables m) n (num_float_variables m) (num_runtime_calls m)
    (num_local_function_calls m) (num_local_routine_calls m) (has_vector_allocations m)
    (parameter_indices m).
Definition note_index (name : string) (i : Z) (m : FunctionMetrics) : FunctionMetrics :=
  mkMetrics (metrics_variable_types m) (metrics_parameter_types m) (num_variables m)
    (accesses_globals m) (max_live_variables m) (num_parameters m) (num_float_variables m)
    (num_runtime_calls m) (num_local_function_calls m) (num_local_routine_calls m)
    (has_vector_allocations m) (<[name := i]> (parameter_indices m)).

(** [function_metrics_\[name\]], which enters an empty record under a new name. *)
Definition update_metrics (name : string) (f : FunctionMetrics -> FunctionMetrics) (a : analyzer) : analyzer :=
  set_metrics (<[name := f (default FunctionMetrics_new (function_metrics_ a !! name))]>
    (function_metrics_ a)) a.
(** Those of the current function, and only inside a function. *)
Definition on_current (f : FunctionMetrics -> FunctionMetrics) (a : analyzer) : analyzer :=
  update_metrics (current_function_scope_ a) f a.
Definition in_global_scope (a : analyzer) : bool := String.eqb (current_function_scope_ a) "Global".
Definition on_function (f : FunctionMetrics -> FunctionMetrics) (a : analyzer) : analyzer :=
  if in_global_scope a then a else on_current f a.

Definition define (name scope : string) (a : analyzer) : analyzer :=
  set_definitions (<[name := scope]> (variable_definitions_ a)) a.
Definition is_defined (name : string) (a : analyzer) : bool :=
  match variable_definitions_ a !! name with Some _ => true | None => false end.

Definition on_symbols (f : SymbolTable -> SymbolTable) (a : analyzer) : analyzer :=
  set_symbol_table (option_map f (symbol_table_ a)) a.
Definition add_symbol (name : string) (kind : SymbolKind) (type : VarType) : analyzer -> analyzer :=
  on_symbols (fun t => (addSymbol_new name kind type t).1).

(** ** Names and types *)

Fixpoint find_active (name : string) (scopes : list (gmap string string)) : option string :=
  match scopes with
  | [] => None
  | scope :: scopes => match scope !! name with Some u => Some u | None => find_active name scopes end
  end.

Definition get_effective_variable_name (original_name : string) (a : analyzer) : string :=
  match find_active original_name (active_for_loop_scopes_ a) with
  | Some u => u
  | None => default original_name (for_variable_unique_aliases_ a !! original_name)
  end.

Definition infer_type (e : Expression) (a : analyzer) : VarType :=
  infer_expression_type
    (match function_metrics_ a !! current_function_scope_ a with
     | Some m => metrics_variable_types m
     | None => ∅
     end) (function_return_types_ a) e.

(** ** Visitors of single nodes *)

Section visitors.
Context (runtime_manager : RuntimeManager).
Context (updateSymbolType : string -> VarType -> SymbolTable -> SymbolTable).

Definition get_runtime_function_type (name : string) : FunctionType :=
  match get_function runtime_manager name with Ok f => rf_type f | Throw _ => STANDARD end.

(** What becomes of a variable that is read or written. *)
Definition note_variable (name : string) (a : analyzer) : analyzer :=
  match t ← symbol_table_ a; SymbolTable.lookup name t with
  | Some symbol =>
      if bool_decide (kind symbol = GLOBAL_VAR) then on_function note_global_access a else a
  | None =>
      let a := add_symbol name LOCAL_VAR VT_UNKNOWN a in
      if is_defined name a then a
      else on_function count_variable (define name (current_lexical_scope_ a) a)
  end.
Definition visit_VariableAccess (name unique_name : string) : An Expression :=
  name ← st_get (get_effective_variable_name name);
  st_modify (note_variable name);;
  mret (VariableAccess name unique_name).

(** A call by name, from a function or routine. *)
Definition note_function_call (function_expr : Expression) (a : analyzer) : analyzer :=
  match function_expr with
  | VariableAccess name _ =>
      if bool_decide (name ∈ local_function_names_ a) then on_current count_function_call a
      else if is_function_registered runtime_manager name then on_current count_runtime_call a
      else a
  | _ => a
  end.
Definition note_routine_call (routine_expr : Expression) (a : analyzer) : analyzer :=
  match routine_expr with
  | VariableAccess name _ =>
      if bool_decide (name ∈ local_routine_names_ a) then on_current count_routine_call a
      else if is_function_registered runtime_manager name then on_current count_runtime_call a
      else a
  | _ => a
  end.

(** [SETTYPE(variable, type)] is no call. *)
Definition is_set_type (routine_expr : Expression) (arguments : list Expression) : bool :=
  match routine_expr, arguments with
  | VariableAccess name _, [_; _] => String.eqb name "SETTYPE"
  | _, _ => false
  end.
Definition note_set_type (arguments : list Expression) (a : analyzer) : analyzer :=
  match arguments with
  | [VariableAccess name _; type_expr] =>
      match evaluate_constant_expression type_expr with
      | Some new_type =>
          let a := if String.eqb (current_function_scope_ a) "" then a
                   else on_current (note_type name new_type) a in
          on_symbols (updateSymbolType name new_type) a
      | None => a
      end
  | _ => a
  end.

Definition is_float_arithmetic (op : BinaryOperator) : bool :=
  match op with FloatAdd | FloatSubtract | FloatMultiply | FloatDivide => true | _ => false end.
Definition is_float_operator (op : BinaryOperator) : bool :=
  is_float_arithmetic op
  || match op with
     | FloatEqual | FloatNotEqual | FloatLess | FloatLessEqual | FloatGreater | FloatGreaterEqual => true
     | _ => false
     end.

(** The result of RESULTIS is taken for a float. *)
Definition returns_float (e : Expression) : bool :=
  match e with
  | NumberLiteral (Float _) => true
  | BinaryOp op _ _ => is_float_arithmetic op
  | FunctionCall (VariableAccess name _) _ => String.eqb name "FLOAT"
  | _ => false
  end.
Definition note_result (e : Expression) (a : analyzer) : analyzer :=
  if returns_float e && negb (String.eqb (current_function_scope_ a) "") then
    set_return_types (<[current_function_scope_ a := VT_FLOAT]> (function_return_types_ a)) a
  else a.

(** After the body of VALOF: a RESULTIS directly in its block. *)
Definition has_float_ops (body : Statement) : bool :=
  match body with
  | BlockStatement _ statements =>
      existsb (fun s => match s with ResultisStatement e => returns_float e | _ => false end) statements
  | _ => false
  end.
Definition note_valof (body : Statement) (a : analyzer) : analyzer :=
  if negb (String.eqb (current_function_scope_ a) "")
     && match function_return_types_ a !! current_function_scope_ a with Some _ => true | None => false end
     && has_float_ops body
  then set_return_types (<[current_function_scope_ a := VT_FLOAT]> (function_return_types_ a)) a
  else a.

(** *** LET *)

(** The hints for a variable of simple type. *)
Definition float_initializer (a : analyzer) (initializer : Expression) : bool :=
  match initializer with
  | NumberLiteral (Float _) => true
  | FunctionCall (VariableAccess name _) _ =>
      bool_decide (name ∈ local_float_function_names_ a)
      || match get_runtime_function_type name with FLOAT => true | STANDARD => false end
  | BinaryOp op _ _ => is_float_operator op
  | _ => false
  end.

Definition let_type (is_float_declaration : bool) (initializer : option Expression) (a : analyzer) : VarType :=
  match initializer with
  | Some (FVecAllocationExpression _ _) => POINTER_TO_FLOAT_VEC
  | Some (VecAllocationExpression _ _) => POINTER_TO_INT_VEC
  | Some e =>
      let inferred_type := infer_type e a in
      if one_of inferred_type [VT_UNKNOWN; VT_INTEGER; VT_FLOAT] then
        if is_float_declaration || float_initializer a e then VT_FLOAT else VT_INTEGER
      else inferred_type
  | None => if is_float_declaration then VT_FLOAT else VT_INTEGER
  end.

(** HD of a list of floats. *)
Definition float_head (type : VarType) (e : Expression) : Expression :=
  match e with
  | UnaryOp HeadOf operand => if type =? VT_FLOAT then UnaryOp HeadOfAsFloat operand else e
  | _ => e
  end.

Definition count_let (name : string) (type : VarType) (m : FunctionMetrics) : FunctionMetrics :=
  let m := note_type name type m in
  if one_of type [VT_FLOAT; POINTER_TO_FLOAT_VEC] then count_float_variable m else count_variable m.

Definition note_let (name : string) (type : VarType) (a : analyzer) : analyzer :=
  add_symbol name LOCAL_VAR type (on_current (count_let name type) a).

(** The names in their order, each with its initializer if there is one; initializers
    without a name are not visited. *)
Definition visit_let (visit : Expression -> An Expression) (is_float : bool)
    : list string -> list Expression -> An (list Expression) :=
  fix go names initializers {struct initializers} :=
    match initializers, names with
    | _, [] => mret initializers
    | [], names =>
        st_each (fun name =>
          st_modify (fun a => if in_global_scope a then a
                              else note_let name (let_type is_float None a) a)) names;;
        mret []
    | e :: initializers, name :: names =>
        global ← st_get in_global_scope;
        e ← if (global : bool) then visit e
            else
              type ← st_get (let_type is_float (Some e));
              st_modify (note_let name type);;
              visit (float_head type e);
        initializers ← go names initializers;
        mret (e :: initializers)
    end.

(** *** Assignments *)

Definition note_assignment (lhs : Expression) (rhs : Expression) (a : analyzer) : analyzer :=
  match lhs with
  | VariableAccess name _ =>
      let rhs_type := infer_type rhs a in
      let a := if String.eqb (current_function_scope_ a) "" then a
               else on_current (note_type name rhs_type) a in
      if is_defined name a then a
      else add_symbol name LOCAL_VAR rhs_type
             (on_function count_variable (define name (current_function_scope_ a) a))
  | _ => a
  end.

(** The left-hand sides, with the right-hand sides they have. *)
Definition visit_lhs (visit : Expression -> An Expression)
    : list Expression -> list Expression -> An (list Expression) :=
  fix go lhs rhs {struct lhs} :=
    match lhs with
    | [] => mret []
    | l :: lhs =>
        st_modify (fun a => match rhs with r :: _ => note_assignment l r a | [] => a end);;
        l ← visit l;
        lhs ← go lhs (tail rhs);
        mret (l :: lhs)
    end.

(** *** FOR *)

(** The unique name of a loop variable: one for all loops over it in a function. *)
Definition enter_loop_variable (name : string) : An string :=
  known ← st_get (fun a => for_variable_unique_aliases_ a !! name);
  match known with
  | Some unique => mret unique
  | None =>
      n ← st_get for_loop_var_counter_;
      let unique := (name ++ "_for_var_" ++ to_string n)%string in
      st_modify (fun a =>
        let a := set_loops (n + 1) (<[name := unique]> (for_variable_unique_aliases_ a))
                   (active_for_loop_scopes_ a) (for_loop_instance_suffix_counter a) a in
        let a := define unique (current_function_scope_ a) a in
        on_function (fun m => note_type unique VT_INTEGER (count_variable m)) a);;
      mret unique
  end.

Definition push_loop (name unique : string) (a : analyzer) : analyzer :=
  set_loops (for_loop_var_counter_ a) (for_variable_unique_aliases_ a)
    ({[name := unique]} :: active_for_loop_scopes_ a) (for_loop_instance_suffix_counter a) a.
(** [pop()] of an empty stack is undefined. *)
Definition pop_loop : An unit := fun a =>
  match active_for_loop_scopes_ a with
  | [] => (a, Undefined)
  | _ :: active =>
      (set_loops (for_loop_var_counter_ a) (for_variable_unique_aliases_ a) active
         (for_loop_instance_suffix_counter a) a, Done tt)
  end.

(** A variable for the step or the limit of one loop. *)
Definition instance_name (unique kind : string) (n : Z) : string := (unique ++ kind ++ to_string n)%string.
Definition define_hidden (name : string) (a : analyzer) : analyzer :=
  on_function count_variable (define name (current_function_scope_ a) a).
Definition next_instance (a : analyzer) : analyzer :=
  set_loops (for_loop_var_counter_ a) (for_variable_unique_aliases_ a) (active_for_loop_scopes_ a)
    (for_loop_instance_suffix_counter a + 1) a.

(** The unique names of the variable, the step and the limit. *)
Definition enter_loop (name : string) : An (string * string * string) :=
  unique ← enter_loop_variable name;
  st_modify (push_loop name unique);;
  n ← st_get for_loop_instance_suffix_counter;
  let step := instance_name unique "_step_inst_" n in
  let limit := instance_name unique "_end_inst_" n in
  st_modify (define_hidden step);;
  st_modify (define_hidden limit);;
  st_modify next_instance;;
  mret (unique, step, limit).

(** *** FOREACH *)

Definition element_type_of (collection_type : VarType) : VarType :=
  if one_of collection_type [POINTER_TO_INT_VEC; POINTER_TO_STRING; POINTER_TO_INT_LIST;
       CONST_POINTER_TO_INT_LIST] then VT_INTEGER
  else if one_of collection_type [POINTER_TO_FLOAT_VEC; POINTER_TO_FLOAT_LIST;
            CONST_POINTER_TO_FLOAT_LIST] then VT_FLOAT
  else if one_of collection_type [POINTER_TO_STRING_LIST; CONST_POINTER_TO_STRING_LIST]
  then POINTER_TO_STRING
  else VT_ANY.

(** [collection_type >= POINTER_TO_ANY_LIST && collection_type <= CONST_POINTER_TO_STRING_LIST] *)
Definition in_list_range (t : VarType) : bool :=
  (POINTER_TO_ANY_LIST <=? t) && (t <=? CONST_POINTER_TO_STRING_LIST).

(** The types of the loop variables; the filter and the element type of the statement. *)
Definition note_foreach (v t : string) (collection_type filter_type : VarType) (a : analyzer)
    : analyzer * (VarType * VarType) :=
  let element_type := element_type_of collection_type in
  if String.eqb (current_function_scope_ a) "" then (a, (filter_type, element_type))
  else if negb (String.eqb t "") then
    let a := on_current (note_type t VT_INTEGER) a in
    if in_list_range collection_type then (on_current (note_type v VT_ANY) a, (VT_ANY, element_type))
    else (on_current (note_type v element_type) a, (filter_type, element_type))
  else
    let element_type :=
      if one_of collection_type [POINTER_TO_ANY_LIST; CONST_POINTER_TO_ANY_LIST]
      then filter_type else element_type in
    let a := on_current (note_type v element_type) a in
    (on_symbols (updateSymbolType v element_type) a, (filter_type, element_type)).

Definition foreach_types (v t : string) (collection : Expression) (filter_type : VarType)
    : An (VarType * VarType) :=
  fun a =>
    let '(a, types) := note_foreach v t (infer_type collection a) filter_type a in (a, Done types).

(** *** Scopes *)

Definition in_block {A} (body : An A) : An A :=
  st_modify (on_symbols enterScope);;
  previous ← st_get current_lexical_scope_;
  st_modify (fun a => set_scopes (current_function_scope_ a)
    (previous ++ "_block_" ++ to_string (Z.of_nat (base.size (variable_definitions_ a)))) a);;
  x ← body;
  st_modify (fun a => set_scopes (current_function_scope_ a) previous a);;
  st_modify (on_symbols exitScope);;
  mret x.

Definition count_parameter (name : string) (i : Z) (is_float : bool) (m : FunctionMetrics) : FunctionMetrics :=
  let m := note_index name i m in
  if is_float then note_type name VT_FLOAT (count_float_variable m)
  else note_type name VT_INTEGER (count_variable m).

Fixpoint note_parameters (function : string) (parameters : list string) (i : Z) (is_float : bool)
    (a : analyzer) : analyzer :=
  match parameters with
  | [] => a
  | p :: parameters =>
      note_parameters function parameters (i + 1) is_float
        (update_metrics function (count_parameter p i is_float) (define p function a))
  end.

(** [function_return_types_\[name\]] enters [UNKNOWN] under a new name. *)
Definition enter_function (name : string) (parameters : list string) (a : analyzer) : analyzer :=
  let a := on_symbols enterScope a in
  let a := set_loops (for_loop_var_counter_ a) ∅ [] (for_loop_instance_suffix_counter a) a in
  let a := set_scopes name name a in
  let a := update_metrics name (set_parameters (Z.of_nat (length parameters))) a in
  let t := default VT_UNKNOWN (function_return_types_ a !! name) in
  let a := set_return_types (<[name := t]> (function_return_types_ a)) a in
  note_parameters name parameters 0 (t =? VT_FLOAT) a.

Definition in_function {A} (name : string) (parameters : list string) (body : An A) : An A :=
  previous ← st_get (fun a => (current_function_scope_ a, current_lexical_scope_ a));
  st_modify (enter_function name parameters);;
  x ← body;
  st_modify (set_scopes previous.1 previous.2);;
  st_modify (on_symbols exitScope);;
  mret x.

(** ** The traversal

    A routine visits the LETs of its body twice, the second time as the first visit left
    them, so the recursion is not on the tree: [visit_expr] and [visit_stmt] are the visits of
    the children. *)

Section level.
Context (visit_expr : Expression -> An Expression) (visit_stmt : Statement -> An Statement).

(** *** Expressions *)

Definition visit_BinaryOp (op : BinaryOperator) (l r : Expression) : An Expression :=
  l ← visit_expr l; r ← visit_expr r; mret (BinaryOp op l r).
Definition visit_UnaryOp (op : UnaryOperator) (a : Expression) : An Expression :=
  a ← visit_expr a; mret (UnaryOp op a).
Definition visit_VectorAccess (v i : Expression) : An Expression :=
  v ← visit_expr v; i ← visit_expr i; mret (VectorAccess v i).
Definition visit_CharIndirection (v i : Expression) : An Expression :=
  v ← visit_expr v; i ← visit_expr i; mret (CharIndirection v i).
Definition visit_FloatVectorIndirection (v i : Expression) : An Expression :=
  v ← visit_expr v; i ← visit_expr i; mret (FloatVectorIndirection v i).
Definition visit_BitfieldAccessExpression (b s w : Expression) : An Expression :=
  b ← visit_expr b; s ← visit_expr s; w ← visit_expr w; mret (BitfieldAccessExpression b s w).
Definition visit_FunctionCall (f : Expression) (args : list Expression) : An Expression :=
  st_modify (note_function_call f);;
  args ← st_map visit_expr args; mret (FunctionCall f args).
Definition visit_SysCall (name : string) (n : Expression) (args : list Expression) : An Expression :=
  args ← st_map visit_expr args; mret (SysCall name n args).
Definition visit_ConditionalExpression (c t f : Expression) : An Expression :=
  c ← visit_expr c; t ← visit_expr t; f ← visit_expr f; mret (ConditionalExpression c t f).
Definition visit_ValofExpression (body : Statement) : An Expression :=
  previous_function_scope ← st_get current_function_scope_;
  body ← visit_stmt body;
  st_modify (note_valof body);;
  st_modify (fun a => set_scopes previous_function_scope (current_lexical_scope_ a) a);;
  mret (ValofExpression body).
Definition visit_FloatValofExpression (body : Statement) : An Expression :=
  body ← visit_stmt body; mret (FloatValofExpression body).
Definition visit_VecAllocationExpression (n : Expression) (v : string) : An Expression :=
  st_modify (on_function note_vector_allocation);;
  n ← visit_expr n; mret (VecAllocationExpression n v).
Definition visit_StringAllocationExpression (n : Expression) : An Expression :=
  n ← visit_expr n; mret (StringAllocationExpression n).
Definition visit_ListExpression (l : list Expression) (m : bool) : An Expression :=
  l ← st_map visit_expr l; mret (ListExpression l m).

Definition expr_level (e : Expression) : An Expression :=
  match e with
  | VariableAccess name unique_name => visit_VariableAccess name unique_name
  | BinaryOp op l r => visit_BinaryOp op l r
  | UnaryOp op a => visit_UnaryOp op a
  | VectorAccess v i => visit_VectorAccess v i
  | CharIndirection v i => visit_CharIndirection v i
  | FloatVectorIndirection v i => visit_FloatVectorIndirection v i
  | BitfieldAccessExpression b s w => visit_BitfieldAccessExpression b s w
  | FunctionCall f args => visit_FunctionCall f args
  | SysCall name n args => visit_SysCall name n args
  | ConditionalExpression c t f => visit_ConditionalExpression c t f
  | ValofExpression body => visit_ValofExpression body
  | FloatValofExpression body => visit_FloatValofExpression body
  | VecAllocationExpression n v => visit_VecAllocationExpression n v
  | StringAllocationExpression n => visit_StringAllocationExpression n
  | ListExpression l m => visit_ListExpression l m
  | NumberLiteral _ | StringLiteral _ | CharLiteral _ | BooleanLiteral _
  | VecInitializerExpression _ | FVecAllocationExpression _ _ | TableExpression _ _ => mret e
  end.

Definition visit_optional {A} (visit : A -> An A) (o : option A) : An (option A) :=
  match o with Some a => a ← visit a; mret (Some a) | None => mret None end.

(** The constant of a CASE is evaluated, not visited. *)
Definition visit_case (c : CaseClause) : An CaseClause :=
  match c with
  | mkCase e command resolved =>
      let resolved := match evaluate_constant_expression e with Some v => Some v | None => resolved end in
      command ← visit_stmt command; mret (mkCase e command resolved)
  end.

(** LETs, which are declared and visited. *)
Definition visit_let_stmt (s : Statement) : An Statement :=
  match s with
  | LetDeclaration names l is_float =>
      l ← visit_let visit_expr is_float names l; mret (LetDeclaration names l is_float)
  | _ => mret s
  end.

(** *** Declarations *)

Definition visit_GlobalDeclaration (globals : list (string * Z)) : An Declaration :=
  st_modify (fun a => fold_left (fun a g => define (fst g) "Global" a) globals a);;
  mret (GlobalDeclaration globals).
Definition visit_GlobalVariableDeclaration (names : list string) (l : list Expression) (is_float : bool)
    : An Declaration :=
  st_modify (fun a => set_scopes "Global" (current_lexical_scope_ a) a);;
  st_modify (fun a => fold_left (fun a name => define name "Global" a) names a);;
  mret (GlobalVariableDeclaration names l is_float).
Definition visit_FunctionDeclaration (name : string) (parameters : list string) (body : Expression)
    : An Declaration :=
  body ← in_function name parameters (visit_expr body);
  mret (FunctionDeclaration name parameters body).
Definition visit_RoutineDeclaration (name : string) (parameters : list string) (body : Statement)
    : An Declaration :=
  body ← in_function name parameters
           (body ← match body with
                   | CompoundStatement l => l ← st_map visit_let_stmt l; mret (CompoundStatement l)
                   | _ => mret body
                   end;
            visit_stmt body);
  mret (RoutineDeclaration name parameters body).

Definition decl_level (d : Declaration) : An Declaration :=
  match d with
  | GlobalDeclaration globals => visit_GlobalDeclaration globals
  | GlobalVariableDeclaration names l is_float => visit_GlobalVariableDeclaration names l is_float
  | FunctionDeclaration name parameters body => visit_FunctionDeclaration name parameters body
  | RoutineDeclaration name parameters body => visit_RoutineDeclaration name parameters body
  | ManifestDeclaration _ _ | StaticDeclaration _ _ _ | LabelDeclaration _ _ => mret d
  end.

(** *** Statements *)

Definition visit_AssignmentStatement (lhs rhs : list Expression) : An Statement :=
  rhs ← st_map visit_expr rhs;
  lhs ← visit_lhs visit_expr lhs rhs; mret (AssignmentStatement lhs rhs).
Definition visit_RoutineCallStatement (f : Expression) (args : list Expression) : An Statement :=
  if is_set_type f args then st_modify (note_set_type args);; mret (RoutineCallStatement f args)
  else
    st_modify (note_routine_call f);;
    args ← st_map visit_expr args; mret (RoutineCallStatement f args).
Definition visit_IfStatement (c : Expression) (t : Statement) : An Statement :=
  c ← visit_expr c; t ← visit_stmt t; mret (IfStatement c t).
Definition visit_UnlessStatement (c : Expression) (t : Statement) : An Statement :=
  c ← visit_expr c; t ← visit_stmt t; mret (UnlessStatement c t).
Definition visit_TestStatement (c : Expression) (t : Statement) (e : option Statement) : An Statement :=
  c ← visit_expr c; t ← visit_stmt t; e ← visit_optional visit_stmt e; mret (TestStatement c t e).
Definition visit_WhileStatement (c : Expression) (b : Statement) : An Statement :=
  c ← visit_expr c; b ← visit_stmt b; mret (WhileStatement c b).
Definition visit_UntilStatement (c : Expression) (b : Statement) : An Statement :=
  c ← visit_expr c; b ← visit_stmt b; mret (UntilStatement c b).
Definition visit_RepeatStatement (k : LoopType) (b : Statement) (c : option Expression) : An Statement :=
  b ← visit_stmt b; c ← visit_optional visit_expr c; mret (RepeatStatement k b c).
Definition visit_ForStatement (v : string) (start_expr end_expr : Expression) (step_expr : option Expression) (body : Statement) : An Statement :=
  names ← enter_loop v;
  start_expr ← visit_expr start_expr;
  end_expr ← visit_expr end_expr;
  step_expr ← visit_optional visit_expr step_expr;
  body ← visit_stmt body;
  pop_loop;;
  mret (ForStatement v names.1.1 names.1.2 names.2 start_expr end_expr step_expr body).
Definition visit_ForEachStatement (v t : string) (collection : Expression) (body : Statement) (filter_type : VarType) : An Statement :=
  collection ← visit_expr collection;
  body ← visit_stmt body;
  types ← foreach_types v t collection filter_type;
  mret (ForEachStatement v t collection body types.1 types.2).
Definition visit_SwitchonStatement (e : Expression) (cases : list CaseClause) (d : option Statement) : An Statement :=
  e ← visit_expr e; cases ← st_map visit_case cases; d ← visit_optional visit_stmt d;
  mret (SwitchonStatement e cases d).
Definition visit_CaseStatement (clause : CaseClause) : An Statement :=
  match clause with
  | mkCase e command resolved =>
      e ← visit_expr e; command ← visit_stmt command; mret (CaseStatement (mkCase e command resolved))
  end.
Definition visit_DefaultStatement (command : Statement) : An Statement :=
  command ← visit_stmt command; mret (DefaultStatement command).
Definition visit_ResultisStatement (e : Expression) : An Statement :=
  e ← visit_expr e; st_modify (note_result e);; mret (ResultisStatement e).
Definition visit_CompoundStatement (l : list Statement) : An Statement :=
  l ← st_map visit_stmt l; mret (CompoundStatement l).
Definition visit_StringStatement (e : Expression) : An Statement :=
  e ← visit_expr e; mret (StringStatement e).
Definition visit_FreeStatement (e : Expression) : An Statement :=
  e ← visit_expr e; mret (FreeStatement e).
Definition visit_BlockStatement (ds : list Declaration) (l : list Statement) : An Statement :=
  in_block (ds ← st_map decl_level ds; l ← st_map visit_stmt l; mret (BlockStatement ds l)).

Definition stmt_level (s : Statement) : An Statement :=
  match s with
  | LetDeclaration _ _ _ => visit_let_stmt s
  | AssignmentStatement lhs rhs => visit_AssignmentStatement lhs rhs
  | RoutineCallStatement f args => visit_RoutineCallStatement f args
  | IfStatement c t => visit_IfStatement c t
  | UnlessStatement c t => visit_UnlessStatement c t
  | TestStatement c t e => visit_TestStatement c t e
  | WhileStatement c b => visit_WhileStatement c b
  | UntilStatement c b => visit_UntilStatement c b
  | RepeatStatement k b c => visit_RepeatStatement k b c
  | ForStatement v _ _ _ start_expr end_expr step_expr body => visit_ForStatement v start_expr end_expr step_expr body
  | ForEachStatement v t collection body filter_type _ => visit_ForEachStatement v t collection body filter_type
  | SwitchonStatement e cases d => visit_SwitchonStatement e cases d
  | CaseStatement clause => visit_CaseStatement clause
  | DefaultStatement command => visit_DefaultStatement command
  | ResultisStatement e => visit_ResultisStatement e
  | CompoundStatement l => visit_CompoundStatement l
  | StringStatement e => visit_StringStatement e
  | FreeStatement e => visit_FreeStatement e
  | BlockStatement ds l => visit_BlockStatement ds l
  | GotoStatement _ | ReturnStatement | FinishStatement _ _ | BreakStatement | BrkStatement
  | LoopStatement | EndcaseStatement | LabelTargetStatement _ | ConditionalBranchStatement _ _ _ => mret s
  end.
End level.

(** The visits of trees up to a height. *)
Fixpoint accept (height : nat) : (Expression -> An Expression) * (Statement -> An Statement) :=
  match height with
  | O => (fun _ => st_undefined, fun _ => st_undefined)
  | S height =>
      let '(visit_expr, visit_stmt) := accept height in
      (expr_level visit_expr visit_stmt, stmt_level visit_expr visit_stmt)
  end.
Definition accept_expr (height : nat) : Expression -> An Expression := (accept height).1.
Definition accept_stmt (height : nat) : Statement -> An Statement := (accept height).2.
Definition accept_decl (height : nat) : Declaration -> An Declaration :=
  decl_level (accept_expr height) (accept_stmt height).

(** [first_pass_discover_functions]; a LET is no declaration, so the branch for it is never taken. *)
Definition discover (d : Declaration) (a : analyzer) : analyzer :=
  match d with
  | FunctionDeclaration name _ body =>
      let floats := match body with FloatValofExpression _ => true | _ => false end in
      let a := set_local_names ({[name]} ∪ local_function_names_ a) (local_routine_names_ a)
                 (if floats then {[name]} ∪ local_float_function_names_ a
                  else local_float_function_names_ a) a in
      let a := set_metrics (<[name := FunctionMetrics_new]> (function_metrics_ a)) a in
      set_return_types (<[name := if floats then VT_FLOAT else VT_INTEGER]> (function_return_types_ a)) a
  | RoutineDeclaration name _ _ =>
      let a := set_local_names (local_function_names_ a) ({[name]} ∪ local_routine_names_ a)
                 (local_float_function_names_ a) a in
      let a := set_metrics (<[name := FunctionMetrics_new]> (function_metrics_ a)) a in
      set_return_types (<[name := VT_INTEGER]> (function_return_types_ a)) a
  | _ => a
  end.
Definition first_pass_discover_functions (p : Program) (a : analyzer) : analyzer :=
  fold_left (fun a d => discover d a) (declarations p) a.

Definition visit_Program (height : nat) (p : Program) : An Program :=
  st_modify (fun a => set_loops 0 ∅ [] 0 (set_scopes "Global" (current_lexical_scope_ a) a));;
  ds ← st_map (accept_decl height) (declarations p);
  ss ← st_map (accept_stmt height) (statements p);
  mret (mkProgram ds ss).

Definition analyze (height : nat) (p : Program) (t : option SymbolTable) : An Program :=
  st_modify (set_symbol_table t);;
  st_modify reset_state;;
  st_modify (first_pass_discover_functions p);;
  visit_Program height p.
End visitors.

(** The visitors unfold together. *)
Create HintDb visitors.
#[export] Hint Unfold visit_BinaryOp visit_UnaryOp visit_VectorAccess visit_CharIndirection
  visit_FloatVectorIndirection visit_BitfieldAccessExpression visit_FunctionCall visit_SysCall
  visit_ConditionalExpression visit_ValofExpression visit_FloatValofExpression
  visit_VecAllocationExpression visit_StringAllocationExpression visit_ListExpression
  visit_GlobalDeclaration visit_GlobalVariableDeclaration visit_FunctionDeclaration
  visit_RoutineDeclaration visit_AssignmentStatement visit_RoutineCallStatement
  visit_IfStatement visit_UnlessStatement visit_TestStatement visit_WhileStatement
  visit_UntilStatement visit_RepeatStatement visit_ForStatement visit_ForEachStatement
  visit_SwitchonStatement visit_CaseStatement visit_DefaultStatement visit_ResultisStatement
  visit_CompoundStatement visit_StringStatement visit_FreeStatement visit_BlockStatement : visitors.
