(* ===== verification/AnalyzerProof.v ===== *)
(** * What the analyzer keeps

    The visits of Analyzer.v end on trees without functions in blocks, leave the scopes of
    the symbol table and the stack of loops as they found them, and give every FOR loop
    hidden variables of its own.  [extends] is the relation between the states before and
    after a visit; the hidden variables a tree got are collected by [loops_*], in the order
    of the visits. *)

From S2P Require Import Prelude State Cfg CfgSpec CfgProof CallFrame Labels Ast Trees SymbolTable Analysis Analyzer.
Import Analyzer.
Local Open Scope Z_scope.

(** ** Hidden variables of loops *)

(** Step and limit of the loops in the places the analyzer visits. *)
Definition option_list {A B} (f : A -> list B) (o : option A) : list B :=
  match o with Some a => f a | None => [] end.

Fixpoint loops_expr (e : Expression) : list (string * string) :=
  match e with
  | BinaryOp _ a b | VectorAccess a b | CharIndirection a b | FloatVectorIndirection a b =>
      loops_expr a ++ loops_expr b
  | UnaryOp _ a | VecAllocationExpression a _ | StringAllocationExpression a => loops_expr a
  | BitfieldAccessExpression a b c | ConditionalExpression a b c =>
      loops_expr a ++ loops_expr b ++ loops_expr c
  | FunctionCall _ l | SysCall _ _ l | ListExpression l _ => List.concat (List.map loops_expr l)
  | ValofExpression s | FloatValofExpression s => loops_stmt s
  | _ => []
  end
with loops_stmt (s : Statement) : list (string * string) :=
  match s with
  | ForEachStatement _ _ c b _ _ => loops_expr c ++ loops_stmt b
  | LetDeclaration names l _ => List.concat (firstn (length names) (List.map loops_expr l))
  | AssignmentStatement lhs rhs =>
      List.concat (List.map loops_expr rhs) ++ List.concat (List.map loops_expr lhs)
  | FreeStatement e | ResultisStatement e | StringStatement e => loops_expr e
  | RoutineCallStatement f args =>
      if is_set_type f args then [] else List.concat (List.map loops_expr args)
  | IfStatement c b | UnlessStatement c b | WhileStatement c b | UntilStatement c b =>
      loops_expr c ++ loops_stmt b
  | TestStatement c t e => loops_expr c ++ loops_stmt t ++ option_list loops_stmt e
  | RepeatStatement _ b c => loops_stmt b ++ option_list loops_expr c
  | ForStatement _ _ step limit a b st body =>
      (step, limit) :: loops_expr a ++ loops_expr b ++ option_list loops_expr st ++ loops_stmt body
  | CaseStatement (mkCase e command _) => loops_expr e ++ loops_stmt command
  | DefaultStatement c => loops_stmt c
  | SwitchonStatement e cases d =>
      loops_expr e ++ List.concat (List.map loops_case cases) ++ option_list loops_stmt d
  | CompoundStatement l => List.concat (List.map loops_stmt l)
  | BlockStatement ds l => List.concat (List.map loops_decl ds) ++ List.concat (List.map loops_stmt l)
  | _ => []
  end
with loops_case (c : CaseClause) : list (string * string) :=
  match c with mkCase _ command _ => loops_stmt command end
with loops_decl (d : Declaration) : list (string * string) :=
  match d with
  | FunctionDeclaration _ _ e => loops_expr e
  | RoutineDeclaration _ _ s => loops_stmt s
  | _ => []
  end.

Definition loops_program (p : Program) : list (string * string) :=
  List.concat (List.map loops_decl (declarations p))
  ++ List.concat (List.map loops_stmt (statements p)).

(** The names of the [n]-th loop. *)
Definition numbered_name (p : string * string) (n : Z) : Prop :=
  exists unique, p = (instance_name unique "_step_inst_" n, instance_name unique "_end_inst_" n).

(** The loops of [l] have different numbers from [from] up to [to]. *)
Definition numbered (from to : Z) (l : list (string * string)) : Prop :=
  exists ns, Forall2 numbered_name l ns /\ NoDup ns /\ Forall (fun n => from <= n < to) ns.

Lemma numbered_nil from to : numbered from to [].
Proof. exists []. split_and!; constructor. Qed.

Lemma numbered_app a b c l l' : a <= b <= c -> numbered a b l -> numbered b c l' -> numbered a c (l ++ l').
Proof.
  intros Hle (ns & H & Hd & Hr) (ns' & H' & Hd' & Hr'). exists (ns ++ ns').
  split; [by apply Forall2_app|]. split.
  - apply list.NoDup_app. split_and!; [done| |done]. intros n Hn Hn'.
    rewrite list.Forall_forall in Hr, Hr'. specialize (Hr n Hn). specialize (Hr' n Hn'). lia.
  - apply list.Forall_app. split; eapply list.Forall_impl; try eassumption; cbn; lia.
Qed.

Lemma numbered_weaken a b c d l : a <= b -> c <= d -> numbered b c l -> numbered a d l.
Proof.
  intros Ha Hd (ns & H & Hn & Hr). exists ns. split_and!; [done..|].
  eapply list.Forall_impl; [exact Hr|]. cbn. lia.
Qed.

(** ** Scopes of the symbol table *)

(** Names are only added, and only to the innermost scope. *)
Definition framed (t t' : SymbolTable) : Prop :=
  table_inv t ->
  table_inv t' /\ current_scope_level t' = current_scope_level t
  /\ (forall k, (k < current_scope_level t)%nat -> dom (scope_at t' k) = dom (scope_at t k))
  /\ dom (scope_at t (current_scope_level t)) ⊆ dom (scope_at t' (current_scope_level t)).

Lemma framed_refl t : framed t t.
Proof. by intros H. Qed.

Lemma framed_trans t t' t'' : framed t t' -> framed t' t'' -> framed t t''.
Proof.
  intros H H' Hi. destruct (H Hi) as (Hi' & Hl & Hk & Hc). destruct (H' Hi') as (Hi'' & Hl' & Hk' & Hc').
  rewrite Hl in *. split_and!; [done | done | | by etrans]. intros k Hlt. rewrite Hk', Hk; done.
Qed.

Lemma framed_add s t : framed t (addSymbol s t).1.
Proof.
  intros Hi. split; [by apply addSymbol_inv|]. unfold table_inv in Hi. unfold addSymbol. case_match; [done|].
  cbn [fst]. split; [done|]. split.
  - intros k Hk. rewrite scope_at_insert by lia. by rewrite decide_False by lia.
  - rewrite scope_at_insert by lia. rewrite decide_True by done. set_solver.
Qed.

Lemma framed_scope t t' : framed (enterScope t) t' -> framed t (exitScope t').
Proof.
  intros H Hi. destruct H as (Hi' & Hl & Hk & Hc).
  { unfold table_inv in *. cbn. rewrite length_app, Hi. cbn. lia. }
  change (current_scope_level (enterScope t)) with (S (current_scope_level t)) in *. unfold table_inv in *.
  assert (Hat : forall k, (k <= current_scope_level t)%nat -> scope_at (exitScope t') k = scope_at t' k).
  { intros k Hle. unfold exitScope. rewrite Hl. unfold scope_at. cbn. rewrite removelast_firstn_len.
    by rewrite lookup_take_lt by lia. }
  assert (Hat' : forall k, (k <= current_scope_level t)%nat -> scope_at (enterScope t) k = scope_at t k).
  { intros k Hle. unfold scope_at. cbn. by rewrite lookup_app_l by lia. }
  split_and!.
  - unfold exitScope. rewrite Hl. cbn. rewrite removelast_firstn_len, length_firstn. lia.
  - unfold exitScope. by rewrite Hl.
  - intros k Hlt. rewrite Hat, Hk, Hat' by lia. done.
  - rewrite Hat, Hk, Hat' by lia. done.
Qed.

Definition framed_option (t t' : option SymbolTable) : Prop :=
  match t, t' with
  | Some t, Some t' => framed t t'
  | None, None => True
  | _, _ => False
  end.

Lemma framed_option_refl t : framed_option t t.
Proof. destruct t; [apply framed_refl | done]. Qed.

Lemma framed_option_trans t t' t'' : framed_option t t' -> framed_option t' t'' -> framed_option t t''.
Proof. destruct t, t', t''; cbn; try done. apply framed_trans. Qed.

Lemma framed_map f t : (forall t, framed t (f t)) -> framed_option t (option_map f t).
Proof. destruct t; cbn; auto. Qed.

(** ** What a visit may change *)

Create HintDb quiet.

Section visitors.
Context (runtime_manager : RuntimeManager).
Context (updateSymbolType : string -> VarType -> SymbolTable -> SymbolTable).
(** A change of a symbol's type adds no name and leaves no scope. *)
Context (updateSymbolType_framed : forall name type t, framed t (updateSymbolType name type t)).

Record extends (a a' : analyzer) (l : list (string * string)) : Prop := {
  extends_function : current_function_scope_ a' = current_function_scope_ a
    \/ current_function_scope_ a' = "Global"%string;
  extends_lexical : current_lexical_scope_ a' = current_lexical_scope_ a;
  extends_active : active_for_loop_scopes_ a' = active_for_loop_scopes_ a;
  extends_table : framed_option (symbol_table_ a) (symbol_table_ a');
  extends_counter : for_loop_instance_suffix_counter a <= for_loop_instance_suffix_counter a';
  extends_loops : numbered (for_loop_instance_suffix_counter a) (for_loop_instance_suffix_counter a') l
}.

Lemma extends_both a b c l l' : extends a b l -> extends b c l' -> extends a c (l ++ l').
Proof.
  intros [H1 H2 H3 H4 H5 H6] [H1' H2' H3' H4' H5' H6']. split; [|congruence|congruence| |lia|].
  - destruct H1' as [->|]; auto.
  - by eapply framed_option_trans.
  - by eapply (numbered_app _ (for_loop_instance_suffix_counter b)).
Qed.

Lemma extends_same a : extends a a [].
Proof. split; auto using framed_option_refl, numbered_nil. lia. Qed.

Lemma extends_before a b c l : extends a b [] -> extends b c l -> extends a c l.
Proof. apply extends_both. Qed.
Lemma extends_after a b c l : extends a b l -> extends b c [] -> extends a c l.
Proof. intros H H'. rewrite <-(app_nil_r l). by eapply extends_both. Qed.

(** A loop that is forgotten. *)
Lemma extends_forget a b l : extends a b l -> extends a b [].
Proof. intros []. split; auto using numbered_nil. Qed.

(** The function scope of before comes back. *)
Lemma extends_back a b l : extends a b l ->
  extends a (set_scopes (current_function_scope_ a) (current_lexical_scope_ b) b) l.
Proof. intros []. split; cbn; auto. Qed.

(** *** Updates that add no loop *)

Definition quiet (f : analyzer -> analyzer) : Prop := forall a, extends a (f a) [].

Lemma quiet_comp f g a : quiet f -> extends a (g a) [] -> extends a (f (g a)) [].
Proof. intros Hf Hg. eapply extends_before; [exact Hg | apply Hf]. Qed.

Lemma quiet_metrics m : quiet (set_metrics m).
Proof. intros a. split; cbn; auto using framed_option_refl, numbered_nil. lia. Qed.
Lemma quiet_update name f : quiet (update_metrics name f).
Proof. intros a. apply quiet_metrics. Qed.
Lemma quiet_current f : quiet (on_current f).
Proof. intros a. apply quiet_update. Qed.
Lemma quiet_function f : quiet (on_function f).
Proof. intros a. unfold on_function. case_match; [apply extends_same | apply quiet_current]. Qed.
Lemma quiet_define name scope : quiet (define name scope).
Proof. intros a. split; cbn; auto using framed_option_refl, numbered_nil. lia. Qed.
Lemma quiet_returns m : quiet (set_return_types m).
Proof. intros a. split; cbn; auto using framed_option_refl, numbered_nil. lia. Qed.
Lemma quiet_symbols f : (forall t, framed t (f t)) -> quiet (on_symbols f).
Proof. intros Hf a. split; cbn; auto using framed_map, numbered_nil. lia. Qed.
Lemma quiet_symbol name kind type : quiet (add_symbol name kind type).
Proof. apply quiet_symbols. intros t. apply framed_add. Qed.

Hint Resolve extends_same quiet_metrics quiet_update quiet_current quiet_function quiet_define
  quiet_returns quiet_symbols quiet_symbol : quiet.

(** Goes through the cases of an update. *)
Ltac quiet_cases := repeat first [ apply extends_same | case_match | progress auto with quiet
  | apply quiet_comp; [solve [auto with quiet] |]
  | match goal with |- extends ?a (?f ?b) [] => apply (quiet_comp f (fun _ => b) a); [solve [auto with quiet] |] end ].

Lemma quiet_variable name : quiet (note_variable name).
Proof. intros a. unfold note_variable. quiet_cases. Qed.
Lemma quiet_function_call f : quiet (note_function_call runtime_manager f).
Proof. intros a. unfold note_function_call. quiet_cases. Qed.
Lemma quiet_routine_call f : quiet (note_routine_call runtime_manager f).
Proof. intros a. unfold note_routine_call. quiet_cases. Qed.
Lemma quiet_set_type args : quiet (note_set_type updateSymbolType args).
Proof. intros a. unfold note_set_type. quiet_cases. Qed.
Lemma quiet_result e : quiet (note_result e).
Proof. intros a. unfold note_result. quiet_cases. Qed.
Lemma quiet_valof s : quiet (note_valof s).
Proof. intros a. unfold note_valof. quiet_cases. Qed.
Lemma quiet_let name type : quiet (note_let name type).
Proof. intros a. unfold note_let. quiet_cases. Qed.
Lemma quiet_assignment l r : quiet (note_assignment l r).
Proof. intros a. unfold note_assignment. quiet_cases. Qed.
Lemma quiet_hidden name : quiet (define_hidden name).
Proof. intros a. unfold define_hidden. quiet_cases. Qed.
Lemma quiet_foreach v t ct ft a : extends a (note_foreach updateSymbolType v t ct ft a).1 [].
Proof. unfold note_foreach. repeat (case_match; cbn [fst]); quiet_cases. Qed.

(** ** Visits *)

(** A visit ends, makes no tree higher and no function in a block, and extends the state by
    the loops of the tree it leaves. *)
Definition visits {T} (height : T -> nat) (flat : T -> bool) (loops : T -> list (string * string))
    (visit : T -> An T) (x : T) : Prop :=
  forall a, ends (visit x) (fun x' a' =>
    (height x' <= height x)%nat /\ flat x' = true /\ extends a a' (loops x')) a.

Lemma quiet_then {B} f (m : An B) Q a :
  quiet f -> (forall a', extends a a' [] -> ends m Q a') -> ends (st_modify f;; m) Q a.
Proof. intros Hf H. apply ends_bind, ends_modify, H, Hf. Qed.

Lemma visits_map {T} height flat loops (visit : T -> An T) l :
  Forall (visits height flat loops visit) l ->
  forall a, ends (st_map visit l) (fun l' a' =>
    ((tallest height l' <= tallest height l)%nat /\ length l' = length l)
    /\ forallb flat l' = true /\ extends a a' (List.concat (List.map loops l'))) a.
Proof.
  induction 1 as [|x l Hx _ IH]; intros a; [apply ends_ret; split_and!; auto using extends_same|].
  cbn [st_map]. apply ends_bind. eapply ends_mono; [apply Hx|]. intros x' a1 (H1 & F1 & E1).
  apply ends_bind. eapply ends_mono; [apply IH|]. intros l' a2 ((H2 & N2) & F2 & E2).
  apply ends_ret. cbn. rewrite F1, F2, N2. split_and!; [lia | done | done|]. by eapply extends_both.
Qed.

Lemma visits_optional {T} height flat loops (visit : T -> An T) o :
  (forall x, o = Some x -> visits height flat loops visit x) ->
  forall a, ends (visit_optional visit o) (fun o' a' =>
    (height_option height o' <= height_option height o)%nat /\ option_allb flat o' = true
    /\ extends a a' (option_list loops o')) a.
Proof.
  intros H a. destruct o as [x|]; cbn [visit_optional]; [|apply ends_ret; split_and!; auto using extends_same].
  apply ends_bind. eapply ends_mono; [by apply H|]. intros x' a1 (H1 & F1 & E1). by apply ends_ret.
Qed.

Section level.
Context (n : nat) (visit_expr : Expression -> An Expression) (visit_stmt : Statement -> An Statement).
Context (visits_expr : forall e, (height_expr e <= n)%nat -> flat_expr e = true ->
  visits height_expr flat_expr loops_expr visit_expr e).
Context (visits_stmt : forall s, (height_stmt s <= n)%nat -> flat_stmt s = true ->
  visits height_stmt flat_stmt loops_stmt visit_stmt s).

Lemma visits_exprs l : (tallest height_expr l <= n)%nat -> forallb flat_expr l = true ->
  Forall (visits height_expr flat_expr loops_expr visit_expr) l.
Proof.
  intros H%tallest_le F. rewrite forallb_forall in F. rewrite list.Forall_forall in *.
  intros e He. apply visits_expr; [by apply H | apply F; by apply list_elem_of_In].
Qed.
Lemma visits_stmts l : (tallest height_stmt l <= n)%nat -> forallb flat_stmt l = true ->
  Forall (visits height_stmt flat_stmt loops_stmt visit_stmt) l.
Proof.
  intros H%tallest_le F. rewrite forallb_forall in F. rewrite list.Forall_forall in *.
  intros e He. apply visits_stmt; [by apply H | apply F; by apply list_elem_of_In].
Qed.

(** The next child of a node. *)
Ltac flat_parts :=
  repeat match goal with H : _ && _ = true |- _ => apply andb_true_iff in H as [? ?] end.
Ltac visit_child :=
  first
    [ apply quiet_then; [solve [auto using quiet_variable, quiet_function_call, quiet_routine_call,
        quiet_set_type, quiet_result, quiet_valof, quiet_let, quiet_assignment, quiet_hidden with quiet] |];
      intros ? ?
    | apply ends_bind; eapply ends_mono;
        [ first [ apply visits_expr; [lia | assumption]
                | apply visits_stmt; [lia | assumption]
                | apply visits_map, visits_exprs; [lia | assumption]
                | apply visits_map, visits_stmts; [lia | assumption]
                | apply visits_optional; intros ? ->; cbn [height_option option_allb] in *;
                  first [apply visits_expr | apply visits_stmt]; [lia | assumption] ]
        | let H := fresh "Hh" in let F := fresh "Hf" in let E := fresh "He" in
          intros ? ? (H & F & E) ] ].
(** The loops of the children, in their order. *)
Ltac chain :=
  repeat match goal with H : extends ?a ?b [] |- extends ?a ?c _ =>
    first [exact H | apply (extends_before _ _ _ _ H); clear H] end;
  match goal with
  | |- extends ?a ?a _ => apply extends_same
  | H : extends ?a ?b ?l |- extends ?a ?c (?l ++ _) => apply (extends_both _ _ _ _ _ H); chain
  | H : extends ?a ?c ?l |- extends ?a ?c ?l => exact H
  | H : extends ?a ?b ?l, H' : extends ?b ?c [] |- extends ?a ?c ?l => exact (extends_after _ _ _ _ H H')
  end.
Ltac finish :=
  apply ends_ret; cbn [height_expr height_stmt flat_expr flat_stmt loops_expr loops_stmt];
  split_and!; [lia | repeat match goal with H : ?x = true |- _ => rewrite H; clear H end; done | chain].

Lemma visits_expr_level e : (height_expr e <= S n)%nat -> flat_expr e = true ->
  visits height_expr flat_expr loops_expr (expr_level runtime_manager visit_expr visit_stmt) e.
Proof.
  intros Hh Hf a. destruct e; cbn [height_expr flat_expr expr_level] in *; autounfold with visitors; flat_parts.
  all: try solve [repeat visit_child; finish].
  (* ValofExpression *)
  apply ends_bind, ends_get. do 2 visit_child. apply ends_bind, ends_modify, ends_ret. cbn.
  split_and!; [lia | done |]. apply extends_back. chain.
Qed.

(** *** LET and assignments *)

Lemma float_head_shape type e :
  height_expr (float_head type e) = height_expr e /\ flat_expr (float_head type e) = flat_expr e.
Proof. destruct e; try done. destruct op; try done. cbn. by case_match. Qed.

Lemma visits_let is_float names l : (tallest height_expr l <= n)%nat -> forallb flat_expr l = true ->
  forall a, ends (visit_let runtime_manager visit_expr is_float names l) (fun l' a' =>
    (tallest height_expr l' <= tallest height_expr l)%nat /\ forallb flat_expr l' = true
    /\ extends a a' (List.concat (firstn (length names) (List.map loops_expr l')))) a.
Proof.
  revert names. induction l as [|e l IH]; intros [|name names] Hh Hf a; cbn [visit_let].
  - apply ends_ret. cbn. split_and!; [done | done | apply extends_same].
  - apply ends_bind. eapply ends_mono.
    { apply (ends_each _ (fun _ a' => extends a a' [])); [apply extends_same|].
      intros name' names' a1 H1. apply ends_modify. eapply extends_before; [exact H1|].
      case_match; [apply extends_same | apply quiet_let]. }
    intros [] a1 H1. apply ends_ret. cbn. split_and!; [done | done | done].
  - apply ends_ret. split_and!; [done | done | apply extends_same].
  - cbn [tallest forallb] in Hh, Hf. fold (tallest height_expr) in Hh. flat_parts.
    apply ends_bind, ends_get, ends_bind. eapply ends_mono.
    { instantiate (1 := fun e' a' => (height_expr e' <= height_expr e)%nat /\ flat_expr e' = true
        /\ extends a a' (loops_expr e')).
      destruct (in_global_scope a); [apply visits_expr; [lia | done]|].
      apply ends_bind, ends_get. apply quiet_then; [apply quiet_let|]. intros a1 H1.
      destruct (float_head_shape (let_type runtime_manager is_float (Some e) a) e) as [Eh Ef].
      eapply ends_mono; [apply visits_expr; [lia | by rewrite Ef]|]. intros e' a2 (H2 & F2 & E2).
      split_and!; [lia | done | by eapply extends_before]. }
    intros e' a1 (H1 & F1 & E1). apply ends_bind.
    eapply ends_mono; [apply IH; [lia | done]|]. intros l' a2 (H2 & F2 & E2).
    apply ends_ret. cbn. rewrite F1, F2. split_and!; [lia | done | by eapply extends_both].
Qed.

Lemma visits_lhs lhs : (tallest height_expr lhs <= n)%nat -> forallb flat_expr lhs = true ->
  forall rhs a, ends (visit_lhs visit_expr lhs rhs) (fun l' a' =>
    (tallest height_expr l' <= tallest height_expr lhs)%nat /\ forallb flat_expr l' = true
    /\ extends a a' (List.concat (List.map loops_expr l'))) a.
Proof.
  induction lhs as [|e l IH]; intros Hh Hf rhs a; cbn [visit_lhs].
  - apply ends_ret. split_and!; [done | done | apply extends_same].
  - cbn [tallest forallb] in Hh, Hf. fold (tallest height_expr) in Hh. flat_parts.
    apply quiet_then; [intros b; destruct rhs; [apply extends_same | apply quiet_assignment]|].
    intros a1 H1. apply ends_bind. eapply ends_mono; [apply visits_expr; [lia | done]|].
    intros e' a2 (H2 & F2 & E2). apply ends_bind. eapply ends_mono; [apply IH; [lia | done]|].
    intros l' a3 (H3 & F3 & E3). apply ends_ret. cbn. rewrite F2, F3.
    split_and!; [lia | done |]. eapply extends_before; [done|]. by eapply extends_both.
Qed.

Lemma visits_let_stmt s : (height_stmt s <= S n)%nat -> flat_stmt s = true ->
  (match s with LetDeclaration _ _ _ => true | _ => false end) = true ->
  visits height_stmt flat_stmt loops_stmt (visit_let_stmt runtime_manager visit_expr) s.
Proof.
  intros Hh Hf Hl a. destruct s; try discriminate. cbn [height_stmt flat_stmt visit_let_stmt] in *.
  apply ends_bind. eapply ends_mono; [apply visits_let; [lia | done]|].
  intros l' a1 (H1 & F1 & E1). apply ends_ret. cbn. split_and!; [lia | done | done].
Qed.

(** *** Loops *)

Lemma ends_enter_variable v a :
  ends (enter_loop_variable v) (fun _ a' => extends a a' []
    /\ for_loop_instance_suffix_counter a' = for_loop_instance_suffix_counter a) a.
Proof.
  unfold enter_loop_variable. apply ends_bind, ends_get.
  destruct (for_variable_unique_aliases_ a !! v); [apply ends_ret; auto using extends_same|].
  apply ends_bind, ends_get, ends_bind, ends_modify, ends_ret.
  set (b := set_loops _ _ _ _ a).
  assert (Hb : extends a b []) by (split; cbn; auto using framed_option_refl, numbered_nil; lia).
  split.
  - eapply extends_before; [exact Hb|]. apply quiet_comp; [apply quiet_function | apply quiet_define].
  - unfold on_function. by case_match.
Qed.

Lemma hidden_counter name a :
  for_loop_instance_suffix_counter (define_hidden name a) = for_loop_instance_suffix_counter a.
Proof. unfold define_hidden, on_function. by case_match. Qed.

(** Inside the loop [a'], after its children [a''], and after the loop. *)
Lemma ends_enter_loop v a :
  ends (enter_loop v) (fun names a' => forall a'' l, extends a' a'' l ->
    ends pop_loop (fun _ b => extends a b ((names.1.2, names.2) :: l)) a'') a.
Proof.
  unfold enter_loop. apply ends_bind. eapply ends_mono; [apply ends_enter_variable|].
  intros u a1 (H1 & C1). apply ends_bind, ends_modify, ends_bind, ends_get.
  set (k := for_loop_instance_suffix_counter (push_loop v u a1)).
  do 3 apply ends_bind, ends_modify. apply ends_ret. cbn [fst snd].
  set (b := define_hidden _ (define_hidden _ _)).
  assert (Hb : extends (push_loop v u a1) b [])
    by (apply quiet_comp; apply quiet_hidden).
  assert (Cb : for_loop_instance_suffix_counter b = k) by (unfold b; by rewrite !hidden_counter).
  intros a2 l H2. destruct H1 as [F1 L1 A1 T1 _ _], Hb as [Fb Lb Ab Tb _ _], H2 as [F2 L2 A2 T2 K2 N2].
  cbn [next_instance set_loops current_function_scope_ current_lexical_scope_ active_for_loop_scopes_
    symbol_table_ for_loop_instance_suffix_counter push_loop] in *.
  unfold ends, pop_loop. rewrite A2, Ab. assert (Ck : k = for_loop_instance_suffix_counter a) by done.
  split; cbn [set_loops current_function_scope_ current_lexical_scope_ active_for_loop_scopes_
    symbol_table_ for_loop_instance_suffix_counter].
  - destruct F2 as [->|]; [|by right]. destruct Fb as [->|]; [done | by right].
  - congruence.
  - done.
  - eapply framed_option_trans; [exact T1|]. by eapply framed_option_trans.
  - lia.
  - destruct N2 as (ns & Hn & Hd & Hr). rewrite Cb in *. exists (k :: ns). split_and!.
    + constructor; [by exists u | done].
    + constructor; [|done]. intros Hk. rewrite list.Forall_forall in Hr. specialize (Hr k Hk). lia.
    + constructor; [lia|]. eapply list.Forall_impl; [exact Hr|]. cbn. lia.
Qed.

(** *** Scopes *)

Lemma ends_in_block {T} (body : An T) (Q : T -> Prop) (L : T -> list (string * string)) a :
  (forall a, ends body (fun x b => Q x /\ extends a b (L x)) a) ->
  ends (in_block body) (fun x b => Q x /\ extends a b (L x)) a.
Proof.
  intros H. unfold in_block. apply ends_bind, ends_modify, ends_bind, ends_get, ends_bind, ends_modify.
  apply ends_bind. eapply ends_mono; [apply H|]. intros x b [Hq [F1 L1 A1 T1 K1 N1]].
  do 2 apply ends_bind, ends_modify. apply ends_ret. split; [done|].
  cbn [on_symbols set_symbol_table set_scopes current_function_scope_ active_for_loop_scopes_
    symbol_table_ for_loop_instance_suffix_counter] in *.
  split; cbn [on_symbols set_symbol_table set_scopes current_function_scope_ current_lexical_scope_
    active_for_loop_scopes_ symbol_table_ for_loop_instance_suffix_counter]; try done.
  destruct (symbol_table_ a), (symbol_table_ b); try done. by apply framed_scope.
Qed.

Lemma quiet_parameters name parameters is_float : forall i, quiet (note_parameters name parameters i is_float).
Proof.
  induction parameters as [|p parameters IH]; intros i a; [apply extends_same|]. cbn [note_parameters].
  eapply extends_before; [|apply IH]. eapply extends_before; [apply quiet_define | apply quiet_update].
Qed.

Lemma ends_in_function {T} name parameters (body : An T) (Q : T -> Prop)
    (L : T -> list (string * string)) a :
  active_for_loop_scopes_ a = [] ->
  (forall a, ends body (fun x b => Q x /\ extends a b (L x)) a) ->
  ends (in_function name parameters body) (fun x b => Q x /\ extends a b (L x)) a.
Proof.
  intros Ha H. unfold in_function. apply ends_bind, ends_get, ends_bind, ends_modify, ends_bind.
  eapply ends_mono; [apply H|]. intros x b [Hq E]. do 2 apply ends_bind, ends_modify. apply ends_ret.
  split; [done|]. unfold enter_function in E.
  set (a0 := set_scopes name name _) in E.
  assert (E' : extends a0 b (L x)).
  { refine (extends_before _ _ _ _ _ E). refine (extends_before _ _ _ _ _ (quiet_parameters _ _ _ _ _)).
    refine (extends_before _ _ _ _ _ (quiet_returns _ _)). apply quiet_update. }
  destruct E' as [F1 L1 A1 T1 K1 N1]. unfold a0 in *.
  cbn [on_symbols set_symbol_table set_scopes set_loops current_function_scope_ active_for_loop_scopes_
    symbol_table_ for_loop_instance_suffix_counter] in *.
  split; cbn [on_symbols set_symbol_table set_scopes current_function_scope_ current_lexical_scope_
    active_for_loop_scopes_ symbol_table_ for_loop_instance_suffix_counter fst snd]; try done.
  - by left.
  - congruence.
  - destruct (symbol_table_ a), (symbol_table_ b); try done. by apply framed_scope.
Qed.

(** *** Declarations and statements *)

Lemma visits_case c : (height_case c <= n)%nat -> flat_case c = true ->
  visits height_case flat_case loops_case (visit_case visit_stmt) c.
Proof.
  intros Hh Hf a. destruct c as [e s r]. cbn [height_case flat_case visit_case] in *. flat_parts.
  apply ends_bind. eapply ends_mono; [apply visits_stmt; [lia | done]|]. intros s' a1 (H1 & F1 & E1).
  apply ends_ret. cbn. split_and!; [lia | by rewrite F1, andb_true_r | done].
Qed.

Lemma visits_cases l : (tallest height_case l <= n)%nat -> forallb flat_case l = true ->
  Forall (visits height_case flat_case loops_case (visit_case visit_stmt)) l.
Proof.
  intros H%tallest_le F. rewrite forallb_forall in F. rewrite list.Forall_forall in *.
  intros e He. apply visits_case; [by apply H | apply F; by apply list_elem_of_In].
Qed.

Lemma quiet_fold {B} (f : analyzer -> B -> analyzer) l : (forall x, quiet (fun a => f a x)) ->
  quiet (fun a => fold_left f l a).
Proof.
  intros H. induction l as [|x l IH]; intros a; [apply extends_same|].
  eapply extends_before; [apply H | apply IH].
Qed.

Lemma quiet_global : quiet (fun a => set_scopes "Global" (current_lexical_scope_ a) a).
Proof. intros a. split; cbn; auto using framed_option_refl, numbered_nil. lia. Qed.

(** The LETs of a routine, visited beforehand. *)
Lemma ends_lets l a : (tallest height_stmt l <= n)%nat -> forallb flat_stmt l = true ->
  ends (st_map (visit_let_stmt runtime_manager visit_expr) l) (fun l' a' =>
    (tallest height_stmt l' <= tallest height_stmt l)%nat /\ forallb flat_stmt l' = true /\ extends a a' []) a.
Proof.
  intros Hh Hf. eapply ends_mono.
  - apply (visits_map height_stmt flat_stmt (fun s => match s with LetDeclaration _ _ _ => loops_stmt s | _ => [] end)).
    apply tallest_le in Hh. rewrite forallb_forall in Hf. rewrite list.Forall_forall in *.
    intros s Hs b. pose proof (Hh s Hs). pose proof (Hf s (proj1 (list_elem_of_In _ _) Hs)).
    destruct s; try (apply ends_ret; split_and!; [done | done | apply extends_same]).
    cbn [visit_let_stmt]. cbn [height_stmt flat_stmt] in *. apply ends_bind.
    eapply ends_mono; [apply visits_let; [lia | done]|]. intros l' a1 (H1 & F1 & E1).
    apply ends_ret. cbn. split_and!; [lia | done | done].
  - intros l' b ((H1 & _) & F1 & E1). split_and!; [done | done | by eapply extends_forget].
Qed.

Lemma visits_decl_level d : (height_decl d <= n)%nat -> flat_decl d = true ->
  forall a, (is_function d = true -> active_for_loop_scopes_ a = []) ->
  ends (decl_level runtime_manager visit_expr visit_stmt d) (fun d' a' =>
    ((height_decl d' <= height_decl d)%nat /\ flat_decl d' = true /\ is_function d' = is_function d)
    /\ extends a a' (loops_decl d')) a.
Proof.
  intros Hh Hf a Ha. destruct d as [| | |names l fl|name ps e|name ps s|]; cbn [decl_level] in *; autounfold with visitors;
    try (apply ends_ret; split; [done | apply extends_same]).
  - apply quiet_then; [apply (quiet_fold (fun a g => define (fst g) "Global" a)); intros x; apply quiet_define|].
    intros a1 H1. by apply ends_ret.
  - apply quiet_then; [apply quiet_global|]. intros a1 H1.
    apply quiet_then; [apply (quiet_fold (fun a name => define name "Global" a)); intros x; apply quiet_define|].
    intros a2 H2. apply ends_ret. split; [done|]. by eapply extends_before.
  - cbn [height_decl flat_decl] in *. apply ends_bind. eapply ends_mono.
    { apply (ends_in_function _ _ _ (fun e' => (height_expr e' <= height_expr e)%nat /\ flat_expr e' = true)
        loops_expr); [by apply Ha|]. intros b. eapply ends_mono; [by apply visits_expr|].
      intros e' b' (H1 & F1 & E1). auto. }
    intros e' b ((H1 & F1) & E1). by apply ends_ret.
  - cbn [height_decl flat_decl] in *. apply ends_bind. eapply ends_mono.
    { apply (ends_in_function _ _ _ (fun s' => (height_stmt s' <= height_stmt s)%nat /\ flat_stmt s' = true)
        loops_stmt); [by apply Ha|]. intros b. apply ends_bind. eapply ends_mono.
      { instantiate (1 := fun s' b' => (height_stmt s' <= height_stmt s)%nat /\ flat_stmt s' = true
          /\ extends b b' []).
        destruct s; try (apply ends_ret; split_and!; [done | done | apply extends_same]).
        cbn [height_stmt flat_stmt] in *. apply ends_bind.
        eapply ends_mono; [apply ends_lets; [lia | done]|].
        intros l' b' (H1 & F1 & E1). apply ends_ret. cbn. split_and!; [lia | done | done]. }
      intros s1 b1 (H1 & F1 & E1). eapply ends_mono; [apply visits_stmt; [lia | done]|].
      intros s2 b2 (H2 & F2 & E2). split_and!; [lia | done | by eapply extends_before]. }
    intros s' b ((H1 & F1) & E1). by apply ends_ret.
Qed.

Definition inner_decl (d : Declaration) : bool := negb (is_function d) && flat_decl d.

Lemma visits_decls l : (tallest height_decl l <= n)%nat -> forallb inner_decl l = true ->
  Forall (visits height_decl inner_decl loops_decl (decl_level runtime_manager visit_expr visit_stmt)) l.
Proof.
  intros H%tallest_le F. rewrite forallb_forall in F. rewrite list.Forall_forall in *.
  intros d Hd a. pose proof (H d Hd). pose proof (F d (proj1 (list_elem_of_In _ _) Hd)) as Fd.
  apply andb_true_iff in Fd as [Nd Fd].
  eapply ends_mono; [apply visits_decl_level; [done | done | intros E; by rewrite E in Nd]|].
  intros d' a' ((H1 & F1 & N1) & E1). split_and!; [done | unfold inner_decl; by rewrite N1, F1, andb_true_r | done].
Qed.

Lemma is_set_type_length f args args' : length args' = length args -> is_set_type f args' = is_set_type f args.
Proof. destruct f; try done. by destruct args as [|? [|? [|]]], args' as [|? [|? [|]]]. Qed.

Lemma visits_stmt_level s : (height_stmt s <= S n)%nat -> flat_stmt s = true ->
  visits height_stmt flat_stmt loops_stmt
    (stmt_level runtime_manager updateSymbolType visit_expr visit_stmt) s.
Proof.
  intros Hh Hf a. destruct s; cbn [height_stmt flat_stmt stmt_level] in *; autounfold with visitors; flat_parts.
  all: try solve [repeat visit_child; finish].
  - (* ForEachStatement *)
    do 2 visit_child. unfold foreach_types. apply ends_bind. unfold ends.
    match goal with |- context [note_foreach _ ?v ?t ?ct ?ft ?a] =>
      pose proof (quiet_foreach v t ct ft a) as Hq; destruct (note_foreach _ v t ct ft a) as [a2 types] end.
    finish.
  - (* LetDeclaration *) by apply visits_let_stmt.
  - (* AssignmentStatement *)
    visit_child. apply ends_bind. eapply ends_mono; [apply visits_lhs; [lia | done]|].
    intros l' a2 (H2 & F2 & E2). destruct Hh0. finish.
  - (* RoutineCallStatement *)
    destruct (is_set_type routine_expr arguments) eqn:Es.
    + visit_child. apply ends_ret. cbn. rewrite Es. split_and!; [done | by apply andb_true_iff | done].
    + do 2 visit_child. destruct Hh0 as [Hh0 Hn]. apply ends_ret. cbn. rewrite (is_set_type_length _ _ _ Hn), Es.
      split_and!; [lia | by apply andb_true_iff | chain].
  - (* ForStatement *)
    apply ends_bind. eapply ends_mono; [apply ends_enter_loop|]. intros names a1 Hloop.
    do 4 visit_child. apply ends_bind. eapply ends_mono;
      [eapply Hloop; do 3 (eapply extends_both; [eassumption|]); eassumption|].
    intros [] b Eb. apply ends_ret. cbn. split_and!; [lia | | exact Eb].
    repeat match goal with H : _ = true |- _ => rewrite H; clear H end. done.
  - (* CaseStatement *)
    destruct clause as [e command r]. cbn [height_case flat_case] in *. flat_parts. do 2 visit_child.
    apply ends_ret. cbn. split_and!; [lia | by apply andb_true_iff | chain].
  - (* SwitchonStatement *)
    visit_child. apply ends_bind. eapply ends_mono; [apply visits_map, visits_cases; [lia | done]|].
    intros cases' a2 ((H2 & _) & F2 & E2). visit_child. finish.
  - (* BlockStatement *)
    eapply ends_mono; [apply (ends_in_block _ (fun s' => (height_stmt s' <= S (max (tallest height_decl declarations)
      (tallest height_stmt statements)))%nat /\ flat_stmt s' = true) loops_stmt)|].
    2: { intros s' b ((H1 & F1) & E1). auto. }
    intros b. apply ends_bind. eapply ends_mono; [apply visits_map, visits_decls; [lia | done]|].
    intros ds b1 ((H1 & _) & F1 & E1). visit_child. destruct Hh0. apply ends_ret. cbn.
    unfold inner_decl in F1. rewrite F1, Hf. split_and!; [lia | done | chain].
Qed.
End level.

Lemma visits_accept n :
  (forall e, (height_expr e <= n)%nat -> flat_expr e = true ->
     visits height_expr flat_expr loops_expr (accept_expr runtime_manager updateSymbolType n) e)
  /\ (forall s, (height_stmt s <= n)%nat -> flat_stmt s = true ->
     visits height_stmt flat_stmt loops_stmt (accept_stmt runtime_manager updateSymbolType n) s).
Proof.
  induction n as [|n [IHe IHs]]; [split; intros []; cbn; lia|].
  unfold accept_expr, accept_stmt in *. cbn [accept].
  destruct (accept runtime_manager updateSymbolType n) as [visit_expr visit_stmt].
  split; intros; [by apply (visits_expr_level n) | by apply (visits_stmt_level n)].
Qed.

(** ** Programs *)

Lemma quiet_names f r l : quiet (set_local_names f r l).
Proof. intros a. split; cbn; auto using framed_option_refl, numbered_nil. lia. Qed.

Lemma quiet_discover d : quiet (discover d).
Proof.
  intros a. unfold discover. destruct d; try apply extends_same.
  all: refine (extends_before _ _ _ _ _ (quiet_returns _ _));
    refine (extends_before _ _ _ _ _ (quiet_metrics _ _)); apply quiet_names.
Qed.

Lemma visits_program height p a :
  flat_program p = true -> (height_program p <= height)%nat -> active_for_loop_scopes_ a = [] ->
  ends (ds ← st_map (accept_decl runtime_manager updateSymbolType height) (declarations p);
        ss ← st_map (accept_stmt runtime_manager updateSymbolType height) (statements p);
        mret (mkProgram ds ss)) (fun p' a' =>
    ((height_program p' <= height_program p)%nat /\ flat_program p' = true) /\ extends a a' (loops_program p')) a.
Proof.
  unfold flat_program, height_program. intros [Fd Fs]%andb_true_iff Hh Ha.
  destruct (visits_accept height) as [He Hs].
  assert (Hds : ends (st_map (accept_decl runtime_manager updateSymbolType height) (declarations p)) (fun ds a' =>
    ((tallest height_decl ds <= tallest height_decl (declarations p))%nat /\ forallb flat_decl ds = true)
    /\ extends a a' (List.concat (List.map loops_decl ds))) a).
  { assert (Hd : (tallest height_decl (declarations p) <= height)%nat) by lia.
    clear Hh Fs. revert a Ha. induction (declarations p) as [|d ds IH]; intros a Ha.
    { apply ends_ret. split; [done | apply extends_same]. }
    cbn [forallb tallest] in *. apply andb_true_iff in Fd as [Fd Fds].
    fold (tallest height_decl) in *. cbn [st_map]. apply ends_bind.
    eapply ends_mono; [apply (visits_decl_level height); [exact He | exact Hs | lia | done | done]|].
    intros d' a1 ((H1 & F1 & _) & E1). apply ends_bind. eapply ends_mono; [apply IH; [done | lia |]|].
    { rewrite (extends_active _ _ _ E1). exact Ha. }
    intros ds' a2 ((H2 & F2) & E2). apply ends_ret. cbn. rewrite F1, F2.
    split; [split; [lia | done]|]. by eapply extends_both. }
  apply ends_bind. eapply ends_mono; [exact Hds|]. intros ds a1 ((H1 & F1) & E1).
  apply ends_bind. eapply ends_mono.
  { apply visits_map. apply (visits_stmts height); [exact Hs | lia | exact Fs]. }
  intros ss a2 ((H2 & _) & F2 & E2). apply ends_ret. cbn. rewrite F1, F2.
  split; [split; [lia | done]|]. by eapply extends_both.
Qed.

Lemma analysis_extends height p t a :
  flat_program p = true -> (height_program p <= height)%nat ->
  ends (analyze runtime_manager updateSymbolType height p t) (fun p' a' =>
    ((height_program p' <= height_program p)%nat /\ flat_program p' = true)
    /\ exists b, extends b a' (loops_program p') /\ for_loop_instance_suffix_counter b = 0
         /\ current_function_scope_ b = "Global"%string /\ current_lexical_scope_ b = "Global"%string
         /\ active_for_loop_scopes_ b = [] /\ symbol_table_ b = t) a.
Proof.
  intros F H. unfold analyze, visit_Program. do 4 apply ends_bind, ends_modify.
  set (a0 := reset_state (set_symbol_table t a)).
  set (b := set_loops _ _ _ _ _).
  assert (Hl : forall l c, current_lexical_scope_ (fold_left (fun a d => discover d a) l c) = current_lexical_scope_ c
    /\ symbol_table_ (fold_left (fun a d => discover d a) l c) = symbol_table_ c).
  { induction l as [|d l IH]; intros c; [done|]. cbn [fold_left]. destruct (IH (discover d c)) as [-> ->].
    by destruct d. }
  destruct (Hl (declarations p) a0) as [L1 T1].
  eapply ends_mono; [by apply (visits_program height p b)|]. intros p' a' [Hp E]. split; [exact Hp|].
  exists b. split_and!; try done.
Qed.

(** *** Names of hidden variables *)

Lemma instance_name_inj u u' kind kind' n n' : 0 <= n -> 0 <= n' ->
  ends_in_digit (u ++ kind) = false -> ends_in_digit (u' ++ kind') = false ->
  instance_name u kind n = instance_name u' kind' n' -> (u ++ kind = u' ++ kind')%string /\ n = n'.
Proof.
  intros Hn Hn' D D' E. apply (block_name_inj "" (u ++ kind) (u' ++ kind') n n'); try done.
  unfold block_name, instance_name in *. rewrite <-!string_app_assoc in E. cbn. by rewrite E.
Qed.

Lemma step_not_limit u u' : (u ++ "_step_inst_" <> u' ++ "_end_inst_")%string.
Proof.
  intros E. apply (f_equal String.list_ascii_of_string) in E. rewrite !list_ascii_app in E.
  apply (f_equal reverse) in E. rewrite !reverse_app in E. discriminate E.
Qed.

Lemma names_NoDup kind (f : string * string -> string) l ns :
  (forall u, ends_in_digit (u ++ kind) = false) ->
  Forall2 (fun p n => exists u, f p = instance_name u kind n) l ns ->
  Forall (fun n => 0 <= n) ns -> NoDup ns -> NoDup (List.map f l).
Proof.
  intros Hk. induction 1 as [|p n l ns [u E] H IH]; intros Hr Hd; [constructor|].
  apply list.NoDup_cons in Hd as [Hnot Hd]. apply list.Forall_cons in Hr as [Hn Hr].
  cbn. constructor; [|by apply IH]. intros Hin. apply Hnot.
  apply list_elem_of_fmap in Hin as (q & Eq & Hq). apply list_elem_of_lookup in Hq as [i Hi].
  destruct (Forall2_lookup_l _ _ _ _ _ H Hi) as (m & Hm & v & Em).
  pose proof (list_elem_of_lookup_2 _ _ _ Hm) as He. rewrite list.Forall_forall in Hr. specialize (Hr m He).
  rewrite E, Em in Eq. apply instance_name_inj in Eq as [_ ->]; try done.
Qed.

Lemma numbered_NoDup from to l : 0 <= from -> numbered from to l -> NoDup (List.map fst l ++ List.map snd l).
Proof.
  intros H0 (ns & H & Hd & Hr).
  assert (Hr' : Forall (fun n => 0 <= n) ns) by (eapply list.Forall_impl; [exact Hr|]; cbn; lia).
  assert (Step : forall u, ends_in_digit (u ++ "_step_inst_") = false)
    by (intros; by rewrite ends_in_digit_app).
  assert (Limit : forall u, ends_in_digit (u ++ "_end_inst_") = false)
    by (intros; by rewrite ends_in_digit_app).
  assert (Hin : forall p, p ∈ l -> exists n u, 0 <= n
    /\ p = (instance_name u "_step_inst_" n, instance_name u "_end_inst_" n)).
  { intros p Hp. apply list_elem_of_lookup in Hp as [i Hi].
    destruct (Forall2_lookup_l _ _ _ _ _ H Hi) as (n & Hn & u & ->). exists n, u.
    rewrite list.Forall_forall in Hr'. split; [by apply Hr', (list_elem_of_lookup_2 _ i) | done]. }
  apply list.NoDup_app. split_and!.
  - eapply (names_NoDup _ _ _ ns Step); [|done..]. eapply list.Forall2_impl; [exact H|]. intros p n [u ->]. by exists u.
  - intros x Hx Hy. apply list_elem_of_fmap in Hx as (p & -> & Hp), Hy as (q & E & Hq).
    destruct (Hin p Hp) as (n & u & Hn & ->), (Hin q Hq) as (m & v & Hm & ->). cbn in E.
    apply instance_name_inj in E as [E _]; try done. by apply step_not_limit in E.
  - eapply (names_NoDup _ _ _ ns Limit); [|done..]. eapply list.Forall2_impl; [exact H|]. intros p n [u ->]. by exists u.
Qed.
End visitors.
