(* ===== verification/AnalyzerTheorems.v ===== *)
(** * Theorems of the analyzer

    What the analysis of a whole program leaves behind, with the program's own visitor of
    types for [updateSymbolType] in the witnesses: [setSymbolType], which changes the type of
    a symbol that exists. *)

From S2P Require Import Prelude State Cfg CfgSpec CfgProof CallFrame Labels Ast Trees SymbolTable Analysis Analyzer AnalyzerProof.
Import Analyzer.
Local Open Scope Z_scope.

(** A change of a symbol keeps the names of every scope. *)
Lemma framed_update name f t : framed t (update_symbol name f t).
Proof.
  intros Hi. split; [by apply update_symbol_inv|]. unfold update_symbol.
  destruct (find_level t name (current_scope_level t)) as [level|] eqn:E; [|done].
  apply find_level_Some in E as (Hle & _). unfold table_inv in Hi.
  assert (Hd : forall k, dom (scope_at (SymbolTable.set_scopes (<[level := alter f name (scope_at t level)]> (scope_stack t))
      (current_scope_level t) t) k) = dom (scope_at t k)).
  { intros k. rewrite scope_at_insert by lia. destruct (decide (k = level)) as [->|]; [|done].
    apply dom_alter_L. }
  cbn. split; [done|]. split; [auto | by rewrite Hd].
Qed.

Lemma lookup_global name t : current_scope_level t = 0%nat ->
  is_Some (SymbolTable.lookup name t) <-> name ∈ dom (scope_at t 0).
Proof.
  intros H. unfold SymbolTable.lookup. rewrite H. cbn. rewrite elem_of_dom.
  destruct (scope_at t 0 !! name) eqn:E; cbn; rewrite ?E; [done|].
  split; intros [? [=]].
Qed.

Section theorems.
Context (runtime_manager : RuntimeManager).
Context (updateSymbolType : string -> VarType -> SymbolTable -> SymbolTable).
Context (updateSymbolType_framed : forall name type t, framed t (updateSymbolType name type t)).

(** What an analysis leaves behind. *)
Lemma analysis_leaves height p t a :
  flat_program p = true -> (height_program p <= height)%nat ->
  table_inv t -> current_scope_level t = 0%nat ->
  ends (analyze runtime_manager updateSymbolType height p (Some t)) (fun p' a' =>
    (flat_program p' = true /\ (height_program p' <= height_program p)%nat
     /\ current_function_scope_ a' = "Global"%string /\ current_lexical_scope_ a' = "Global"%string
     /\ active_for_loop_scopes_ a' = []
     /\ exists t', symbol_table_ a' = Some t' /\ table_inv t' /\ current_scope_level t' = 0%nat
          /\ forall name, is_Some (SymbolTable.lookup name t) -> is_Some (SymbolTable.lookup name t'))
    /\ NoDup (List.map fst (loops_program p') ++ List.map snd (loops_program p'))) a.
Proof using updateSymbolType_framed.
  intros F H Hi Hl. eapply ends_mono; [by apply (analysis_extends runtime_manager _ updateSymbolType_framed)|].
  intros p' a' [[Hh F'] (b & [E1 E2 E3 E4 _ En] & B0 & Bf & Bl & Ba & Bt)].
  rewrite B0 in En. split; [|by apply (numbered_NoDup _ _ _ (Z.le_refl 0) En)]. rewrite Bt in E4. destruct (symbol_table_ a') as [t'|] eqn:Et; [|done].
  destruct (E4 Hi) as (Hi' & Hl' & _ & Hd). rewrite Hl in *.
  split_and!; [done | done | by destruct E1; congruence | congruence | congruence |].
  exists t'. split_and!; [done..|]. intros name. rewrite !lookup_global by done. apply Hd.
Qed.

(** C19: the analysis of a program without functions in blocks, from a symbol
    table at its global scope, always ends: it never pops a loop that was not pushed.  What it
    leaves is again such a program and no taller; the analyzer is back at the global scope
    with no loop open, the symbol table is well formed and back at its global scope, and every
    name that could be found before is found after. *)
Theorem analysis_ends height p t a :
  flat_program p = true -> (height_program p <= height)%nat ->
  table_inv t -> current_scope_level t = 0%nat ->
  ends (analyze runtime_manager updateSymbolType height p (Some t)) (fun p' a' =>
    flat_program p' = true /\ (height_program p' <= height_program p)%nat
    /\ current_function_scope_ a' = "Global"%string /\ current_lexical_scope_ a' = "Global"%string
    /\ active_for_loop_scopes_ a' = []
    /\ exists t', symbol_table_ a' = Some t' /\ table_inv t' /\ current_scope_level t' = 0%nat
         /\ forall name, is_Some (SymbolTable.lookup name t) -> is_Some (SymbolTable.lookup name t')) a.
Proof using updateSymbolType_framed.
  intros F H Hi Hl. eapply ends_mono; [by apply analysis_leaves|]. by intros p' a' [H' _].
Qed.

(** C20: after the analysis all the variables that hold the steps and
    the limits of the FOR loops of the program have different names, however the loops are
    nested or repeated, and whatever the names of their variables are. *)
Theorem loops_have_own_variables height p t a :
  flat_program p = true -> (height_program p <= height)%nat ->
  ends (analyze runtime_manager updateSymbolType height p t) (fun p' _ =>
    NoDup (List.map fst (loops_program p') ++ List.map snd (loops_program p'))) a.
Proof using updateSymbolType_framed.
  intros F H. eapply ends_mono; [by apply (analysis_extends runtime_manager _ updateSymbolType_framed)|].
  intros p' a' [_ (b & [_ _ _ _ _ En] & B0 & _)]. rewrite B0 in En. by apply (numbered_NoDup _ _ _ (Z.le_refl 0) En).
Qed.
End theorems.

(** ** Witnesses *)

Definition loop (v : string) (body : Statement) : Statement :=
  ForStatement v "" "" "" (NumberLiteral (Integer 1)) (NumberLiteral (Integer 3)) None body.
Definition sample_loops : Program := mkProgram
  [RoutineDeclaration "f" ["a"] (BlockStatement []
     [LetDeclaration ["x"] [NumberLiteral (Integer 0)] false;
      loop "i" (loop "i" (AssignmentStatement [VariableAccess "x" ""] [VariableAccess "i" ""]));
      loop "i" (AssignmentStatement [VariableAccess "x" ""] [VariableAccess "g" ""])])] [].
Definition sample_globals : SymbolTable := (addSymbol_new "g" GLOBAL_VAR VT_INTEGER SymbolTable_new).1.

Lemma analysis_ends_witness :
  flat_program sample_loops = true /\ (height_program sample_loops <= 9)%nat
  /\ table_inv sample_globals
  /\ ends (analyze RuntimeManager_empty setSymbolType 9 sample_loops (Some sample_globals))
       (fun _ a' => exists t', symbol_table_ a' = Some t' /\ is_Some (SymbolTable.lookup "g" t')) ASTAnalyzer_new.
Proof.
  assert (F : flat_program sample_loops = true) by reflexivity.
  assert (H : (height_program sample_loops <= 9)%nat) by (vm_compute; lia).
  assert (I : table_inv sample_globals) by reflexivity.
  split; [exact F|]. split; [exact H|]. split; [exact I|].
  eapply ends_mono.
  - exact (analysis_ends RuntimeManager_empty setSymbolType (fun n t => framed_update n _) 9 sample_loops
      sample_globals ASTAnalyzer_new F H I eq_refl).
  - intros p' a' (_ & _ & _ & _ & _ & t' & Et & _ & _ & Hn). exists t'. split; [exact Et|].
    apply Hn. by eexists.
Defined.

(** The hidden variables of the steps and of the limits. *)
Definition hidden_names (r : outcome Program) : option (list string) :=
  match r with
  | Done p => Some (List.map fst (loops_program p) ++ List.map snd (loops_program p))
  | _ => None
  end.

Lemma loops_have_own_variables_witness :
  flat_program sample_loops = true /\ (height_program sample_loops <= 9)%nat
  /\ hidden_names (analyze RuntimeManager_empty setSymbolType 9 sample_loops None ASTAnalyzer_new).2
     = Some ["i_for_var_0_step_inst_0"; "i_for_var_0_step_inst_1"; "i_for_var_0_step_inst_2";
             "i_for_var_0_end_inst_0"; "i_for_var_0_end_inst_1"; "i_for_var_0_end_inst_2"]%string
  /\ ends (analyze RuntimeManager_empty setSymbolType 9 sample_loops None) (fun p' _ =>
       NoDup (List.map fst (loops_program p') ++ List.map snd (loops_program p'))) ASTAnalyzer_new.
Proof.
  assert (F : flat_program sample_loops = true) by reflexivity.
  assert (H : (height_program sample_loops <= 9)%nat) by (vm_compute; lia).
  split; [exact F|]. split; [exact H|]. split; [vm_compute; reflexivity|].
  exact (loops_have_own_variables RuntimeManager_empty setSymbolType (fun n t => framed_update n _) 9
    sample_loops None ASTAnalyzer_new F H).
Defined.
