(* ===== verification/LocalOpt.v ===== *)
(** * Common subexpressions of basic blocks

    [LocalOptimizationPass] (src/LocalOptimizationPass.cpp), which runs on the control-flow
    graphs: within a block, a binary operation that occurs more than once is computed into a
    temporary before its first assignment, and read from it until a variable it names is
    assigned.  Two expressions are the same when their canonical texts are.  The order in
    which functions and blocks are visited, that of two hash maps, is an argument. *)

From Stdlib Require Import SpecFloat.
From S2P Require Import Prelude Words State CallFrame Cfg Ast SymbolTable Analysis Data Analyzer.
Local Open Scope Z_scope.

(** ** Types and texts of expressions *)

Definition is_float_operator (op : BinaryOperator) : bool :=
  match op with
  | FloatAdd | FloatSubtract | FloatMultiply | FloatDivide | FloatEqual | FloatNotEqual
  | FloatLess | FloatLessEqual | FloatGreater | FloatGreaterEqual => true
  | _ => false
  end.

Fixpoint infer_expression_type (e : Expression) : VarType :=
  match e with
  | BinaryOp op l r =>
      if is_float_operator op
         || ((infer_expression_type l =? VT_FLOAT) || (infer_expression_type r =? VT_FLOAT))
      then VT_FLOAT else VT_INTEGER
  | UnaryOp FloatConvert _ => VT_FLOAT
  | NumberLiteral (Float _) => VT_FLOAT
  | _ => VT_INTEGER
  end.

(** [static_cast<int>(op)] *)
Definition operator_number (op : BinaryOperator) : Z :=
  match op with
  | Add => 0 | Subtract => 1 | Multiply => 2 | Divide => 3 | Remainder => 4
  | Equal => 5 | NotEqual => 6 | Less => 7 | LessEqual => 8 | Greater => 9 | GreaterEqual => 10
  | LogicalAnd => 11 | BitwiseAnd => 12 | LogicalOr => 13 | BitwiseOr => 14 | Equivalence => 15
  | NotEquivalence => 16 | LeftShift => 17 | RightShift => 18
  | FloatAdd => 19 | FloatSubtract => 20 | FloatMultiply => 21 | FloatDivide => 22
  | FloatEqual => 23 | FloatNotEqual => 24 | FloatLess => 25 | FloatLessEqual => 26
  | FloatGreater => 27 | FloatGreaterEqual => 28
  end.

Definition commutes (op : BinaryOperator) : bool :=
  match op with Add | Multiply | LogicalAnd | LogicalOr | Equal | NotEqual => true | _ => false end.

(** [std::to_string(double)]: six digits after the point. *)
Definition with_sign (s : bool) (text : string) : string := ((if s then "-" else "") ++ text)%string.
Definition double_to_string (f : spec_float) : string :=
  match f with
  | S754_zero s => with_sign s "0.000000"
  | S754_infinity s => with_sign s "inf"
  | S754_nan => "nan"
  | S754_finite s m e =>
      let d := round_half_even (Z.pos m * 2 ^ Z.max e 0 * 10 ^ 6) (2 ^ Z.max (- e) 0) in
      let fraction := to_string (d mod 10 ^ 6) in
      with_sign s (to_string (d / 10 ^ 6) ++ "." ++ zeros (6 - String.length fraction) ++ fraction)
  end%string.

(** Operands of a commutative operator come in the order of their texts. *)
Definition in_order (op : BinaryOperator) (l r : string) : string * string :=
  if commutes op && String.ltb r l then (r, l) else (l, r).

Fixpoint expression_to_string (e : Expression) : string :=
  match e with
  | BinaryOp op l r =>
      let operands := in_order op (expression_to_string l) (expression_to_string r) in
      "(BIN_OP " ++ to_string (operator_number op) ++ " " ++ operands.1 ++ " " ++ operands.2 ++ ")"
  | VariableAccess name _ => "(VAR " ++ name ++ ")"
  | NumberLiteral (Integer v) => "(INT " ++ to_string v ++ ")"
  | NumberLiteral (Float v) => "(FLOAT " ++ double_to_string v ++ ")"
  | StringLiteral v => "(STR " ++ String "034" v ++ String "034" ")"
  | CharLiteral c => "(CHAR " ++ to_string (sext 8 (byte_of c)) ++ ")"
  | BooleanLiteral b => if b then "(BOOL 1)" else "(BOOL 0)"
  | _ => "(EXPR)"
  end%string.

(** ** State *)

Record optimizer : Type := mkOptimizer {
  available_expressions_ : gmap string string;
  temp_var_counter_ : Z;
  expr_counts_ : gmap string Z;
  symbol_table : SymbolTable;
  function_metrics : gmap string FunctionMetrics;
  block_heap : gmap address Block
}.

Definition L (A : Type) : Type := ST optimizer A.

Definition set_available (m : gmap string string) (s : optimizer) : optimizer :=
  mkOptimizer m (temp_var_counter_ s) (expr_counts_ s) (symbol_table s) (function_metrics s) (block_heap s).
Definition set_temp_counter (n : Z) (s : optimizer) : optimizer :=
  mkOptimizer (available_expressions_ s) n (expr_counts_ s) (symbol_table s) (function_metrics s) (block_heap s).
Definition set_counts (m : gmap string Z) (s : optimizer) : optimizer :=
  mkOptimizer (available_expressions_ s) (temp_var_counter_ s) m (symbol_table s) (function_metrics s) (block_heap s).
Definition set_symbols (t : SymbolTable) (s : optimizer) : optimizer :=
  mkOptimizer (available_expressions_ s) (temp_var_counter_ s) (expr_counts_ s) t (function_metrics s) (block_heap s).
Definition set_metrics (m : gmap string FunctionMetrics) (s : optimizer) : optimizer :=
  mkOptimizer (available_expressions_ s) (temp_var_counter_ s) (expr_counts_ s) (symbol_table s) m (block_heap s).
Definition set_block (p : address) (b : Block) (s : optimizer) : optimizer :=
  mkOptimizer (available_expressions_ s) (temp_var_counter_ s) (expr_counts_ s) (symbol_table s)
    (function_metrics s) (<[p := b]> (block_heap s)).

Definition LocalOptimizationPass_new (t : SymbolTable) (m : gmap string FunctionMetrics)
    (h : gmap address Block) : optimizer := mkOptimizer ∅ 0 ∅ t m h.

(** ** The pass *)

Definition temp_var_name (n : Z) : string := ("_cse_temp_" ++ to_string n)%string.
Definition generate_temp_var_name : L string :=
  n ← st_get temp_var_counter_; st_modify (set_temp_counter (n + 1));; mret (temp_var_name n).

Definition bump (key : string) (counts : gmap string Z) : gmap string Z :=
  <[key := default 0 (counts !! key) + 1]> counts.

Fixpoint count_expr (e : Expression) (counts : gmap string Z) : gmap string Z :=
  match e with
  | BinaryOp op l r => count_expr r (count_expr l (bump (expression_to_string e) counts))
  | UnaryOp _ a => count_expr a counts
  | FunctionCall f args => fold_left (fun counts a => count_expr a counts) args (count_expr f counts)
  | _ => counts
  end.

Fixpoint count_subexpressions (s : Statement) (counts : gmap string Z) : gmap string Z :=
  match s with
  | LetDeclaration _ l _ | AssignmentStatement _ l => fold_left (fun counts e => count_expr e counts) l counts
  | BlockStatement _ l | CompoundStatement l =>
      fold_left (fun counts s => count_subexpressions s counts) l counts
  | IfStatement c t => count_subexpressions t (count_expr c counts)
  | _ => counts
  end.

(** [std::string::find] *)
Fixpoint occurs (sub s : string) : bool :=
  String.prefix sub s || match s with EmptyString => false | String _ s => occurs sub s end.

Definition variable_text (name : string) : string := ("(VAR " ++ name ++ ")")%string.
Definition invalidate_expressions_with_var (name : string) (s : optimizer) : optimizer :=
  set_available (filter (fun kv => occurs (variable_text name) kv.1 = false) (available_expressions_ s)) s.

Definition count_temporary (name : string) (type : VarType) (m : FunctionMetrics) : FunctionMetrics :=
  note_type name type (if type =? VT_FLOAT then count_float_variable m else count_variable m).

(** The variable is registered before [at] throws for an unknown function. *)
Definition register_temporary (function name : string) (type : VarType) : L unit :=
  st_modify (fun s => set_symbols (addSymbol_new name LOCAL_VAR type (symbol_table s)).1 s);;
  metrics ← st_get function_metrics;
  match metrics !! function with
  | None => st_throw out_of_range
  | Some m => st_modify (set_metrics (<[function := count_temporary name type m]> metrics))
  end.

Definition is_binary (e : Expression) : bool := match e with BinaryOp _ _ _ => true | _ => false end.

(** One right-hand side: the LET to put before the assignment, and what is assigned. *)
Definition optimize_rhs (function : string) (e : Expression) : L (list Statement * Expression) :=
  let key := expression_to_string e in
  s ← st_get (fun s => s);
  match available_expressions_ s !! key with
  | Some temp => mret ([], VariableAccess temp "")
  | None =>
      if is_binary e && (1 <? default 0 (expr_counts_ s !! key)) then
        temp ← generate_temp_var_name;
        st_modify (fun s => set_available (<[key := temp]> (available_expressions_ s)) s);;
        register_temporary function temp (infer_expression_type e);;
        mret ([LetDeclaration [temp] [e] false], VariableAccess temp "")
      else mret ([], e)
  end.

Definition invalidate_lhs (lhs : Expression) (s : optimizer) : optimizer :=
  match lhs with VariableAccess name _ => invalidate_expressions_with_var name s | _ => s end.

Definition optimize_assignment (function : string) (s : Statement) : L (list Statement) :=
  match s with
  | AssignmentStatement lhs rhs =>
      l ← st_map (optimize_rhs function) rhs;
      st_modify (fun s => fold_left (fun s e => invalidate_lhs e s) lhs s);;
      mret (concat (List.map fst l) ++ [AssignmentStatement lhs (List.map snd l)])
  | _ => mret [s]
  end.

Definition optimize_basic_block (function : string) (statements : list Statement) : L (list Statement) :=
  l ← st_map (optimize_assignment function) statements; mret (concat l).

Definition with_statements (l : list Statement) (b : Block) : Block :=
  mkCfgBlock (Cfg.id b) l (successors b) (predecessors b) (is_entry b) (is_exit b) (label_name b).

(** Both passes over one block. *)
Definition optimize_block (function : string) (p : address) : L unit :=
  heap ← st_get block_heap;
  b ← st_deref (heap !! p);
  st_modify (set_counts (fold_left (fun counts s => count_subexpressions s counts) (Cfg.statements b) ∅));;
  st_modify (set_available ∅);;
  st_modify (set_temp_counter 0);;
  l ← optimize_basic_block function (Cfg.statements b);
  st_modify (set_block p (with_statements l b)).

Definition run (listing : list (string * list address)) : L unit :=
  st_each (fun f => st_each (optimize_block f.1) f.2) listing.
