(* ===== verification/LocalOptProof.v ===== *)
(** * Common subexpressions keep the values of variables

    For integer expressions: equal texts mean equal values, and the statements a block of
    assignments becomes give all variables but the temporaries the values they had. *)

From S2P Require Import Prelude Words State CallFrame Cfg CfgSpec CfgProof Ast SymbolTable Analysis Data Analyzer OpsRun ExprProof BlockProof ConstFoldProof LocalOpt.
Local Open Scope Z_scope.

(** ** Texts *)

Definition plain_name (x : string) : Prop := ~ In ")"%char (String.list_ascii_of_string x).
Definition plain_names (e : Expression) : Prop := Forall plain_name (variables e).

(** The text up to a character that is not in it. *)
Lemma split_at (c : ascii) a b s s' :
  ~ In c (String.list_ascii_of_string a) -> ~ In c (String.list_ascii_of_string b) ->
  (a ++ String c s = b ++ String c s')%string -> a = b /\ s = s'.
Proof.
  revert b. induction a as [|x a IH]; intros [|y b] Ha Hb E; cbn in *.
  - by injection E as ->.
  - injection E as -> _. exfalso. auto.
  - injection E as -> _. exfalso. auto.
  - injection E as -> E. destruct (IH b) as [-> ->]; auto.
Qed.

Lemma to_string_chars z :
  Forall (fun c => isdigit c = true \/ c = "-"%char) (String.list_ascii_of_string (to_string z)).
Proof.
  assert (H : forall z, 0 <= z -> Forall (fun c => isdigit c = true \/ c = "-"%char) (String.list_ascii_of_string (to_string z))).
  { intros n Hn. eapply list.Forall_impl; [by apply to_string_digits|]. auto. }
  destruct (Z.le_gt_cases 0 z) as [Hz|Hz]; [auto|]. destruct z as [|p|p]; [lia | lia |].
  change (to_string (Zneg p)) with (String "-" (to_string (Zpos p))). constructor; [by right | by apply H].
Qed.

Lemma to_string_without c z : isdigit c = false -> c <> "-"%char ->
  ~ In c (String.list_ascii_of_string (to_string z)).
Proof.
  intros Hc Hm Hin. pose proof (to_string_chars z) as H. rewrite list.Forall_forall in H.
  destruct (H c) as [Hd| ->]; [by apply list_elem_of_In | congruence | done].
Qed.

Lemma operator_number_inj op op' : operator_number op = operator_number op' -> op = op'.
Proof. destruct op, op'; done. Qed.

Lemma eval_commutes op a b : commutes op = true -> eval_op op a b = eval_op op b a.
Proof.
  destruct op; try done; intros _; cbn; [by rewrite Z.add_comm | by rewrite Z.mul_comm | |];
    by rewrite Z.eqb_sym.
Qed.

Lemma in_order_cases op a b :
  in_order op a b = (a, b) \/ (commutes op = true /\ in_order op a b = (b, a)).
Proof. unfold in_order. destruct (commutes op); cbn; [|by left]. destruct (String.ltb b a); auto. Qed.

(** What it means that texts determine values. *)
Definition readable (e : Expression) : Prop :=
  forall e' s s', integer e' = true -> plain_names e' ->
  (expression_to_string e ++ s = expression_to_string e' ++ s')%string ->
  (forall ρ, eval ρ e = eval ρ e') /\ s = s'.

(** The operands, in either order. *)
Definition pair_text (p : Expression * Expression) (s : string) : string :=
  (expression_to_string p.1 ++ String " " (expression_to_string p.2 ++ String ")" s))%string.

Lemma binary_text op l r s : exists p,
  (expression_to_string (BinaryOp op l r) ++ s
   = String "(" (String "B" (String "I" (String "N" (String "_" (String "O" (String "P" (String " "
       (to_string (operator_number op) ++ String " " (pair_text p s))))))))))%string
  /\ (p = (l, r) \/ commutes op = true /\ p = (r, l)).
Proof.
  destruct (in_order_cases op (expression_to_string l) (expression_to_string r)) as [E|[Hc E]];
    [exists (l, r) | exists (r, l)]; (split; [|auto]); cbn [expression_to_string]; rewrite E; unfold pair_text;
    cbn [fst snd]; rewrite !string_app_assoc; cbn; reflexivity.
Qed.

Lemma pair_readable op l r p l' r' p' s s' :
  (p = (l, r) \/ commutes op = true /\ p = (r, l)) -> (p' = (l', r') \/ commutes op = true /\ p' = (r', l')) ->
  readable l -> readable r -> integer l' = true -> integer r' = true -> plain_names l' -> plain_names r' ->
  pair_text p s = pair_text p' s' ->
  (forall ρ, eval ρ (BinaryOp op l r) = eval ρ (BinaryOp op l' r')) /\ s = s'.
Proof.
  unfold pair_text. intros Hp Hp' Rl Rr Il Ir Pl Pr E.
  destruct Hp as [->|[C ->]], Hp' as [->|[C' ->]]; cbn [fst snd] in E;
    (destruct (Rl _ _ _ Il Pl E) as [E1 [= E2]] || destruct (Rl _ _ _ Ir Pr E) as [E1 [= E2]]
     || destruct (Rr _ _ _ Il Pl E) as [E1 [= E2]] || destruct (Rr _ _ _ Ir Pr E) as [E1 [= E2]]);
    (destruct (Rl _ _ _ Il Pl E2) as [E3 [= ->]] || destruct (Rl _ _ _ Ir Pr E2) as [E3 [= ->]]
     || destruct (Rr _ _ _ Il Pl E2) as [E3 [= ->]] || destruct (Rr _ _ _ Ir Pr E2) as [E3 [= ->]]);
    split; try done; intros ρ; cbn [eval]; rewrite ?E1, ?E3; auto using eval_commutes.
Qed.

Lemma texts_readable e : integer e = true -> plain_names e -> readable e.
Proof.
  intros H. revert e H. apply (integer_ind (fun e => plain_names e -> readable e)).
  - intros v Hv _ e' s s' H'. revert e' H'. apply (integer_ind (fun e' => plain_names e' -> _ -> _)).
    + intros v' Hv' _. cbn [expression_to_string]. rewrite !string_app_assoc. cbn. intros [= E].
      apply split_at in E as [E ->]; [|by apply to_string_without..].
      by apply (inj to_string) in E as ->.
    + done.
    + intros op l r _ _ _ _ _ _. destruct (binary_text op l r s') as (p & -> & _). done.
  - intros x u Hp e' s s' H'. revert e' H'. apply (integer_ind (fun e' => plain_names e' -> _ -> _)).
    + done.
    + intros x' u' Hp'. cbn [expression_to_string]. rewrite !string_app_assoc. cbn. intros [= E].
      apply list.Forall_cons in Hp as [Hx _], Hp' as [Hx' _]. by apply split_at in E as [-> ->].
    + intros op l r _ _ _ _ _ _. destruct (binary_text op l r s') as (p & -> & _). done.
  - intros op l r Ho Il Ir IHl IHr [Pl Pr]%list.Forall_app e' s s' H'.
    revert e' H'. destruct (binary_text op l r s) as (p & -> & Hp).
    apply (integer_ind (fun e' => plain_names e' -> _ -> _)); [done | done |].
    intros op' l' r' Ho' Il' Ir' _ _ [Pl' Pr']%list.Forall_app.
    destruct (binary_text op' l' r' s') as (p' & -> & Hp'). intros [= E].
    apply split_at in E as [En E]; [|by apply to_string_without..].
    apply (inj to_string), operator_number_inj in En as <-.
    by apply (pair_readable _ _ _ p _ _ p'); auto.
Qed.

(** Expressions as trees of binary operations. *)
Lemma binary_ind (P : Expression -> Prop) :
  (forall e, is_binary e = false -> P e) ->
  (forall op l r, P l -> P r -> P (BinaryOp op l r)) -> forall e, P e.
Proof.
  intros Hleaf Hop. fix IH 1. intros e; destruct e; try (by apply Hleaf). apply Hop; apply IH.
Qed.

(** ** Finding variables in texts *)

Lemma occurs_same s : occurs s s = true.
Proof.
  assert (H : String.prefix s s = true).
  { induction s as [|c s IH]; [done|]. simpl. by destruct (ascii_dec c c). }
  destruct s; cbn [occurs]; by rewrite H.
Qed.

Lemma prefix_self a s : String.prefix a (a ++ s) = true.
Proof.
  induction a as [|c a IH]; [by destruct s|].
  change (String.prefix (String c a) (String c (a ++ s)) = true). simpl. by destruct (ascii_dec c c).
Qed.

Lemma occurs_after a sub s : occurs sub s = true -> occurs sub (a ++ s) = true.
Proof.
  induction a as [|c a IH]; [done|]. intros H. change (occurs sub (String c (a ++ s)) = true).
  cbn [occurs]. by rewrite IH, orb_true_r.
Qed.

Lemma prefix_app sub s t : String.prefix sub s = true -> String.prefix sub (s ++ t) = true.
Proof.
  revert s. induction sub as [|c sub IH]; intros [|c' s]; try done; [by destruct t|].
  change (String c' s ++ t)%string with (String c' (s ++ t)). simpl.
  destruct (ascii_dec c c'); [apply IH | done].
Qed.

Lemma occurs_before sub s t : occurs sub s = true -> occurs sub (s ++ t) = true.
Proof.
  induction s as [|c s IH].
  - cbn. rewrite orb_false_r. destruct sub; [|done]. intros _. by destruct t.
  - change (String c s ++ t)%string with (String c (s ++ t)). cbn [occurs].
    intros [H|H]%orb_true_iff; [|by rewrite IH, orb_true_r]. pose proof (prefix_app _ _ t H) as H'.
    change (String c s ++ t)%string with (String c (s ++ t)) in H'. by rewrite H'.
Qed.

Lemma occurs_variable e x : x ∈ variables e -> occurs (variable_text x) (expression_to_string e) = true.
Proof.
  revert e. apply (binary_ind (fun e => _ -> _)).
  - intros e Hb Hx. destruct e; try done; cbn [variables] in Hx; try by apply elem_of_nil in Hx.
    apply list_elem_of_singleton in Hx as ->. apply (occurs_same ("(VAR " ++ name ++ ")")).
  - intros op l r IHl IHr Hx. cbn [variables] in Hx. cbn [expression_to_string].
    assert (Hc : occurs (variable_text x) (expression_to_string l) = true
                 \/ occurs (variable_text x) (expression_to_string r) = true)
      by (apply elem_of_app in Hx as [Hx|Hx]; [left; by apply IHl | right; by apply IHr]).
    apply (occurs_after "(BIN_OP "), occurs_after, (occurs_after " ").
    destruct (in_order_cases op (expression_to_string l) (expression_to_string r)) as [->|[_ ->]]; cbn [fst snd];
      (destruct Hc; [first [by apply occurs_before | by apply occurs_after, (occurs_after " "), occurs_before]..]).
Qed.

(** ** Blocks *)

(** What an assignment or a LET of one variable does. *)
Definition perform_stmt (ρ : string -> Z) (s : Statement) : string -> Z :=
  match s with
  | AssignmentStatement [VariableAccess x _] [e] | LetDeclaration [x] [e] _ => update ρ x (eval ρ e)
  | _ => ρ
  end.
Definition perform_stmts (ρ : string -> Z) (l : list Statement) : string -> Z := foldl perform_stmt ρ l.

Definition temporary (x : string) : Prop := exists n, 0 <= n /\ x = temp_var_name n.

(** The expressions the theorem is about: of integers, over variables of the program. *)
Definition proper (e : Expression) : Prop :=
  integer e = true /\ plain_names e /\ Forall (fun x => ~ temporary x) (variables e).
Definition proper_assignment (a : assignment) : Prop := ~ temporary a.1 /\ proper a.2.

Lemma temp_var_name_inj n n' : temp_var_name n = temp_var_name n' -> n = n'.
Proof. unfold temp_var_name. intros E. by apply (inj (String.append "_cse_temp_")), (inj to_string) in E. Qed.

Lemma eval_agree ρ ρ' e : (forall x, x ∈ variables e -> ρ x = ρ' x) -> eval ρ e = eval ρ' e.
Proof.
  revert e. apply (binary_ind (fun e => _ -> _)).
  - intros e Hb H. destruct e; try done. apply H. by apply list_elem_of_singleton.
  - intros op l r IHl IHr H. cbn in *. rewrite IHl, IHr; try done; intros x Hx; apply H, elem_of_app; auto.
Qed.

(** Before a statement: [ρ] are the values of the variables without the pass, [ρ'] with it. *)
Record simulates (s : optimizer) (ρ ρ' : string -> Z) : Prop := {
  sim_variables : forall x, ~ temporary x -> ρ x = ρ' x;
  sim_counter : 0 <= temp_var_counter_ s;
  sim_available : forall key t, available_expressions_ s !! key = Some t ->
    exists e n, key = expression_to_string e /\ t = temp_var_name n /\ 0 <= n < temp_var_counter_ s
      /\ proper e /\ ρ' t = eval ρ e
}.

Lemma sim_eval s ρ ρ' e : simulates s ρ ρ' -> proper e -> eval ρ e = eval ρ' e.
Proof.
  intros H (_ & _ & Hv). apply eval_agree. intros x Hx. apply (sim_variables _ _ _ H).
  rewrite list.Forall_forall in Hv. by apply Hv.
Qed.

Lemma update_other ρ x v y : y <> x -> update ρ x v y = ρ y.
Proof. intros H. unfold update. by destruct (String.eqb_spec y x). Qed.
Lemma update_same ρ x v : update ρ x v x = v.
Proof. unfold update. by rewrite String.eqb_refl. Qed.

(** After the assignment the texts that name the variable are forgotten. *)
Lemma simulates_assign s ρ ρ' x v : ~ temporary x -> simulates s ρ ρ' ->
  simulates (invalidate_expressions_with_var x s) (update ρ x v) (update ρ' x v).
Proof.
  intros Hx H. split.
  - intros y Hy. unfold update. case_match; [done | by apply H].
  - apply H.
  - intros key t Hk. cbn in Hk. apply map_lookup_filter_Some in Hk as [Hk Ho]. cbn in Ho.
    destruct (sim_available _ _ _ H key t Hk) as (e & n & -> & -> & Hn & Pe & Ev).
    exists e, n. split; [done|]. split; [done|]. split; [exact Hn|]. split; [done|].
    rewrite update_other by (intros <-; apply Hx; exists n; split; [lia | done]).
    rewrite Ev. apply eval_agree. intros y Hy. symmetry. apply update_other. intros ->.
    by rewrite (occurs_variable e x Hy) in Ho.
Qed.

Section block.
Context (function : string) (h : gmap address Block).

(** The function is known, and no block has been written yet. *)
Definition has_metrics (s : optimizer) : Prop :=
  is_Some (function_metrics s !! function) /\ block_heap s = h.

(** Registering a variable changes neither the texts nor the counter. *)
Lemma register_ends name type s : has_metrics s ->
  ends (register_temporary function name type) (fun _ s' =>
    has_metrics s' /\ available_expressions_ s' = available_expressions_ s
    /\ temp_var_counter_ s' = temp_var_counter_ s) s.
Proof.
  intros [[m Hm] Hh]. unfold register_temporary. apply ends_bind, ends_modify, ends_bind, ends_get. cbn.
  rewrite Hm. apply ends_modify. cbn. split_and!; [|done..]. split; [|done]. cbn. by rewrite lookup_insert_eq.
Qed.

(** A right-hand side: the LET put before, and an expression of the same value. *)
Lemma optimize_rhs_ends e s ρ ρ' : has_metrics s -> simulates s ρ ρ' -> proper e ->
  ends (optimize_rhs function e) (fun r s' => has_metrics s' /\
    simulates s' ρ (perform_stmts ρ' r.1) /\ eval (perform_stmts ρ' r.1) r.2 = eval ρ e) s.
Proof.
  intros Hm H Pe. unfold optimize_rhs. apply ends_bind, ends_get. cbn.
  destruct (available_expressions_ s !! expression_to_string e) as [t|] eqn:Ek.
  - apply ends_ret. cbn. split_and!; [done | done|].
    destruct (sim_available _ _ _ H _ t Ek) as (e0 & n & E0 & -> & _ & (I0 & P0 & _) & ->).
    destruct Pe as (Ie & Pl & _). symmetry.
    eapply (texts_readable e Ie Pl e0 "" ""); [done | done | by rewrite E0].
  - destruct (_ && _) eqn:Eh.
    2: { apply ends_ret. split_and!; [done | done|]. symmetry. by eapply sim_eval. }
    apply ends_bind. unfold generate_temp_var_name. apply ends_bind, ends_get, ends_bind, ends_modify, ends_ret.
    apply ends_bind, ends_modify, ends_bind.
    set (n := temp_var_counter_ s). set (s1 := set_available _ _).
    eapply ends_mono; [by apply (register_ends (temp_var_name n) (infer_expression_type e) s1)|].
    intros _ s2 (Hm2 & A2 & C2). apply ends_ret. cbn. rewrite update_same.
    pose proof (sim_counter _ _ _ H) as Hn. fold n in Hn.
    assert (Hot : forall y, ~ temporary y -> update ρ' (temp_var_name n) (eval ρ' e) y = ρ' y).
    { intros y Hy. apply update_other. intros ->. apply Hy. by exists n. }
    split; [done|]. split; [|symmetry; by eapply sim_eval]. split.
    + intros y Hy. rewrite Hot by done. by apply H.
    + rewrite C2. cbn. fold n. lia.
    + intros key t. rewrite A2, C2. cbn. fold n. intros [[<- <-]|[Hne Hk]]%lookup_insert_Some.
      * exists e, n. rewrite update_same. split; [done|]. split; [done|]. split; [lia|]. split; [done|].
        symmetry. by eapply sim_eval.
      * destruct (sim_available _ _ _ H key t Hk) as (e0 & k & -> & -> & Hk0 & P0 & Ev).
        exists e0, k. fold n in Hk0. split; [done|]. split; [done|]. split; [lia|]. split; [done|].
        rewrite update_other; [done|]. intros E%temp_var_name_inj. lia.
Qed.

Lemma optimize_assignment_ends a s ρ ρ' : has_metrics s -> simulates s ρ ρ' -> proper_assignment a ->
  ends (optimize_assignment function (statement_of a)) (fun l s' =>
    has_metrics s' /\ simulates s' (perform ρ a) (perform_stmts ρ' l)) s.
Proof.
  intros Hm H [Ha Pe]. unfold statement_of. cbn [optimize_assignment st_map].
  apply ends_bind, ends_bind. eapply ends_mono; [by apply (optimize_rhs_ends a.2 s ρ ρ')|].
  intros [lets e] s1 (Hm1 & H1 & Ev). apply ends_bind, ends_ret, ends_ret, ends_bind, ends_modify, ends_ret.
  cbn [concat List.map fst snd fold_left invalidate_lhs] in *. split; [done|].
  rewrite app_nil_r. unfold perform_stmts in *. rewrite foldl_app. cbn [foldl perform_stmt].
  rewrite Ev. by apply simulates_assign.
Qed.

Lemma optimize_statements_ends l s ρ ρ' : has_metrics s -> simulates s ρ ρ' -> Forall proper_assignment l ->
  ends (st_map (optimize_assignment function) (List.map statement_of l)) (fun ls s' =>
    has_metrics s' /\ simulates s' (foldl perform ρ l) (perform_stmts ρ' (concat ls))) s.
Proof.
  intros Hm H Hl. revert s ρ ρ' Hm H. induction Hl as [|a l Ha _ IH]; intros s ρ ρ' Hm H; [by apply ends_ret|].
  cbn [List.map st_map]. apply ends_bind. eapply ends_mono; [by apply (optimize_assignment_ends a s ρ ρ')|].
  intros l1 s1 [Hm1 H1]. apply ends_bind. eapply ends_mono; [by apply IH|].
  intros ls s2 [Hm2 H2]. apply ends_ret. split; [done|]. cbn [concat foldl]. unfold perform_stmts in *.
  by rewrite foldl_app.
Qed.
End block.

(** ** Theorems *)

(** C22: a block of assignments of integer expressions is rewritten
    without failure, whatever earlier blocks left behind, into a block with the same edges
    after which every variable of the program has the value it had after the original; no
    other block changes. *)
Theorem common_subexpressions_kept function p b s l ρ :
  block_heap s !! p = Some b -> Cfg.statements b = List.map statement_of l ->
  Forall proper_assignment l -> is_Some (function_metrics s !! function) ->
  ends (optimize_block function p) (fun _ s' => exists b', block_heap s' !! p = Some b'
    /\ successors b' = successors b /\ predecessors b' = predecessors b
    /\ (forall x, ~ temporary x -> perform_stmts ρ (Cfg.statements b') x = foldl perform ρ l x)
    /\ forall q, q <> p -> block_heap s' !! q = block_heap s !! q) s.
Proof.
  intros Hp Hl Hw Hm. unfold optimize_block. apply ends_bind, ends_get, ends_bind.
  apply (ends_deref _ b); [done|]. do 3 apply ends_bind, ends_modify. apply ends_bind, ends_bind.
  rewrite Hl. eapply ends_mono.
  - apply (optimize_statements_ends function (block_heap s) l _ ρ ρ); [done | | done].
    split; [done | cbn; lia | intros key t [=]].
  - intros ls s1 [[_ Hh] H1]. apply ends_ret, ends_modify.
    exists (with_statements (concat ls) b). cbn. rewrite lookup_insert_eq, Hh. split_and!; try done.
    + intros x Hx. symmetry. by apply H1.
    + intros q Hq. by rewrite lookup_insert_ne.
Qed.

(** [x := a + 1; y := 1 + a; a := y; x := a + 1] *)
Definition sample_block : list assignment :=
  let sum l r := BinaryOp Add l r in let a := VariableAccess "a" "" in
  let one := NumberLiteral (Integer 1) in
  [("x", sum a one); ("y", sum one a); ("a", VariableAccess "y" ""); ("x", sum a one)].
Definition sample_optimizer : optimizer :=
  LocalOptimizationPass_new SymbolTable_new {["f" := FunctionMetrics_new]}
    {[1%nat := with_statements (List.map statement_of sample_block) (Block_new "entry")]}.

Lemma not_temporary x : String.prefix "_cse_temp_" x = false -> ~ temporary x.
Proof. intros H (n & _ & ->). unfold temp_var_name in H. by rewrite prefix_self in H. Qed.

Lemma common_subexpressions_kept_witness :
  is_Some (block_heap sample_optimizer !! 1%nat) /\ Forall proper_assignment sample_block
  /\ ends (optimize_block "f" 1%nat) (fun _ s' => exists b', block_heap s' !! 1%nat = Some b'
       /\ perform_stmts (fun _ => 0) (Cfg.statements b') "x" = 2) sample_optimizer.
Proof.
  assert (Hw : Forall proper_assignment sample_block).
  { repeat constructor; try (apply not_temporary; reflexivity); try reflexivity;
      intros Hin; cbn in Hin; intuition discriminate. }
  split; [by eexists|]. split; [exact Hw|].
  eapply ends_mono.
  - apply (common_subexpressions_kept "f" 1%nat
      (with_statements (List.map statement_of sample_block) (Block_new "entry")) sample_optimizer sample_block
      (fun _ => 0) eq_refl eq_refl Hw). eexists. reflexivity.
  - intros [] s' (b' & Hb & _ & _ & Hv & _). exists b'. split; [exact Hb|].
    rewrite Hv by (apply not_temporary; reflexivity). reflexivity.
Defined.

(** All calls have the same text, so the pass takes sums of
    different calls for the same sum: of two assignments, the second loses its call and reads
    the result of the first. *)
Theorem calls_share_a_temporary f g a b :
  let sum h n := BinaryOp Add (FunctionCall (VariableAccess h "") [NumberLiteral (Integer n)])
                   (NumberLiteral (Integer 1)) in
  let assign x e := AssignmentStatement [VariableAccess x ""] [e] in
  let read := VariableAccess "_cse_temp_0" "" in
  let block l := with_statements l (Block_new "entry") in
  let s := LocalOptimizationPass_new SymbolTable_new {["f" := FunctionMetrics_new]}
             {[1%nat := block [assign "x" (sum f a); assign "y" (sum g b)]]} in
  block_heap (optimize_block "f" 1%nat s).1 !! 1%nat
  = Some (block [LetDeclaration ["_cse_temp_0"] [sum f a] false; assign "x" read; assign "y" read]).
Proof. vm_compute. reflexivity. Qed.
