(* ===== verification/Reduction.v ===== *)
(** * Strength reduction

    [StrengthReductionPass] (src/StrengthReductionPass.h): multiplications and divisions by
    powers of two become shifts, doublings of floats sums, divisions by constant floats
    multiplications.  Its visitor of binary operations only descends into their operands, and
    the pass has no visitor of programs. *)

From Stdlib Require Import SpecFloat.
From S2P Require Import Prelude Words State Ast Data OpsRun ExprProof ConstFold ConstFoldProof.
Local Open Scope Z_scope.

(** ** The pass *)

(** [value > 0 && (value & (value - 1)) == 0] *)
Definition isPowerOfTwo (value : Z) : bool := (0 <? value) && (Z.land value (value - 1) =? 0).

(** [while ((temp_val & 1) == 0)], at most once for each of the 64 bits. *)
Fixpoint count_shifts (bits : nat) (temp_val shift_amount : Z) : Z :=
  match bits with
  | O => shift_amount
  | S bits =>
      if Z.land temp_val 1 =? 0 then count_shifts bits (Z.shiftr temp_val 1) (shift_amount + 1)
      else shift_amount
  end.
Definition shift_amount_of (value : Z) : Z := count_shifts 64 value 0.
Arguments shift_amount_of : simpl never.
Definition literal (v : Z) : Expression := NumberLiteral (Integer v).

(** The literal operand, the right one first, and the other. *)
Definition literal_operand (l r : Expression) : option (number * Expression) :=
  match r, l with
  | NumberLiteral v, _ => Some (v, l)
  | _, NumberLiteral v => Some (v, r)
  | _, _ => None
  end.

(** What becomes of the node; nothing when the optimisation does not apply. *)
Definition tryOptimizeIntegerMultiply (op : BinaryOperator) (l r : Expression) : option Expression :=
  match op, literal_operand l r with
  | Multiply, Some (Integer value, other) =>
      if isPowerOfTwo value then Some (BinaryOp LeftShift other (literal (shift_amount_of value))) else None
  | _, _ => None
  end.
Definition tryOptimizeFloatMultiply (op : BinaryOperator) (l r : Expression) : option Expression :=
  match op, literal_operand l r with
  | FloatMultiply, Some (Float value, other) =>
      if SFeqb value (double_of_Z 2) then Some (BinaryOp FloatAdd other (clone_expr other)) else None
  | _, _ => None
  end.
Definition tryOptimizeIntegerDivision (op : BinaryOperator) (l r : Expression) : option Expression :=
  match op, r with
  | Divide, NumberLiteral (Integer value) =>
      if isPowerOfTwo value then Some (BinaryOp RightShift l (literal (shift_amount_of value))) else None
  | _, _ => None
  end.
Definition tryOptimizeFloatDivision (op : BinaryOperator) (l r : Expression) : option Expression :=
  match op, r with
  | FloatDivide, NumberLiteral (Float value) =>
      if SFeqb value (S754_zero false) then None
      else Some (BinaryOp FloatMultiply l (NumberLiteral (Float (SFdiv 53 1024 (double_of_Z 1) value))))
  | _, _ => None
  end.

Definition first_of {A} (a b : option A) : option A := match a with Some _ => a | None => b end.

(** [visit(BinaryOp&)], after its children; all other visitors do nothing. *)
Definition visit_BinaryOp (op : BinaryOperator) (l r : Expression) : Expression :=
  default (BinaryOp op l r)
    (first_of (tryOptimizeIntegerMultiply op l r)
      (first_of (tryOptimizeFloatMultiply op l r)
        (first_of (tryOptimizeIntegerDivision op l r) (tryOptimizeFloatDivision op l r)))).
Fixpoint visit_expr (e : Expression) : Expression :=
  match e with
  | BinaryOp op l r => visit_BinaryOp op (visit_expr l) (visit_expr r)
  | _ => e
  end.

(** [run]: the visitor of programs is that of [ASTVisitor], which is empty. *)
Definition run (p : Program) : Program := p.

(** ** Values *)

Lemma power_of_two v : int64_range v -> isPowerOfTwo v = true -> exists k, 0 <= k < 63 /\ v = 2 ^ k.
Proof.
  intros [_ Hv] [Hp%Z.ltb_lt Hl%Z.eqb_eq]%andb_true_iff. exists (Z.log2 v).
  pose proof (Z.log2_spec v Hp) as [H1 H2]. pose proof (Z.log2_nonneg v) as H0.
  split; [split; [done | apply Z.log2_lt_pow2; lia]|].
  destruct (Z.eq_dec v (2 ^ Z.log2 v)) as [|Hne]; [done|]. exfalso.
  assert (Hb : Z.testbit (Z.land v (v - 1)) (Z.log2 v) = true).
  { rewrite Z.land_spec, Z.bit_log2 by done. cbn.
    assert (E : Z.log2 (v - 1) = Z.log2 v) by (apply Z.log2_unique; lia).
    rewrite <-E. apply Z.bit_log2. pose proof (Z.pow_pos_nonneg 2 (Z.log2 v) ltac:(lia) H0). lia. }
  by rewrite Hl, Z.bits_0 in Hb.
Qed.

Lemma count_shifts_power bits k s : (k < bits)%nat ->
  count_shifts bits (2 ^ Z.of_nat k) s = s + Z.of_nat k.
Proof.
  revert bits s. induction k as [|k IH]; intros [|bits] s Hk; try lia; cbn [count_shifts]; [by rewrite Z.add_0_r|].
  rewrite Nat2Z.inj_succ, Z.pow_succ_r by lia.
  rewrite (Z.land_ones _ 1) by lia. rewrite Z.mul_comm, Z.mod_mul by done. cbn [Z.eqb].
  rewrite Z.shiftr_div_pow2 by lia. rewrite Z.div_mul by done. rewrite IH by lia. lia.
Qed.

Lemma shift_amount_power k : 0 <= k < 63 -> shift_amount_of (2 ^ k) = k.
Proof.
  intros Hk. unfold shift_amount_of. rewrite <-(Z2Nat.id k) at 1 by lia.
  rewrite count_shifts_power; lia.
Qed.

Lemma literal_shift k : 0 <= k < 63 -> integer (literal k) = true /\ forall ρ, eval ρ (literal k) = k.
Proof. intros Hk. split; [apply integer_of; split; lia|]. intros ρ. apply u64_small. lia. Qed.

Lemma shift_left_value a k : 0 <= k < 63 -> eval_op LeftShift a k = eval_op Multiply a (2 ^ k).
Proof. intros Hk. cbn. rewrite Z.mod_small, Z.shiftl_mul_pow2 by lia. done. Qed.

Lemma shift_right_value a k : 0 <= k < 63 -> 0 <= a < 2 ^ 63 -> eval_op RightShift a k = eval_op Divide a (2 ^ k).
Proof.
  intros Hk Ha. pose proof (Z.pow_pos_nonneg 2 k ltac:(lia) ltac:(lia)) as Hp.
  assert (2 ^ k < 2 ^ 63) by (apply Z.pow_lt_mono_r; lia).
  cbn [eval_op]. destruct (Z.eqb_spec (2 ^ k) 0) as [|_]; [lia|].
  rewrite !sext_small by lia. rewrite Z.mod_small, Z.shiftr_div_pow2 by lia.
  rewrite Z.quot_div_nonneg by lia. rewrite u64_small; [done|].
  split; [apply Z.div_pos; lia|]. apply Z.div_lt_upper_bound; nia.
Qed.

(** No division has a negative dividend. *)
Fixpoint dividends_nonnegative (ρ : string -> Z) (e : Expression) : Prop :=
  match e with
  | BinaryOp op l r =>
      dividends_nonnegative ρ l /\ dividends_nonnegative ρ r
      /\ (op = Divide -> eval ρ l < 2 ^ 63)
  | _ => True
  end.

Section values.
Context (ρ : string -> Z) (words : forall x, word (ρ x)).

Definition keeps_value (e e' : Expression) : Prop := integer e' = true /\ eval ρ e' = eval ρ e.

Lemma reduced_multiply l r e : integer l = true -> integer r = true ->
  tryOptimizeIntegerMultiply Multiply l r = Some e -> keeps_value (BinaryOp Multiply l r) e.
Proof.
  intros Hl Hr H.
  assert (E : exists v other, literal_operand l r = Some (Integer v, other) /\ int64_range v
    /\ integer other = true /\ eval_op Multiply (eval ρ other) (u64 v) = eval_op Multiply (eval ρ l) (eval ρ r)).
  { assert (Hlit : forall v, integer (NumberLiteral v) = true -> exists z, v = Integer z /\ int64_range z).
    { intros [z|f] Hi; [|done]. exists z. cbn in Hi. apply andb_true_iff in Hi as [H1 H2].
      split; [done|]. by split; [apply Z.leb_le | apply Z.ltb_lt]. }
    cbn in H. destruct (literal_operand l r) as [[v other]|] eqn:El; [|done].
    assert (Hc : (r = NumberLiteral v /\ other = l) \/ (l = NumberLiteral v /\ other = r)).
    { unfold literal_operand in El. destruct r; destruct l; simplify_eq; auto. }
    destruct Hc as [[-> ->]|[-> ->]].
    - destruct (Hlit v Hr) as (z & -> & Hz). by exists z, l.
    - destruct (Hlit v Hl) as (z & -> & Hz). exists z, r. split_and!; try done.
      cbn [eval eval_op]. by rewrite Z.mul_comm. }
  destruct E as (v & other & E & Hv & Ho & Hm). cbn [tryOptimizeIntegerMultiply] in H. rewrite E in H.
  destruct (isPowerOfTwo v) eqn:Hp; [|done]. injection H as <-.
  destruct (power_of_two v Hv Hp) as (k & Hk & ->). rewrite shift_amount_power by done.
  destruct (literal_shift k Hk) as [Il Vl]. split; [cbn [integer supported]; by rewrite Ho, Il|].
  cbn [eval] in *. rewrite Vl, shift_left_value by done. rewrite <-Hm. do 2 f_equal. symmetry.
  apply u64_small. assert (2 ^ k < 2 ^ 63) by (apply Z.pow_lt_mono_r; lia). lia.
Qed.

Lemma reduced_divide l r e : integer l = true -> integer r = true -> eval ρ l < 2 ^ 63 ->
  tryOptimizeIntegerDivision Divide l r = Some e -> keeps_value (BinaryOp Divide l r) e.
Proof.
  intros Hl Hr Hn H. destruct r as [ | |[v|f]| | | | | | | | | | | | | | | | | | | ]; try done.
  cbn [tryOptimizeIntegerDivision] in H. destruct (isPowerOfTwo v) eqn:Hp; [|done]. injection H as <-.
  assert (Hv : int64_range v).
  { cbn in Hr. apply andb_true_iff in Hr as [H1 H2]. by split; [apply Z.leb_le | apply Z.ltb_lt]. }
  destruct (power_of_two v Hv Hp) as (k & Hk & ->). rewrite shift_amount_power by done.
  destruct (literal_shift k Hk) as [Il Vl]. split; [cbn [integer supported]; by rewrite Hl, Il|].
  pose proof (value_word ρ words l Hl) as [W _]. assert (2 ^ k < 2 ^ 63) by (apply Z.pow_lt_mono_r; lia).
  cbn [eval]. fold (literal k). rewrite Vl, (u64_small (2 ^ k)) by lia. by apply shift_right_value.
Qed.

Lemma reduced_node op l r : supported op = true -> integer l = true -> integer r = true ->
  (op = Divide -> eval ρ l < 2 ^ 63) -> keeps_value (BinaryOp op l r) (visit_BinaryOp op l r).
Proof.
  intros Ho Hl Hr Hn.
  assert (Same : keeps_value (BinaryOp op l r) (BinaryOp op l r))
    by (split; [cbn [integer]; by rewrite Ho, Hl, Hr | done]).
  unfold visit_BinaryOp. destruct (tryOptimizeIntegerMultiply op l r) as [e|] eqn:E.
  { destruct op; try done. by apply reduced_multiply. }
  destruct (tryOptimizeIntegerDivision op l r) as [e|] eqn:E'.
  { destruct op; try done. apply reduced_divide; auto. }
  by destruct op.
Qed.
End values.

(** C23: on integer expressions the visitor keeps the value, when no division has
    a negative dividend; with one it does not: half of -1 becomes the largest signed integer. *)
Theorem reduction_exact :
  (forall ρ e, (forall x, word (ρ x)) -> integer e = true -> dividends_nonnegative ρ e ->
     integer (visit_expr e) = true /\ eval ρ (visit_expr e) = eval ρ e)
  /\ (let half := BinaryOp Divide (VariableAccess "x" "") (literal 2) in
      let ρ := fun _ => u64 (-1) in
      eval ρ half = 0 /\ eval ρ (visit_expr half) = 2 ^ 63 - 1).
Proof.
  split; [|by vm_compute]. intros ρ e Hw He. revert e He.
  apply (integer_ind (fun e => dividends_nonnegative ρ e -> _)).
  - intros v Hv _. split; [by apply integer_of | done].
  - done.
  - intros op l r Ho Hl Hr IHl IHr (Dl & Dr & Dn). destruct (IHl Dl) as [Il Vl], (IHr Dr) as [Ir Vr].
    destruct (reduced_node ρ Hw op (visit_expr l) (visit_expr r) Ho Il Ir) as [I V]; [by rewrite Vl|].
    cbn [visit_expr]. split; [done|]. rewrite V. cbn [eval]. by rewrite Vl, Vr.
Qed.

Lemma reduction_exact_witness :
  let e := BinaryOp Divide (BinaryOp Multiply (literal 8) (VariableAccess "x" "")) (literal 4) in
  visit_expr e = BinaryOp RightShift (BinaryOp LeftShift (VariableAccess "x" "") (literal 3)) (literal 2)
  /\ eval (fun _ => 5) (visit_expr e) = eval (fun _ => 5) e.
Proof.
  cbv zeta. split; [vm_compute; reflexivity|]. apply reduction_exact.
  - intros x. split; reflexivity || discriminate.
  - reflexivity.
  - cbn. split_and!; try done.
Defined.
