(* ===== verification/Runtime.v ===== *)
(** * The runtime's functions

    [runtime::register_runtime_functions] (src/runtime/RuntimeBridge.cpp) enters the functions
    of the runtime library into the table the linker and the analyzer read;
    [RuntimeSymbols::registerAll] (src/RuntimeSymbols.cpp) enters symbols for some of them into
    the symbol table.  The addresses of the library's functions are an argument. *)

From S2P Require Import Prelude CallFrame Labels Ast State SymbolTable.
Local Open Scope Z_scope.

(** ** RuntimeBridge *)

Section bridge.
Context (address : string -> Z).

(** [nullptr] is no function of the library. *)
Definition address_of (function : string) : Z :=
  if String.eqb function "nullptr" then 0 else address function.

(** An exception, as for a name that is known already, is swallowed. *)
Definition register_runtime_function (name : string) (num_args : Z) (function : string)
    (type : FunctionType) (m : RuntimeManager) : RuntimeManager :=
  (register_function m name num_args (address_of function) type).1.

Definition bridge : list (string * Z * string * FunctionType) :=
  [("WRITES", 1, "WRITES", STANDARD); ("WRITEN", 1, "WRITEN", STANDARD); ("WRITEF", 1, "WRITEF", FLOAT);
   ("WRITEC", 1, "WRITEC", STANDARD); ("RDCH", 0, "RDCH", STANDARD);
   ("BCPL_ALLOC_WORDS", 3, "bcpl_alloc_words", STANDARD);
   ("BCPL_ALLOC_CHARS", 1, "bcpl_alloc_chars", STANDARD); ("MALLOC", 1, "bcpl_alloc_words", STANDARD);
   ("FREEVEC", 1, "bcpl_free", STANDARD); ("BCPL_FREE_LIST", 1, "bcpl_free_list", STANDARD);
   ("BCPL_LIST_GET_HEAD_AS_INT", 1, "BCPL_LIST_GET_HEAD_AS_INT", STANDARD);
   ("BCPL_LIST_GET_HEAD_AS_FLOAT", 1, "BCPL_LIST_GET_HEAD_AS_FLOAT", FLOAT);
   ("BCPL_LIST_GET_TAIL", 1, "BCPL_LIST_GET_TAIL", STANDARD);
   ("BCPL_LIST_GET_REST", 1, "BCPL_LIST_GET_REST", STANDARD);
   ("BCPL_GET_ATOM_TYPE", 1, "BCPL_GET_ATOM_TYPE", STANDARD);
   ("BCPL_LIST_GET_NTH", 2, "BCPL_LIST_GET_NTH", STANDARD); ("SETTYPE", 2, "nullptr", STANDARD);
   ("BCPL_FREE_CELLS", 0, "BCPL_FREE_CELLS", STANDARD);
   ("GET_FREE_LIST_HEAD_ADDR", 0, "get_g_free_list_head_address", STANDARD);
   ("BCPL_LIST_CREATE_EMPTY", 0, "BCPL_LIST_CREATE_EMPTY", STANDARD);
   ("BCPL_LIST_APPEND_INT", 2, "BCPL_LIST_APPEND_INT", STANDARD);
   ("BCPL_LIST_APPEND_FLOAT", 2, "BCPL_LIST_APPEND_FLOAT", FLOAT);
   ("BCPL_LIST_APPEND_STRING", 2, "BCPL_LIST_APPEND_STRING", STANDARD);
   ("APND", 2, "BCPL_LIST_APPEND_INT", STANDARD); ("FPND", 2, "BCPL_LIST_APPEND_FLOAT", FLOAT);
   ("SPND", 2, "BCPL_LIST_APPEND_STRING", STANDARD); ("LPND", 2, "BCPL_LIST_APPEND_LIST", STANDARD);
   ("BCPL_CONCAT_LISTS", 2, "BCPL_CONCAT_LISTS", STANDARD); ("CONCAT", 2, "BCPL_CONCAT_LISTS", STANDARD);
   ("COPYLIST", 1, "BCPL_SHALLOW_COPY_LIST", STANDARD);
   ("DEEPCOPYLIST", 1, "BCPL_DEEP_COPY_LIST", STANDARD);
   ("DEEPCOPYLITERALLIST", 1, "BCPL_DEEP_COPY_LITERAL_LIST", STANDARD);
   ("REVERSE", 1, "BCPL_REVERSE_LIST", STANDARD); ("FIND", 3, "BCPL_FIND_IN_LIST", STANDARD);
   ("FILTER", 2, "BCPL_LIST_FILTER", STANDARD); ("APND", 2, "BCPL_LIST_APPEND_INT", STANDARD);
   ("JOIN", 2, "BCPL_JOIN_LIST", STANDARD); ("STRCOPY", 2, "STRCOPY", STANDARD);
   ("STRCMP", 2, "STRCMP", STANDARD); ("STRLEN", 1, "STRLEN", STANDARD);
   ("PACKSTRING", 1, "PACKSTRING", STANDARD); ("UNPACKSTRING", 1, "UNPACKSTRING", STANDARD);
   ("SLURP", 1, "SLURP", STANDARD); ("SPIT", 2, "SPIT", STANDARD); ("FINISH", 0, "finish", STANDARD);
   ("returnNodeToFreelist", 1, "returnNodeToFreelist_runtime", STANDARD)]%string.

Definition register_runtime_functions (m : RuntimeManager) : RuntimeManager :=
  fold_left (fun m '(name, n, function, type) => register_runtime_function name n function type m) bridge m.
End bridge.

(** ** RuntimeSymbols *)

(** The four registering methods: kind and type of the symbol; duplicates only warn. *)
Definition register_symbol (kind : SymbolKind) (type : VarType) (name : string)
    (params : list ParameterInfo) (t : SymbolTable) : SymbolTable :=
  (addSymbol (mkSymbol name kind type 0 UNKNOWN_LOCATION 0 false params) t).1.
Definition registerRuntimeFunction := register_symbol RUNTIME_FUNCTION VT_INTEGER.
Definition registerRuntimeFloatFunction := register_symbol RUNTIME_FLOAT_FUNCTION VT_FLOAT.
Definition registerRuntimeRoutine := register_symbol RUNTIME_ROUTINE VT_INTEGER.
Definition registerRuntimeFloatRoutine := register_symbol RUNTIME_FLOAT_ROUTINE VT_FLOAT.

Definition integer_param : ParameterInfo := mkParameterInfo VT_INTEGER false.
Definition float_param : ParameterInfo := mkParameterInfo VT_FLOAT false.

Definition runtime_symbols : list (string * (SymbolTable -> SymbolTable)) :=
  let i := integer_param in let f := float_param in
  let entry register name params := (name, register name params) in
  [entry registerRuntimeFunction "READN" []; entry registerRuntimeFunction "RND" [i];
   entry registerRuntimeFunction "LENGTH" [i]; entry registerRuntimeFunction "GETBYTE" [i; i];
   entry registerRuntimeFunction "GETWORD" [i; i];
   entry registerRuntimeFloatFunction "READF" []; entry registerRuntimeFloatFunction "FLTOFX" [i];
   entry registerRuntimeFloatFunction "FSIN" [f]; entry registerRuntimeFloatFunction "FCOS" [f];
   entry registerRuntimeFloatFunction "FSQRT" [f]; entry registerRuntimeFloatFunction "FTAN" [f];
   entry registerRuntimeFloatFunction "FABS" [f]; entry registerRuntimeFloatFunction "FLOG" [f];
   entry registerRuntimeFloatFunction "FEXP" [f];
   entry registerRuntimeRoutine "WRITES" [i]; entry registerRuntimeRoutine "WRITEN" [i];
   entry registerRuntimeFloatRoutine "WRITEF" [f]; entry registerRuntimeRoutine "PUTBYTE" [i; i; i];
   entry registerRuntimeRoutine "PUTWORD" [i; i; i]; entry registerRuntimeRoutine "EXIT" [i];
   entry registerRuntimeRoutine "NEWLINE" []; entry registerRuntimeRoutine "NEWPAGE" []]%string.

Definition registerAll (t : SymbolTable) : SymbolTable :=
  fold_left (fun t entry => entry.2 t) runtime_symbols t.

(** ** What the two tables agree on *)

(** Of the functions that [registerAll] declares only WRITES,
    WRITEN and WRITEF are in the table of the runtime's functions, wherever the library is
    loaded: a call of any other has a symbol, and no code that it could reach. *)
Theorem runtime_symbols_without_code address :
  filter (fun name => is_function_registered (register_runtime_functions address RuntimeManager_empty) name = true)
    (List.map fst runtime_symbols) = ["WRITES"; "WRITEN"; "WRITEF"]%string.
Proof. reflexivity. Qed.
