(* ===== verification/Compile.v ===== *)
(** * The compiler's passes in the order of the driver

    [main] (src/main.cpp) from the text of a program to its linked instructions, as it runs
    with [--nopt] and [--nopeep]: the optimising passes between are left out, since the
    header of one of them, LoopInvariantCodeMotionPass.h, is not in the repository.  Each pass
    runs in its own state; what one leaves for the next is passed on.  [transform] of the
    analyzer does nothing and has no counterpart.  Where the driver walks a hash map the model
    takes the order of its own maps. *)

From S2P Require Import Prelude Instr CallFrame Labels Linker Registers Functions Ast Trees SymbolTable Analysis Data State Cfg CfgSpec CfgProof CfgProgram CfgTheorems Liveness LivenessProof LivenessTheorems Codegen CodegenExpr CodegenCalls CodegenStmt Lexer Parser ParserProof ParserWhole FrontEnd Manifests ManifestsProof SymbolBuild Analyzer AnalyzerProof AnalyzerTheorems Runtime.
Import State.
Local Open Scope Z_scope.

(** ** Outcomes *)

(** [Hangs] is a loop of the parser without end; [Crashed] a step that C++ leaves undefined. *)
Inductive compiled (A : Type) : Type :=
  | Hangs
  | Rejected (errors : list (option (Z * Z) * string))
  | Failed (e : thrown)
  | Crashed
  | Compiled (a : A).
Arguments Hangs {A}.
Arguments Rejected {A} errors.
Arguments Failed {A} e.
Arguments Crashed {A}.
Arguments Compiled {A} a.

#[export] Instance compiled_ret : MRet compiled := @Compiled.
#[export] Instance compiled_bind : MBind compiled := fun A B f m =>
  match m with
  | Hangs => Hangs
  | Rejected l => Rejected l
  | Failed e => Failed e
  | Crashed => Crashed
  | Compiled a => f a
  end.

(** A pass, from its first state: what it leaves and what it returns. *)
Definition run_pass {S A} (m : ST S A) (s : S) : compiled (S * A) :=
  match m s with
  | (s, Done a) => Compiled (s, a)
  | (_, Raised e) => Failed (standard e)
  | (_, Undefined) => Crashed
  end.

Lemma run_pass_done {S A} (m : ST S A) s s' a : m s = (s', Done a) -> run_pass m s = Compiled (s', a).
Proof. unfold run_pass. by intros ->. Qed.

Lemma run_pass_ends {S A} (m : ST S A) s (Q : A -> S -> Prop) :
  ends m Q s -> exists s' a, run_pass m s = Compiled (s', a) /\ Q a s'.
Proof. intros (s' & a & E & H)%ends_elim. exists s', a. split; [by apply run_pass_done | done]. Qed.

(** ** From text to tree *)

Definition parser_fuel (source : string) : nat := 2 * String.length source + 8.

Definition read (source : string) : compiled Program :=
  match parse (parser_fuel source) (new_lexer source) with
  | OutOfFuel => Hangs
  | Thrown e _ => Failed e
  | Parsed (ds, ss) p =>
      match errors_ p with
      | [] =>
          match wholes ds, wholes ss with
          | Some ds, Some ss => Compiled (mkProgram ds ss)
          | _, _ => Crashed
          end
      | errors => Rejected errors
      end
  end.

Section driver.
Context (address : string -> Z).
Context (updateSymbolType : string -> VarType -> SymbolTable -> SymbolTable).

Definition runtime : RuntimeManager := register_runtime_functions address RuntimeManager_empty.

(** ** From tree to tables *)

Record analyzed : Type := mkAnalyzed {
  program : Program;
  table : SymbolTable;
  facts : analyzer
}.

(** The types the analyzer found, in the symbol table. *)
Definition synchronize_function (m : FunctionMetrics) (t : SymbolTable) : SymbolTable :=
  fold_left (fun t v => updateSymbolType v.1 v.2 t) (map_to_list (metrics_variable_types m)) t.
Definition synchronize_types (a : analyzer) (t : SymbolTable) : SymbolTable :=
  fold_left (fun t f => synchronize_function f.2 t) (map_to_list (function_metrics_ a)) t.

(** The analyzer is one object for all programs; here it is new. *)
Definition analyse (p : Program) : compiled analyzed :=
  '(_, p) ← run_pass (Manifests.apply p) (ManifestResolutionPass_new ∅);
  let t := registerAll (SymbolBuild.build ∅ ∅ p) in
  '(a, p) ← run_pass (analyze runtime updateSymbolType (height_program p) p (Some t)) ASTAnalyzer_new;
  match symbol_table_ a with
  | Some t => Compiled (mkAnalyzed p (synchronize_types a t) a)
  | None => Crashed
  end.

(** ** From tables to graphs *)

Record graphs : Type := mkGraphs {
  cfg_builder : builder;
  live : liveness;
  pressured : gmap string FunctionMetrics
}.

Definition build_graphs (r : analyzed) : compiled graphs :=
  '(c, _) ← run_pass (Cfg.build (function_return_types_ (facts r)) (program r))
    (CFGBuilderPass_new (function_metrics_ (facts r)) (current_function_scope_ (facts r)));
  let listing := listing_of c in
  '(s, finished) ← run_pass (Liveness.run (heap c) listing (LivenessTheorems.enough (heap c) listing)) LivenessAnalysisPass_new;
  if finished : bool then
    Compiled (mkGraphs c s (update_pressure (calculate_register_pressure listing s) (Cfg.metrics c)))
  else Hangs.

(** ** From graphs to code *)

(** The graphs as the code generator reads them: blocks by identifier. *)
Definition id_at (c : builder) (p : nat) : string := from_option id "" (heap c !! p).
Definition block_of (c : builder) (p : nat) : option BasicBlock :=
  b ← heap c !! p;
  Some (mkBlock (id b) (Cfg.statements b) (List.map (id_at c) (successors b)) (is_entry b)).
Definition blocks_of_graph (c : builder) (g : ControlFlowGraph) : list BasicBlock :=
  omap (block_of c) (List.map snd (map_to_list (blocks g))).
Definition graphs_for_code (c : builder) : gmap string (list BasicBlock) :=
  blocks_of_graph c <$> function_cfgs c.

Definition environment_of (r : analyzed) (g : graphs) (jit : bool) (data_base : Z) : environment :=
  mkEnvironment (pressured g) (function_return_types_ (facts r)) (local_function_names_ (facts r))
    runtime jit data_base false.

Definition code_generator (r : analyzed) : code_gen :=
  mkCodeGen (mkGenerator RegisterManager_new (CallFrameManager_new false "") [])
    LabelManager_empty DataGenerator_new (Some (table r)) ∅ "" "" VT_INTEGER "" false 0.

Definition generate (r : analyzed) (g : graphs) (jit : bool) (data_base : Z) : compiled code_gen :=
  '(c, _) ← run_pass (generate_code (environment_of r g jit data_base) (graphs_for_code (cfg_builder g))
                        (S (height_program (program r))) (program r)) (code_generator r);
  Compiled c.

(** The labels are forgotten before the code is linked for the JIT. *)
Definition link (c : code_gen) (code_base data_base : Z) : compiled (list Instruction * LabelManager) :=
  match process (mkInstructionStream (emitted (gen c))) (Labels.reset (label_manager c)) runtime code_base data_base with
  | Ok linked => Compiled linked
  | Throw e => Failed (standard e)
  end.

(** ** The driver *)

Definition front (source : string) : compiled analyzed := p ← read source; analyse p.

Definition compile (source : string) (jit : bool) (code_base data_base : Z)
    : compiled (list Instruction * LabelManager) :=
  r ← front source;
  g ← build_graphs r;
  c ← generate r g jit data_base;
  link c code_base data_base.
End driver.
