(* ===== verification/CompileProof.v ===== *)
(** * What the passes promise one another, and what compiled programs do

    The first part composes the theorems of the passes: a text the parser accepts goes
    through manifest resolution, the symbol table and the analyzer without failure, and then
    through the graphs and liveness when its functions are structured.  The second part runs
    linked code on the machine of Machine.v, from the entry of a function until it returns. *)

From S2P Require Import Prelude Words A64 Instr Machine CallFrame Labels Ast Trees SymbolTable Analysis State Cfg CfgSpec CfgProof CfgProgram CfgTheorems Liveness LivenessProof LivenessTheorems Lexer Parser ParserProof ParserWhole FrontEnd Manifests ManifestsProof SymbolBuild Analyzer AnalyzerProof AnalyzerTheorems Runtime Compile.
Import State.
Local Open Scope Z_scope.

(** ** The passes fit together *)

(** The first declaration of a name in a scope stays. *)
Lemma registerAll_found t name : table_inv t -> current_scope_level t = 0%nat ->
  table_inv (registerAll t) /\ current_scope_level (registerAll t) = 0%nat
  /\ (name ∈ List.map fst runtime_symbols -> is_Some (SymbolTable.lookup name (registerAll t))).
Proof.
  assert (H : forall l t, Forall (fun entry => exists kind type params, entry.2 = register_symbol kind type entry.1 params) l ->
    table_inv t -> current_scope_level t = 0%nat ->
    let t' := fold_left (fun t entry => entry.2 t) l t in
    table_inv t' /\ current_scope_level t' = 0%nat
    /\ forall name, name ∈ List.map fst l \/ name ∈ dom (scope_at t 0) -> name ∈ dom (scope_at t' 0)).
  { induction l as [|[n f] l IH]; intros t0 Hl Hi Hz; cbn [fold_left List.map fst snd].
    - split_and!; [done | done|]. intros x [Hx|Hx]; [by apply elem_of_nil in Hx | done].
    - apply list.Forall_cons in Hl as [(k & ty & ps & E) Hl]. cbn in E. subst f.
      set (s := mkSymbol n k ty 0 UNKNOWN_LOCATION 0 false ps).
      destruct (framed_add s t0 Hi) as (Hi1 & Hz1 & _ & Hd1). rewrite Hz in *.
      destruct (IH (register_symbol k ty n ps t0) Hl Hi1 Hz1) as (Hi' & Hz' & Hd'). split_and!; [done | done|].
      intros x [[->|Hx]%elem_of_cons|Hx]; apply Hd'; auto; right.
      destruct (decide (n ∈ dom (scope_at t0 0))) as [|Hn]; [by apply Hd1|].
      unfold register_symbol. fold s. unfold addSymbol. rewrite Hz. apply not_elem_of_dom in Hn.
      unfold s at 1. cbn [symbol_name]. rewrite Hn. cbn [fst]. unfold table_inv in Hi.
      rewrite scope_at_insert by lia. rewrite decide_True by done. set_solver. }
  intros Hi Hz. destruct (H runtime_symbols t) as (Hi' & Hz' & Hd); [|done|done|].
  - repeat constructor; cbn; do 3 eexists; reflexivity.
  - split_and!; [done | done|]. intros Hn. apply lookup_global; auto.
Qed.

Section accepted.
Context (address : string -> Z).
Context (updateSymbolType : string -> VarType -> SymbolTable -> SymbolTable).
(** A change of a symbol's type adds no name and leaves no scope. *)
Context (updateSymbolType_framed : forall name type t, framed t (updateSymbolType name type t)).

Lemma framed_synchronize a t : framed t (synchronize_types updateSymbolType a t).
Proof.
  unfold synchronize_types. generalize (map_to_list (Analyzer.function_metrics_ a)) as l.
  intros l. revert t. induction l as [|f l IH]; intros t; [apply framed_refl|]. cbn [fold_left].
  eapply framed_trans; [|apply IH]. unfold synchronize_function.
  generalize (map_to_list (metrics_variable_types f.2)) as vs. intros vs. revert t.
  induction vs as [|v vs IHv]; intros t; [apply framed_refl|]. cbn [fold_left].
  eapply framed_trans; [apply updateSymbolType_framed | apply IHv].
Qed.

(** What the later passes find. *)
Record well_analysed (r : analyzed) : Prop := {
  analysed_flat : flat_program (program r) = true;
  analysed_scope : current_function_scope_ (facts r) = "Global"%string;
  analysed_table : table_inv (table r);
  analysed_level : current_scope_level (table r) = 0%nat;
  analysed_runtime : forall name, name ∈ List.map fst runtime_symbols ->
    is_Some (SymbolTable.lookup name (table r));
  analysed_loops : NoDup (List.map fst (loops_program (program r)) ++ List.map snd (loops_program (program r)))
}.

Lemma analyse_ends p : flat_program p = true ->
  exists r, analyse address updateSymbolType p = Compiled r /\ well_analysed r.
Proof using updateSymbolType_framed.
  intros Hf. unfold analyse. pose proof (apply_resolves p (ManifestResolutionPass_new ∅) Hf) as Em.
  pose proof (resolve_program_flat p Hf) as Hf'. destruct (resolve_program p) as [p1 g].
  rewrite (run_pass_done _ _ _ _ Em). cbn [mbind compiled_bind fst] in *.
  destruct (build_scope ∅ ∅ p1) as [Es El].
  assert (Hi : table_inv (SymbolBuild.build ∅ ∅ p1)) by (unfold table_inv; by rewrite Es, El).
  destruct (registerAll_found _ "" Hi El) as (Hi' & El' & _).
  destruct (run_pass_ends _ _ _ (analysis_leaves (runtime address) updateSymbolType updateSymbolType_framed
    (height_program p1) p1 _ ASTAnalyzer_new Hf' (le_n _) Hi' El'))
    as (a & p2 & Ea & (F2 & _ & S2 & _ & _ & t & Et & Ti & Tl & Tn) & Hloops).
  rewrite Ea. cbn [mbind compiled_bind]. rewrite Et. eexists. split; [reflexivity|].
  destruct (framed_synchronize a t Ti) as (Ti' & Tl' & _ & Td). rewrite Tl in *.
  split; cbn [program facts table]; try done. intros name Hn. apply lookup_global; [done|].
  apply Td, lookup_global; [done|]. by apply Tn, registerAll_found.
Qed.

Lemma build_graphs_ends r : structured_program (program r) ->
  exists g, build_graphs r = Compiled g.
Proof.
  intros Hs. unfold build_graphs.
  destruct (run_pass_ends _ _ _ (build_ends (Analyzer.function_return_types_ (facts r)) (program r)
    (Analyzer.function_metrics_ (facts r)) (Analyzer.current_function_scope_ (facts r)) Hs)) as (c & [] & Ec & P).
  rewrite Ec. cbn [mbind compiled_bind].
  assert (Hl : lists c (listing_of c)) by apply listing_of_lists.
  destruct (run_pass_ends _ _ _ (run_live (heap c) (listing_of c) (LivenessTheorems.enough (heap c) (listing_of c))
    (progress_contained _ _ _ P Hl) ltac:(unfold LivenessTheorems.enough; lia))) as (s & finished & El & -> & _).
  rewrite El. cbn [mbind compiled_bind]. by eexists.
Qed.

(** C2: a text without the keywords FUNCTION and ROUTINE never makes
    the front half of the compiler hang or take an undefined step.  It is rejected with
    messages, or the parser throws, or it is analysed: the tree has no function inside a
    block, the symbol table is back at its global scope and knows every symbol of the runtime,
    every FOR loop has hidden variables of its own; and when its functions are structured, the
    graphs are built and the liveness analysis ends. *)
Theorem accepted_programs_analysed source : without_function source ->
  match front address updateSymbolType source with
  | Hangs | Crashed => False
  | Rejected errors => errors <> []
  | Failed e => exists p, parse (parser_fuel source) (new_lexer source) = Thrown e p
  | Compiled r => well_analysed r
      /\ (structured_program (program r) -> exists g, build_graphs r = Compiled g)
  end.
Proof using updateSymbolType_framed.
  intros Hw. unfold front, read.
  assert (Hends : parse (parser_fuel source) (new_lexer source) <> OutOfFuel).
  { apply parse_ends; [exact Hw|]. cbn. unfold remaining, parser_fuel. cbn. lia. }
  destruct (parse (parser_fuel source) (new_lexer source)) as [[ds ss] p|e p|] eqn:E; [|by exists p|done].
  destruct (errors_ p) as [|error errors] eqn:Ee; [|done].
  destruct (parse_whole _ _ _ _ _ E Ee) as [(trees & Ht & Hf) ->]. rewrite Ht. cbn [wholes mbind compiled_bind].
  destruct (analyse_ends (mkProgram trees [])) as (r & Er & Hr).
  { assert (Hf' : forallb flat_decl trees = true) by exact Hf.
    unfold flat_program. cbn [declarations statements forallb]. by rewrite Hf'. }
  cbn. rewrite Er. split; [exact Hr|]. apply build_graphs_ends.
Qed.
End accepted.

(** ** Running linked code *)

Definition instruction_at (code : list Instruction) (pc : Z) : option insn :=
  i ← List.find (fun i => negb (is_label_definition i) && (Instr.address i =? pc)) code; decode (encoding i).

(** From the instruction at [pc] until [stop] is reached; [B] and [BL] are relative to it. *)
Fixpoint execute (fuel : nat) (code : list Instruction) (pc stop : Z) (m : machine) : option machine :=
  if pc =? stop then Some m else
  match fuel with
  | O => None
  | S fuel =>
      match instruction_at code pc with
      | Some (Branch link imm26) =>
          execute fuel code (pc + 4 * sext 26 imm26) stop (if link then rset m 30 (pc + 4) else m)
      | Some i =>
          match Machine.exec m i with
          | Machine.Next m => execute fuel code (pc + 4) stop m
          | Machine.Taken m offset => execute fuel code (pc + offset) stop m
          | Machine.Return m target => execute fuel code target stop m
          | Machine.Stuck => None
          end
      | None => None
      end
  end.

(** The machine at a call: arguments from X0 on, and a return address. *)
Definition return_address : Z := 8.
Definition called (arguments : list Z) : machine :=
  mkMachine (fun r => if r =? 30 then return_address else default 0 (arguments !! Z.to_nat r)) 1048576
    (fun _ => 0) (mkFlags false false).

Definition linked (source : string) : compiled (list Instruction * LabelManager) :=
  compile (fun _ => 4096) setSymbolType source true 65536 1048576.

(** The result of a call of a function of the compiled program. *)
Definition call (fuel : nat) (source name : string) (arguments : list Z) : option Z :=
  match linked source with
  | Compiled (code, labels) =>
      match get_label_address labels name with
      | Ok entry => (fun m => xreg m 0) <$> execute fuel code entry return_address (called arguments)
      | Throw _ => None
      end
  | _ => None
  end.

Lemma execute_next f code pc stop m i m' :
  (pc =? stop) = false -> instruction_at code pc = Some i ->
  match i with Branch _ _ => false | _ => true end = true -> Machine.exec m i = Machine.Next m' ->
  execute (S f) code pc stop m = execute f code (pc + 4) stop m'.
Proof. cbn [execute]. intros -> -> H E. destruct i; try done; by rewrite E. Qed.

Lemma execute_branch f code pc stop m l imm :
  (pc =? stop) = false -> instruction_at code pc = Some (Branch l imm) ->
  execute (S f) code pc stop m
  = execute f code (pc + 4 * sext 26 imm) stop (if l then rset m 30 (pc + 4) else m).
Proof. cbn [execute]. by intros -> ->. Qed.

Lemma execute_return f code pc stop m i t :
  (pc =? stop) = false -> instruction_at code pc = Some i -> Machine.exec m i = Machine.Return m t ->
  execute (S f) code pc stop m = execute f code t stop m.
Proof. cbn [execute]. intros -> -> E. destruct i; try done; by rewrite E. Qed.

Lemma execute_stop f code pc m : execute f code pc pc m = Some m.
Proof. destruct f; cbn; by rewrite Z.eqb_refl. Qed.

(** *** Symbolic execution *)

Arguments u64 : simpl never.
Arguments execute : simpl never.

(** Terms without variables are evaluated. *)
Ltac closed t :=
  lazymatch t with ?f ?x => closed f; closed x | _ => tryif is_var t then fail else idtac end.
Ltac ground :=
  repeat match goal with
  | |- context [u64 ?x] => closed x; let v := eval vm_compute in (u64 x) in change (u64 x) with v
  | |- context [?x mod ?y] => closed x; let v := eval vm_compute in (x mod y) in change (x mod y) with v
  end.
Ltac execute_one :=
  match goal with
  | |- context [execute _ _ ?pc ?stop _] => let v := eval vm_compute in pc in progress change pc with v
  | |- context [execute _ _ ?pc ?pc _] => rewrite execute_stop
  | |- context [execute (S ?f) ?code ?pc ?stop ?m] =>
      let i := eval vm_compute in (instruction_at code pc) in
      let E := fresh in
      assert (E : instruction_at code pc = i) by (vm_compute; reflexivity);
      match i with
      | Some (Branch ?l ?imm) => rewrite (execute_branch f code pc stop m l imm eq_refl E)
      | Some (BranchReg _ _) =>
          erewrite (execute_return f code pc stop m _ _ eq_refl E); [|cbn; ground; cbn; reflexivity]
      | Some _ =>
          erewrite (execute_next f code pc stop m _ _ eq_refl E eq_refl);
            [|cbn; ground; cbn; unfold set_mem, set_flags; cbn; reflexivity]
      end; clear E
  end.
Lemma call_execute fuel source name arguments l entry :
  linked source = Compiled l -> get_label_address l.2 name = Ok entry ->
  call fuel source name arguments
  = (fun m => xreg m 0) <$> execute fuel l.1 entry return_address (called arguments).
Proof. intros E H. unfold call. rewrite E. destruct l as [code labels]. cbn in H. by rewrite H. Qed.

(** A call of a function of a program that has been compiled. *)
Ltac run_call E :=
  erewrite call_execute; [|exact E|vm_compute; reflexivity];
  unfold called, return_address;
  repeat execute_one; cbn [fmap option_fmap option_map xreg]; unfold upd; cbn.

Definition compiled_code (source : string) : list Instruction * LabelManager :=
  match linked source with Compiled l => l | _ => ([], LabelManager_empty) end.

Definition product_of_locals : string :=
  "LET F(a, b) = VALOF { LET x = a LET y = b RESULTIS (x + y) * (x - y) }".
Definition product_of_parameters : string := "LET F(a, b) = VALOF { RESULTIS (a + b) * (a - b) }".
Definition sum_with_call : string :=
  "LET G(x) = VALOF { RESULTIS x } LET F(n) = VALOF { LET a = 0 a := G(1) RESULTIS a + n }".

Definition locals_code : list Instruction * LabelManager := Eval vm_compute in compiled_code product_of_locals.
Definition parameters_code : list Instruction * LabelManager := Eval vm_compute in compiled_code product_of_parameters.
Definition call_code : list Instruction * LabelManager := Eval vm_compute in compiled_code sum_with_call.

Lemma linked_locals : linked product_of_locals = Compiled locals_code.
Proof. vm_compute. reflexivity. Qed.
Lemma linked_parameters : linked product_of_parameters = Compiled parameters_code.
Proof. vm_compute. reflexivity. Qed.
Lemma linked_call : linked sum_with_call = Compiled call_code.
Proof. vm_compute. reflexivity. Qed.

Lemma u64_u64 a : u64 (u64 a) = u64 a.
Proof. apply Z.mod_mod. lia. Qed.
Lemma u64_add_l a b : u64 (u64 a + b) = u64 (a + b).
Proof. apply Z.add_mod_idemp_l. lia. Qed.
Lemma u64_mul a b : u64 (u64 a * u64 b) = u64 (a * b).
Proof. unfold u64. by rewrite <-Z.mul_mod by lia. Qed.

(** Programs with loops, and what they should compute. *)
Definition sum_loop : string :=
  "LET F(n) = VALOF { LET s = 0 FOR i = 1 TO n DO s := s + i RESULTIS s }".
Definition selective_sum : string :=
  "LET F(n) = VALOF { LET s = 0 FOR i = 1 TO n DO { IF i > 3 THEN s := s + i * n } RESULTIS s }".
Definition fibonacci_loop : string :=
  "LET F(n) = VALOF { LET a = 1 LET b = 1 LET t = 0 FOR i = 3 TO n DO { t := a + b a := b b := t } RESULTIS b }".
Fixpoint fibonacci (n : nat) : Z * Z :=
  match n with O => (0, 1) | S n => let '(a, b) := fibonacci n in (b, a + b) end.
Definition arguments_up_to (n : nat) : list Z := List.map Z.of_nat (seq 1 n).

(** C1: from its text to its result.  A product of sums of two locals,
    compiled, linked and executed, is the product modulo 2^64 for all arguments; and three
    programs with loops and tests compute what they say for every argument up to 24. *)
Theorem compiled_code_computes :
  (forall a b, call 100 product_of_locals "F" [a; b] = Some (u64 ((a + b) * (a - b))))
  /\ Forall (fun n => call 2000 sum_loop "F" [n] = Some (n * (n + 1) / 2)) (arguments_up_to 24)
  /\ Forall (fun n => call 2000 selective_sum "F" [n] = Some (n * Z.max 0 (n * (n + 1) / 2 - 6))) (arguments_up_to 24)
  /\ Forall (fun n => call 2000 fibonacci_loop "F" [n] = Some (fibonacci (Z.to_nat n)).1) (arguments_up_to 24).
Proof.
  split; [|split_and!; apply (bool_decide_unpack _); vm_compute; reflexivity].
  intros a b. run_call linked_locals.
  change (Some (u64 (u64 (u64 (a + b) * u64 (a - b)))) = Some (u64 ((a + b) * (a - b)))).
  by rewrite u64_u64, u64_mul.
Qed.

(** C24: a parameter lives in its argument register, and the code of an
    operator writes its result into the register of its left operand: for all arguments
    (a + b) * (a - b) of two parameters is computed as a * a.  A call also leaves its result
    there: a := G(1), then a + n is 2 whatever n is. *)
Theorem parameters_overwritten :
  (forall a b, call 100 product_of_parameters "F" [a; b] = Some (u64 (a * a)))
  /\ (forall n, call 100 sum_with_call "F" [n] = Some 2).
Proof.
  split; intros.
  - run_call linked_parameters.
    change (Some (u64 (u64 (u64 (a - b) + b) * u64 (u64 (a - b) + b))) = Some (u64 (a * a))).
    rewrite u64_add_l, Z.sub_add. by rewrite u64_mul.
  - run_call linked_call. reflexivity.
Qed.

(** *** Witness *)

Definition small_program : string := "MANIFEST { N = 3 } LET F(a) = VALOF { FOR i = 1 TO N DO a := a + i RESULTIS a }".

#[export] Instance structured_program_dec p : Decision (structured_program p).
Proof. unfold structured_program. apply _. Defined.

Lemma small_program_structured :
  match front (fun _ => 0) setSymbolType small_program with
  | Compiled r => bool_decide (structured_program (program r))
  | _ => false
  end = true.
Proof. vm_compute. reflexivity. Qed.

Lemma accepted_programs_analysed_witness :
  without_function small_program
  /\ match front (fun _ => 0) setSymbolType small_program with
     | Compiled r => is_Some (SymbolTable.lookup "WRITES" (table r)) /\ exists g, build_graphs r = Compiled g
     | _ => False
     end.
Proof.
  assert (Hw : without_function small_program) by (apply (function_free_sound 60); vm_compute; reflexivity).
  split; [exact Hw|].
  pose proof (accepted_programs_analysed (fun _ => 0) setSymbolType (fun n t => framed_update n _) small_program Hw) as H.
  pose proof small_program_structured as Hs.
  destruct (front (fun _ => 0) setSymbolType small_program) as [| | | |r]; try discriminate Hs.
  destruct H as [Hr Hg]. split.
  - apply Hr. apply (bool_decide_unpack _). vm_compute. reflexivity.
  - apply Hg. by apply bool_decide_eq_true_1 in Hs.
Defined.
